(* ===== verification/_CoqProject ===== *)
-Q . S2P
Prelude.v
GoStd.v
GoTime.v
DurationText.v
Externals.v
Cursor.v
Protocol.v
Filters.v
BucketWindow.v
LedgerMeta.v
FeeWindow.v
Config.v
ConfigLoad.v
Options.v
WordWrap.v
ConfigSave.v
Backlog.v
PanicGroup.v
DurationLimiter.v
TxCache.v
Store.v
LedgerStore.v
EventStore.v
TxStore.v
WriteTx.v
Schema.v
Ingest.v
Snapshots.v
Migration.v
Daemon.v
Convert.v
Handlers.v
GetEvents.v
GetTransactions.v
Mocks.v
GetLedgers.v
LedgerEntries.v
Submit.v
CMemory.v
Preflight.v
Bridge.v
PreflightPool.v
Simulate.v
Rpc.v
System.v
Live.v
Start.v
Upgrade.v
Metrics.v
Restart.v
Client.v
