(* ===== verification/Prelude.v ===== *)
(** * stellar-rpc: a verification library

    This library models the server of the repository, [cmd/stellar-rpc], and the
    package [protocol] its clients share, as a shallow embedding, and proves what
    its parts promise.  Paths below are relative to [src/]; [internal/] is
    [src/cmd/stellar-rpc/internal/].

    ** The program

    A single ingestion service reads ledgers from stellar-core and writes each in
    one SQLite transaction: the ledger itself, an index of its transactions, its
    events.  The same step updates a cache of the latest ledger and the fee
    windows in memory; what is older than the retention window is trimmed.  At
    start-up data migrations index the ledgers already stored.  JSON-RPC handlers
    read the database, Core, or the Rust library behind [simulateTransaction];
    each is served behind a limiter of concurrent requests and a limiter of
    duration.  All of it is driven by a configuration merged from four sources.

    ** Conventions

    A Go call is a value of type [go]: a result, an error or a run-time panic; a
    call on shared state is a state function [st].  Both are monads written with
    stdpp's notation.  Errors stay structured ([err]), so that [errors.Is] and
    [errors.As] are functions; a [jrpc2.Error] by pointer and by value differ.
    Fixed-width integers are [Z] with their wrap-around written out ([u32],
    [u64], [i32], [i64]).  Go maps are [gmap]; where the code ranges over a map,
    the order is a parameter.  Packages outside the repository are classes of
    operations, and what is relied on of them is a second class of laws
    ([Toid]/[ToidLaws], [Ledgers]/[LedgersLaws], ...); every theorem that uses
    laws is instantiated at a concrete implementation by its witness.

    ** The files

    Foundations: this file (monads, errors, integers, lists, automation); GoStd
    ([strconv], [strings], [fmt], JSON, hex and base64); GoTime ([time.Duration]
    and its parser, in the source's floating point); DurationText (its text form,
    and reading it back); Externals and LedgerMeta
    (interfaces of [stellar/go]: identifiers, XDR values, ledgers and the reader
    of their transactions); Convert ([internal/xdr2json], [methods/json.go]).

    Requests and formats: Cursor ([protocol/cursor.go]); Protocol (formats and
    pagination, [protocol/format.go], [get_ledgers.go], [get_transactions.go]);
    Filters ([protocol/get_events.go]: validation, JSON, matching).

    In memory: BucketWindow ([internal/ledgerbucketwindow]); FeeWindow
    ([internal/feewindow]), proved against the interface [BucketQueue] that
    BucketWindow implements; TxCache ([db/transactionalcache.go]).

    The database: Store (tables, sessions, [db/db.go]); LedgerStore, EventStore,
    TxStore ([db/ledger.go], [event.go], [transaction.go]); WriteTx (the write
    transaction: insertion, trimming, commit); Schema (opening the file and the
    schema scripts of [db/sqlmigrations]); Snapshots (readers beside the
    writer: the cache of the latest ledger and its mutex).  A session is the committed tables
    and, while a transaction is open, a private copy.

    Processes: Ingest ([ingest/service.go]); Migration ([db/migration.go]);
    Daemon ([daemon/daemon.go]: storage initialisation, [Run] and shutdown); Start
    ([daemon.MustNew] and the commands of [main.go]); Upgrade (a start on the file of
    an older release); Metrics
    ([daemon/metrics.go] and the collectors of every component: the start again,
    over the registry it fills).

    Endpoints: GetEvents, GetTransactions (both handlers), GetLedgers (with the
    remote store of [rpcdatastore]), Mocks ([db/mocks.go], the store they are
    tested with), LedgerEntries, Submit ([sendTransaction]),
    Preflight, PreflightPool and Simulate ([internal/preflight],
    [methods/simulate_transaction.go]), Handlers (the five small ones).  CMemory
    and Bridge are the calls of the Rust libraries ([preflight.go],
    [conversion.go], and the Rust code in [cmd/stellar-rpc/lib] around the
    simulation) through the memory they share: live blocks and their allocators,
    [cgo] handles, callbacks.

    The front: Backlog and DurationLimiter ([internal/network]), PanicGroup
    ([internal/util]), Config, ConfigLoad, Options, WordWrap and ConfigSave
    ([internal/config]), Rpc ([internal/jsonrpc.go]).  Client is the Go client,
    [client/main.go].

    The whole: System composes the service and the endpoints over the list of
    retained ledgers, the abstract state all of them share ([represents]); Restart
    composes a start, a run and another start on the file the run leaves; Live
    interleaves the service with a client that follows cursors.

    ** Concurrency

    Backlog is a step function over the atomic operations of a request, run in any
    interleaving of any number of requests; PreflightPool is a step relation over
    the operations of clients, workers and [Close], and Client one over calls and
    [Close]s that share a connection under a read-write mutex; Snapshots is one over
    the commits of the service and the operations of readers on the shared cache and
    the database.  Their theorems are invariants of all reachable states.  A run of DurationLimiter is the sequence of channel
    receptions its [select] made.

    ** The theorems

    - The whole.  [System.ingested_is_served]: what is ingested is what is answered;
      [Start.server_starts]: when an accepted configuration starts a node, and what
      it is ready for; [Schema.open_database], [Upgrade.older_file_starts]: files of
      older releases open and start; [Restart.restart_resumes]: a node stopped anywhere resumes;
      [Live.paging_survives_ingestion]: full pages read between ingested ledgers are
      one history, or the client is refused a trimmed ledger; [Metrics.metrics_registered]: no clash of metrics keeps it from starting.
    - The store and its indexes.  [Ingest.run_refines]: the ingestion service
      refines appending a ledger to a list of retained ledgers, of which tables,
      cache and fee windows are functions; [Ingest.ingest_atomic]: an
      ingestion commits everything or nothing, and only the checkpoint can fail
      after the commit;
      [LedgerStore.cache_is_transparent]; [Snapshots.readers_beside_writer]: what
      readers see while the service commits.
    - Paging.  [GetEvents.getEvents_complete], [getEvents_pages] (both for uniform
      filters), [GetTransactions.getTransactions_follow],
      [GetLedgers.getLedgers_page]: a page is exactly the selected rows from its
      start, and following cursors loses and repeats nothing (of transactions,
      until the client polls at the tip).
    - Doubles.  [Mocks.mock_store_agrees]: where the store of the tests answers as
      the database, and where it does not.
    - Single answers.  [handle_GetTransaction_lookup], [getLedgerEntries_found],
      [sendTransaction_once], [simulateTransaction_runs], [getHealth_spec].
    - Memory.  [Bridge.preflight_memory], [Bridge.conversion_memory]: the calls
      through shared memory return what Preflight and Convert return on values,
      touch only live memory, and leave behind exactly the blocks named.
    - Statistics.  [BucketWindow.window_is_last_ledgers],
      [FeeWindow.fee_window_statistics], [IngestFees_statistics]: the reported
      distribution is the mode and the nearest-rank percentiles of the fees of the
      last ledgers.
    - Formats.  [Cursor.cursor_text_order], [Filters.matching_decides],
      [filter_json_roundtrip], [Simulate.change_type_roundtrip].
    - Limits.  [Backlog.backlog_bounded], [backlog_admission],
      [PreflightPool.pool_safe], [pool_drains], [ServeHTTP_completes],
      [ServeHTTP_limit], and [Rpc.endpoints_limited] for the server a
      configuration starts; [Client.client_connections] for the client.
    - Configuration.  [Options.SetValues_precedence], [SetValues_typed],
      [Options_Validate_spec]; [ConfigSave.config_file_roundtrip]: what a generated
      file gives back, and of which configurations; [WordWrap.wordWrap_lines].
    - Behaviours that surprise, each as the theorem that exhibits it:
      [GetEvents.getEvents_drops_accepted_events], [Ingest.fees_block_retry],
      [Migration.mm_Commit_marks_rolled_back], [PreflightPool.pool_close_race],
      [GetTransactions.getTransactions_poll_repeats],
      [Simulate.soroban_data_missing_panics], [formatResponse_state_changes],
      [change_json_after_lost], [Options.unsigned_text_wraps],
      [Rpc.failures_counted_ok], [Rpc.negative_limit_accepted],
      [ConfigSave.zero_values_not_saved],
      [Client.call_after_Close_reopens], [Snapshots.GetLedgerRange_inverted],
      [Snapshots.deferred_snapshot_inverted].

    ** Bounds and fuel

    Readers of a ledger's transactions take one read more than it has
    ([LedgerMeta.read_fuel], [reader_loop_fold]); the fetch loop of GetLedgers
    one more than the ledgers asked for ([fetch_loop_spec]); a duration is parsed
    in at most as many items as characters ([GoTime.ParseDuration_total]); decimal
    digits are bounded by the binary logarithm ([GoStd.ndigits_fuel_ok]).  Where
    the fuel would end, the definitions panic, and the theorems show results.
    The ingestion loop is endless: it is modelled up to its [n]-th ledger, for
    every [n].

    ** What is not modelled

    The bytes of the SQLite file and SQL text: a query is the selection it denotes,
    a schema script the list of its statements, and [sql-migrate] a parameter.  The simulation and the XDR codec
    behind the Rust libraries: parameters.  The values of metrics and logs, except
    where they are the point (counters of the limiters, the status of a request, the
    submissions to Core).  The routes of the HTTP servers, the CORS and body-size middleware and
    cobra.  The help texts of the options, a parameter where they become comments;
    float options, of which there are none; the doubles of
    [methods/mocks.go], which forward to testify; tests. *)

From Stdlib Require Export ZArith Lia.
From Stdlib Require Export Ascii String.
From stdpp Require Export base tactics sorting numbers gmap strings list.

(** ** Notations and scopes *)

Declare Scope go_scope.
Delimit Scope go_scope with go.
Global Open Scope Z_scope.

(** ** Errors

    A Go error value, kept structured instead of rendered: the format string
    with its arguments, the wrapped error, the list of joined errors.  Package
    variables that are compared with [errors.Is] are sentinels with a name;
    errors produced by code outside the repository are opaque [EExt] values; a
    [jrpc2.Error] is [ERpc] as a pointer and [ERpcValue] as a value. *)

Inductive err : Type :=
  | ENew (msg : string)
  | EFmt (fmt : string) (args : list farg)
  | EWrap (fmt : string) (args : list farg) (e : err)
  | EJoin (es : list err)
  | ENum (fn num : string) (range : bool)
  | ESentinel (name : string)
  | EExt (what : string)
  | ERpc (code : Z) (msg : err)
  | ERpcValue (code : Z) (msg : err)
with farg : Type :=
  | FZ (z : Z)
  | FS (s : string)
  | FE (e : err).

(** [errors.Is(e, target)] for a sentinel target: the error itself, or one it
    wraps or joins.  A [jrpc2.Error] wraps nothing. *)
Fixpoint errors_Is (e : err) (name : string) : bool :=
  match e with
  | ESentinel n => String.eqb n name
  | EWrap _ _ e' => errors_Is e' name
  | EJoin es => existsb (fun e' => errors_Is e' name) es
  | _ => false
  end.

(** [errors.Join]: nil when every argument is nil, the non-nil ones otherwise. *)
Definition errors_Join (es : list (option err)) : option err :=
  match omap id es with
  | [] => None
  | es' => Some (EJoin es')
  end.

(** ** The effect of a Go call: a value, an error, or a run-time panic *)

Inductive go (A : Type) : Type :=
  | Ok (a : A)
  | Er (e : err)
  | Panic (msg : string).
Arguments Ok {A} a.
Arguments Er {A} e.
Arguments Panic {A} msg.

#[export] Instance go_ret : MRet go := fun A a => Ok a.
#[export] Instance go_bind : MBind go := fun A B f m =>
  match m with
  | Ok a => f a
  | Er e => Er e
  | Panic s => Panic s
  end.
#[export] Instance go_fmap : FMap go := fun A B f m =>
  match m with
  | Ok a => Ok (f a)
  | Er e => Er e
  | Panic s => Panic s
  end.

(** [err != nil { return ..., wrap(err) }] *)
Definition on_err {A} (f : err -> err) (m : go A) : go A :=
  match m with
  | Er e => Er (f e)
  | _ => m
  end.

(** An [error] result that is checked: [nil] continues. *)
Definition check (o : option err) : go unit :=
  match o with
  | None => Ok tt
  | Some e => Er e
  end.

Definition is_ok {A} (m : go A) : bool :=
  match m with Ok _ => true | _ => false end.

Definition no_panic {A} (m : go A) : Prop := forall s, m <> Panic s.

Lemma Ok_inj {A} (a b : A) : Ok a = Ok b -> a = b.
Proof. by intros [=]. Qed.

Lemma go_bind_ok {A B} (m : go A) (f : A -> go B) b :
  (m ≫= f) = Ok b -> exists a, m = Ok a /\ f a = Ok b.
Proof. destruct m; simpl; intros; try discriminate. eauto. Qed.

Lemma on_err_ok {A} f (m : go A) a : on_err f m = Ok a <-> m = Ok a.
Proof. destruct m; simpl; split; congruence. Qed.

Lemma check_ok o u : check o = Ok u <-> o = None.
Proof. destruct u, o; simpl; split; congruence. Qed.

Lemma go_mapM_ok {A B} (f : A -> go B) l k :
  mapM f l = Ok k <-> Forall2 (fun x y => f x = Ok y) l k.
Proof.
  revert k. induction l as [|x l IH]; intros k; simpl.
  - split; [intros [= <-]; constructor | inversion 1; reflexivity].
  - split.
    + intros (y & Hy & (k' & Hk & [= <-])%go_bind_ok)%go_bind_ok.
      constructor; [done | by apply IH].
    + inversion 1 as [|? y ? k' Hy Hk]; subst. cbn. rewrite Hy. cbn.
      apply IH in Hk. rewrite Hk. done.
Qed.

Lemma go_mapM_pure {A B} (f : A -> go B) (g : A -> B) l :
  (forall x, x ∈ l -> f x = Ok (g x)) -> mapM f l = Ok (g <$> l).
Proof.
  intros H. apply go_mapM_ok. induction l as [|x l IH]; simpl; constructor.
  - apply H. by left.
  - apply IH. intros y Hy. apply H. by right.
Qed.

(** ** Machine integers

    A Go integer of width [w] is a [Z]; these functions are the conversions
    and the wrap-around arithmetic of the language. *)

Definition u32max : Z := 4294967295.
Definition u32 (z : Z) : Z := z mod 4294967296.
Definition u64 (z : Z) : Z := z mod 18446744073709551616.
Definition i32 (z : Z) : Z :=
  let r := z mod 4294967296 in if r <? 2147483648 then r else r - 4294967296.
Definition i64 (z : Z) : Z :=
  let r := z mod 18446744073709551616 in
  if r <? 9223372036854775808 then r else r - 18446744073709551616.

Definition is_u32 (z : Z) : Prop := 0 <= z < 4294967296.
Definition is_u64 (z : Z) : Prop := 0 <= z < 18446744073709551616.
Definition is_i32 (z : Z) : Prop := -2147483648 <= z < 2147483648.
Definition is_i64 (z : Z) : Prop := -9223372036854775808 <= z < 9223372036854775808.

(** Case analysis on the boolean comparisons of a goal or hypothesis. *)
Ltac zcases :=
  repeat match goal with
  | |- context [Z.ltb ?a ?b] => destruct (Z.ltb_spec a b)
  | |- context [Z.leb ?a ?b] => destruct (Z.leb_spec a b)
  | |- context [Z.eqb ?a ?b] => destruct (Z.eqb_spec a b)
  | H : context [Z.ltb ?a ?b] |- _ => destruct (Z.ltb_spec a b)
  | H : context [Z.leb ?a ?b] |- _ => destruct (Z.leb_spec a b)
  | H : context [Z.eqb ?a ?b] |- _ => destruct (Z.eqb_spec a b)
  end.

(** [lia] with quotients and remainders turned into their equations. *)
Ltac divlia := zify; Z.to_euclidean_division_equations; lia.

(** Unfold a chain of [go] binds that is known to have returned [Ok]. *)
Ltac go_inv :=
  repeat match goal with
  | H : (_ ≫= _) = Ok _ |- _ =>
      let a := fresh "a" in let H1 := fresh H in
      apply go_bind_ok in H as (a & H1 & H)
  | H : on_err _ _ = Ok _ |- _ => apply on_err_ok in H
  | H : check _ = Ok _ |- _ => apply check_ok in H
  | H : Ok _ = Ok _ |- _ => injection H; clear H; intros; subst
  | H : mret _ = Ok _ |- _ => injection H; clear H; intros; subst
  | H : Er _ = Ok _ |- _ => discriminate H
  | H : Panic _ = Ok _ |- _ => discriminate H
  end.

Create HintDb go discriminated.

Lemma u32_small z : is_u32 z -> u32 z = z.
Proof. unfold is_u32, u32. intros. apply Z.mod_small. lia. Qed.
Lemma u32_range z : is_u32 (u32 z).
Proof. unfold is_u32, u32. pose proof (Z.mod_pos_bound z 4294967296). lia. Qed.
Lemma u64_small z : is_u64 z -> u64 z = z.
Proof. unfold is_u64, u64. intros. apply Z.mod_small. lia. Qed.
Lemma u64_range z : is_u64 (u64 z).
Proof. unfold is_u64, u64. pose proof (Z.mod_pos_bound z 18446744073709551616). lia. Qed.
Lemma i32_small z : is_i32 z -> i32 z = z.
Proof. unfold is_i32, i32. intros. zcases; divlia. Qed.
Lemma i32_range z : is_i32 (i32 z).
Proof. unfold is_i32, i32. pose proof (Z.mod_pos_bound z 4294967296). zcases; lia. Qed.
Lemma i64_small z : is_i64 z -> i64 z = z.
Proof. unfold is_i64, i64. intros. zcases; divlia. Qed.
Lemma u32_i32 z : is_u32 z -> u32 (i32 z) = z.
Proof. unfold is_u32, u32, i32. intros. zcases; divlia. Qed.
Lemma u32_idemp z : u32 (u32 z) = u32 z.
Proof. apply u32_small, u32_range. Qed.

#[export] Hint Resolve u32_range u64_range i32_range : go.

(** ** Lists shared by the components *)

(** Go's [slice[i]]: an index out of range panics. *)
Definition go_index {A} (l : list A) (i : Z) : go A :=
  if i <? 0 then Panic "index out of range"
  else match l !! Z.to_nat i with
       | Some x => Ok x
       | None => Panic "index out of range"
       end.

Lemma go_index_ok {A} (l : list A) i x :
  go_index l i = Ok x <-> 0 <= i /\ l !! Z.to_nat i = Some x.
Proof.
  unfold go_index. zcases; [split; [done | lia]|].
  destruct (l !! Z.to_nat i); naive_solver.
Qed.

Lemma go_index_nat {A} (l : list A) n x :
  l !! n = Some x -> go_index l (Z.of_nat n) = Ok x.
Proof. intros H. apply go_index_ok. rewrite Nat2Z.id. split; [lia | done]. Qed.

(** [l[:len(l)-1]] on a non-empty slice. *)
Definition but_last {A} (l : list A) : list A := take (length l - 1) l.

Lemma but_last_app {A} (l : list A) x : but_last (l ++ [x]) = l.
Proof.
  unfold but_last. rewrite length_app. simpl.
  replace (length l + 1 - 1)%nat with (length l) by lia.
  by rewrite take_app_length.
Qed.

Definition zlen {A} (l : list A) : Z := Z.of_nat (length l).

(** First index (from [i]) and element that satisfy [p]. *)
Fixpoint find_index {A} (p : A -> bool) (i : Z) (l : list A) : option (Z * A) :=
  match l with
  | [] => None
  | x :: l' => if p x then Some (i, x) else find_index p (i + 1) l'
  end.

Lemma find_index_None {A} (p : A -> bool) i l :
  find_index p i l = None <-> Forall (fun x => p x = false) l.
Proof.
  revert i. induction l as [|x l IH]; intros i; simpl; [split; auto|].
  rewrite list.Forall_cons. destruct (p x) eqn:E; [naive_solver congruence|].
  rewrite IH. naive_solver.
Qed.

Lemma forallb_Forall {A} (p : A -> bool) l :
  forallb p l = true <-> Forall (fun x => p x = true) l.
Proof.
  induction l as [|x l IH]; simpl; [split; auto|].
  rewrite andb_true_iff, list.Forall_cons, IH. done.
Qed.

Lemma existsb_Exists {A} (p : A -> bool) l :
  existsb p l = true <-> Exists (fun x => p x = true) l.
Proof.
  induction l as [|x l IH]; simpl; [split; [done | by inversion 1]|].
  rewrite orb_true_iff, Exists_cons, IH. done.
Qed.

Lemma filter_none {A} (P : A -> Prop) `{!forall x, Decision (P x)} (l : list A) :
  (forall x, x ∈ l -> ~ P x) -> filter P l = [].
Proof.
  induction l as [|x l IH]; intros Hall; [done|].
  rewrite filter_cons_False by (apply Hall; by left). apply IH. intros y Hy. apply Hall. by right.
Qed.

Lemma filter_all {A} (P : A -> Prop) `{!forall x, Decision (P x)} (l : list A) :
  (forall x, x ∈ l -> P x) -> filter P l = l.
Proof.
  induction l as [|x l IH]; intros Hall; [done|].
  rewrite filter_cons_True by (apply Hall; by left). f_equal. apply IH. intros y Hy. apply Hall. by right.
Qed.

Lemma filter_skip {A} (P : A -> Prop) `{!forall x, Decision (P x)} l1 l2 :
  (forall x, x ∈ l1 -> ~ P x) -> (forall x, x ∈ l2 -> P x) -> filter P (l1 ++ l2) = l2.
Proof. intros H1 H2. by rewrite filter_app, (filter_none P l1), (filter_all P l2). Qed.

Lemma take_min_length {A} n (l : list A) : take n l = take (n `min` length l) l.
Proof. destruct (Nat.le_ge_cases n (length l)); [by rewrite Nat.min_l|]. by rewrite Nat.min_r, !take_ge by lia. Qed.

(** Number of elements that satisfy a boolean predicate, in [Z]. *)
Fixpoint countb {A} (p : A -> bool) (l : list A) : Z :=
  match l with
  | [] => 0
  | x :: l' => Z.b2z (p x) + countb p l'
  end.

Lemma countb_range {A} (p : A -> bool) l : 0 <= countb p l <= zlen l.
Proof.
  unfold zlen. induction l as [|x l IH]; simpl; [lia|]. destruct (p x); simpl; lia.
Qed.

Lemma countb_insert {A} (p : A -> bool) l i x y : l !! i = Some x ->
  countb p (<[i := y]> l) = countb p l - Z.b2z (p x) + Z.b2z (p y).
Proof.
  revert i. induction l as [|z l IH]; intros [|i] Hi; simpl in *; try done.
  - injection Hi as ->. lia.
  - rewrite IH by done. lia.
Qed.

Lemma countb_le {A} (p q : A -> bool) l : (forall x, p x = true -> q x = true) ->
  countb p l <= countb q l.
Proof.
  intros Hpq. induction l as [|x l IH]; simpl; [lia|].
  specialize (Hpq x). destruct (p x), (q x); simpl; try lia; by discriminate Hpq.
Qed.

Lemma countb_lookup_pos {A} (p : A -> bool) l i x : l !! i = Some x -> p x = true ->
  1 <= countb p l.
Proof.
  revert i. induction l as [|y l IH]; intros [|i] Hi Hp; simpl in *; try done.
  - injection Hi as ->. rewrite Hp. pose proof (countb_range p l). simpl. lia.
  - specialize (IH i Hi Hp). destruct (p y); simpl; lia.
Qed.

Lemma countb_zero {A} (p : A -> bool) l : countb p l = 0 <-> Forall (fun x => p x = false) l.
Proof.
  induction l as [|x l IH]; simpl; [split; auto|]. rewrite list.Forall_cons, <- IH.
  pose proof (countb_range p l). destruct (p x); simpl; split; intros; try lia; naive_solver lia.
Qed.

Lemma countb_find {A} (p : A -> bool) l : countb p l = 0 \/ exists i x, l !! i = Some x /\ p x = true.
Proof.
  induction l as [|x l [IH|(i & y & Hi & Hy)]]; simpl; [by left| |right; by exists (S i), y].
  destruct (p x) eqn:E; [right; by exists 0%nat, x|left; simpl; lia].
Qed.

Lemma sum_insert {A} (f : A -> nat) l i x y : l !! i = Some x ->
  (sum_list_with f (<[i := y]> l) + f x = sum_list_with f l + f y)%nat.
Proof.
  revert i. induction l as [|z l IH]; intros [|i] Hi; simpl in *; try done.
  - injection Hi as ->. lia.
  - specialize (IH i Hi). lia.
Qed.

Lemma omap_split {A B} (f : A -> option B) l i y : l !! i = Some y ->
  omap f l = omap f (take i l) ++ option_list (f y) ++ omap f (drop (S i) l).
Proof.
  intros Hi. rewrite <- (take_drop_middle l i y Hi) at 1. rewrite omap_app. f_equal.
  cbn. by destruct (f y).
Qed.
Lemma omap_insert_split {A B} (f : A -> option B) l i x : (i < length l)%nat ->
  omap f (<[i := x]> l) = omap f (take i l) ++ option_list (f x) ++ omap f (drop (S i) l).
Proof.
  intros Hi. rewrite (omap_split f _ i x) by (by apply list_lookup_insert_eq).
  by rewrite take_insert_ge, drop_insert_lt by lia.
Qed.
Lemma omap_insert_perm {A B} (f : A -> option B) l i x y : l !! i = Some x ->
  option_list (f x) ++ omap f (<[i := y]> l) ≡ₚ option_list (f y) ++ omap f l.
Proof.
  intros Hi. rewrite omap_insert_split by (by eapply lookup_lt_Some). rewrite (omap_split f l i x Hi).
  rewrite !(assoc_L app), <- !(assoc_L app). rewrite (Permutation_app_swap_app (option_list (f x))).
  rewrite (Permutation_app_swap_app (option_list (f y)) (omap f (take i l))). f_equiv.
  apply Permutation_app_swap_app.
Qed.
Lemma elem_of_insert_or {A} (l : list A) i x y : x ∈ <[i := y]> l -> x = y \/ x ∈ l.
Proof.
  intros [j Hj]%list_elem_of_lookup. apply list_lookup_insert_Some in Hj as [(_ & <- & _)|[_ Hj]]; [by left|].
  right. by eapply list_elem_of_lookup_2.
Qed.

(** Rule induction over a run, and a bound on its length. *)
Lemma rtc_invariant {A} (R : relation A) (P : A -> Prop) : (forall x y, R x y -> P x -> P y) ->
  forall x y, rtc R x y -> P x -> P y.
Proof. intros HR x y Hxy. induction Hxy; eauto. Qed.
Lemma nsteps_bounded {A} (R : relation A) (f : A -> nat) : (forall x y, R x y -> (f y < f x)%nat) ->
  forall k x y, nsteps R k x y -> (k + f y <= f x)%nat.
Proof. intros HR k x y Hxy. induction Hxy as [|k x y z Hxy _ IH]; [lia|]. specialize (HR x y Hxy). lia. Qed.

(** ** Stateful calls

    A call that may change a shared state [S]: it returns a result together with
    the state it leaves, also when it fails. *)
Definition st (S A : Type) : Type := S -> go A * S.
#[export] Instance st_ret S : MRet (st S) := fun A a s => (Ok a, s).
#[export] Instance st_bind S : MBind (st S) := fun A B f m s =>
  match m s with
  | (Ok a, s') => f a s'
  | (Er e, s') => (Er e, s')
  | (Panic p, s') => (Panic p, s')
  end.

Definition lift {S A} (m : go A) : st S A := fun s => (m, s).
Definition get_st {S} : st S S := fun s => (Ok s, s).
Definition modify {S} (f : S -> S) : st S unit := fun s => (Ok tt, f s).

(** [x, err := m] with the error inspected by the caller; a panic propagates. *)
Definition attempt {S A} (m : st S A) : st S (go A) := fun s =>
  match m s with
  | (Panic p, s') => (Panic p, s')
  | (r, s') => (Ok r, s')
  end.

(** [if err != nil { return ..., f(err) }] *)
Definition wrap_err {S A} (f : err -> err) (m : st S A) : st S A := fun s =>
  let '(r, s') := m s in (on_err f r, s').

Fixpoint st_fold {S A B} (body : A -> B -> st S B) (l : list A) (b : B) : st S B :=
  match l with
  | [] => mret b
  | x :: l' => b' ← body x b; st_fold body l' b'
  end.

Lemma st_bind_ok {S A B} (m : st S A) (f : A -> st S B) s b s' :
  (m ≫= f) s = (Ok b, s') -> exists a s1, m s = (Ok a, s1) /\ f a s1 = (Ok b, s').
Proof.
  unfold mbind, st_bind. destruct (m s) as [[a|e|p] s1]; intros H; [eauto|discriminate|discriminate].
Qed.

Lemma st_bind_eq {S A B} (m : st S A) (f : A -> st S B) s a s1 :
  m s = (Ok a, s1) -> (m ≫= f) s = f a s1.
Proof. intros H. unfold mbind, st_bind. by rewrite H. Qed.

Lemma st_bind_er {S A B} (m : st S A) (f : A -> st S B) s e s1 :
  m s = (Er e, s1) -> (m ≫= f) s = (Er e, s1).
Proof. intros H. unfold mbind, st_bind. by rewrite H. Qed.

(** ** Reading a map in key order *)

Section Sorted.
Context {K A : Type} `{Countable K} (le : K -> K -> Prop) `{!RelDecision le}.
Context `{!PreOrder le} `{!Total le} `{!AntiSymm (=) le}.

Definition key_le (x y : K * A) : Prop := le x.1 y.1.
#[local] Instance key_le_dec : RelDecision key_le.
Proof. intros x y. unfold key_le. apply _. Defined.
#[local] Instance key_le_total : Total key_le.
Proof. intros x y. unfold key_le. apply (total le). Qed.
#[local] Instance key_le_trans : Transitive key_le.
Proof. intros x y z. unfold key_le. apply (transitivity (R := le)). Qed.

(** The rows of a table in the order of its key. *)
Definition rows_by_key (m : gmap K A) : list (K * A) := merge_sort key_le (map_to_list m).

Lemma elem_of_rows m k x : (k, x) ∈ rows_by_key m <-> m !! k = Some x.
Proof.
  unfold rows_by_key. rewrite (merge_sort_Permutation key_le). apply elem_of_map_to_list.
Qed.

Lemma rows_sorted m : StronglySorted key_le (rows_by_key m).
Proof. apply (StronglySorted_merge_sort key_le). Qed.

Lemma rows_NoDup m : NoDup (rows_by_key m).*1.
Proof.
  unfold rows_by_key. rewrite (merge_sort_Permutation key_le). apply NoDup_fst_map_to_list.
Qed.

(** A list of rows in key order without repeated keys is determined by its
    elements. *)
Lemma sorted_rows_unique (l l' : list (K * A)) :
  StronglySorted key_le l -> NoDup l.*1 -> StronglySorted key_le l' -> NoDup l'.*1 ->
  (forall x, x ∈ l <-> x ∈ l') -> l = l'.
Proof.
  intros Hs. revert l'. induction Hs as [|x l Hs IH Hx]; intros l' Hn Hs' Hn' Hiff.
  { destruct l' as [|y l']; [done|]. exfalso.
    assert (y ∈ @nil (K * A)) as Hy by (apply Hiff; by left). by apply not_elem_of_nil in Hy. }
  destruct Hs' as [|y l' Hs' Hy].
  { exfalso. assert (x ∈ @nil (K * A)) as Hi by (apply Hiff; by left). by apply not_elem_of_nil in Hi. }
  assert (x = y) as <-.
  { assert (x ∈ y :: l') as H1 by (apply Hiff; by left).
    assert (y ∈ x :: l) as H2 by (apply Hiff; by left).
    apply elem_of_cons in H1 as [|H1]; [done|]. apply elem_of_cons in H2 as [|H2]; [done|].
    rewrite Forall_forall in Hx, Hy. specialize (Hx _ H2). specialize (Hy _ H1).
    unfold key_le in *. assert (x.1 = y.1) as E by (by apply (anti_symm le)).
    exfalso. inversion Hn as [|? ? Hnin _]. apply Hnin. rewrite E. by apply list_elem_of_fmap_2. }
  f_equal. inversion Hn as [|? ? Hnx Hn1]; inversion Hn' as [|? ? Hnx' Hn1']; simplify_eq.
  apply IH; [done|done|done|]. intros z. specialize (Hiff z).
  rewrite !elem_of_cons in Hiff. split; intros Hz.
  - destruct (proj1 Hiff (or_intror Hz)) as [->|]; [|done]. exfalso. apply Hnx.
    by apply list_elem_of_fmap_2.
  - destruct (proj2 Hiff (or_intror Hz)) as [->|]; [|done]. exfalso. apply Hnx'.
    by apply list_elem_of_fmap_2.
Qed.

Lemma StronglySorted_filter (P : K * A -> Prop) `{!forall x, Decision (P x)} l :
  StronglySorted key_le l -> StronglySorted key_le (filter P l).
Proof.
  intros Hs. induction Hs as [|x l Hs IH Hx]; [constructor|].
  rewrite filter_cons. destruct (decide (P x)); [|done]. constructor; [done|].
  apply Forall_forall. intros y [_ Hy]%list_elem_of_filter. rewrite Forall_forall in Hx. by apply Hx.
Qed.

Lemma NoDup_fst_filter (P : K * A -> Prop) `{!forall x, Decision (P x)} (l : list (K * A)) :
  NoDup l.*1 -> NoDup (filter P l).*1.
Proof.
  induction l as [|x l IH]; [done|]. intros Hn. inversion Hn as [|? ? Hnin Hn']; subst.
  rewrite filter_cons. destruct (decide (P x)); [|by apply IH].
  simpl. constructor; [|by apply IH]. contradict Hnin.
  apply list_elem_of_fmap in Hnin as (y & -> & [_ Hy]%list_elem_of_filter).
  by apply list_elem_of_fmap_2.
Qed.

(** Deleting rows of a table deletes them from its reading. *)
Lemma rows_filter (P : K * A -> Prop) `{!forall x, Decision (P x)} (m : gmap K A) :
  rows_by_key (filter P m) = filter P (rows_by_key m).
Proof.
  apply sorted_rows_unique.
  - apply rows_sorted.
  - apply rows_NoDup.
  - apply StronglySorted_filter, rows_sorted.
  - apply NoDup_fst_filter, rows_NoDup.
  - intros [k x]. rewrite elem_of_rows, list_elem_of_filter, elem_of_rows, map_lookup_filter_Some.
    naive_solver.
Qed.

(** Adding rows with new keys. *)
Lemma rows_union (l : list (K * A)) m : NoDup l.*1 -> (forall k, k ∈ l.*1 -> m !! k = None) ->
  rows_by_key (list_to_map l ∪ m) ≡ₚ l ++ rows_by_key m.
Proof.
  intros Hn Hk. unfold rows_by_key. rewrite !(merge_sort_Permutation key_le).
  assert (list_to_map l ##ₘ m) as Hd.
  { apply map_disjoint_spec. intros k x y Hx Hy.
    apply elem_of_list_to_map_2, (list_elem_of_fmap_2 fst) in Hx. simpl in Hx.
    rewrite (Hk _ Hx) in Hy. done. }
  apply NoDup_Permutation.
  - apply NoDup_map_to_list.
  - apply NoDup_app. split_and!; [by apply NoDup_fmap_1 in Hn| |apply NoDup_map_to_list].
    intros [k x] Hl%(list_elem_of_fmap_2 fst) Hm%elem_of_map_to_list. simpl in Hl.
    rewrite (Hk _ Hl) in Hm. done.
  - intros [k x]. rewrite elem_of_app, !elem_of_map_to_list, lookup_union_Some by done.
    by rewrite <- elem_of_list_to_map by done.
Qed.
End Sorted.

Lemma elem_of_concat {A} (x : A) (ls : list (list A)) : x ∈ concat ls <-> exists l, x ∈ l /\ l ∈ ls.
Proof.
  induction ls as [|k ls IH]; simpl.
  - split; [by intros ?%not_elem_of_nil | by intros (l & _ & ?%not_elem_of_nil)].
  - rewrite elem_of_app, IH. split.
    + intros [Hx|(l & Hx & Hl)]; [exists k | exists l]; split; try done; [by left | by right].
    + intros (l & Hx & [->|Hl]%elem_of_cons); [by left | right; eauto].
Qed.

Lemma StronglySorted_by_index {A} (R : A -> A -> Prop) (l : list A) :
  (forall i j a b, l !! i = Some a -> l !! j = Some b -> (i < j)%nat -> R a b) -> StronglySorted R l.
Proof.
  induction l as [|x l IH]; intros HR; constructor.
  - apply IH. intros i j a b Ha Hb Hij. apply (HR (S i) (S j)); [done|done|lia].
  - apply Forall_lookup. intros j b Hb. apply (HR 0%nat (S j)); [done|done|lia].
Qed.

Lemma StronglySorted_filter_any {A} (R : A -> A -> Prop) (P : A -> Prop) `{!forall x, Decision (P x)} (l : list A) :
  StronglySorted R l -> StronglySorted R (filter P l).
Proof.
  intros Hs. induction Hs as [|x l Hs IH Hx]; [constructor|].
  rewrite filter_cons. destruct (decide (P x)); [|done]. constructor; [done|].
  apply Forall_forall. intros y [_ Hy]%list_elem_of_filter. rewrite Forall_forall in Hx. by apply Hx.
Qed.

Lemma list_filter_iff_in {A} (P Q : A -> Prop) `{forall x, Decision (P x), forall x, Decision (Q x)} (l : list A) :
  (forall x, x ∈ l -> P x <-> Q x) -> filter P l = filter Q l.
Proof.
  induction l as [|x l IH]; intros Hpq; [done|]. rewrite !filter_cons, (IH ltac:(set_solver)).
  specialize (Hpq x ltac:(by left)). destruct (decide (P x)), (decide (Q x)); naive_solver.
Qed.

(** In a strictly sorted list a prefix is what does not follow its last element. *)
Lemma sorted_take_iff {A} (R : A -> A -> Prop) (l : list A) n y x : StronglySorted R l -> last (take n l) = Some y ->
  x ∈ l -> (forall a, ~ R a a) -> (forall a b c, R a b -> R b c -> R a c) ->
  (x ∈ take n l <-> ~ R y x).
Proof.
  intros Hs Hl Hx Hirr Htr. rewrite <- (take_drop n l) in Hs, Hx.
  assert (forall a b, a ∈ take n l -> b ∈ drop n l -> R a b) as Hcross.
  { intros a b Ha Hb. clear -Hs Ha Hb. induction (take n l) as [|z k IH]; [by apply not_elem_of_nil in Ha|].
    inversion Hs as [|? ? Hs' Hz]; subst. apply elem_of_cons in Ha as [->|Ha]; [|by apply IH].
    rewrite Forall_forall in Hz. apply Hz. apply elem_of_app. by right. }
  assert (forall a, a ∈ take n l -> a = y \/ R a y) as Hle.
  { intros a Ha. clear -Hs Ha Hl. revert Hs. generalize (drop n l). induction (take n l) as [|z k IH]; intros d Hs; [by apply not_elem_of_nil in Ha|].
    inversion Hs as [|? ? Hs' Hz]; subst. destruct k as [|z' k].
    - apply list_elem_of_singleton in Ha as ->. left. simpl in Hl. by injection Hl.
    - rewrite (last_cons z) in Hl. destruct (last (z' :: k)) as [y'|] eqn:E; [|by apply last_None in E].
      injection Hl as ->. apply elem_of_cons in Ha as [->|Ha]; [|by eapply IH].
      right. rewrite Forall_forall in Hz. apply Hz. apply elem_of_app. left. by apply last_Some_elem_of. }
  split.
  - intros Ha Hr. destruct (Hle x Ha) as [->|Hxy]; [by apply (Hirr y)|]. apply (Hirr y). by eapply Htr.
  - intros Hn. apply elem_of_app in Hx as [|Hx]; [done|]. exfalso. apply Hn. apply Hcross; [|done].
    by apply last_Some_elem_of.
Qed.

(** In a strictly sorted list what comes after an element is what it precedes. *)
Lemma sorted_filter_drop {A} (R : A -> A -> Prop) `{!RelDecision R} (l : list A) n y :
  StronglySorted R l -> l !! n = Some y -> (forall a, ~ R a a) -> (forall a b, R a b -> ~ R b a) ->
  filter (R y) l = drop (S n) l.
Proof.
  intros Hs Hn Hirr Hasym. revert n Hn. induction Hs as [|z l Hs IH Hz]; intros n Hn; [done|].
  destruct n as [|n]; simpl in Hn.
  - injection Hn as ->. rewrite filter_cons_False by apply Hirr. simpl. rewrite drop_0.
    clear IH. induction l as [|x l IH]; [done|]. inversion Hs; inversion Hz; subst.
    rewrite filter_cons_True by done. f_equal. by apply IH.
  - rewrite filter_cons_False; [by apply IH|]. apply Hasym. rewrite Forall_forall in Hz. apply Hz.
    by eapply list_elem_of_lookup_2.
Qed.
