(* ===== verification/GoStd.v ===== *)
(** * The parts of Go's standard library the source relies on

    [strconv] (decimal formatting and parsing at a bit size), [fmt]'s
    zero-padded decimals, [strings] (splitting and joining on one character)
    and the byte-wise order of strings, which is also the order SQLite uses for
    TEXT columns.  Strings are Rocq strings, one character per byte. *)

From S2P Require Import Prelude.
Local Open Scope Z_scope.

(** ** Decimal digits *)

Definition digit_char (d : Z) : ascii := ascii_of_N (48 + Z.to_N d).

Definition digit_val (c : ascii) : option Z :=
  let n := Z.of_N (N_of_ascii c) in
  if (48 <=? n) && (n <=? 57) then Some (n - 48) else None.

(** The [w] low decimal digits of [n], most significant first. *)
Fixpoint digits_w (w : nat) (n : Z) : string :=
  match w with
  | O => EmptyString
  | S w' => String (digit_char (n / 10 ^ Z.of_nat w' mod 10)) (digits_w w' n)
  end.

(** The number of decimal digits of [n >= 0]; [fuel] bounds the count. *)
Fixpoint ndigits_fuel (fuel : nat) (n : Z) : nat :=
  match fuel with
  | O => 1
  | S f => if n <? 10 then 1 else S (ndigits_fuel f (n / 10))
  end.
Definition ndigits (n : Z) : nat := ndigits_fuel (Z.to_nat (Z.log2 n)) n.

(** [strconv.Itoa], [strconv.FormatInt(_, 10)], [strconv.FormatUint(_, 10)]. *)
Definition Itoa (n : Z) : string :=
  if n <? 0 then String "-" (digits_w (ndigits (- n)) (- n))
  else digits_w (ndigits n) n.

(** [fmt.Sprintf("%0<w>d", n)]: the sign counts towards the width. *)
Definition fmt_0d (w : nat) (n : Z) : string :=
  if n <? 0 then String "-" (digits_w (Nat.max (w - 1) (ndigits (- n))) (- n))
  else digits_w (Nat.max w (ndigits n)) n.

(** ** [strconv.ParseUint] and [strconv.ParseInt] in base 10 *)

Inductive num_error := ErrSyntax | ErrRange.

(** The digit loop: the first character that is no digit is a syntax error,
    the first value above [maxVal] a range error, whichever comes first. *)
Fixpoint parse_loop (maxVal : Z) (s : string) (n : Z) : Z + num_error :=
  match s with
  | EmptyString => inl n
  | String c s' =>
      match digit_val c with
      | None => inr ErrSyntax
      | Some d =>
          if maxVal <? n * 10 + d then inr ErrRange
          else parse_loop maxVal s' (n * 10 + d)
      end
  end.

Definition parse_uint (maxVal : Z) (s : string) : Z + num_error :=
  match s with
  | EmptyString => inr ErrSyntax
  | _ => parse_loop maxVal s 0
  end.

Definition num_err (fn s : string) (e : num_error) : err :=
  ENum fn s (match e with ErrRange => true | ErrSyntax => false end).

Definition ParseUint (s : string) (bits : Z) : go Z :=
  match parse_uint (2 ^ bits - 1) s with
  | inl n => Ok n
  | inr e => Er (num_err "ParseUint" s e)
  end.

(** Splits off the sign; the magnitude is parsed as an unsigned number of the
    same bit size and then compared with the signed cutoff. *)
Definition split_sign (s : string) : bool * string :=
  match s with
  | String c s' =>
      if Ascii.eqb c "+" then (false, s')
      else if Ascii.eqb c "-" then (true, s') else (false, s)
  | EmptyString => (false, s)
  end.

Definition ParseInt (s : string) (bits : Z) : go Z :=
  let '(neg, u) := split_sign s in
  let cutoff := 2 ^ (bits - 1) in
  match parse_uint (2 ^ bits - 1) u with
  | inr e => Er (num_err "ParseInt" s e)
  | inl un =>
      if negb neg && (cutoff <=? un) then Er (num_err "ParseInt" s ErrRange)
      else if neg && (cutoff <? un) then Er (num_err "ParseInt" s ErrRange)
      else Ok (if neg then - un else un)
  end.

(** [strconv.ParseBool] *)
Definition ParseBool (s : string) : go bool :=
  if existsb (String.eqb s) ["1"; "t"; "T"; "TRUE"; "true"; "True"]%string then Ok true
  else if existsb (String.eqb s) ["0"; "f"; "F"; "FALSE"; "false"; "False"]%string
       then Ok false
  else Er (ENum "ParseBool" s false).
Definition FormatBool (b : bool) : string := if b then "true" else "false".

(** ** [strings] *)

(** Cut at the first occurrence of [c]. *)
Fixpoint cut (c : ascii) (s : string) : option (string * string) :=
  match s with
  | EmptyString => None
  | String a s' =>
      if Ascii.eqb a c then Some (EmptyString, s')
      else match cut c s' with
           | Some (l, r) => Some (String a l, r)
           | None => None
           end
  end.

(** [strings.SplitN(s, string(c), 2)] *)
Definition SplitN2 (c : ascii) (s : string) : list string :=
  match cut c s with
  | Some (l, r) => [l; r]
  | None => [s]
  end.

(** [strings.Split(s, string(c))]; never empty. *)
Fixpoint Split (c : ascii) (s : string) : list string :=
  match s with
  | EmptyString => [EmptyString]
  | String a s' =>
      if Ascii.eqb a c then EmptyString :: Split c s'
      else match Split c s' with
           | x :: xs => String a x :: xs
           | [] => [String a EmptyString]
           end
  end.

(** [strings.Join] *)
Fixpoint Join (sep : string) (l : list string) : string :=
  match l with
  | [] => EmptyString
  | [x] => x
  | x :: l' => (x +:+ (sep +:+ Join sep l'))%string
  end.

(** [strings.ToLower] and [strings.ToUpper] on ASCII letters. *)
Definition lower_char (c : ascii) : ascii :=
  let n := N_of_ascii c in
  if ((65 <=? n) && (n <=? 90))%N then ascii_of_N (n + 32) else c.
Definition upper_char (c : ascii) : ascii :=
  let n := N_of_ascii c in
  if ((97 <=? n) && (n <=? 122))%N then ascii_of_N (n - 32) else c.
Fixpoint map_string (f : ascii -> ascii) (s : string) : string :=
  match s with
  | EmptyString => EmptyString
  | String c s' => String (f c) (map_string f s')
  end.
Definition ToLower : string -> string := map_string lower_char.
Definition ToUpper : string -> string := map_string upper_char.

(** Does the character occur in the string? *)
Fixpoint has_char (c : ascii) (s : string) : bool :=
  match s with
  | EmptyString => false
  | String a s' => Ascii.eqb a c || has_char c s'
  end.

(** ** Byte order of strings *)

Fixpoint str_cmp (a b : string) : comparison :=
  match a, b with
  | EmptyString, EmptyString => Eq
  | EmptyString, String _ _ => Lt
  | String _ _, EmptyString => Gt
  | String x a', String y b' =>
      match N.compare (N_of_ascii x) (N_of_ascii y) with
      | Eq => str_cmp a' b'
      | c => c
      end
  end.
Definition str_ltb (a b : string) : bool :=
  match str_cmp a b with Lt => true | _ => false end.
Definition str_leb (a b : string) : bool :=
  match str_cmp a b with Gt => false | _ => true end.

(** ** Lemmas: digits *)

Lemma digit_val_char d : 0 <= d < 10 -> digit_val (digit_char d) = Some d.
Proof.
  intros H. assert (d = 0 \/ d = 1 \/ d = 2 \/ d = 3 \/ d = 4 \/ d = 5 \/ d = 6 \/
    d = 7 \/ d = 8 \/ d = 9) as Hd by lia.
  repeat (destruct Hd as [-> | Hd]; [reflexivity|]). subst. reflexivity.
Qed.

Lemma digit_char_N d : 0 <= d < 10 -> N_of_ascii (digit_char d) = (48 + Z.to_N d)%N.
Proof. intros. unfold digit_char. apply N_ascii_embedding. lia. Qed.

Lemma digit_compare a b : 0 <= a < 10 -> 0 <= b < 10 ->
  N.compare (N_of_ascii (digit_char a)) (N_of_ascii (digit_char b)) = (a ?= b).
Proof.
  intros. rewrite !digit_char_N by done.
  destruct (Z.compare_spec a b); [subst; apply N.compare_refl| |].
  - apply N.compare_lt_iff. lia.
  - apply N.compare_gt_iff. lia.
Qed.

Lemma pow10_pos w : 0 < 10 ^ Z.of_nat w.
Proof. apply Z.pow_pos_nonneg; lia. Qed.
Lemma pow10_S w : 10 ^ Z.of_nat (S w) = 10 * 10 ^ Z.of_nat w.
Proof. rewrite Nat2Z.inj_succ, Z.pow_succ_r; lia. Qed.

Lemma digits_w_mod w n m :
  n mod 10 ^ Z.of_nat w = m mod 10 ^ Z.of_nat w -> digits_w w n = digits_w w m.
Proof.
  revert n m. induction w as [|w IH]; intros n m H; simpl; [done|].
  rewrite pow10_S in H. pose proof (pow10_pos w) as Hp.
  rewrite (Z.mul_comm 10), !Z.rem_mul_r in H by lia.
  set (P := 10 ^ Z.of_nat w) in *.
  pose proof (Z.mod_pos_bound n P). pose proof (Z.mod_pos_bound m P).
  assert (n mod P = m mod P /\ (n / P) mod 10 = (m / P) mod 10) as [E1 E2].
  { assert ((n / P) mod 10 = (m / P) mod 10) by nia. split; [nia | done]. }
  rewrite E2, (IH n m E1). done.
Qed.

Lemma length_digits_w w n : String.length (digits_w w n) = w.
Proof. induction w; simpl; congruence. Qed.

Lemma str_app_cons c s t : (String c s +:+ t)%string = String c (s +:+ t)%string.
Proof. done. Qed.

(** Fixed-width decimals compare as the numbers they print. *)
Lemma str_cmp_digits w a b x y :
  0 <= a < 10 ^ Z.of_nat w -> 0 <= b < 10 ^ Z.of_nat w ->
  str_cmp (digits_w w a +:+ x) (digits_w w b +:+ y) =
  match a ?= b with Eq => str_cmp x y | c => c end.
Proof.
  revert a b. induction w as [|w IH]; intros a b Ha Hb.
  { simpl in *. assert (a = 0) by lia. assert (b = 0) by lia. by subst. }
  cbn [digits_w]. rewrite !str_app_cons. cbn [str_cmp].
  rewrite pow10_S in Ha, Hb. pose proof (pow10_pos w) as Hp.
  set (P := 10 ^ Z.of_nat w) in *.
  assert (0 <= a / P < 10) by (split; [apply Z.div_pos | apply Z.div_lt_upper_bound]; lia).
  assert (0 <= b / P < 10) by (split; [apply Z.div_pos | apply Z.div_lt_upper_bound]; lia).
  rewrite !(Z.mod_small (_ / P) 10), digit_compare by done.
  rewrite (digits_w_mod w a (a mod P)), (digits_w_mod w b (b mod P))
    by (subst P; by rewrite Z.mod_mod by lia).
  rewrite IH by (apply Z.mod_pos_bound; lia).
  pose proof (Z.div_mod a P). pose proof (Z.div_mod b P).
  pose proof (Z.mod_pos_bound a P). pose proof (Z.mod_pos_bound b P).
  destruct (Z.compare_spec (a / P) (b / P)) as [E | E | E].
  - destruct (Z.compare_spec (a mod P) (b mod P)); destruct (Z.compare_spec a b);
      try done; nia.
  - destruct (Z.compare_spec a b); try done; nia.
  - destruct (Z.compare_spec a b); try done; nia.
Qed.

Lemma parse_loop_digits maxVal w n acc rest :
  0 <= n < 10 ^ Z.of_nat w -> 0 <= acc -> acc * 10 ^ Z.of_nat w + n <= maxVal ->
  parse_loop maxVal (digits_w w n +:+ rest) acc =
  parse_loop maxVal rest (acc * 10 ^ Z.of_nat w + n).
Proof.
  revert n acc. induction w as [|w IH]; intros n acc Hn Hacc Hmax.
  { simpl in *. f_equal. lia. }
  cbn [digits_w]. rewrite str_app_cons. cbn [parse_loop].
  rewrite pow10_S in Hn, Hmax. rewrite pow10_S. pose proof (pow10_pos w) as Hp.
  set (P := 10 ^ Z.of_nat w) in *.
  assert (0 <= n / P < 10) by (split; [apply Z.div_pos | apply Z.div_lt_upper_bound]; lia).
  pose proof (Z.div_mod n P). pose proof (Z.mod_pos_bound n P).
  rewrite (Z.mod_small (_ / P) 10), digit_val_char by done.
  destruct (Z.ltb_spec maxVal (acc * 10 + n / P)); [nia|].
  rewrite (digits_w_mod w n (n mod P)) by (subst P; by rewrite Z.mod_mod by lia).
  rewrite IH; [f_equal; nia | lia | nia | nia].
Qed.

Lemma ndigits_fuel_ok f n : 0 <= n < 2 * 2 ^ Z.of_nat f ->
  n < 10 ^ Z.of_nat (ndigits_fuel f n).
Proof.
  revert n. induction f as [|f IH]; intros n Hn; simpl ndigits_fuel.
  { change (2 * 2 ^ Z.of_nat 0) with 2 in Hn. lia. }
  rewrite Nat2Z.inj_succ, Z.pow_succ_r in Hn by lia.
  destruct (Z.ltb_spec n 10) as [|Hge]; [simpl; lia|].
  rewrite pow10_S. specialize (IH (n / 10)). 
  assert (n / 10 < 2 * 2 ^ Z.of_nat f) by (apply Z.div_lt_upper_bound; lia).
  assert (0 <= n / 10) by (apply Z.div_pos; lia).
  pose proof (Z.div_mod n 10). pose proof (Z.mod_pos_bound n 10). lia.
Qed.

Lemma ndigits_ok n : 0 <= n -> n < 10 ^ Z.of_nat (ndigits n).
Proof.
  intros Hn. apply ndigits_fuel_ok. split; [done|].
  rewrite Z2Nat.id by apply Z.log2_nonneg.
  destruct (Z.eq_dec n 0) as [->|]; [simpl; lia|].
  pose proof (Z.log2_spec n). rewrite <- Z.pow_succ_r by apply Z.log2_nonneg. lia.
Qed.

Lemma ndigits_fuel_le f n w : (0 < w)%nat -> 0 <= n < 10 ^ Z.of_nat w ->
  (ndigits_fuel f n <= w)%nat.
Proof.
  revert n w. induction f as [|f IH]; intros n w Hw Hn; simpl; [lia|].
  destruct (Z.ltb_spec n 10) as [|Hge]; [lia|].
  destruct w as [|[|w]]; [lia | simpl in *; lia|].
  apply le_n_S, IH; [lia|]. rewrite pow10_S in Hn.
  split; [apply Z.div_pos; lia | apply Z.div_lt_upper_bound; lia].
Qed.

(** A non-negative number that fits the width is printed with exactly it. *)
Lemma fmt_0d_fits w n : (0 < w)%nat -> 0 <= n < 10 ^ Z.of_nat w ->
  fmt_0d w n = digits_w w n.
Proof.
  intros Hw Hn. unfold fmt_0d. destruct (Z.ltb_spec n 0); [lia|]. f_equal.
  pose proof (ndigits_fuel_le (Z.to_nat (Z.log2 n)) n w Hw Hn).
  unfold ndigits. lia.
Qed.

Lemma str_app_empty s : (s +:+ EmptyString)%string = s.
Proof. induction s as [|c s IH]; [done|]. by rewrite str_app_cons, IH. Qed.
Lemma str_app_assoc a b c : ((a +:+ b) +:+ c = a +:+ (b +:+ c))%string.
Proof. induction a as [|x a IH]; [done|]. by rewrite !str_app_cons, IH. Qed.

Lemma digits_w_nonempty w n : (0 < w)%nat -> exists c s, digits_w w n = String c s.
Proof. destruct w; [lia | simpl; eauto]. Qed.

Lemma parse_uint_digits maxVal w n : (0 < w)%nat -> 0 <= n < 10 ^ Z.of_nat w ->
  n <= maxVal -> parse_uint maxVal (digits_w w n) = inl n.
Proof.
  intros Hw Hn Hmax. unfold parse_uint.
  pose proof (parse_loop_digits maxVal w n 0 EmptyString Hn) as H.
  rewrite str_app_empty in H.
  destruct (digits_w_nonempty w n Hw) as (c & s & E). rewrite E in *.
  rewrite H by lia. done.
Qed.

Lemma digit_char_not_sign d : 0 <= d < 10 ->
  Ascii.eqb (digit_char d) "+" = false /\ Ascii.eqb (digit_char d) "-" = false.
Proof.
  intros H. assert (d = 0 \/ d = 1 \/ d = 2 \/ d = 3 \/ d = 4 \/ d = 5 \/ d = 6 \/
    d = 7 \/ d = 8 \/ d = 9) as Hd by lia.
  repeat (destruct Hd as [-> | Hd]; [split; reflexivity|]). subst. split; reflexivity.
Qed.

Lemma digits_w_no_char c w n : (forall d, 0 <= d < 10 -> Ascii.eqb (digit_char d) c = false) ->
  has_char c (digits_w w n) = false.
Proof.
  intros H. induction w as [|w IH]; simpl; [done|].
  rewrite IH, H by (apply Z.mod_pos_bound; lia). done.
Qed.

Lemma split_sign_digits w n : split_sign (digits_w w n) = (false, digits_w w n).
Proof.
  destruct w; simpl; [done|].
  set (d := _ mod 10). assert (0 <= d < 10) by (apply Z.mod_pos_bound; lia).
  destruct (digit_char_not_sign d) as [-> ->]; done.
Qed.

Lemma ParseUint_digits w n bits : (0 < w)%nat -> 0 <= n < 10 ^ Z.of_nat w ->
  n < 2 ^ bits -> ParseUint (digits_w w n) bits = Ok n.
Proof.
  intros. unfold ParseUint. rewrite parse_uint_digits by lia. done.
Qed.

Lemma ParseInt_digits w n bits : (0 < w)%nat -> 0 <= n < 10 ^ Z.of_nat w ->
  0 < bits -> n < 2 ^ (bits - 1) -> ParseInt (digits_w w n) bits = Ok n.
Proof.
  intros Hw Hn Hb Hlt. unfold ParseInt. rewrite split_sign_digits.
  assert (2 ^ bits = 2 * 2 ^ (bits - 1)) as E.
  { rewrite <- Z.pow_succ_r by lia. f_equal. lia. }
  rewrite parse_uint_digits by lia. simpl.
  destruct (Z.leb_spec (2 ^ (bits - 1)) n); [lia | done].
Qed.

Lemma ndigits_pos n : (0 < ndigits n)%nat.
Proof. unfold ndigits. destruct (Z.to_nat (Z.log2 n)); simpl; [lia|]. case_match; lia. Qed.

Lemma ParseUint_Itoa n bits : 0 <= n < 2 ^ bits -> ParseUint (Itoa n) bits = Ok n.
Proof.
  intros H. unfold Itoa. destruct (Z.ltb_spec n 0); [lia|].
  apply ParseUint_digits; [apply ndigits_pos | | lia]. split; [lia | apply ndigits_ok; lia].
Qed.

Lemma ParseInt_Itoa n bits : 0 < bits -> 0 <= n < 2 ^ (bits - 1) ->
  ParseInt (Itoa n) bits = Ok n.
Proof.
  intros Hb H. unfold Itoa. destruct (Z.ltb_spec n 0); [lia|].
  apply ParseInt_digits; [apply ndigits_pos | | done | lia]. split; [lia | apply ndigits_ok; lia].
Qed.

(** A parsed unsigned number is within its bit size. *)
Lemma parse_loop_bound maxVal s n m : 0 <= n <= maxVal ->
  parse_loop maxVal s n = inl m -> 0 <= m <= maxVal.
Proof.
  revert n. induction s as [|c s IH]; intros n Hn; simpl; [by intros [= <-]|].
  destruct (digit_val c) as [d|] eqn:E; [|done].
  assert (0 <= d) by (unfold digit_val in E; repeat case_match; simplify_eq; lia).
  destruct (Z.ltb_spec maxVal (n * 10 + d)); [done|]. apply IH. lia.
Qed.

Lemma ParseUint_bound s bits n : 0 <= bits -> ParseUint s bits = Ok n -> 0 <= n < 2 ^ bits.
Proof.
  unfold ParseUint, parse_uint. intros Hb H.
  assert (0 < 2 ^ bits) by (apply Z.pow_pos_nonneg; lia).
  destruct s as [|c s]; [done|].
  destruct (parse_loop _ _ _) eqn:E; [|done]. apply parse_loop_bound in E; simplify_eq; lia.
Qed.

Lemma ParseInt_bound s bits n : 0 < bits -> ParseInt s bits = Ok n ->
  - 2 ^ (bits - 1) <= n < 2 ^ (bits - 1).
Proof.
  unfold ParseInt. intros Hb. destruct (split_sign s) as [neg u].
  destruct (parse_uint _ u) as [un|] eqn:E; [|done].
  assert (0 < 2 ^ bits) by (apply Z.pow_pos_nonneg; lia).
  assert (0 <= un).
  { unfold parse_uint in E. destruct u; [done|]. apply parse_loop_bound in E; lia. }
  destruct neg; simpl; zcases; intros; simplify_eq; lia.
Qed.

(** ** Lemmas: splitting *)

Lemma cut_app c l r : has_char c l = false -> cut c (l +:+ String c r) = Some (l, r).
Proof.
  induction l as [|a l IH]; [simpl; by rewrite Ascii.eqb_refl|].
  rewrite str_app_cons. simpl. intros [E1 E2]%orb_false_iff. rewrite E1, (IH E2). done.
Qed.

Lemma Split_no_sep c s : has_char c s = false -> Split c s = [s].
Proof.
  induction s as [|a s IH]; simpl; [done|].
  intros [E1 E2]%orb_false_iff. rewrite E1, (IH E2). done.
Qed.

Lemma Split_app c x s : has_char c x = false -> Split c (x +:+ String c s) = x :: Split c s.
Proof.
  induction x as [|a x IH]; [simpl; by rewrite Ascii.eqb_refl|].
  rewrite str_app_cons. simpl. intros [E1 E2]%orb_false_iff. rewrite E1, (IH E2). done.
Qed.

(** Splitting a join on the same one-character separator is the identity. *)
Lemma Split_Join c l : l <> [] -> Forall (fun s => has_char c s = false) l ->
  Split c (Join (String c EmptyString) l) = l.
Proof.
  induction l as [|x [|y l] IH]; intros Hne HF; [done| |].
  - inversion HF; subst. by apply Split_no_sep.
  - inversion HF; subst. change (Join ?s (x :: y :: l)) with (x +:+ (s +:+ Join s (y :: l)))%string.
    rewrite str_app_cons. change (EmptyString +:+ ?t)%string with t.
    rewrite Split_app by done. f_equal. by apply IH.
Qed.

(** ** Lemmas: the byte order is a strict total order *)

Lemma str_cmp_refl s : str_cmp s s = Eq.
Proof. induction s; simpl; [done|]. by rewrite N.compare_refl. Qed.

Lemma str_cmp_eq a b : str_cmp a b = Eq -> a = b.
Proof.
  revert b. induction a as [|x a IH]; intros [|y b]; simpl; try done.
  destruct (N.compare_spec (N_of_ascii x) (N_of_ascii y)) as [E| |]; try done.
  intros H. f_equal; [|by apply IH].
  rewrite <- (ascii_N_embedding x), <- (ascii_N_embedding y). by rewrite E.
Qed.

Lemma str_cmp_antisym a b : str_cmp b a = CompOpp (str_cmp a b).
Proof.
  revert b. induction a as [|x a IH]; intros [|y b]; simpl; try done.
  rewrite N.compare_antisym. destruct (N.compare _ _); simpl; auto.
Qed.

#[global] Arguments digits_w : simpl never.
#[global] Arguments fmt_0d : simpl never.
#[global] Arguments Itoa : simpl never.
#[global] Arguments ParseInt : simpl never.
#[global] Arguments ParseUint : simpl never.

(** ** strings.FieldsFunc, strings.HasPrefix and strings.Contains *)

(** [cur] is the field being read. *)
Fixpoint fields_loop (p : ascii -> bool) (s cur : string) : list string :=
  let flush := match cur with EmptyString => [] | _ => [cur] end in
  match s with
  | EmptyString => flush
  | String c s' => if p c then flush ++ fields_loop p s' EmptyString
                   else fields_loop p s' (cur +:+ String c EmptyString)
  end.
Definition FieldsFunc (p : ascii -> bool) (s : string) : list string :=
  fields_loop p s EmptyString.

Fixpoint HasPrefix (s pre : string) : bool :=
  match pre, s with
  | EmptyString, _ => true
  | String a pre', String b s' => Ascii.eqb a b && HasPrefix s' pre'
  | _, EmptyString => false
  end.

Fixpoint Contains (s sub : string) : bool :=
  HasPrefix s sub || match s with String _ s' => Contains s' sub | EmptyString => false end.

(** The byte order as a decidable total order, for tables keyed by text. *)
Definition str_le (a b : string) : Prop := str_leb a b = true.

#[export] Instance str_le_dec : RelDecision str_le.
Proof. intros a b. unfold str_le. apply _. Defined.

Lemma str_cmp_le_trans a b c : str_cmp a b <> Gt -> str_cmp b c <> Gt ->
  str_cmp a c <> Gt /\ (str_cmp a c = Eq -> str_cmp a b = Eq /\ str_cmp b c = Eq).
Proof.
  revert b c. induction a as [|x a IH]; intros [|y b] [|z c]; simpl; try done.
  destruct (N.compare_spec (N_of_ascii x) (N_of_ascii y)) as [E1|E1|E1];
    destruct (N.compare_spec (N_of_ascii y) (N_of_ascii z)) as [E2|E2|E2];
    destruct (N.compare_spec (N_of_ascii x) (N_of_ascii z)) as [E3|E3|E3];
    intros H1 H2; try done; try lia. by apply IH.
Qed.

#[export] Instance str_le_preorder : PreOrder str_le.
Proof.
  split.
  - intros a. unfold str_le, str_leb. by rewrite str_cmp_refl.
  - intros a b c. unfold str_le, str_leb. intros H1 H2.
    destruct (str_cmp_le_trans a b c) as [H _]; [by destruct (str_cmp a b)|by destruct (str_cmp b c)|].
    by destruct (str_cmp a c).
Qed.
#[export] Instance str_le_total : Total str_le.
Proof.
  intros a b. unfold str_le, str_leb. rewrite (str_cmp_antisym a b).
  destruct (str_cmp a b); simpl; auto.
Qed.
#[export] Instance str_le_antisymm : AntiSymm (=) str_le.
Proof.
  intros a b. unfold str_le, str_leb. rewrite (str_cmp_antisym a b).
  destruct (str_cmp a b) eqn:E; simpl; try done. intros _ _. by apply str_cmp_eq.
Qed.

(** ** encoding/hex *)

Definition hex_digit (n : N) : ascii :=
  if (n <? 10)%N then ascii_of_N (48 + n) else ascii_of_N (87 + n).
Fixpoint HexEncode (s : string) : string :=
  match s with
  | EmptyString => EmptyString
  | String c s' => String (hex_digit (N_of_ascii c / 16)) (String (hex_digit (N_of_ascii c mod 16)) (HexEncode s'))
  end.

Definition hex_val (c : ascii) : option N :=
  let n := N_of_ascii c in
  if ((48 <=? n) && (n <=? 57))%N then Some (n - 48)%N
  else if ((97 <=? n) && (n <=? 102))%N then Some (n - 87)%N
  else if ((65 <=? n) && (n <=? 70))%N then Some (n - 55)%N
  else None.
Fixpoint HexDecode (s : string) : go string :=
  match s with
  | EmptyString => Ok EmptyString
  | String a s1 =>
      match hex_val a, s1 with
      | None, _ => Er (EExt "encoding/hex: invalid byte")
      | Some _, EmptyString => Er (EExt "encoding/hex: odd length hex string")
      | Some x, String b s2 =>
          match hex_val b with
          | None => Er (EExt "encoding/hex: invalid byte")
          | Some y => r ← HexDecode s2; Ok (String (ascii_of_N (16 * x + y)) r)
          end
      end
  end.

Lemma hex_val_digit n : (n < 16)%N -> hex_val (hex_digit n) = Some n.
Proof.
  intros H. assert (exists m, n = N.of_nat m /\ (m < 16)%nat) as (m & -> & Hm)
    by (exists (N.to_nat n); lia).
  do 16 (destruct m as [|m]; [reflexivity|]). lia.
Qed.

Lemma HexDecode_Encode s : HexDecode (HexEncode s) = Ok s.
Proof.
  induction s as [|c s IH]; [done|]. cbn [HexEncode HexDecode].
  pose proof (N_ascii_bounded c). rewrite !hex_val_digit by (apply N.Div0.div_lt_upper_bound || apply N.mod_lt; lia).
  rewrite IH. cbn [mbind go_bind]. rewrite <- N.div_mod by lia. by rewrite ascii_N_embedding.
Qed.

(** ** [encoding/base64], the standard alphabet with padding *)

Definition b64_alphabet : string := "ABCDEFGHIJKLMNOPQRSTUVWXYZabcdefghijklmnopqrstuvwxyz0123456789+/".
Definition b64_char (n : Z) : ascii :=
  match String.get (Z.to_nat n) b64_alphabet with Some c => c | None => "="%char end.
Definition byte_of (c : ascii) : Z := Z.of_N (N_of_ascii c).

Fixpoint Base64Encode (s : string) : string :=
  match s with
  | EmptyString => EmptyString
  | String a EmptyString =>
      let n := Z.shiftl (byte_of a) 16 in
      String (b64_char (Z.shiftr n 18)) (String (b64_char (Z.land (Z.shiftr n 12) 63)) "==")
  | String a (String b EmptyString) =>
      let n := Z.lor (Z.shiftl (byte_of a) 16) (Z.shiftl (byte_of b) 8) in
      String (b64_char (Z.shiftr n 18)) (String (b64_char (Z.land (Z.shiftr n 12) 63))
        (String (b64_char (Z.land (Z.shiftr n 6) 63)) "="))
  | String a (String b (String c s')) =>
      let n := Z.lor (Z.lor (Z.shiftl (byte_of a) 16) (Z.shiftl (byte_of b) 8)) (byte_of c) in
      String (b64_char (Z.shiftr n 18)) (String (b64_char (Z.land (Z.shiftr n 12) 63))
        (String (b64_char (Z.land (Z.shiftr n 6) 63)) (String (b64_char (Z.land n 63)) (Base64Encode s'))))
  end.

Example base64_man : Base64Encode "Many" = "TWFueQ=="%string.
Proof. reflexivity. Qed.

(** ** [time.Unix(secs, 0).UTC().Format(time.RFC3339)] *)

(** Year, month and day of a number of days since 1970-01-01, in the Gregorian
    calendar: eras of 400 years that begin on 1 March. *)
Definition civil_from_days (days : Z) : Z * Z * Z :=
  let z := days + 719468 in
  let doe := z mod 146097 in
  let yoe := (doe - doe / 1460 + doe / 36524 - doe / 146096) / 365 in
  let doy := doe - (365 * yoe + yoe / 4 - yoe / 100) in
  let mp := (5 * doy + 2) / 153 in
  let m := if mp <? 10 then mp + 3 else mp - 9 in
  (yoe + z / 146097 * 400 + (if m <=? 2 then 1 else 0), m, doy - (153 * mp + 2) / 5 + 1).

Definition year_string (y : Z) : string :=
  if y <? 0 then String "-" (fmt_0d 4 (- y)) else fmt_0d 4 y.
Definition RFC3339_UTC (secs : Z) : string :=
  let '(y, m, d) := civil_from_days (secs / 86400) in
  let s := secs mod 86400 in
  year_string y +:+ "-" +:+ fmt_0d 2 m +:+ "-" +:+ fmt_0d 2 d +:+ "T" +:+ fmt_0d 2 (s / 3600) +:+ ":" +:+
  fmt_0d 2 (s / 60 mod 60) +:+ ":" +:+ fmt_0d 2 (s mod 60) +:+ "Z".

Example rfc3339_epoch : RFC3339_UTC 1709210096 = "2024-02-29T12:34:56Z"%string.
Proof. reflexivity. Qed.

(** ** [strings.TrimSpace] on ASCII text *)

Definition is_space (c : ascii) : bool :=
  let n := N_of_ascii c in ((9 <=? n) && (n <=? 13))%N || (n =? 32)%N.
Fixpoint trim_left (s : string) : string :=
  match s with
  | EmptyString => EmptyString
  | String c s' => if is_space c then trim_left s' else s
  end.
Fixpoint trim_right (s : string) : string :=
  match s with
  | EmptyString => EmptyString
  | String c s' => match trim_right s' with
                   | EmptyString => if is_space c then EmptyString else String c EmptyString
                   | t => String c t
                   end
  end.
Definition TrimSpace (s : string) : string := trim_right (trim_left s).

(** Spaces around a word without spaces are removed. *)
Fixpoint all_space (s : string) : bool :=
  match s with EmptyString => true | String c s' => is_space c && all_space s' end.
Lemma trim_right_spaces s : all_space s = true -> trim_right s = EmptyString.
Proof.
  induction s as [|c s IH]; [done|]. cbn [all_space trim_right]. intros [Hc Hs]%andb_true_iff. by rewrite IH, Hc.
Qed.
Fixpoint no_space (s : string) : bool :=
  match s with EmptyString => true | String c s' => negb (is_space c) && no_space s' end.
Lemma trim_right_word w t : no_space w = true -> all_space t = true -> trim_right (w +:+ t) = w.
Proof.
  induction w as [|c w IH]; intros Hw Ht; [by apply trim_right_spaces|].
  cbn [no_space] in Hw. apply andb_true_iff in Hw as [Hc Hw]. rewrite str_app_cons. cbn [trim_right].
  rewrite IH by done. destruct w; [|done]. by destruct (is_space c).
Qed.
Lemma TrimSpace_word s w t : all_space s = true -> no_space w = true -> all_space t = true ->
  TrimSpace (s +:+ w +:+ t) = w.
Proof.
  intros Hs Hw Ht. unfold TrimSpace. induction s as [|c s IH].
  - change (EmptyString +:+ w +:+ t)%string with (w +:+ t)%string. destruct w as [|c w].
    + change (EmptyString +:+ t)%string with t. clear -Ht. induction t as [|c t IH]; [done|].
      cbn [all_space trim_left] in *. apply andb_true_iff in Ht as [-> Ht]. by apply IH.
    + rewrite str_app_cons. cbn [trim_left no_space] in *. apply andb_true_iff in Hw as [Hc Hw].
      destruct (is_space c) eqn:E; [done|]. rewrite <- str_app_cons. apply trim_right_word; [|done].
      cbn [no_space]. by rewrite E, Hw.
  - cbn [all_space] in Hs. apply andb_true_iff in Hs as [Hc Hs]. rewrite str_app_cons. cbn [trim_left]. rewrite Hc.
    by apply IH.
Qed.
