(* ===== verification/GoTime.v ===== *)
(** * Durations: what the source uses of package [time]

    A [time.Duration] is an int64 number of nanoseconds.  Its parser multiplies
    fractions in binary floating point, as Go does. *)

From Stdlib Require Import SpecFloat.
From S2P Require Import Prelude GoStd.

Definition Nanosecond : Z := 1.
Definition Microsecond : Z := 1000.
Definition Millisecond : Z := 1000000.
Definition Second : Z := 1000000000.
Definition Minute : Z := 60 * Second.
Definition Hour : Z := 60 * Minute.
Definition maxInt64 : Z := 9223372036854775807.
Definition minInt64 : Z := -9223372036854775808.

(** [time.Since]: the difference, saturated to the range of durations. *)
Definition time_Since (now t : Z) : Z := Z.max minInt64 (Z.min maxInt64 (now - t)).

(** [Duration.Round], halves away from zero. *)
Definition less_than_half (x y : Z) : bool := u64 (x + x) <? y.
Definition Duration_Round (d m : Z) : Z :=
  if m <=? 0 then d
  else
    let r := Z.rem d m in
    if d <? 0 then
      let r := - r in
      if less_than_half r m then d + r
      else let d1 := i64 (d - m + r) in if d1 <? d then d1 else minInt64
    else if less_than_half r m then d - r
    else let d1 := i64 (d + m - r) in if d <? d1 then d1 else maxInt64.

(** ** [time.ParseDuration] *)

(** float64: conversion from an integer, product, quotient, truncation. *)
Definition f64 (z : Z) : spec_float := binary_normalize 53 1024 z 0 false.
Definition f64_mul (a b : spec_float) : spec_float := SFmul 53 1024 a b.
Definition f64_div (a b : spec_float) : spec_float := SFdiv 53 1024 a b.
Definition f64_to_uint64 (f : spec_float) : Z :=
  match f with
  | S754_finite false m e => u64 (Z.shiftl (Zpos m) e)
  | _ => 0
  end.

(** Leading digits; [None] when they exceed 2^63. *)
Fixpoint leadingInt (s : string) (x : Z) : option (Z * string) :=
  match s with
  | EmptyString => Some (x, s)
  | String c s' =>
      match digit_val c with
      | None => Some (x, s)
      | Some d =>
          if 9223372036854775808 / 10 <? x then None
          else let x := x * 10 + d in
               if 9223372036854775808 <? x then None else leadingInt s' x
      end
  end.
Fixpoint leadingFraction (s : string) (x : Z) (scale : spec_float) (overflow : bool) : Z * spec_float * string :=
  match s with
  | EmptyString => (x, scale, s)
  | String c s' =>
      match digit_val c with
      | None => (x, scale, s)
      | Some d =>
          if overflow then leadingFraction s' x scale true
          else if maxInt64 / 10 <? x then leadingFraction s' x scale true
          else let y := x * 10 + d in
               if 9223372036854775808 <? y then leadingFraction s' x scale true
               else leadingFraction s' y (f64_mul scale (f64 10)) false
      end
  end.

Definition unitMap (u : string) : option Z :=
  if String.eqb u "ns" then Some Nanosecond
  else if String.eqb u "us" then Some Microsecond
  else if String.eqb u "µs" then Some Microsecond
  else if String.eqb u "μs" then Some Microsecond
  else if String.eqb u "ms" then Some Millisecond
  else if String.eqb u "s" then Some Second
  else if String.eqb u "m" then Some Minute
  else if String.eqb u "h" then Some Hour
  else None.

(** The unit: everything up to the next digit or dot. *)
Definition starts_number (c : ascii) : bool := Ascii.eqb c "." || match digit_val c with Some _ => true | None => false end.
Fixpoint take_unit (s : string) : string * string :=
  match s with
  | EmptyString => (EmptyString, EmptyString)
  | String c s' => if starts_number c then (EmptyString, s) else let '(u, r) := take_unit s' in (String c u, r)
  end.

(** One item [digits.digits unit]: its value added to [d], and the rest. *)
Definition duration_item (orig s : string) (d : Z) : go (Z * string) :=
  let invalid := Er (EFmt "time: invalid duration %q" [FS orig]) in
  match s with
  | EmptyString => invalid
  | String c _ =>
      if negb (starts_number c) then invalid
      else match leadingInt s 0 with
      | None => invalid
      | Some (v, s1) =>
          let pre := negb (String.length s =? String.length s1)%nat in
          let '(f, scale, s2, post) :=
            match s1 with
            | String "." s1' => let '(f, scale, s2) := leadingFraction s1' 0 (f64 1) false in
                                (f, scale, s2, negb (String.length s1' =? String.length s2)%nat)
            | _ => (0, f64 1, s1, false)
            end in
          if negb pre && negb post then invalid
          else
            let '(u, s3) := take_unit s2 in
            if (String.length u =? 0)%nat then Er (EFmt "time: missing unit in duration %q" [FS orig])
            else match unitMap u with
            | None => Er (EFmt "time: unknown unit %q in duration %q" [FS u; FS orig])
            | Some unit =>
                if 9223372036854775808 / unit <? v then invalid
                else
                  let v := v * unit in
                  let v' := if 0 <? f then u64 (v + f64_to_uint64 (f64_mul (f64 f) (f64_div (f64 unit) scale))) else v in
                  if (0 <? f) && (9223372036854775808 <? v') then invalid
                  else let d := u64 (d + v') in
                       if 9223372036854775808 <? d then invalid else Ok (d, s3)
            end
      end
  end.

(** Every item takes characters, so the length is fuel enough. *)
Fixpoint duration_items (fuel : nat) (orig s : string) (d : Z) : go Z :=
  match s, fuel with
  | EmptyString, _ => Ok d
  | _, O => Panic "out of fuel"
  | _, S fuel => r ← duration_item orig s d; duration_items fuel orig r.2 r.1
  end.

Definition ParseDuration (s : string) : go Z :=
  let '(neg, t) := split_sign s in
  if String.eqb t "0" then Ok 0
  else if String.eqb t "" then Er (EFmt "time: invalid duration %q" [FS s])
  else
    d ← duration_items (String.length t) s t 0;
    if neg then Ok (i64 (- d))
    else if maxInt64 <? d then Er (EFmt "time: invalid duration %q" [FS s]) else Ok d.

(** ** The fuel is enough *)

Lemma leadingInt_length s x v r : leadingInt s x = Some (v, r) -> (String.length r <= String.length s)%nat.
Proof.
  revert x. induction s as [|c s IH]; intros x; cbn [leadingInt]; [by intros [= _ <-]|].
  destruct (digit_val c); [|by intros [= _ <-]].
  destruct (_ <? x); [done|]. destruct (_ <? _); [done|]. intros H%IH. simpl. lia.
Qed.
Lemma leadingFraction_length s x scale o v sc r : leadingFraction s x scale o = (v, sc, r) ->
  (String.length r <= String.length s)%nat.
Proof.
  revert x scale o. induction s as [|c s IH]; intros x scale o; cbn [leadingFraction]; [by intros [= _ _ <-]|].
  destruct (digit_val c); [|by intros [= _ _ <-]].
  destruct o; [intros H%IH; simpl; lia|]. destruct (_ <? x); [intros H%IH; simpl; lia|].
  destruct (_ <? _); intros H%IH; simpl; lia.
Qed.
Lemma take_unit_length s u r : take_unit s = (u, r) -> (String.length u + String.length r = String.length s)%nat.
Proof.
  revert u r. induction s as [|c s IH]; intros u r; cbn [take_unit]; [by intros [= <- <-]|].
  destruct (starts_number c); [by intros [= <- <-]|]. destruct (take_unit s) as [u' r'].
  intros [= <- <-]. simpl. by rewrite (IH u' r').
Qed.

Lemma duration_item_shorter orig s d d' r : duration_item orig s d = Ok (d', r) -> (String.length r < String.length s)%nat.
Proof.
  unfold duration_item. destruct s as [|c s0] eqn:Es; [done|]. rewrite <- Es. destruct (negb (starts_number c)); [done|].
  destruct (leadingInt s 0) as [[v s1]|] eqn:E1; [|done]. apply leadingInt_length in E1.
  assert (exists f scale s2 post, match s1 with
            | String "." s1' => let '(f, scale, s2) := leadingFraction s1' 0 (f64 1) false in
                                (f, scale, s2, negb (String.length s1' =? String.length s2)%nat)
            | _ => (0, f64 1, s1, false)
            end = (f, scale, s2, post) /\ (String.length s2 <= String.length s1)%nat) as (f & scale & s2 & post & -> & H2).
  { destruct s1 as [|c1 s1']; [eauto 10|].
    destruct (leadingFraction s1' 0 (f64 1) false) as [[f scale] s2] eqn:E2. apply leadingFraction_length in E2.
    destruct c1 as [[] [] [] [] [] [] [] []]; eexists _, _, _, _; (split; [reflexivity|]); simpl; lia. }
  destruct (negb _ && negb post); [done|]. destruct (take_unit s2) as [u s3] eqn:E3. apply take_unit_length in E3.
  destruct (Nat.eqb_spec (String.length u) 0); [done|]. destruct (unitMap u); [|done].
  destruct (_ <? v); [done|]. destruct ((0 <? f) && _); [done|]. destruct (_ <? _); [done|]. intros [= _ <-]. lia.
Qed.

(** Parsing never runs out of fuel: it gives a duration or an error. *)
Lemma ParseDuration_total s : no_panic (ParseDuration s).
Proof.
  intros p. unfold ParseDuration. destruct (split_sign s) as [neg t].
  destruct (String.eqb t "0"); [done|]. destruct (String.eqb t ""); [done|].
  assert (forall fuel u d, (String.length u <= fuel)%nat -> no_panic (duration_items fuel s u d)) as Hf.
  { induction fuel as [|fuel IH]; intros u d Hu; destruct u as [|c u]; try done; [simpl in Hu; lia|].
    intros m. cbn [duration_items]. destruct (duration_item s (String c u) d) as [[d' r]|e|m'] eqn:Ei; cbn [mbind go_bind].
    - apply IH. apply duration_item_shorter in Ei. simpl in *. lia.
    - done.
    - exfalso. revert Ei. unfold duration_item. repeat case_match; done. }
  specialize (Hf _ t 0 (Nat.le_refl _)). destruct (duration_items _ _ _ _) as [d|e|m]; cbn [mbind go_bind]; [|done|by destruct (Hf m)].
  destruct neg; [done|]. by destruct (_ <? d).
Qed.

Example duration_90m : ParseDuration "1h30m" = Ok (90 * Minute). Proof. vm_compute. reflexivity. Qed.
Example duration_frac : ParseDuration "-1.5s" = Ok (-1500 * Millisecond). Proof. vm_compute. reflexivity. Qed.
Example duration_bare : ParseDuration "5" = Er (EFmt "time: missing unit in duration %q" [FS "5"]). Proof. vm_compute. reflexivity. Qed.
