(* ===== verification/DurationText.v ===== *)
(** * [time.Duration.String], and reading its text back

    The source writes durations into the generated configuration file with
    [String] and reads them with [time.ParseDuration]. *)

From S2P Require Import Prelude GoStd GoTime.

(** [fmtFrac]: [prec] decimals of [v] before [buf], trailing zeros left out, and
    what remains of [v]; [fmtInt] is [Itoa]. *)
Fixpoint fmtFrac (prec : nat) (v : Z) (buf : string) (print : bool) : string * Z :=
  match prec with
  | O => (if print then String "." buf else buf, v)
  | S prec =>
      let digit := v mod 10 in
      let print := print || negb (digit =? 0) in
      fmtFrac prec (v / 10) (if print then String (digit_char digit) buf else buf) print
  end.

Definition fmtUnit (u : Z) (prec : nat) (unit : string) : string :=
  let '(buf, u) := fmtFrac prec u unit false in Itoa u +:+ buf.

Definition Duration_String (d : Z) : string :=
  let neg := d <? 0 in
  let u := Z.abs d in
  let s :=
    if u <? Second then
      if u =? 0 then "0s"%string
      else if u <? Microsecond then fmtUnit u 0 "ns"
      else if u <? Millisecond then fmtUnit u 3 "µs"
      else fmtUnit u 6 "ms"
    else
      let '(buf, u) := fmtFrac 9 u "s" false in
      let buf := Itoa (u mod 60) +:+ buf in
      let u := u / 60 in
      if 0 <? u then
        let buf := Itoa (u mod 60) +:+ String "m" buf in
        let u := u / 60 in
        if 0 <? u then Itoa u +:+ String "h" buf else buf
      else buf
  in if neg then String "-" s else s.

Example duration_text : Duration_String (3 * Hour + 62 * Second + 500 * Millisecond) = "3h1m2.5s"%string. Proof. vm_compute. reflexivity. Qed.
Example duration_small : Duration_String (-1250 * Nanosecond) = "-1.25µs"%string. Proof. vm_compute. reflexivity. Qed.

(** ** Whole seconds read back *)

Lemma fmtFrac_whole prec q buf : fmtFrac prec (q * 10 ^ Z.of_nat prec) buf false = (buf, q).
Proof.
  revert q. induction prec as [|prec IH]; intros q; cbn [fmtFrac]; [f_equal; simpl; lia|].
  rewrite pow10_S. replace (q * (10 * 10 ^ Z.of_nat prec)) with (q * 10 ^ Z.of_nat prec * 10) by lia.
  rewrite Z.mod_mul, Z.div_mul by lia. apply IH.
Qed.

Lemma digits_w_S w n : digits_w (S w) n = String (digit_char (n / 10 ^ Z.of_nat w mod 10)) (digits_w w n).
Proof. reflexivity. Qed.

(** A rest that does not continue a number. *)
Definition no_digit (s : string) : Prop := match s with String c _ => digit_val c = None | EmptyString => True end.

Lemma leadingInt_stop s x : no_digit s -> leadingInt s x = Some (x, s).
Proof. destruct s as [|c s]; cbn; [done|]. by intros ->. Qed.
Lemma leadingInt_digits w n acc rest : 0 <= n < 10 ^ Z.of_nat w -> 0 <= acc -> no_digit rest ->
  acc * 10 ^ Z.of_nat w + n <= 9223372036854775807 ->
  leadingInt (digits_w w n +:+ rest) acc = Some (acc * 10 ^ Z.of_nat w + n, rest).
Proof.
  revert n acc. induction w as [|w IH]; intros n acc Hn Hacc Hr Hmax.
  { simpl in *. rewrite leadingInt_stop by done. (do 2 f_equal; lia). }
  rewrite digits_w_S, str_app_cons. cbn [leadingInt]. rewrite pow10_S in Hn, Hmax |- *. pose proof (pow10_pos w) as Hp.
  set (P := 10 ^ Z.of_nat w) in *.
  assert (0 <= n / P < 10) by (split; [apply Z.div_pos | apply Z.div_lt_upper_bound]; lia).
  pose proof (Z.div_mod n P). pose proof (Z.mod_pos_bound n P).
  rewrite (Z.mod_small (_ / P) 10), digit_val_char by done.
  destruct (Z.ltb_spec (9223372036854775808 / 10) acc) as [Hlt|_]; [change (9223372036854775808 / 10) with 922337203685477580 in Hlt; nia|].
  destruct (Z.ltb_spec 9223372036854775808 (acc * 10 + n / P)); [nia|].
  rewrite (digits_w_mod w n (n mod P)) by (subst P; by rewrite Z.mod_mod by lia).
  rewrite IH; [do 2 f_equal; nia | lia | nia | done | nia].
Qed.
Lemma leadingInt_Itoa n rest : 0 <= n <= 9223372036854775807 -> no_digit rest ->
  leadingInt (Itoa n +:+ rest) 0 = Some (n, rest).
Proof.
  intros Hn Hr. unfold Itoa. destruct (Z.ltb_spec n 0); [lia|].
  pose proof (ndigits_ok n ltac:(lia)). rewrite leadingInt_digits by (try done; lia). done.
Qed.
Lemma Itoa_starts n : 0 <= n -> exists c s, Itoa n = String c s /\ exists d, digit_val c = Some d.
Proof.
  intros Hn. unfold Itoa. destruct (Z.ltb_spec n 0); [lia|]. pose proof (ndigits_pos n).
  destruct (ndigits n) as [|w]; [lia|]. rewrite digits_w_S. eexists _, _. split; [reflexivity|].
  eexists. apply digit_val_char. apply Z.mod_pos_bound. lia.
Qed.

(** A number and a one-letter unit, before the end or another number. *)
Definition number_next (s : string) : Prop := match s with String c _ => starts_number c = true | EmptyString => True end.

Lemma take_unit_one c rest : starts_number c = false -> number_next rest -> take_unit (String c rest) = (String c EmptyString, rest).
Proof.
  intros Hc Hr. cbn [take_unit]. rewrite Hc. destruct rest as [|c' rest]; [done|]. cbn [take_unit number_next] in *. by rewrite Hr.
Qed.

Lemma not_dot {A} (c : ascii) (x y : A) : Ascii.eqb c "." = false -> match c with "."%char => x | _ => y end = y.
Proof. destruct c as [[] [] [] [] [] [] [] []]; intros H; first [discriminate H|reflexivity]. Qed.
Lemma length_append a b : String.length (a +:+ b) = (String.length a + String.length b)%nat.
Proof. induction a as [|c a IH]; [done|]. rewrite str_app_cons. simpl. by rewrite IH. Qed.

Definition unit_of (c : ascii) (unit : Z) : Prop :=
  (c, unit) ∈ [("s"%char, Second); ("m"%char, Minute); ("h"%char, Hour)].

Lemma unit_of_facts c unit rest : unit_of c unit -> no_digit (String c rest) /\ starts_number c = false /\
  unitMap (String c EmptyString) = Some unit /\ Ascii.eqb c "." = false /\ 0 < unit.
Proof.
  unfold unit_of. rewrite !elem_of_cons.
  intros [[= -> ->]|[[= -> ->]|[[= -> ->]|H%not_elem_of_nil]]]; [..|destruct H]; split_and!; reflexivity.
Qed.

Lemma duration_item_whole orig n c unit rest d : 0 <= n -> 0 <= d -> unit_of c unit -> number_next rest ->
  d + n * unit <= maxInt64 -> duration_item orig (Itoa n +:+ String c rest) d = Ok (d + n * unit, rest).
Proof.
  intros Hn Hd Hunit Hr Hmax. unfold maxInt64 in Hmax. destruct (Itoa_starts n Hn) as (c0 & s0 & E & d0 & Hd0).
  destruct (unit_of_facts c unit rest Hunit) as (Hnd & Hs & Hm & Hdot & Hu).
  assert (0 <= n * unit <= 9223372036854775807 /\ n <= 9223372036854775807) as [Hmul Hn'] by nia.
  assert (9223372036854775808 / unit <? n = false) as Hdiv by (apply Z.ltb_ge, Z.div_le_lower_bound; lia).
  pose proof (leadingInt_Itoa n (String c rest) ltac:(lia) Hnd) as Hlead. unfold duration_item.
  destruct (Itoa n +:+ String c rest)%string as [|c1 s1] eqn:E1; [by rewrite E, str_app_cons in E1|].
  assert (starts_number c1 = true) as ->.
  { rewrite E, str_app_cons in E1. injection E1 as <- _. unfold starts_number. rewrite Hd0. apply orb_true_r. }
  cbn [negb]. rewrite Hlead. rewrite <- E1, length_append, E. cbn [String.length].
  assert (negb (S (String.length s0) + S (String.length rest) =? S (String.length rest))%nat = true) as ->
    by (apply negb_true_iff, Nat.eqb_neq; lia).
  rewrite not_dot by done. cbn [negb andb]. rewrite take_unit_one by done. cbn [String.length Nat.eqb]. rewrite Hm, Hdiv.
  cbn [Z.ltb andb Z.compare]. rewrite (u64_small (d + n * unit)) by (unfold is_u64; lia).
  destruct (Z.ltb_spec 9223372036854775808 (d + n * unit)); [lia|done].
Qed.

Lemma duration_items_step fuel orig s d d' r : duration_item orig s d = Ok (d', r) -> (String.length s <= fuel)%nat ->
  exists fuel', (String.length r <= fuel')%nat /\ duration_items fuel orig s d = duration_items fuel' orig r d'.
Proof.
  intros E Hf. pose proof (duration_item_shorter _ _ _ _ _ E) as Hs. destruct fuel as [|fuel]; [lia|]. exists fuel. split; [lia|].
  destruct s as [|c s]; [done|]. cbn [duration_items]. by rewrite E.
Qed.

(** [u] seconds as hours, minutes and seconds. *)
Definition seconds_text (u : Z) : string :=
  let buf := Itoa (u mod 60) +:+ "s" in
  if 0 <? u / 60 then
    let buf := Itoa (u / 60 mod 60) +:+ String "m" buf in
    if 0 <? u / 60 / 60 then Itoa (u / 60 / 60) +:+ String "h" buf else buf
  else buf.

Lemma Itoa_next n s : 0 <= n -> number_next (Itoa n +:+ s).
Proof.
  intros Hn. destruct (Itoa_starts n Hn) as (c & t & E & d & Hd). rewrite E, str_app_cons. cbn [number_next].
  unfold starts_number. rewrite Hd. apply orb_true_r.
Qed.

Lemma seconds_items orig u fuel : 0 <= u * Second <= maxInt64 -> (String.length (seconds_text u) <= fuel)%nat ->
  duration_items fuel orig (seconds_text u) 0 = Ok (u * Second).
Proof.
  intros Hu. assert (0 <= u) as Hu0 by (unfold Second in Hu; lia).
  pose proof (Z.div_mod u 60 ltac:(lia)) as E60. pose proof (Z.mod_pos_bound u 60 ltac:(lia)) as B60.
  pose proof (Z.div_mod (u / 60) 60 ltac:(lia)) as E3600. pose proof (Z.mod_pos_bound (u / 60) 60 ltac:(lia)) as B3600.
  assert (0 <= u / 60) by (apply Z.div_pos; lia). assert (0 <= u / 60 / 60) by (apply Z.div_pos; lia).
  assert (forall n c unit rest d fuel, 0 <= n -> 0 <= d -> unit_of c unit -> number_next rest -> d + n * unit <= maxInt64 ->
    (String.length (Itoa n +:+ String c rest) <= fuel)%nat ->
    exists fuel', (String.length rest <= fuel')%nat /\
      duration_items fuel orig (Itoa n +:+ String c rest) d = duration_items fuel' orig rest (d + n * unit)) as Hitem.
  { intros n c unit rest d f Hn Hd Hc Hr Hm Hf. eapply duration_items_step; [by apply duration_item_whole|done]. }
  unfold Minute, Hour, Second, unit_of in *. unfold seconds_text.
  assert (forall f d, 0 <= d -> d + u mod 60 * 1000000000 <= maxInt64 -> (String.length (Itoa (u mod 60) +:+ "s") <= f)%nat ->
    duration_items f orig (Itoa (u mod 60) +:+ "s") d = Ok (d + u mod 60 * 1000000000)) as Hsec.
  { intros f d Hd Hm Hf. destruct (Hitem (u mod 60) "s"%char 1000000000 EmptyString d f) as (f' & _ & ->); try done; try lia; try set_solver.
    by destruct f'. }
  destruct (Z.ltb_spec 0 (u / 60)); [|intros Hf; rewrite Hsec by lia; f_equal; lia].
  assert (forall f d, 0 <= d -> d + u / 60 mod 60 * 60000000000 + u mod 60 * 1000000000 <= maxInt64 ->
    (String.length (Itoa (u / 60 mod 60) +:+ String "m" (Itoa (u mod 60) +:+ "s")) <= f)%nat ->
    duration_items f orig (Itoa (u / 60 mod 60) +:+ String "m" (Itoa (u mod 60) +:+ "s")) d =
    Ok (d + u / 60 mod 60 * 60000000000 + u mod 60 * 1000000000)) as Hmin.
  { intros f d Hd Hm Hf. destruct (Hitem (u / 60 mod 60) "m"%char (60 * 1000000000) (Itoa (u mod 60) +:+ "s")%string d f) as (f' & Hf' & ->);
      try done; try lia; try (apply Itoa_next; lia); try set_solver. rewrite Hsec by lia. (do 2 f_equal; lia). }
  destruct (Z.ltb_spec 0 (u / 60 / 60)); [|intros Hf; rewrite Hmin by lia; f_equal; lia].
  intros Hf. destruct (Hitem (u / 60 / 60) "h"%char (60 * (60 * 1000000000))
    (Itoa (u / 60 mod 60) +:+ String "m" (Itoa (u mod 60) +:+ "s"))%string 0 fuel) as (f' & Hf' & ->);
    try done; try lia; try (apply Itoa_next; lia); try set_solver. rewrite Hmin by lia. (do 2 f_equal; lia).
Qed.

Lemma Duration_String_whole d : d mod Second = 0 -> d <> 0 ->
  Duration_String d = if d <? 0 then String "-" (seconds_text (Z.abs d / Second)) else seconds_text (Z.abs d / Second).
Proof.
  intros Hm Hd. assert (Z.abs d = Z.abs d / Second * 10 ^ Z.of_nat 9) as E.
  { change (10 ^ Z.of_nat 9) with Second. apply Z.mod_divide in Hm as [k ->]; [|done].
    rewrite Z.abs_mul. change (Z.abs Second) with Second. by rewrite Z.div_mul by done. }
  unfold Duration_String. destruct (Z.ltb_spec (Z.abs d) Second) as [Hlt|Hge].
  - exfalso. change (10 ^ Z.of_nat 9) with Second in E. rewrite Z.div_small in E by lia. lia.
  - assert (fmtFrac 9 (Z.abs d) "s" false = ("s"%string, Z.abs d / Second)) as -> by (rewrite E at 1; apply fmtFrac_whole).
    unfold seconds_text.
    repeat match goal with |- context [if ?b then _ else _] => destruct b end; reflexivity.
Qed.

(** What [String] writes for a whole number of seconds, [ParseDuration] reads. *)
Lemma ParseDuration_String d : d mod Second = 0 -> - maxInt64 <= d <= maxInt64 -> ParseDuration (Duration_String d) = Ok d.
Proof.
  intros Hm Hd. destruct (Z.eq_dec d 0) as [-> |Hne]; [reflexivity|]. rewrite Duration_String_whole by done.
  set (u := Z.abs d / Second). assert (u * Second = Z.abs d) as Hu.
  { apply Z.mod_divide in Hm as [k ->]; [|done]. unfold u. rewrite Z.abs_mul. change (Z.abs Second) with Second.
    by rewrite Z.div_mul by done. }
  assert (0 <= u) by (unfold Second in Hu; lia).
  assert (exists c s, seconds_text u = String c s /\ s <> EmptyString /\ exists n, digit_val c = Some n) as (c & s & E & Hs & n & Hn).
  { assert (forall n c rest, 0 <= n -> exists c' s, Itoa n +:+ String c rest = String c' s /\ s <> EmptyString /\ exists n, digit_val c' = Some n) as Hc.
    { intros k c rest Hk. destruct (Itoa_starts k Hk) as (c0 & s0 & -> & Hc0). rewrite str_app_cons. eexists _, _.
      split; [reflexivity|]. split; [|done]. by destruct s0. }
    assert (0 <= u / 60 / 60 /\ 0 <= u / 60 mod 60 /\ 0 <= u mod 60) as (? & ? & ?) by (split_and!; divlia).
    unfold seconds_text. repeat case_match; by apply Hc. }
  assert (split_sign (seconds_text u) = (false, seconds_text u)) as Hsign.
  { rewrite E. unfold split_sign. destruct (Ascii.eqb_spec c "+") as [-> |]; [by vm_compute in Hn|].
    destruct (Ascii.eqb_spec c "-") as [-> |]; [by vm_compute in Hn|done]. }
  assert (forall orig, duration_items (String.length (seconds_text u)) orig (seconds_text u) 0 = Ok (u * Second)) as Hitems.
  { intros orig. apply seconds_items; lia. }
  assert (String.eqb (seconds_text u) "0" = false /\ String.eqb (seconds_text u) "" = false) as [H0 H1].
  { rewrite E. split; apply String.eqb_neq; [|done]. by intros [= _ ->]. }
  unfold ParseDuration. destruct (Z.ltb_spec d 0).
  - cbn [split_sign Ascii.eqb Bool.eqb]. rewrite H0, H1, Hitems. cbn [mbind go_bind]. f_equal. unfold maxInt64 in *.
    rewrite i64_small by (unfold is_i64; lia). lia.
  - rewrite Hsign, H0, H1, Hitems. cbn [mbind go_bind]. destruct (Z.ltb_spec maxInt64 (u * Second)); [lia|]. f_equal. lia.
Qed.
