(* ===== verification/Externals.v ===== *)
(** * Code outside the repository

    Interfaces of the packages the source calls but does not contain.  Each is
    a [Class] of operations; what the source relies on is a second class of
    laws stating their documented behaviour.  The instances at the end are used
    to run definitions on concrete inputs.  *)

From S2P Require Import Prelude GoStd.

(** ** github.com/stellar/go/toid

    SEP-35 operation identifiers: a ledger, transaction and operation order
    packed in an int64.  [toid_ToInt64] is [None] where the method panics. *)
Class Toid := {
  TransactionMask : Z;
  OperationMask : Z;
  toid_ToInt64 : Z -> Z -> Z -> option Z;
  toid_Parse : Z -> Z * Z * Z;
}.

Definition toid_in_range `{Toid} (l t o : Z) : Prop :=
  0 <= l < 2147483648 /\ 0 <= t <= TransactionMask /\ 0 <= o <= OperationMask.

Class ToidLaws `(T : Toid) := {
  toid_masks : 0 <= TransactionMask < 2147483647 /\ 1 <= OperationMask < 2147483648;
  toid_enc l t o : toid_in_range l t o ->
    exists z, toid_ToInt64 l t o = Some z /\ 0 <= z < 9223372036854775808;
  toid_parse_enc l t o z : toid_in_range l t o ->
    toid_ToInt64 l t o = Some z -> toid_Parse z = (l, t, o);
  toid_order l t o z l' t' o' z' :
    toid_in_range l t o -> toid_in_range l' t' o' ->
    toid_ToInt64 l t o = Some z -> toid_ToInt64 l' t' o' = Some z' ->
    (z ?= z') = match l ?= l' with
                | Eq => match t ?= t' with Eq => (o ?= o') | c => c end
                | c => c
                end;
}.

(** The packing SEP-35 describes: 32, 20 and 12 bits. *)
#[export] Instance sep35 : Toid := {
  TransactionMask := 1048575;
  OperationMask := 4095;
  toid_ToInt64 l t o :=
    if (l <? 0) || (t <? 0) || (1048575 <? t) || (o <? 0) || (4095 <? o) then None
    else Some (l * 4294967296 + t * 4096 + o);
  toid_Parse z := (i32 (z / 4294967296), (z / 4096) mod 1048576, z mod 4096);
}.

Lemma sep35_enc l t o : toid_in_range l t o ->
  toid_ToInt64 l t o = Some (l * 4294967296 + t * 4096 + o).
Proof.
  unfold toid_in_range. cbn. intros (? & ? & ?). zcases; cbn; try lia. done.
Qed.

#[export] Instance sep35_laws : ToidLaws sep35.
Proof.
  constructor.
  - simpl. lia.
  - intros l t o H. rewrite sep35_enc by done. eexists. split; [done|].
    destruct H as (? & ? & ?). simpl in *. lia.
  - intros l t o z H. rewrite sep35_enc by done. intros [= <-].
    destruct H as (? & ? & ?). simpl in *.
    assert ((l * 4294967296 + t * 4096 + o) / 4294967296 = l) as -> by divlia.
    assert ((l * 4294967296 + t * 4096 + o) / 4096 mod 1048576 = t) as -> by divlia.
    assert ((l * 4294967296 + t * 4096 + o) mod 4096 = o) as -> by divlia.
    rewrite i32_small by (unfold is_i32; lia). done.
  - intros l t o z l' t' o' z' H H'. rewrite !sep35_enc by done. intros [= <-] [= <-].
    destruct H as (? & ? & ?), H' as (? & ? & ?). simpl in *.
    destruct (Z.compare_spec l l'); destruct (Z.compare_spec t t');
      destruct (Z.compare_spec o o');
      destruct (Z.compare_spec (l * 4294967296 + t * 4096 + o)
                               (l' * 4294967296 + t' * 4096 + o')); try done; lia.
Qed.

(** ** JSON values

    [encoding/json] at the level of parsed values: the custom unmarshalers of
    the protocol types all start by decoding a JSON string. *)
Inductive json :=
  | JNull | JBool (b : bool) | JNum (n : string) | JStr (s : string)
  | JArr (l : list json) | JObj (l : list (string * json)).

(** [json.Unmarshal(data, &s)] for [var s string]: [null] leaves it empty. *)
Definition json_string (v : json) : go string :=
  match v with
  | JStr s => Ok s
  | JNull => Ok EmptyString
  | _ => Er (EExt "json: cannot unmarshal value into Go value of type string")
  end.

(** ** github.com/stellar/go/strkey, contract addresses

    [Decode] and [Encode] at the contract version byte. *)
Class Strkey := {
  strkey_Decode : string -> go string;
  strkey_Encode : string -> go string;
}.

(** Documented: encoding a 32-byte payload succeeds, decoding it gives the
    payload back, and a decoded address is the encoding of its payload. *)
Class StrkeyLaws `(K : Strkey) := {
  strkey_enc_32 p : String.length p = 32%nat -> exists s, strkey_Encode p = Ok s;
  strkey_dec_enc p s : strkey_Encode p = Ok s -> strkey_Decode s = Ok p;
  strkey_enc_dec s p : strkey_Decode s = Ok p -> strkey_Encode p = Ok s;
  strkey_dec_32 s p : strkey_Decode s = Ok p -> String.length p = 32%nat;
}.

(** ** github.com/stellar/go/xdr, contract values

    A contract value, its equality and its binary encoding. *)
Class ScVals := {
  ScVal : Type;
  ScVal_Equals : ScVal -> ScVal -> bool;
  ScVal_MarshalBinary : ScVal -> go string;
  ScVal_UnmarshalBase64 : string -> go ScVal;
  ScVal_MarshalBase64 : ScVal -> go string;
}.

(** Documented: XDR is canonical, so equal values have equal encodings. *)
Class ScValsLaws `(V : ScVals) := {
  scval_equals_marshal a b : ScVal_Equals a b = true ->
    ScVal_MarshalBinary a = ScVal_MarshalBinary b;
  scval_base64 v s : ScVal_MarshalBase64 v = Ok s -> ScVal_UnmarshalBase64 s = Ok v;
  scval_base64_alphabet v s : ScVal_MarshalBase64 v = Ok s -> has_char "*" s = false;
}.

(** The enumeration constants of [xdr] the source names. *)
Class XdrConsts := {
  ContractEventTypeSystem : Z;
  ContractEventTypeContract : Z;
  ContractEventTypeDiagnostic : Z;
  OperationTypeInvokeHostFunction : Z;
  OperationTypeExtendFootprintTtl : Z;
  OperationTypeRestoreFootprint : Z;
  EnvelopeTypeEnvelopeTypeTx : Z;
}.
(** Constants of one enumeration are distinct (they key map literals and
    [switch] cases). *)
Class XdrConstsLaws `(X : XdrConsts) := {
  event_types_distinct :
    ContractEventTypeSystem <> ContractEventTypeContract /\
    ContractEventTypeSystem <> ContractEventTypeDiagnostic /\
    ContractEventTypeContract <> ContractEventTypeDiagnostic;
  op_types_distinct :
    OperationTypeInvokeHostFunction <> OperationTypeExtendFootprintTtl /\
    OperationTypeInvokeHostFunction <> OperationTypeRestoreFootprint /\
    OperationTypeExtendFootprintTtl <> OperationTypeRestoreFootprint;
}.
#[export] Instance stellar_xdr : XdrConsts := {
  ContractEventTypeSystem := 0; ContractEventTypeContract := 1;
  ContractEventTypeDiagnostic := 2;
  OperationTypeInvokeHostFunction := 24; OperationTypeExtendFootprintTtl := 25;
  OperationTypeRestoreFootprint := 26; EnvelopeTypeEnvelopeTypeTx := 2;
}.
#[export] Instance stellar_xdr_laws : XdrConstsLaws stellar_xdr.
Proof. constructor; simpl; lia. Qed.

(** The event types of [xdr], with the fields the source reads.  The body is
    [Some (topics, data)] when [GetV0] succeeds. *)
Section Events.
Context `{V : ScVals}.
Record ContractEvent := mkContractEvent {
  ContractId : option string;
  EventTypeXDR : Z;
  BodyV0 : option (list ScVal * ScVal);
}.
Record DiagnosticEvent := mkDiagnosticEvent {
  InSuccessfulContractCall : bool;
  Event_of : ContractEvent;
}.
End Events.

(** ** github.com/stellar/go/support/db

    [Rollback] of a session; the error says that no transaction is open, or is
    the driver's. *)
Class Rollbacker (DB : Type) := { db_Rollback : DB -> DB * option err }.

(** ** Instances for concrete runs *)

(** A session without an open transaction. *)
#[export] Instance no_tx_session : Rollbacker unit :=
  {| db_Rollback u := (u, Some (EExt "not in transaction")) |}.

(** Addresses are the payload behind the letter C. *)
#[export] Instance toy_strkey : Strkey := {
  strkey_Decode s :=
    match s with
    | String c p => if Ascii.eqb c "C" && Nat.eqb (String.length p) 32 then Ok p
                    else Er (EExt "strkey")
    | EmptyString => Er (EExt "strkey")
    end;
  strkey_Encode p :=
    if Nat.eqb (String.length p) 32 then Ok (String "C" p) else Er (EExt "strkey");
}.
#[export] Instance toy_strkey_laws : StrkeyLaws toy_strkey.
Proof.
  constructor; simpl.
  - intros p ->. eauto.
  - intros p s. destruct (Nat.eqb _ _) eqn:E; [|done]. intros [= <-]. simpl. by rewrite E.
  - intros [|c s] p; [done|]. destruct (Ascii.eqb_spec c "C"); [|done]. simpl. subst.
    destruct (Nat.eqb (String.length s) 32) eqn:E; [|done]. intros [= <-]. by rewrite E.
  - intros [|c s] p; [done|]. destruct (Ascii.eqb_spec c "C"); [|done]. simpl.
    destruct (Nat.eqb_spec (String.length s) 32); [|done]. by intros [= <-].
Qed.

(** Contract values are strings of letters, encoded by themselves, and in
    base64 behind a letter, with stars rejected. *)
#[export] Instance toy_scvals : ScVals := {
  ScVal := string;
  ScVal_Equals := String.eqb;
  ScVal_MarshalBinary := Ok;
  ScVal_UnmarshalBase64 s :=
    match s with String "B" v => Ok v | _ => Er (EExt "base64") end;
  ScVal_MarshalBase64 v :=
    if has_char "*" v then Er (EExt "base64") else Ok (String "B" v);
}.
#[export] Instance toy_scvals_laws : ScValsLaws toy_scvals.
Proof.
  constructor; simpl.
  - intros a b ->%String.eqb_eq. done.
  - intros v s. destruct (has_char _ v); [done|]. by intros [= <-].
  - intros v s. destruct (has_char _ v) eqn:E; [done|]. intros [= <-]. done.
Qed.
