(* ===== verification/Cursor.v ===== *)
(** * Event cursors: [protocol/cursor.go]

    The position of an event, its textual form (which is also the primary key
    of the [events] table) and the comparison of positions. *)

From S2P Require Import Prelude GoStd Externals.

Definition numCursorParts : nat := 2.

Record Cursor := mkCursor { Ledger : Z; Tx : Z; Op : Z; Event : Z }.
Record CursorRange := mkCursorRange { Start : Cursor; End : Cursor }.

#[export] Instance Cursor_eq_dec : EqDecision Cursor.
Proof. solve_decision. Defined.

Section Cursor.
Context `{T : Toid}.

Definition Cursor_String (c : Cursor) : go string :=
  match toid_ToInt64 (i32 (Ledger c)) (i32 (Tx c)) (i32 (Op c)) with
  | None => Panic "toid: value out of range"
  | Some z => Ok (fmt_0d 19 z +:+ "-" +:+ fmt_0d 10 (Event c))
  end.

Definition Cursor_MarshalJSON (c : Cursor) : go json :=
  s ← Cursor_String c; Ok (JStr s).

Definition invalid_event_id (input : string) : err :=
  EFmt "invalid event id %s" [FS input].

Definition ParseCursor (input : string) : go Cursor :=
  match SplitN2 "-" input with
  | [p0; p1] =>
      idInt ← on_err (EWrap "invalid event id %s: %w" [FS input]) (ParseInt p0 64);
      let '(l, t, o) := toid_Parse idInt in
      eventOrder ← on_err (EWrap "invalid event id %s: %w" [FS input]) (ParseUint p1 32);
      Ok (mkCursor (u32 l) (u32 t) (u32 o) (u32 eventOrder))
  | _ => Er (invalid_event_id input)
  end.

Definition Cursor_UnmarshalJSON (b : json) : go Cursor :=
  s ← json_string b; ParseCursor s.

Definition cmp (a b : Z) : Z :=
  if a <? b then -1 else if b <? a then 1 else 0.

Definition Cmp (c other : Cursor) : Z :=
  if Ledger c =? Ledger other then
    if Tx c =? Tx other then
      if Op c =? Op other then cmp (Event c) (Event other)
      else cmp (Op c) (Op other)
    else cmp (Tx c) (Tx other)
  else cmp (Ledger c) (Ledger other).

Definition MinCursor : Cursor := mkCursor 0 0 0 0.
Definition MaxCursor : Cursor :=
  mkCursor 2147483647 TransactionMask OperationMask u32max.

(** The positions that have a textual form: an int32 ledger, transaction and
    operation within the toid masks, any uint32 event index. *)
Definition cursor_ok (c : Cursor) : Prop :=
  toid_in_range (Ledger c) (Tx c) (Op c) /\ is_u32 (Event c).

(** ** The order *)

Lemma Cmp_spec c d :
  Cmp c d = match Ledger c ?= Ledger d with
            | Eq => match Tx c ?= Tx d with
                    | Eq => match Op c ?= Op d with
                            | Eq => match Event c ?= Event d with
                                    | Eq => 0 | Lt => -1 | Gt => 1 end
                            | Lt => -1 | Gt => 1 end
                    | Lt => -1 | Gt => 1 end
            | Lt => -1 | Gt => 1 end.
Proof.
  unfold Cmp, cmp.
  repeat match goal with |- context [?a ?= ?b] => destruct (Z.compare_spec a b) end;
    zcases; lia.
Qed.

Lemma Cmp_range c d : Cmp c d = -1 \/ Cmp c d = 0 \/ Cmp c d = 1.
Proof. unfold Cmp, cmp. zcases; lia. Qed.

Lemma Cmp_refl c : Cmp c c = 0.
Proof. unfold Cmp, cmp. zcases; lia. Qed.

Lemma Cmp_eq c d : Cmp c d = 0 -> c = d.
Proof.
  destruct c as [l t o e], d as [l' t' o' e']. unfold Cmp, cmp; simpl. intros H.
  zcases; try lia; f_equal; lia.
Qed.

Lemma Cmp_antisym c d : Cmp d c = - Cmp c d.
Proof. unfold Cmp, cmp. zcases; lia. Qed.

(** The lexicographic order, as a proposition [lia] can use. *)
Lemma Cmp_lt_iff c d :
  Cmp c d < 0 <->
  Ledger c < Ledger d \/ (Ledger c = Ledger d /\
    (Tx c < Tx d \/ (Tx c = Tx d /\
      (Op c < Op d \/ (Op c = Op d /\ Event c < Event d))))).
Proof. unfold Cmp, cmp. zcases; lia. Qed.

Lemma Cmp_le_iff c d : Cmp c d <= 0 <-> ~ Cmp d c < 0.
Proof. pose proof (Cmp_antisym c d). lia. Qed.

Lemma Cmp_le_trans a b c : Cmp a b <= 0 -> Cmp b c <= 0 -> Cmp a c <= 0.
Proof. rewrite !Cmp_le_iff, !Cmp_lt_iff. lia. Qed.
Lemma Cmp_lt_le_trans a b c : Cmp a b < 0 -> Cmp b c <= 0 -> Cmp a c < 0.
Proof. rewrite !Cmp_le_iff, !Cmp_lt_iff. lia. Qed.
Lemma Cmp_le_lt_trans a b c : Cmp a b <= 0 -> Cmp b c < 0 -> Cmp a c < 0.
Proof. rewrite !Cmp_le_iff, !Cmp_lt_iff. lia. Qed.

(** Positions of different ledgers compare as their ledgers. *)
Lemma Cmp_ledger_lt c d : Ledger c < Ledger d -> Cmp c d = -1.
Proof. unfold Cmp, cmp. intros. zcases; lia. Qed.

Lemma Cmp_ledger_le c d : Cmp c d <= 0 -> Ledger c <= Ledger d.
Proof. unfold Cmp, cmp. intros. zcases; lia. Qed.

(** ** The textual form *)

Context `{L : !ToidLaws T}.

Lemma cursor_ok_i32 c : cursor_ok c ->
  i32 (Ledger c) = Ledger c /\ i32 (Tx c) = Tx c /\ i32 (Op c) = Op c.
Proof.
  intros ((? & ? & ?) & ?). destruct toid_masks.
  repeat split; apply i32_small; unfold is_i32; lia.
Qed.

Lemma Cursor_String_ok c : cursor_ok c ->
  exists z, toid_ToInt64 (Ledger c) (Tx c) (Op c) = Some z /\
    0 <= z < 9223372036854775808 /\
    Cursor_String c = Ok (digits_w 19 z +:+ String "-" (digits_w 10 (Event c))).
Proof.
  intros H. pose proof H as [Hr He].
  destruct (toid_enc _ _ _ Hr) as (z & Hz & Hb). exists z. split_and!; try done; try lia.
  unfold Cursor_String. destruct (cursor_ok_i32 c H) as (-> & -> & ->). rewrite Hz.
  unfold is_u32 in He. rewrite !fmt_0d_fits; [done | lia | | lia |]; simpl; lia.
Qed.

(** Lemma behind the round trip: printing then parsing. *)
Lemma ParseCursor_String_ok c : cursor_ok c ->
  exists s, Cursor_String c = Ok s /\ ParseCursor s = Ok c.
Proof.
  intros H. destruct (Cursor_String_ok c H) as (z & Hz & Hb & ->).
  eexists. split; [done|]. unfold ParseCursor, SplitN2.
  rewrite cut_app
    by (apply digits_w_no_char; intros d Hd; by destruct (digit_char_not_sign d Hd)).
  destruct H as [Hr He]. pose proof He as He'. unfold is_u32 in He'.
  rewrite ParseInt_digits; [|lia|simpl; lia|lia|simpl; lia]. simpl.
  rewrite (toid_parse_enc _ _ _ _ Hr Hz).
  rewrite ParseUint_digits; [|lia|simpl; lia|simpl; lia]. simpl.
  destruct Hr as (? & ? & ?), toid_masks, c; simpl in *.
  rewrite !u32_small; [done|..]; unfold is_u32; lia.
Qed.

(** The byte order of the textual forms is the order of the positions. *)
Lemma Cursor_String_cmp c d s t : cursor_ok c -> cursor_ok d ->
  Cursor_String c = Ok s -> Cursor_String d = Ok t ->
  str_cmp s t = match Cmp c d ?= 0 with Lt => Lt | Eq => Eq | Gt => Gt end.
Proof.
  intros Hc Hd.
  destruct (Cursor_String_ok c Hc) as (z & Hz & Hb & ->).
  destruct (Cursor_String_ok d Hd) as (z' & Hz' & Hb' & ->).
  intros [= <-] [= <-]. rewrite str_cmp_digits by (simpl; lia).
  destruct Hc as [Hr He], Hd as [Hr' He']. unfold is_u32 in *.
  rewrite (toid_order _ _ _ _ _ _ _ _ Hr Hr' Hz Hz'), Cmp_spec.
  destruct (Ledger c ?= Ledger d); try done.
  destruct (Tx c ?= Tx d); try done. destruct (Op c ?= Op d); try done.
  cbn [str_cmp]. rewrite N.compare_refl.
  rewrite <- (str_app_empty (digits_w 10 (Event c))), <- (str_app_empty (digits_w 10 (Event d))).
  rewrite str_cmp_digits by (simpl; lia). by destruct (Event c ?= Event d).
Qed.

Lemma Cursor_String_leb c d s t : cursor_ok c -> cursor_ok d ->
  Cursor_String c = Ok s -> Cursor_String d = Ok t -> str_leb s t = (Cmp c d <=? 0).
Proof.
  intros. unfold str_leb. rewrite (Cursor_String_cmp c d) by done.
  destruct (Z.compare_spec (Cmp c d) 0); zcases; try done; lia.
Qed.
Lemma Cursor_String_ltb c d s t : cursor_ok c -> cursor_ok d ->
  Cursor_String c = Ok s -> Cursor_String d = Ok t -> str_ltb s t = (Cmp c d <? 0).
Proof.
  intros. unfold str_ltb. rewrite (Cursor_String_cmp c d) by done.
  destruct (Z.compare_spec (Cmp c d) 0); zcases; try done; lia.
Qed.
(** C23: Every position has a text, the text reads back as the position, and the byte
    order of the texts, in which the database keeps the events, is the order of
    ledger, transaction, operation and event; what is read from any text has
    32-bit fields. *)
Theorem cursor_text_order c d : cursor_ok c -> cursor_ok d ->
  exists s t, Cursor_String c = Ok s /\ Cursor_String d = Ok t /\ ParseCursor s = Ok c /\ ParseCursor t = Ok d /\
    Cursor_UnmarshalJSON (JStr s) = Ok c /\
    (str_ltb s t = true <-> Cmp c d < 0) /\ (str_leb s t = true <-> Cmp c d <= 0) /\ (s = t <-> c = d) /\
    (Cmp c d < 0 <-> Ledger c < Ledger d \/ (Ledger c = Ledger d /\ (Tx c < Tx d \/ (Tx c = Tx d /\
       (Op c < Op d \/ (Op c = Op d /\ Event c < Event d)))))) /\
    (forall text e, ParseCursor text = Ok e -> is_u32 (Ledger e) /\ is_u32 (Tx e) /\ is_u32 (Op e) /\ is_u32 (Event e)).
Proof.
  intros Hc Hd. destruct (ParseCursor_String_ok c Hc) as (s & Hs & Hps), (ParseCursor_String_ok d Hd) as (t & Ht & Hpt).
  exists s, t. rewrite (Cursor_String_leb c d), (Cursor_String_ltb c d) by done. split_and!; try done.
  - apply Z.ltb_lt.
  - apply Z.leb_le.
  - split; congruence.
  - apply Cmp_lt_iff.
  - intros text e. unfold ParseCursor. repeat case_match; intros; go_inv; [|done..].
    destruct (toid_Parse _) as [[lg u] o]. go_inv. split_and!; apply u32_range.
Qed.
End Cursor.

Lemma cursor_text_order_witness :
  let c := mkCursor 5 1 0 3 in let d := mkCursor 5 2 0 0 in
  exists s t, Cursor_String c = Ok s /\ Cursor_String d = Ok t /\ ParseCursor s = Ok c /\ ParseCursor t = Ok d /\
    Cursor_UnmarshalJSON (JStr s) = Ok c /\
    (str_ltb s t = true <-> Cmp c d < 0) /\ (str_leb s t = true <-> Cmp c d <= 0) /\ (s = t <-> c = d) /\
    (Cmp c d < 0 <-> Ledger c < Ledger d \/ (Ledger c = Ledger d /\ (Tx c < Tx d \/ (Tx c = Tx d /\
       (Op c < Op d \/ (Op c = Op d /\ Event c < Event d)))))) /\
    (forall text e, ParseCursor text = Ok e -> is_u32 (Ledger e) /\ is_u32 (Tx e) /\ is_u32 (Op e) /\ is_u32 (Event e)).
Proof.
  apply (cursor_text_order (T := sep35) (mkCursor 5 1 0 3) (mkCursor 5 2 0 0));
    unfold cursor_ok, toid_in_range, is_u32; simpl; lia.
Defined.
