(* ===== verification/Protocol.v ===== *)
(** * Request validation shared by the endpoints

    [protocol/format.go], [protocol/get_ledgers.go] (pagination, ledger ranges)
    and [protocol/get_transactions.go]. *)

From S2P Require Import Prelude GoStd Externals.

(** ** [protocol/format.go] *)

Definition FormatBase64 : string := "base64".
Definition FormatJSON : string := "json".
Definition errInvalidFormat : err := ESentinel "errInvalidFormat".

Definition IsValidFormat (format : string) : option err :=
  if String.eqb format "" then None
  else if String.eqb format FormatJSON then None
  else if String.eqb format FormatBase64 then None
  else Some (EWrap "got '%s': %w" [FS format] errInvalidFormat).

Lemma IsValidFormat_ok f : IsValidFormat f = None <->
  f = ""%string \/ f = FormatJSON \/ f = FormatBase64.
Proof.
  unfold IsValidFormat.
  destruct (String.eqb_spec f ""); [by split; auto|].
  destruct (String.eqb_spec f FormatJSON); [by split; auto|].
  destruct (String.eqb_spec f FormatBase64); [by split; auto|]. naive_solver.
Qed.

(** ** [protocol/get_ledgers.go] *)

Record LedgerPaginationOptions := mkLPO { LCursor : string; LLimit : Z }.
Record LedgerSeqRange := mkLSR { FirstLedger : Z; LastLedger : Z }.

Record GetLedgersRequest := mkGLR {
  GL_StartLedger : Z;
  GL_Pagination : option LedgerPaginationOptions;
  GL_Format : string;
}.

Definition IsLedgerWithinRange (startLedger : Z) (r : LedgerSeqRange) : bool :=
  (FirstLedger r <=? startLedger) && (startLedger <=? LastLedger r).

Lemma IsLedgerWithinRange_iff s r :
  IsLedgerWithinRange s r = true <-> FirstLedger r <= s <= LastLedger r.
Proof. unfold IsLedgerWithinRange. rewrite andb_true_iff, !Z.leb_le. done. Qed.

Definition errBadPage (startLedger : Z) (r : LedgerSeqRange) : err :=
  EFmt "start ledger (%d) must be between the oldest ledger: %d and the latest ledger: %d for this rpc instance"
    [FZ startLedger; FZ (FirstLedger r); FZ (LastLedger r)].

Definition ValidatePagination (startLedger : Z)
    (pagination : option LedgerPaginationOptions) (maxLimit : Z)
    (r : LedgerSeqRange) : option err :=
  match pagination with
  | Some p =>
      let page :=
        if negb (String.eqb (LCursor p) "") then
          if negb (startLedger =? 0)
          then Some (EFmt "startLedger (%d) and cursor (%s) cannot both be set"
                       [FZ startLedger; FS (LCursor p)])
          else None
        else if negb (IsLedgerWithinRange startLedger r)
             then Some (errBadPage startLedger r) else None in
      match page with
      | Some e => Some e
      | None => if maxLimit <? LLimit p
                then Some (EFmt "limit must not exceed %d" [FZ maxLimit]) else None
      end
  | None =>
      if negb (IsLedgerWithinRange startLedger r)
      then Some (errBadPage startLedger r) else None
  end.

Definition GetLedgersRequest_Validate (req : GetLedgersRequest) (maxLimit : Z)
    (r : LedgerSeqRange) : option err :=
  errors_Join [ValidatePagination (GL_StartLedger req) (GL_Pagination req) maxLimit r;
               IsValidFormat (GL_Format req)].

(** ** [protocol/get_transactions.go] *)

Record GetTransactionsRequest := mkGTR {
  GT_StartLedger : Z;
  GT_Pagination : option LedgerPaginationOptions;
  GT_Format : string;
}.

Definition GetTransactionsRequest_IsValid (req : GetTransactionsRequest)
    (maxLimit : Z) (r : LedgerSeqRange) : option err :=
  errors_Join [ValidatePagination (GT_StartLedger req) (GT_Pagination req) maxLimit r;
               IsValidFormat (GT_Format req)].

Lemma errors_Join_None es : errors_Join es = None <-> Forall (fun e => e = None) es.
Proof.
  unfold errors_Join. induction es as [|[e|] es IH]; simpl; [split; auto| |].
  - split; [done|]. inversion 1. done.
  - rewrite IH. split; [by constructor | by inversion 1].
Qed.

(** The documented contract of [ValidatePagination]. *)
Definition pagination_ok (startLedger : Z) (pagination : option LedgerPaginationOptions)
    (maxLimit : Z) (r : LedgerSeqRange) : Prop :=
  match pagination with
  | Some p =>
      (LCursor p <> ""%string -> startLedger = 0) /\
      (LCursor p = ""%string -> FirstLedger r <= startLedger <= LastLedger r) /\
      LLimit p <= maxLimit
  | None => FirstLedger r <= startLedger <= LastLedger r
  end.

Lemma ValidatePagination_None s p m r :
  ValidatePagination s p m r = None <-> pagination_ok s p m r.
Proof.
  pose proof (IsLedgerWithinRange_iff s r) as Hin.
  unfold ValidatePagination, pagination_ok. destruct p as [p|].
  - destruct (String.eqb_spec (LCursor p) ""); destruct (IsLedgerWithinRange s r);
      cbn [negb]; zcases; cbn [negb]; naive_solver lia.
  - destruct (IsLedgerWithinRange s r); cbn [negb]; naive_solver lia.
Qed.

(** A request for ledgers or transactions is accepted exactly when its format is
    known and its pagination is: a limit of at most the maximum and either a cursor
    without a start ledger or a start ledger within the range. *)
Theorem requests_accepted :
  (forall req maxLimit r, GetLedgersRequest_Validate req maxLimit r = None <->
     pagination_ok (GL_StartLedger req) (GL_Pagination req) maxLimit r /\
     (GL_Format req = FormatJSON \/ GL_Format req = FormatBase64 \/ GL_Format req = ""%string)) /\
  (forall req maxLimit r, GetTransactionsRequest_IsValid req maxLimit r = None <->
     pagination_ok (GT_StartLedger req) (GT_Pagination req) maxLimit r /\
     (GT_Format req = FormatJSON \/ GT_Format req = FormatBase64 \/ GT_Format req = ""%string)).
Proof.
  split; intros req maxLimit r; unfold GetLedgersRequest_Validate, GetTransactionsRequest_IsValid;
    rewrite errors_Join_None, !Forall_cons, Forall_nil, ValidatePagination_None, IsValidFormat_ok; naive_solver.
Qed.
