(* ===== verification/Filters.v ===== *)
(** * Event filters: [protocol/get_events.go]

    The request types of [getEvents], their validation and JSON forms, and the
    matching of events against filters. *)

From S2P Require Import Prelude GoStd Externals Cursor Protocol.

Definition MaxFiltersLimit : Z := 5.
Definition MaxTopicsLimit : Z := 5.
Definition MaxContractIDsLimit : Z := 5.
Definition MinTopicCount : Z := 1.
Definition MaxTopicCount : Z := 4.
Definition WildCardExactOne : string := "*".
Definition WildCardZeroOrMore : string := "**".
Definition EventTypeSystem : string := "system".
Definition EventTypeContract : string := "contract".
Definition EventTypeDiagnostic : string := "diagnostic".

(** ** Event types *)

Section EventTypes.
Context `{X : XdrConsts}.

Definition GetEventTypeFromEventTypeXDR (t : Z) : option string :=
  if t =? ContractEventTypeSystem then Some EventTypeSystem
  else if t =? ContractEventTypeContract then Some EventTypeContract
  else if t =? ContractEventTypeDiagnostic then Some EventTypeDiagnostic
  else None.

Definition GetEventTypeXDRFromEventType (s : string) : option Z :=
  if String.eqb s EventTypeSystem then Some ContractEventTypeSystem
  else if String.eqb s EventTypeContract then Some ContractEventTypeContract
  else if String.eqb s EventTypeDiagnostic then Some ContractEventTypeDiagnostic
  else None.

Lemma event_type_tables `{!XdrConstsLaws X} t s :
  GetEventTypeFromEventTypeXDR t = Some s <-> GetEventTypeXDRFromEventType s = Some t.
Proof.
  destruct event_types_distinct as (? & ? & ?).
  unfold GetEventTypeFromEventTypeXDR, GetEventTypeXDRFromEventType.
  destruct (String.eqb_spec s EventTypeSystem) as [->|];
  [|destruct (String.eqb_spec s EventTypeContract) as [->|];
  [|destruct (String.eqb_spec s EventTypeDiagnostic) as [->|]]];
  unfold EventTypeSystem, EventTypeContract, EventTypeDiagnostic in *;
  zcases; split; congruence.
Qed.
End EventTypes.

(** [EventTypeSet] is a Go map used as a set; ranging over it visits the keys in
    an order the language leaves open, here the listing [elements]. *)
Definition EventTypeSet : Type := gset string.

Definition EventTypeSet_Keys (e : EventTypeSet) : list string := elements e.

Definition EventTypeSet_valid (e : EventTypeSet) : option err :=
  if forallb (fun key => existsb (String.eqb key)
        [EventTypeSystem; EventTypeContract; EventTypeDiagnostic]) (elements e)
  then None
  else Some (ENew "if set, type must be either 'system', 'contract' or 'diagnostic'").

(** [data] is [None] when the JSON document is empty. *)
Definition EventTypeSet_UnmarshalJSON (data : option json) : go EventTypeSet :=
  match data with
  | None => Ok ∅
  | Some v =>
      joined ← json_string v;
      if (String.length joined =? 0)%nat then Ok ∅
      else Ok (list_to_set (Split "," joined))
  end.

(** [keys] is the order in which the range visited the keys. *)
Definition EventTypeSet_MarshalJSON (keys : list string) : json := JStr (Join "," keys).

Definition EventTypeSet_matches `{XdrConsts} `{ScVals} (e : EventTypeSet)
    (event : ContractEvent) : bool :=
  if decide (e = ∅) then true
  else bool_decide (default ""%string (GetEventTypeFromEventTypeXDR (EventTypeXDR event)) ∈ e).

(** ** Topics *)

Section Topics.
Context `{V : ScVals}.

Record SegmentFilter := mkSegment { Wildcard : option string; SegScVal : option ScVal }.
Definition TopicFilter : Type := list SegmentFilter.

Definition isValidWildCard (w : string) : bool :=
  String.eqb w WildCardExactOne || String.eqb w WildCardZeroOrMore.

Definition SegmentFilter_Valid (s : SegmentFilter) : option err :=
  match Wildcard s, SegScVal s with
  | Some _, Some _ => Some (ENew "cannot set both wildcard and scval")
  | None, None => Some (ENew "must set either wildcard or scval")
  | Some w, None => if negb (isValidWildCard w)
                    then Some (ENew "wildcard must be '*' or '**'") else None
  | None, Some _ => None
  end.

Definition SegmentFilter_Matches (s : SegmentFilter) (segment : ScVal) : go bool :=
  if match Wildcard s with Some w => isValidWildCard w | None => false end then Ok true
  else match SegScVal s with
       | Some v => if negb (ScVal_Equals v segment) then Ok false else Ok true
       | None => Panic "invalid segmentFilter"
       end.

Definition SegmentFilter_UnmarshalJSON (p : json) : go SegmentFilter :=
  tmp ← json_string p;
  if isValidWildCard tmp then Ok (mkSegment (Some tmp) None)
  else out ← ScVal_UnmarshalBase64 tmp; Ok (mkSegment None (Some out)).

Definition SegmentFilter_MarshalJSON (s : SegmentFilter) : go json :=
  _ ← check (SegmentFilter_Valid s);
  match Wildcard s with
  | Some w => Ok (JStr w)
  | None =>
      match SegScVal s with
      | Some v => scv ← ScVal_MarshalBase64 v; Ok (JStr scv)
      | None => Panic "nil pointer dereference"
      end
  end.

Definition is_zero_or_more (s : SegmentFilter) : bool :=
  match Wildcard s with Some w => String.eqb w WildCardZeroOrMore | None => false end.

Definition hasTrailingZeroOrMoreWildcard (t : TopicFilter) : bool :=
  if (length t =? 0)%nat then false
  else match last t with Some s => is_zero_or_more s | None => false end.

(** First segment whose validation fails, with its index. *)
Fixpoint first_invalid (i : Z) (l : list SegmentFilter) : option (Z * err) :=
  match l with
  | [] => None
  | s :: l' => match SegmentFilter_Valid s with
               | Some e => Some (i, e)
               | None => first_invalid (i + 1) l'
               end
  end.

Definition TopicFilter_Valid (t : TopicFilter) : option err :=
  if zlen t <? MinTopicCount
  then Some (EFmt "topic must have at least %d segment" [FZ MinTopicCount])
  else
    let topics := if hasTrailingZeroOrMoreWildcard t then but_last t else t in
    match find_index is_zero_or_more 0 topics with
    | Some (i, _) =>
        Some (EFmt "segment %d invalid: wildcard '**' is only allowed as the last segment"
                [FZ (i + 1)])
    | None =>
        if MaxTopicCount <? zlen topics
        then Some (EFmt "topic cannot have more than %d segments" [FZ MaxTopicCount])
        else match first_invalid 0 topics with
             | Some (i, e) => Some (EWrap "segment %d invalid: %w" [FZ (i + 1)] e)
             | None => None
             end
    end.

(** The loop over the segments, reading the event's topic at the same index. *)
Fixpoint match_segments (i : Z) (topics : list SegmentFilter) (event : list ScVal) : go bool :=
  match topics with
  | [] => Ok true
  | s :: topics' =>
      seg ← go_index event i;
      m ← SegmentFilter_Matches s seg;
      if negb m then Ok false else match_segments (i + 1) topics' event
  end.

Definition TopicFilter_Matches (t : TopicFilter) (event : list ScVal) : go bool :=
  if hasTrailingZeroOrMoreWildcard t then
    if zlen event <? zlen t - 1 then Ok false
    else match_segments 0 (but_last t) event
  else if negb (zlen event =? zlen t) then Ok false
  else match_segments 0 t event.

(** *** What a topic filter means

    A segment accepts a value when it is a wildcard or holds an equal value; a
    filter [pre ++ [**]] accepts the lists with a prefix accepted pointwise by
    [pre], any other filter the lists accepted pointwise. *)
Definition segment_accepts (s : SegmentFilter) (v : ScVal) : Prop :=
  Wildcard s = Some WildCardExactOne \/ Wildcard s = Some WildCardZeroOrMore \/
  exists w, SegScVal s = Some w /\ ScVal_Equals w v = true.

Definition topic_accepts (t : TopicFilter) (event : list ScVal) : Prop :=
  (exists pre last, t = pre ++ [last] /\ is_zero_or_more last = true /\
     exists front rest, event = front ++ rest /\ Forall2 segment_accepts pre front) \/
  ((forall pre last, t = pre ++ [last] -> is_zero_or_more last = false) /\
   Forall2 segment_accepts t event).

Lemma isValidWildCard_iff w : isValidWildCard w = true <->
  w = WildCardExactOne \/ w = WildCardZeroOrMore.
Proof. unfold isValidWildCard. by rewrite orb_true_iff, !String.eqb_eq. Qed.

Lemma SegmentFilter_Matches_spec s v : SegmentFilter_Valid s = None ->
  exists b, SegmentFilter_Matches s v = Ok b /\ (b = true <-> segment_accepts s v).
Proof.
  unfold SegmentFilter_Valid, SegmentFilter_Matches, segment_accepts.
  destruct s as [[w|] [x|]]; simpl; try done.
  - intros H. pose proof (isValidWildCard_iff w) as Hw.
    destruct (isValidWildCard w); [|done]. exists true. split; [done|].
    split; [|done]. intros _. destruct Hw as [[->| ->] _]; eauto.
  - intros _. destruct (ScVal_Equals x v) eqn:E; eexists; (split; [reflexivity|]).
    + split; eauto.
    + split; [done|]. intros [|[|(y & [= ->] & ?)]]; congruence.
Qed.

Lemma match_segments_shift topics i x event : 0 <= i ->
  match_segments (i + 1) topics (x :: event) = match_segments i topics event.
Proof.
  revert i. induction topics as [|s topics IH]; intros i Hi; simpl; [done|].
  unfold go_index. replace (Z.to_nat (i + 1)) with (S (Z.to_nat i)) by lia.
  destruct (Z.ltb_spec (i + 1) 0); [lia|]. destruct (Z.ltb_spec i 0); [lia|]. simpl.
  destruct (event !! Z.to_nat i); simpl; [|done].
  destruct (SegmentFilter_Matches s s0) as [[]| |]; simpl; try done. apply IH. lia.
Qed.

Lemma match_segments_spec topics event :
  Forall (fun s => SegmentFilter_Valid s = None) topics ->
  (length topics <= length event)%nat ->
  exists b, match_segments 0 topics event = Ok b /\
    (b = true <-> Forall2 segment_accepts topics (take (length topics) event)).
Proof.
  intros HF. revert event. induction HF as [|s topics Hs HF IH]; intros event Hlen.
  { exists true. simpl. split; [done|]. rewrite take_0. split; [constructor | done]. }
  destruct event as [|v event]; [simpl in Hlen; lia|].
  destruct (IH event) as (b & Hb & Hspec); [simpl in Hlen; lia|].
  destruct (SegmentFilter_Matches_spec s v Hs) as (m & Hm & Hms).
  cbn [match_segments]. change (go_index (v :: event) 0) with (Ok v). cbn [mbind go_bind].
  rewrite Hm. cbn [mbind go_bind]. destruct m; cbn [negb].
  - change (0 + 1) with (0 + 1). rewrite match_segments_shift by lia. exists b. split; [done|].
    simpl. rewrite Hspec, Forall2_cons. naive_solver.
  - exists false. split; [done|]. simpl. rewrite Forall2_cons.
    split; [done|]. intros [H _]. by apply Hms in H.
Qed.

Lemma first_invalid_None i l :
  first_invalid i l = None <-> Forall (fun s => SegmentFilter_Valid s = None) l.
Proof.
  revert i. induction l as [|s l IH]; intros i; simpl; [split; auto|].
  destruct (SegmentFilter_Valid s) eqn:E.
  - split; [done|]. inversion 1; congruence.
  - rewrite IH. split; [by constructor | by inversion 1].
Qed.

Lemma hasTrailing_snoc pre last :
  hasTrailingZeroOrMoreWildcard (pre ++ [last]) = is_zero_or_more last.
Proof.
  unfold hasTrailingZeroOrMoreWildcard. rewrite length_app, last_snoc. simpl.
  by rewrite Nat.add_1_r.
Qed.

Lemma is_zero_or_more_valid s : is_zero_or_more s = true -> Wildcard s = Some WildCardZeroOrMore.
Proof.
  unfold is_zero_or_more. destruct (Wildcard s); [|done]. by intros ->%String.eqb_eq.
Qed.

(** Shape of a valid filter: between one and four valid segments, no [**] among
    them, possibly followed by one [**]. *)
Lemma TopicFilter_Valid_shape t : TopicFilter_Valid t = None ->
  exists topics, Forall (fun s => SegmentFilter_Valid s = None) topics /\
    Forall (fun s => is_zero_or_more s = false) topics /\
    (length topics <= 4)%nat /\
    (t = topics \/ exists last, t = topics ++ [last] /\ is_zero_or_more last = true) /\ t <> [].
Proof.
  unfold TopicFilter_Valid, zlen, MinTopicCount, MaxTopicCount.
  destruct (Z.ltb_spec (Z.of_nat (length t)) 1) as [|Hlen]; [done|].
  set (topics := if hasTrailingZeroOrMoreWildcard t then but_last t else t).
  destruct (find_index _ 0 topics) as [[]|] eqn:Ei; [done|].
  destruct (Z.ltb_spec 4 (Z.of_nat (length topics))) as [|H4]; [done|].
  destruct (first_invalid 0 topics) as [[]|] eqn:Ev; [done|]. intros _.
  exists topics. apply find_index_None in Ei. apply first_invalid_None in Ev.
  split_and!; try done; [lia| | by destruct t].
  subst topics. destruct (hasTrailingZeroOrMoreWildcard t) eqn:Et; [right|by left].
  destruct t as [|last pre _] using rev_ind; [simpl in Hlen; lia|].
  rewrite hasTrailing_snoc in Et. rewrite but_last_app. eauto.
Qed.

Lemma TopicFilter_Matches_spec t event : TopicFilter_Valid t = None ->
  exists b, TopicFilter_Matches t event = Ok b /\ (b = true <-> topic_accepts t event).
Proof.
  intros Hv. destruct (TopicFilter_Valid_shape t Hv) as (topics & HF & HZ & H4 & Ht & Hne).
  unfold TopicFilter_Matches, topic_accepts, zlen.
  destruct Ht as [-> | (lst & -> & Hlast)].
  - assert (hasTrailingZeroOrMoreWildcard topics = false) as ->.
    { destruct topics as [|l pre _] using rev_ind; [done|]. rewrite hasTrailing_snoc.
      apply Forall_app in HZ as [_ HZ]. by inversion HZ. }
    assert (forall pre last, topics = pre ++ [last] -> is_zero_or_more last = false) as Hnot.
    { intros pre last ->. apply Forall_app in HZ as [_ HZ]. by inversion HZ. }
    destruct (Z.eqb_spec (Z.of_nat (length event)) (Z.of_nat (length topics))) as [El|El];
      cbn [negb].
    + destruct (match_segments_spec topics event HF) as (b & -> & Hb); [lia|].
      exists b. split; [done|]. rewrite Hb, firstn_all2 by lia.
      split; [intros; right; eauto|].
      intros [(pre & l & E & Hl & _)|[_ ?]]; [|done]. rewrite (Hnot _ _ E) in Hl. done.
    + exists false. split; [done|]. split; [done|].
      intros [(pre & l & E & Hl & _)|[_ H2]]; [by rewrite (Hnot _ _ E) in Hl|].
      apply Forall2_length in H2. lia.
  - rewrite hasTrailing_snoc, Hlast, length_app, but_last_app. simpl length.
    destruct (Z.ltb_spec (Z.of_nat (length event)) (Z.of_nat (length topics + 1) - 1)) as [Hlt|Hge].
    + exists false. split; [done|]. split; [done|].
      intros [(pre & l & E & Hl & front & rest & -> & H2)|[Hno _]].
      * apply app_inj_tail in E as [<- <-]. apply Forall2_length in H2.
        rewrite length_app in Hlt. lia.
      * by rewrite (Hno _ _ eq_refl) in Hlast.
    + destruct (match_segments_spec topics event HF) as (b & -> & Hb); [lia|].
      exists b. split; [done|]. rewrite Hb. split.
      * intros H2. left. exists topics, lst. split_and!; [done|done|].
        exists (take (length topics) event), (drop (length topics) event).
        by rewrite take_drop.
      * intros [(pre & l & E & Hl & front & rest & -> & H2)|[Hno _]].
        -- apply app_inj_tail in E as [<- <-]. pose proof (Forall2_length _ _ _ H2) as Hl2.
           by rewrite Hl2, take_app_length.
        -- by rewrite (Hno _ _ eq_refl) in Hlast.
Qed.
End Topics.

(** ** Filters and the [getEvents] request *)

Section Request.
Context `{T : Toid} `{K : Strkey} `{V : ScVals} `{X : XdrConsts}.

Record EventFilter := mkFilter {
  EventType : EventTypeSet;
  ContractIDs : list string;
  Topics : list TopicFilter;
}.

Record PaginationOptions := mkPagination { PCursor : option Cursor; PLimit : Z }.

Record GetEventsRequest := mkGetEvents {
  StartLedger : Z;
  EndLedger : Z;
  Filters : list EventFilter;
  Pagination : option PaginationOptions;
  Format : string;
}.

(** First topic filter that is invalid, with its index. *)
Fixpoint first_invalid_topic (i : Z) (l : list TopicFilter) : option (Z * err) :=
  match l with
  | [] => None
  | t :: l' => match TopicFilter_Valid t with
               | Some e => Some (i, e)
               | None => first_invalid_topic (i + 1) l'
               end
  end.

Definition EventFilter_Valid (e : EventFilter) : option err :=
  match EventTypeSet_valid (EventType e) with
  | Some er => Some (EWrap "filter type invalid: %w" [] er)
  | None =>
      if MaxContractIDsLimit <? zlen (ContractIDs e)
      then Some (ENew "maximum 5 contract IDs per filter")
      else if MaxTopicsLimit <? zlen (Topics e)
      then Some (ENew "maximum 5 topics per filter")
      else match find_index (fun id => negb (is_ok (strkey_Decode id))) 0 (ContractIDs e) with
           | Some (i, _) => Some (EFmt "contract ID %d invalid" [FZ (i + 1)])
           | None =>
               match first_invalid_topic 0 (Topics e) with
               | Some (i, er) => Some (EWrap "topic %d invalid: %w" [FZ (i + 1)] er)
               | None => None
               end
           end
  end.

Fixpoint first_invalid_filter (i : Z) (l : list EventFilter) : option (Z * err) :=
  match l with
  | [] => None
  | f :: l' => match EventFilter_Valid f with
               | Some e => Some (i, e)
               | None => first_invalid_filter (i + 1) l'
               end
  end.

Definition has_cursor (g : GetEventsRequest) : bool :=
  match Pagination g with
  | Some p => match PCursor p with Some _ => true | None => false end
  | None => false
  end.

Definition GetEventsRequest_Valid (g : GetEventsRequest) (maxLimit : Z) : option err :=
  match IsValidFormat (Format g) with
  | Some e => Some e
  | None =>
      let page :=
        if has_cursor g then
          if negb (StartLedger g =? 0) || negb (EndLedger g =? 0)
          then Some (ENew "ledger ranges and cursor cannot both be set") else None
        else if StartLedger g <=? 0 then Some (ENew "startLedger must be positive")
        else None in
      match page with
      | Some e => Some e
      | None =>
          if match Pagination g with Some p => maxLimit <? PLimit p | None => false end
          then Some (EFmt "limit must not exceed %d" [FZ maxLimit])
          else if MaxFiltersLimit <? zlen (Filters g)
          then Some (ENew "maximum 5 filters per request")
          else match first_invalid_filter 0 (Filters g) with
               | Some (i, e) => Some (EWrap "filter %d invalid: %w" [FZ (i + 1)] e)
               | None => None
               end
      end
  end.

Definition matchesContractIDs (e : EventFilter) (event : ContractEvent) : go bool :=
  if (length (ContractIDs e) =? 0)%nat then Ok true
  else match ContractId event with
       | None => Ok false
       | Some id =>
           (* MustEncode panics when Encode fails *)
           match strkey_Encode id with
           | Ok needle => Ok (existsb (fun s => String.eqb s needle) (ContractIDs e))
           | _ => Panic "strkey.MustEncode"
           end
       end.

(** [for ... { if Matches { return true } }; return false] *)
Fixpoint any_match {A} (f : A -> go bool) (l : list A) : go bool :=
  match l with
  | [] => Ok false
  | x :: l' => m ← f x; if (m : bool) then Ok true else any_match f l'
  end.

Definition matchesTopics (e : EventFilter) (event : ContractEvent) : go bool :=
  if (length (Topics e) =? 0)%nat then Ok true
  else match BodyV0 event with
       | None => Ok false
       | Some (topics, _) => any_match (fun t => TopicFilter_Matches t topics) (Topics e)
       end.

(** [a && b && c], evaluated left to right. *)
Definition EventFilter_Matches (e : EventFilter) (event : DiagnosticEvent) : go bool :=
  if negb (EventTypeSet_matches (EventType e) (Event_of event)) then Ok false
  else c ← matchesContractIDs e (Event_of event);
       if negb c then Ok false else matchesTopics e (Event_of event).

Definition Matches (g : GetEventsRequest) (event : DiagnosticEvent) : go bool :=
  if (length (Filters g) =? 0)%nat then Ok true
  else any_match (fun f => EventFilter_Matches f event) (Filters g).

(** *** What a filter means *)

Definition types_accept (e : EventTypeSet) (event : ContractEvent) : Prop :=
  e = ∅ \/ default ""%string (GetEventTypeFromEventTypeXDR (EventTypeXDR event)) ∈ e.

Definition contracts_accept (ids : list string) (event : ContractEvent) : Prop :=
  ids = [] \/ exists id s, ContractId event = Some id /\ strkey_Encode id = Ok s /\ s ∈ ids.

Definition topics_accept (ts : list TopicFilter) (event : ContractEvent) : Prop :=
  ts = [] \/ exists topics data t, BodyV0 event = Some (topics, data) /\ t ∈ ts /\
                                   topic_accepts t topics.

Definition filter_accepts (e : EventFilter) (event : ContractEvent) : Prop :=
  types_accept (EventType e) event /\ contracts_accept (ContractIDs e) event /\
  topics_accept (Topics e) event.

Definition request_accepts (fs : list EventFilter) (event : ContractEvent) : Prop :=
  fs = [] \/ exists f, f ∈ fs /\ filter_accepts f event.

(** Events as Core emits them: a contract ID, if any, is 32 bytes. *)
Definition event_ok (event : ContractEvent) : Prop :=
  match ContractId event with Some id => String.length id = 32%nat | None => True end.

Lemma any_match_spec {A} (f : A -> go bool) (P : A -> Prop) l :
  Forall (fun x => exists b, f x = Ok b /\ (b = true <-> P x)) l ->
  exists b, any_match f l = Ok b /\ (b = true <-> exists x, x ∈ l /\ P x).
Proof.
  induction 1 as [|x l (b & Hb & HP) HF (b' & IH & IHP)]; simpl.
  - exists false. split; [done|]. split; [done|]. intros (x & Hx & _).
    by apply not_elem_of_nil in Hx.
  - rewrite Hb. cbn. destruct b.
    + exists true. split; [done|]. split; [|done]. intros _. exists x.
      split; [by left | by apply HP].
    + exists b'. split; [done|]. rewrite IHP. split.
      * intros (y & Hy & Py). exists y. split; [by right | done].
      * intros (y & [->|Hy]%elem_of_cons & Py); [by apply HP in Py | by exists y].
Qed.

Lemma first_invalid_topic_None i l :
  first_invalid_topic i l = None <-> Forall (fun t => TopicFilter_Valid t = None) l.
Proof.
  revert i. induction l as [|s l IH]; intros i; simpl; [split; auto|].
  destruct (TopicFilter_Valid s) eqn:E.
  - split; [done|]. inversion 1; congruence.
  - rewrite IH. split; [by constructor | by inversion 1].
Qed.

Lemma first_invalid_filter_None i l :
  first_invalid_filter i l = None <-> Forall (fun f => EventFilter_Valid f = None) l.
Proof.
  revert i. induction l as [|s l IH]; intros i; simpl; [split; auto|].
  destruct (EventFilter_Valid s) eqn:E.
  - split; [done|]. inversion 1; congruence.
  - rewrite IH. split; [by constructor | by inversion 1].
Qed.

(** What validation establishes for a filter. *)
Lemma EventFilter_Valid_inv e : EventFilter_Valid e = None ->
  Forall (fun k => k = EventTypeSystem \/ k = EventTypeContract \/ k = EventTypeDiagnostic)
         (elements (EventType e)) /\
  (length (ContractIDs e) <= 5)%nat /\ (length (Topics e) <= 5)%nat /\
  Forall (fun id => is_ok (strkey_Decode id) = true) (ContractIDs e) /\
  Forall (fun t => TopicFilter_Valid t = None) (Topics e).
Proof.
  unfold EventFilter_Valid, EventTypeSet_valid, MaxContractIDsLimit, MaxTopicsLimit, zlen.
  destruct (forallb _ _) eqn:E1; [|done].
  destruct (Z.ltb_spec 5 (Z.of_nat (length (ContractIDs e)))); [done|].
  destruct (Z.ltb_spec 5 (Z.of_nat (length (Topics e)))); [done|].
  destruct (find_index _ 0 _) as [[]|] eqn:E2; [done|].
  destruct (first_invalid_topic 0 _) as [[]|] eqn:E3; [done|]. intros _.
  apply forallb_Forall in E1. apply find_index_None in E2. apply first_invalid_topic_None in E3.
  split_and!; try done; try lia.
  - eapply Forall_impl; [exact E1|]. simpl. intros k Hk.
    rewrite !orb_true_iff, !String.eqb_eq in Hk. naive_solver.
  - eapply Forall_impl; [exact E2|]. simpl. intros k Hk. by destruct (is_ok _).
Qed.

Lemma GetEventsRequest_Valid_filters g m : GetEventsRequest_Valid g m = None ->
  (length (Filters g) <= 5)%nat /\ Forall (fun f => EventFilter_Valid f = None) (Filters g).
Proof.
  unfold GetEventsRequest_Valid, MaxFiltersLimit, zlen.
  destruct (IsValidFormat _); [done|]. cbn zeta.
  destruct (if has_cursor g then _ else _); [done|].
  destruct (match Pagination g with Some _ => _ | None => _ end); [done|].
  destruct (Z.ltb_spec 5 (Z.of_nat (length (Filters g)))); [done|].
  destruct (first_invalid_filter 0 _) as [[]|] eqn:E; [done|]. intros _.
  apply first_invalid_filter_None in E. split; [lia | done].
Qed.

Lemma EventTypeSet_matches_spec e event :
  EventTypeSet_matches e event = true <-> types_accept e event.
Proof.
  unfold EventTypeSet_matches, types_accept. destruct (decide (e = ∅)); [naive_solver|].
  rewrite bool_decide_eq_true. naive_solver.
Qed.

Context `{KL : !StrkeyLaws K}.

Lemma matchesContractIDs_spec e event : event_ok event ->
  exists b, matchesContractIDs e event = Ok b /\
    (b = true <-> contracts_accept (ContractIDs e) event).
Proof.
  intros Hok. unfold matchesContractIDs, contracts_accept, event_ok in *.
  destruct (ContractIDs e) as [|c ids]; simpl (length _ =? 0)%nat; cbn iota.
  { exists true. naive_solver. }
  destruct (ContractId event) as [id|].
  - destruct (strkey_enc_32 id Hok) as (s & Hs). rewrite Hs. eexists. split; [done|].
    rewrite existsb_Exists, list.Exists_exists. split.
    + intros (x & Hx & ->%String.eqb_eq). right. eauto.
    + intros [|(? & s' & [= <-] & Hs' & Hin)]; [done|].
      rewrite Hs in Hs'. injection Hs' as <-. exists s. split; [done|]. apply String.eqb_refl.
  - exists false. split; [done|]. naive_solver.
Qed.

Lemma matchesTopics_spec e event : EventFilter_Valid e = None ->
  exists b, matchesTopics e event = Ok b /\ (b = true <-> topics_accept (Topics e) event).
Proof.
  intros (_ & _ & _ & _ & HT)%EventFilter_Valid_inv.
  unfold matchesTopics, topics_accept.
  destruct (Topics e) as [|t ts]; simpl (length _ =? 0)%nat; cbn iota.
  { exists true. naive_solver. }
  destruct (BodyV0 event) as [[topics data]|].
  - destruct (any_match_spec (fun t => TopicFilter_Matches t topics)
      (fun t => topic_accepts t topics) (t :: ts)) as (b & Hb & HP).
    { eapply Forall_impl; [exact HT|]. intros x Hx. by apply TopicFilter_Matches_spec. }
    exists b. split; [exact Hb|]. rewrite HP. split.
    + intros (x & Hx & HA). right. eauto 10.
    + intros [|(? & ? & x & [= <- <-] & Hx & HA)]; [done | eauto].
  - exists false. split; [done|]. naive_solver.
Qed.

Lemma EventFilter_Matches_spec e event : EventFilter_Valid e = None -> event_ok (Event_of event) ->
  exists b, EventFilter_Matches e event = Ok b /\
    (b = true <-> filter_accepts e (Event_of event)).
Proof.
  intros Hv Hok. unfold EventFilter_Matches, filter_accepts.
  pose proof (EventTypeSet_matches_spec (EventType e) (Event_of event)) as Ht.
  destruct (EventTypeSet_matches _ _); cbn [negb].
  - destruct (matchesContractIDs_spec e (Event_of event) Hok) as (c & -> & Hc).
    destruct (matchesTopics_spec e (Event_of event) Hv) as (m & Hm & Hms). cbn [mbind go_bind].
    destruct c; cbn [negb]; [rewrite Hm|]; eexists; (split; [done|]); naive_solver.
  - exists false. split; [done|]. naive_solver.
Qed.

Lemma Matches_spec g maxLimit event :
  GetEventsRequest_Valid g maxLimit = None -> event_ok (Event_of event) ->
  exists b, Matches g event = Ok b /\
    (b = true <-> request_accepts (Filters g) (Event_of event)).
Proof.
  intros [_ HF]%GetEventsRequest_Valid_filters Hok. unfold Matches, request_accepts.
  destruct (Filters g) as [|f fs]; simpl (length _ =? 0)%nat; cbn iota.
  { exists true. naive_solver. }
  destruct (any_match_spec (fun f => EventFilter_Matches f event)
    (fun f => filter_accepts f (Event_of event)) (f :: fs)) as (b & Hb & HP).
  { eapply Forall_impl; [exact HF|]. intros x Hx. by apply EventFilter_Matches_spec. }
  exists b. split; [exact Hb|]. rewrite HP. naive_solver.
Qed.

(** C22: For a request that passes validation, matching an event never panics and
    accepts exactly the events the filters describe: any event without filters,
    otherwise one whose type is in the set of some filter, whose contract is among
    its contracts, if any, and whose topics fit one of its topic patterns, if any:
    position by position, up to a trailing wildcard for any rest. *)
Theorem matching_decides g maxLimit event :
  GetEventsRequest_Valid g maxLimit = None -> event_ok (Event_of event) ->
  Matches g event = Ok true /\ request_accepts (Filters g) (Event_of event) \/
  Matches g event = Ok false /\ ~ request_accepts (Filters g) (Event_of event).
Proof.
  intros Hv Hok. destruct (Matches_spec g maxLimit event Hv Hok) as ([|] & Hm & Hb); [left|right]; naive_solver.
Qed.
End Request.

(** ** The JSON forms *)

Section Json.
Context `{V : ScVals} `{!ScValsLaws V}.

Lemma segment_json s j : SegmentFilter_MarshalJSON s = Ok j -> SegmentFilter_UnmarshalJSON j = Ok s.
Proof.
  unfold SegmentFilter_MarshalJSON. intros H. apply go_bind_ok in H as ([] & Hv%check_ok & H).
  unfold SegmentFilter_Valid in Hv. destruct s as [[w|] [v|]]; simpl in *; try done.
  - injection H as <-. unfold SegmentFilter_UnmarshalJSON. simpl. by destruct (isValidWildCard w).
  - apply go_bind_ok in H as (b & Hb & [= <-]). unfold SegmentFilter_UnmarshalJSON. cbn [json_string mbind go_bind].
    destruct (isValidWildCard b) eqn:Ew.
    + apply scval_base64_alphabet in Hb. apply isValidWildCard_iff in Ew as [-> | ->]; done.
    + by rewrite (scval_base64 _ _ Hb).
Qed.

Lemma valid_keys (e : EventTypeSet) : EventTypeSet_valid e = None ->
  Forall (fun k => k = EventTypeSystem \/ k = EventTypeContract \/ k = EventTypeDiagnostic) (elements e).
Proof.
  unfold EventTypeSet_valid. destruct (forallb _ _) eqn:H; [|done]. intros _.
  apply forallb_Forall in H. eapply Forall_impl; [exact H|]. intros k. simpl. rewrite !orb_true_iff, !String.eqb_eq. naive_solver.
Qed.

(** The JSON forms of filters read back: a segment that has a form reads back as
    itself, and a valid set of event types does from its keys listed in
    whatever order the map is visited. *)
Theorem filter_json_roundtrip :
  (forall s j, SegmentFilter_MarshalJSON s = Ok j -> SegmentFilter_UnmarshalJSON j = Ok s) /\
  (forall (e : EventTypeSet) keys, EventTypeSet_valid e = None -> keys ≡ₚ EventTypeSet_Keys e ->
     EventTypeSet_UnmarshalJSON (Some (EventTypeSet_MarshalJSON keys)) = Ok e).
Proof.
  split; [apply segment_json|].
  intros e keys Hv%valid_keys Hk. unfold EventTypeSet_Keys in Hk. rewrite <- Hk in Hv.
  assert (list_to_set keys = e) as He by (apply set_eq; intros x; by rewrite elem_of_list_to_set, Hk, elem_of_elements).
  unfold EventTypeSet_UnmarshalJSON, EventTypeSet_MarshalJSON. cbn [json_string mbind go_bind].
  destruct keys as [|k keys]; [cbn; by rewrite <- He|].
  assert (String.length (Join "," (k :: keys)) =? 0 = false)%nat as ->.
  { inversion Hv as [|? ? Hk0]; subst. destruct keys; cbn; destruct Hk0 as [-> |[-> | ->]]; done. }
  rewrite Split_Join; [by rewrite He|done|]. eapply Forall_impl; [exact Hv|]. by intros x [-> |[-> | ->]].
Qed.
End Json.

Lemma filter_json_roundtrip_witness :
  (forall s j, SegmentFilter_MarshalJSON (V := toy_scvals) s = Ok j -> SegmentFilter_UnmarshalJSON j = Ok s) /\
  (forall (e : EventTypeSet) keys, EventTypeSet_valid e = None -> keys ≡ₚ EventTypeSet_Keys e ->
     EventTypeSet_UnmarshalJSON (Some (EventTypeSet_MarshalJSON keys)) = Ok e).
Proof. apply filter_json_roundtrip. Defined.

(** One filter for events of contracts with the topics x and anything. *)
Definition sample_filter : EventFilter (V := toy_scvals) :=
  mkFilter {["contract"%string]} [] [[mkSegment None (Some "x"%string); mkSegment (Some WildCardExactOne) None]].
Definition sample_filter_request : GetEventsRequest (V := toy_scvals) := mkGetEvents 7 0 [sample_filter] None "".
Definition sample_filter_event (topic : string) : DiagnosticEvent (V := toy_scvals) :=
  mkDiagnosticEvent true (mkContractEvent None 1 (Some ([topic; "y"%string], "data"%string))).
Lemma matching_decides_witness :
  Matches sample_filter_request (sample_filter_event "x") = Ok true /\
    request_accepts (Filters sample_filter_request) (Event_of (sample_filter_event "x")) \/
  Matches sample_filter_request (sample_filter_event "x") = Ok false /\
    ~ request_accepts (Filters sample_filter_request) (Event_of (sample_filter_event "x")).
Proof. apply (matching_decides sample_filter_request 100); vm_compute; (reflexivity || exact I). Defined.
