(* ===== verification/BucketWindow.v ===== *)
(** * The ledger bucket window: [internal/ledgerbucketwindow]

    A circular buffer of the last [retentionWindow] ledgers' buckets.  The
    component promises a bounded queue of consecutive ledgers ([window_view]);
    [BucketWindow] is that promise as an interface and [LedgerBucketWindow]
    implements it. *)

From S2P Require Import Prelude GoStd Protocol.

Section Window.
Context {A : Type}.

Record LedgerBucket := mkBucket {
  LedgerSeq : Z;
  LedgerCloseTimestamp : Z;
  BucketContent : A;
}.

(** [wcap] is [cap(buckets)]: the slice is made with that capacity and only
    appended to below it, so it is never reallocated. *)
Record LedgerBucketWindow := mkWindow {
  buckets : list LedgerBucket;
  start : Z;
  wcap : Z;
}.

Definition NewLedgerBucketWindow (retentionWindow : Z) : LedgerBucketWindow :=
  mkWindow [] 0 retentionWindow.

Definition Len (w : LedgerBucketWindow) : Z := u32 (zlen (buckets w)).

Definition not_contiguous (expected got : Z) : err :=
  EFmt "error appending ledgers: ledgers not contiguous: expected ledger sequence %v but received %v"
    [FZ expected; FZ got].

(** [buckets[i] = b], a run-time panic out of range. *)
Definition set_bucket (l : list LedgerBucket) (i : Z) (b : LedgerBucket) : go (list LedgerBucket) :=
  _ ← go_index l i; Ok (<[Z.to_nat i := b]> l).

Definition Append (w : LedgerBucketWindow) (bucket : LedgerBucket) :
    go (LedgerBucketWindow * option LedgerBucket) :=
  let length := Len w in
  _ ← (if 0 <? length then
         head ← go_index (buckets w) (start w);
         let expected := u32 (LedgerSeq head + length) in
         if negb (expected =? LedgerSeq bucket)
         then Er (not_contiguous expected (LedgerSeq bucket)) else Ok tt
       else Ok tt);
  if length <? u32 (wcap w) then
    Ok (mkWindow (buckets w ++ [bucket]) (start w) (wcap w), None)
  else
    saved ← go_index (buckets w) (start w);
    bs ← set_bucket (buckets w) (start w) bucket;
    if length =? 0 then Panic "integer divide by zero"
    else Ok (mkWindow bs (u32 (start w + 1) mod length) (wcap w), Some saved).

Definition Get (w : LedgerBucketWindow) (i : Z) : go LedgerBucket :=
  let length := Len w in
  if length <=? i then Panic "index out of range"
  else go_index (buckets w) (u32 (start w + i) mod length).

Record LedgerInfo := mkInfo { Sequence : Z; CloseTime : Z }.
Record LedgerRange := mkRange { RFirst : LedgerInfo; RLast : LedgerInfo }.
Definition zero_info : LedgerInfo := mkInfo 0 0.
Definition zero_range : LedgerRange := mkRange zero_info zero_info.

Definition ToLedgerSeqRange (lr : LedgerRange) : LedgerSeqRange :=
  mkLSR (Sequence (RFirst lr)) (Sequence (RLast lr)).

Definition GetLedgerRange (w : LedgerBucketWindow) : go LedgerRange :=
  let length := Len w in
  if length =? 0 then Ok zero_range
  else
    firstBucket ← Get w 0;
    lastBucket ← Get w (u32 (length - 1));
    Ok (mkRange (mkInfo (LedgerSeq firstBucket) (LedgerCloseTimestamp firstBucket))
                (mkInfo (LedgerSeq lastBucket) (LedgerCloseTimestamp lastBucket))).

(** ** The queue a window represents *)

Definition window_view (w : LedgerBucketWindow) : list LedgerBucket :=
  drop (Z.to_nat (start w)) (buckets w) ++ take (Z.to_nat (start w)) (buckets w).

(** Consecutive ledger sequences, modulo the width of the counter. *)
Definition contiguous (l : list LedgerBucket) : Prop :=
  forall i a b, l !! i = Some a -> l !! S i = Some b ->
    LedgerSeq b = u32 (LedgerSeq a + 1).

(** The representation invariant. Capacities are kept below 2^31 so that
    [start + i] does not wrap. *)
Record window_ok (w : LedgerBucketWindow) : Prop := {
  wo_cap : 0 < wcap w < 2147483648;
  wo_len : zlen (buckets w) <= wcap w;
  wo_start : 0 <= start w;
  wo_start_lt : start w = 0 \/ (start w < wcap w /\ zlen (buckets w) = wcap w);
  wo_seq : Forall (fun b => is_u32 (LedgerSeq b)) (buckets w);
  wo_contig : contiguous (window_view w);
}.

(** What appending does to the queue. *)
Definition view_append (cap : nat) (l : list LedgerBucket) (b : LedgerBucket) :
    list LedgerBucket :=
  if (length l <? cap)%nat then l ++ [b] else tail l ++ [b].

Lemma window_ok_new r : 0 < r < 2147483648 -> window_ok (NewLedgerBucketWindow r).
Proof.
  intros. constructor; unfold zlen; simpl; [lia | lia | lia | by left | constructor |].
  intros i a b Hi. done.
Qed.

Lemma Len_ok w : window_ok w -> Len w = zlen (buckets w).
Proof.
  intros [? ? ? ? ? ?]. unfold Len, zlen in *. apply u32_small. unfold is_u32. lia.
Qed.

Lemma length_window_view w : length (window_view w) = length (buckets w).
Proof. unfold window_view. rewrite length_app, length_drop, length_take. lia. Qed.

(** Reading the circular buffer is reading the queue. *)
Lemma view_lookup w i : window_ok w -> 0 <= i < zlen (buckets w) ->
  window_view w !! Z.to_nat i =
  buckets w !! Z.to_nat ((start w + i) mod zlen (buckets w)).
Proof.
  intros [? ? ? Hs ? ?] Hi. unfold window_view, zlen in *.
  set (n := length (buckets w)) in *. set (s := start w) in *.
  assert (0 <= s < Z.of_nat n \/ s = 0) as Hsn by lia.
  destruct (Z.lt_ge_cases (s + i) (Z.of_nat n)) as [Hlt|Hge].
  - rewrite Z.mod_small by lia. rewrite lookup_app_l by (rewrite length_drop; lia).
    rewrite lookup_drop. f_equal. lia.
  - assert ((s + i) mod Z.of_nat n = s + i - Z.of_nat n) as ->.
    { symmetry. apply Z.mod_unique_pos with 1; lia. }
    rewrite lookup_app_r by (rewrite length_drop; lia).
    rewrite length_drop, lookup_take_lt by lia. f_equal. lia.
Qed.

Lemma Get_view w i : window_ok w -> 0 <= i ->
  Get w i = match window_view w !! Z.to_nat i with
            | Some b => Ok b
            | None => Panic "index out of range"
            end.
Proof.
  intros Hok Hi. unfold Get. rewrite Len_ok by done.
  pose proof Hok as [? ? ? Hs ? ?].
  destruct (Z.leb_spec (zlen (buckets w)) i) as [Hle|Hlt].
  - rewrite lookup_ge_None_2; [done|]. rewrite length_window_view. unfold zlen in *. lia.
  - rewrite view_lookup by done.
    rewrite u32_small by (unfold is_u32, zlen in *; lia).
    unfold go_index. destruct (Z.ltb_spec ((start w + i) mod zlen (buckets w)) 0) as [Hneg|]; [|done].
    pose proof (Z.mod_pos_bound (start w + i) (zlen (buckets w))). lia.
Qed.

(** The queue after overwriting the head and moving [start]. *)
Lemma rotate_view (bs : list LedgerBucket) (s n : nat) b :
  (s < n)%nat -> length bs = n ->
  let s' := Z.to_nat ((Z.of_nat s + 1) mod Z.of_nat n) in
  drop s' (<[s := b]> bs) ++ take s' (<[s := b]> bs) =
  tail (drop s bs ++ take s bs) ++ [b].
Proof.
  intros Hs Hn. simpl.
  destruct (lookup_lt_is_Some_2 bs s) as [x Hx]; [lia|].
  assert (bs = take s bs ++ x :: drop (S s) bs) as Hbs by (symmetry; by apply take_drop_middle).
  assert (drop s bs = x :: drop (S s) bs) as Hd by (by apply drop_S).
  rewrite Hd. cbn [tail app].
  assert (<[s:=b]> bs = take s bs ++ b :: drop (S s) bs) as Hi.
  { rewrite Hbs at 1. rewrite insert_app_r_alt by (rewrite length_take; lia).
    rewrite length_take. replace (s - s `min` length bs)%nat with 0%nat by lia. done. }
  rewrite Hi. clear Hi.
  assert (length (take s bs) = s) as Hlt by (rewrite length_take; lia).
  destruct (decide (S s = n)) as [E|E].
  - replace ((Z.of_nat s + 1) mod Z.of_nat n) with 0
      by (replace (Z.of_nat s + 1) with (Z.of_nat n) by lia; rewrite Z.mod_same; lia).
    simpl. rewrite app_nil_r. rewrite (drop_ge bs (S s)) by lia. done.
  - rewrite Z.mod_small by lia. replace (Z.to_nat (Z.of_nat s + 1)) with (S s) by lia.
    replace (take s bs ++ b :: drop (S s) bs) with ((take s bs ++ [b]) ++ drop (S s) bs)
      by (by rewrite <- app_assoc).
    rewrite drop_app_length', take_app_length' by (rewrite length_app; simpl; lia).
    by rewrite app_assoc.
Qed.

Lemma contiguous_snoc l b : contiguous l ->
  (forall a, last l = Some a -> LedgerSeq b = u32 (LedgerSeq a + 1)) ->
  contiguous (l ++ [b]).
Proof.
  intros Hc Hl i x y Hx Hy.
  destruct (decide (S i < length l)%nat) as [Hlt|Hge].
  - rewrite lookup_app_l in Hx, Hy by lia. by eapply Hc.
  - apply lookup_lt_Some in Hy as Hlt. rewrite length_app in Hlt. simpl in Hlt.
    rewrite lookup_app_l in Hx by lia. rewrite lookup_app_r in Hy by lia.
    replace (S i - length l)%nat with 0%nat in Hy by lia. injection Hy as <-.
    apply Hl. rewrite last_lookup. rewrite <- Hx. f_equal. lia.
Qed.

Lemma contiguous_tail l : contiguous l -> contiguous (tail l).
Proof. destruct l as [|a l]; [done|]. intros Hc i x y Hx Hy. by apply (Hc (S i)). Qed.

Lemma contiguous_nth l i a b : contiguous l -> Forall (fun b => is_u32 (LedgerSeq b)) l ->
  l !! 0%nat = Some a -> l !! i = Some b -> LedgerSeq b = u32 (LedgerSeq a + Z.of_nat i).
Proof.
  intros Hc HF Ha. revert b. induction i as [|i IH]; intros b Hb.
  { rewrite Hb in Ha. injection Ha as ->. rewrite Z.add_0_r, u32_small; [done|].
    rewrite Forall_lookup in HF. by eapply HF. }
  destruct (lookup_lt_is_Some_2 l i) as [c Hc']; [apply lookup_lt_Some in Hb; lia|].
  rewrite (Hc i c b Hc' Hb), (IH c Hc'). unfold u32.
  rewrite Z.add_mod_idemp_l by lia. f_equal. lia.
Qed.

Lemma view_seq w : window_ok w -> Forall (fun b => is_u32 (LedgerSeq b)) (window_view w).
Proof.
  intros [? ? ? ? HF ?]. unfold window_view. apply Forall_app.
  split; [by apply Forall_drop | by apply Forall_take].
Qed.

(** The sequence the next bucket must have. *)
Definition next_seq (l : list LedgerBucket) : option Z :=
  match l with
  | [] => None
  | a :: _ => Some (u32 (LedgerSeq a + zlen l))
  end.

Lemma head_view w : window_ok w -> 0 < zlen (buckets w) ->
  exists h, buckets w !! Z.to_nat (start w) = Some h /\ head (window_view w) = Some h /\
            go_index (buckets w) (start w) = Ok h.
Proof.
  intros Hok Hlen. pose proof Hok as [? ? ? ? ? ?].
  pose proof (view_lookup w 0 Hok ltac:(lia)) as Hv. rewrite Z.add_0_r in Hv.
  assert (start w < zlen (buckets w)) by (unfold zlen in *; lia).
  rewrite Z.mod_small in Hv by lia. change (Z.to_nat 0) with 0%nat in Hv.
  destruct (lookup_lt_is_Some_2 (buckets w) (Z.to_nat (start w))) as [h Hh];
    [unfold zlen in *; lia|].
  exists h. rewrite Hh in Hv. split_and!; [done| |].
  - by rewrite head_lookup.
  - apply go_index_ok. auto.
Qed.

Definition follows (w : LedgerBucketWindow) (b : LedgerBucket) : Prop :=
  forall a, last (window_view w) = Some a -> LedgerSeq b = u32 (LedgerSeq a + 1).

(** A window with room grows at its end. *)
Lemma push_ok w b : window_ok w -> is_u32 (LedgerSeq b) -> zlen (buckets w) < wcap w -> follows w b ->
  let w' := mkWindow (buckets w ++ [b]) (start w) (wcap w) in
  window_ok w' /\ window_view w' = window_view w ++ [b].
Proof.
  intros [Hcap Hlen Hs Hsl HF Hc] Hb Hroom Hlast w'. assert (start w = 0) as Hs0 by lia.
  assert (window_view w = buckets w) as Hv by (unfold window_view; rewrite Hs0; simpl; by rewrite app_nil_r).
  assert (window_view w' = window_view w ++ [b]) as Hv'.
  { rewrite Hv. unfold window_view, w'; simpl; rewrite Hs0; simpl. by rewrite app_nil_r. }
  split; [|done]. subst w'. constructor; simpl; unfold zlen in *; rewrite ?length_app; simpl; try lia.
  - apply Forall_app. split; [done | by constructor].
  - rewrite Hv'. by apply contiguous_snoc.
Qed.

(** A full one overwrites its oldest bucket. *)
Lemma rotate_ok w b : window_ok w -> is_u32 (LedgerSeq b) -> zlen (buckets w) = wcap w -> follows w b ->
  let w' := mkWindow (<[Z.to_nat (start w) := b]> (buckets w)) ((start w + 1) mod zlen (buckets w)) (wcap w) in
  window_ok w' /\ window_view w' = tail (window_view w) ++ [b].
Proof.
  intros [Hcap Hlen Hs Hsl HF Hc] Hb Hfl Hlast w'.
  assert (window_view w' = tail (window_view w) ++ [b]) as Hv'.
  { pose proof (rotate_view (buckets w) (Z.to_nat (start w)) (length (buckets w)) b) as Hr.
    cbn zeta in Hr. rewrite Z2Nat.id in Hr by lia. unfold zlen in *. apply Hr; lia. }
  split; [|done]. subst w'. pose proof (Z.mod_pos_bound (start w + 1) (zlen (buckets w)) ltac:(lia)).
  constructor; simpl; unfold zlen in *; rewrite ?length_insert; try lia.
  - by apply Forall_insert.
  - rewrite Hv'. apply contiguous_snoc; [by apply contiguous_tail|].
    intros a Ha. apply Hlast. destruct (window_view w) as [|x [|y v]]; simpl in *; done.
Qed.

Lemma follows_next w b h : window_ok w -> head (window_view w) = Some h ->
  u32 (LedgerSeq h + zlen (buckets w)) = LedgerSeq b -> follows w b.
Proof.
  intros Hok Hh E a Ha. rewrite last_lookup, length_window_view in Ha. rewrite head_lookup in Hh.
  rewrite (contiguous_nth _ _ h a (wo_contig _ Hok) (view_seq w Hok) Hh Ha), <- E.
  apply lookup_lt_Some in Ha. rewrite length_window_view in Ha.
  unfold u32. rewrite Z.add_mod_idemp_l by lia. f_equal. unfold zlen. lia.
Qed.

(** Appending, in all cases: rejected with the window unchanged when the
    ledger is not the next one, otherwise the queue gains the bucket and, when
    it was full, loses (and returns) its head. *)
Lemma Append_spec w b : window_ok w -> is_u32 (LedgerSeq b) ->
  (exists s, next_seq (window_view w) = Some s /\ s <> LedgerSeq b /\
             Append w b = Er (not_contiguous s (LedgerSeq b))) \/
  ((next_seq (window_view w) = None \/ next_seq (window_view w) = Some (LedgerSeq b)) /\
   exists w' ev, Append w b = Ok (w', ev) /\ window_ok w' /\ wcap w' = wcap w /\
     window_view w' = view_append (Z.to_nat (wcap w)) (window_view w) b /\
     ev = if (length (window_view w) <? Z.to_nat (wcap w))%nat then None
          else head (window_view w)).
Proof.
  intros Hok Hb. pose proof Hok as [Hcap Hlen Hs Hsl _ _].
  unfold Append. rewrite Len_ok by done. rewrite (u32_small (wcap w)) by (unfold is_u32; lia).
  pose proof (length_window_view w) as HL. unfold view_append. rewrite HL.
  assert (follows w b -> exists w' ev,
    (if zlen (buckets w) <? wcap w then Ok (mkWindow (buckets w ++ [b]) (start w) (wcap w), None)
     else saved ← go_index (buckets w) (start w); bs ← set_bucket (buckets w) (start w) b;
          if zlen (buckets w) =? 0 then Panic "integer divide by zero"
          else Ok (mkWindow bs (u32 (start w + 1) mod zlen (buckets w)) (wcap w), Some saved)) = Ok (w', ev) /\
    window_ok w' /\ wcap w' = wcap w /\
    window_view w' = (if (length (buckets w) <? Z.to_nat (wcap w))%nat then window_view w ++ [b] else tail (window_view w) ++ [b]) /\
    ev = if (length (buckets w) <? Z.to_nat (wcap w))%nat then None else head (window_view w)) as Hpush.
  { intros Hlast. destruct (Z.ltb_spec (zlen (buckets w)) (wcap w)) as [Hroom|Hfull]; unfold zlen in *.
    - destruct (Nat.ltb_spec (length (buckets w)) (Z.to_nat (wcap w))); [|lia].
      destruct (push_ok w b Hok Hb Hroom Hlast). by eexists _, _.
    - destruct (Nat.ltb_spec (length (buckets w)) (Z.to_nat (wcap w))); [lia|].
      destruct (head_view w Hok ltac:(unfold zlen; lia)) as (h & _ & Hhd & Hix). unfold set_bucket. rewrite Hix.
      cbn [mbind go_bind]. destruct (Z.eqb_spec (Z.of_nat (length (buckets w))) 0); [lia|].
      rewrite u32_small by (unfold is_u32; lia).
      destruct (rotate_ok w b Hok Hb ltac:(unfold zlen; lia) Hlast). eexists _, _. split; [reflexivity|]. done. }
  destruct (Z.ltb_spec 0 (zlen (buckets w))) as [Hpos|Hzero].
  - destruct (head_view w Hok Hpos) as (h & Hh & Hhd & Hix). rewrite Hix in Hpush |- *. cbn [mbind go_bind].
    assert (next_seq (window_view w) = Some (u32 (LedgerSeq h + zlen (buckets w)))) as ->.
    { destruct (window_view w) as [|x v] eqn:E; [done|]. injection Hhd as <-. simpl. unfold zlen. by rewrite <- HL. }
    destruct (Z.eqb_spec (u32 (LedgerSeq h + zlen (buckets w))) (LedgerSeq b)) as [E|E];
      cbn [negb mbind go_bind]; [right | left; eauto].
    split; [right; congruence|]. exact (Hpush (follows_next w b h Hok Hhd E)).
  - right. assert (window_view w = []) as Hv by (apply length_zero_iff_nil; unfold zlen in *; lia).
    split; [by left; rewrite Hv|]. apply Hpush. intros a. by rewrite Hv.
Qed.

Lemma window_range_spec w : window_ok w ->
  GetLedgerRange w =
  Ok (match head (window_view w), last (window_view w) with
      | Some f, Some l => mkRange (mkInfo (LedgerSeq f) (LedgerCloseTimestamp f))
                                  (mkInfo (LedgerSeq l) (LedgerCloseTimestamp l))
      | _, _ => zero_range
      end).
Proof.
  intros Hok. unfold GetLedgerRange. rewrite Len_ok by done.
  pose proof Hok as [? ? ? ? ? ?]. pose proof (length_window_view w) as HL.
  destruct (Z.eqb_spec (zlen (buckets w)) 0) as [E|E].
  - destruct (window_view w); [done|]. unfold zlen in E. simpl in HL. lia.
  - rewrite (u32_small (zlen (buckets w) - 1)) by (unfold is_u32, zlen in *; lia).
    rewrite !Get_view by (done || (unfold zlen in *; lia)).
    rewrite last_lookup, head_lookup, HL. change (Z.to_nat 0) with 0%nat.
    replace (Z.to_nat (zlen (buckets w) - 1)) with (pred (length (buckets w)))
      by (unfold zlen; lia).
    destruct (lookup_lt_is_Some_2 (window_view w) 0%nat) as [f ->]; [unfold zlen in *; lia|].
    destruct (lookup_lt_is_Some_2 (window_view w) (pred (length (buckets w)))) as [l ->];
      [unfold zlen in *; lia|]. done.
Qed.

(** Appending a run of buckets, stopping at the first error. *)
Fixpoint append_all (w : LedgerBucketWindow) (l : list LedgerBucket) : go LedgerBucketWindow :=
  match l with
  | [] => Ok w
  | b :: l' => r ← Append w b; append_all (fst r) l'
  end.

(** The last [n] elements. *)
Definition lastn {B} (n : nat) (l : list B) : list B := drop (length l - n) l.

Lemma view_append_lastn cap (l : list LedgerBucket) b : (0 < cap)%nat ->
  view_append cap (lastn cap l) b = lastn cap (l ++ [b]).
Proof.
  intros Hcap. unfold view_append, lastn. rewrite length_drop, length_app. simpl.
  destruct (Nat.ltb_spec (length l - (length l - cap)) cap) as [Hlt|Hge].
  - replace (length l - cap)%nat with 0%nat by lia.
    replace (length l + 1 - cap)%nat with 0%nat by lia. done.
  - replace (length l + 1 - cap)%nat with (S (length l - cap)) by lia.
    destruct (lookup_lt_is_Some_2 l (length l - cap)) as [x Hx]; [lia|].
    rewrite (drop_S _ _ _ Hx). simpl. rewrite drop_app_le by lia. done.
Qed.

Lemma contiguous_drop n (l : list LedgerBucket) : contiguous l -> contiguous (drop n l).
Proof.
  intros Hc i a b. rewrite !lookup_drop. rewrite Nat.add_succ_r. apply Hc.
Qed.

Lemma next_seq_drop n (l : list LedgerBucket) b :
  contiguous (l ++ [b]) -> Forall (fun b => is_u32 (LedgerSeq b)) (l ++ [b]) ->
  (n < length l)%nat -> next_seq (drop n l) = Some (LedgerSeq b).
Proof.
  intros Hc HF Hn. destruct (lookup_lt_is_Some_2 l n) as [x Hx]; [lia|].
  rewrite (drop_S _ _ _ Hx). simpl. f_equal.
  pose proof (contiguous_drop n _ Hc) as Hc'. rewrite drop_app_le in Hc' by lia.
  rewrite (contiguous_nth (drop n l ++ [b]) (length (drop n l)) x b); [|done|..].
  - do 2 f_equal. unfold zlen. rewrite (drop_S _ _ _ Hx). done.
  - apply Forall_app in HF as [HF1 HF2]. apply Forall_app. split; [by apply Forall_drop|done].
  - rewrite (drop_S _ _ _ Hx). done.
  - rewrite lookup_app_r by lia. by rewrite Nat.sub_diag.
Qed.

Lemma append_all_app w l l' :
  append_all w (l ++ l') = w' ← append_all w l; append_all w' l'.
Proof.
  revert w. induction l as [|b l IH]; intros w; [done|]. simpl.
  destruct (Append w b) as [[w' ev]| |]; simpl; [apply IH|done|done].
Qed.

(** After an append, the next bucket is the one after it. *)
Lemma next_seq_append cap l b : (0 < cap)%nat -> contiguous l -> is_u32 (LedgerSeq b) ->
  next_seq l = None \/ next_seq l = Some (LedgerSeq b) ->
  next_seq (view_append cap l b) = Some (u32 (LedgerSeq b + 1)).
Proof.
  intros Hcap Hc Hb Hn. unfold view_append. destruct l as [|h l].
  { simpl. by destruct (0 <? cap)%nat. }
  destruct Hn as [|[= E]]; [done|].
  assert (forall x y, u32 (u32 x + y) = u32 (x + y)) as Hu
    by (intros x y; unfold u32; apply Z.add_mod_idemp_l; lia).
  destruct (_ <? _)%nat; cbn [app tail next_seq].
  - rewrite <- E. unfold zlen. rewrite Hu. do 2 f_equal. simpl. rewrite length_app. simpl. lia.
  - destruct l as [|h' l]; [done|]. rewrite <- E. cbn [app next_seq]. rewrite (Hc 0%nat h h' eq_refl eq_refl), !Hu.
    do 2 f_equal. unfold zlen. simpl. rewrite length_app. simpl. lia.
Qed.

(** Lemma behind the window's functional specification. *)
Lemma append_all_lastn r l : 0 < r < 2147483648 -> contiguous l ->
  Forall (fun b => is_u32 (LedgerSeq b)) l ->
  exists w, append_all (NewLedgerBucketWindow r) l = Ok w /\ window_ok w /\
    wcap w = r /\ window_view w = lastn (Z.to_nat r) l.
Proof.
  intros Hr. induction l as [|b l IH] using rev_ind; intros Hc HF.
  { eexists. split; [done|]. split; [by apply window_ok_new|]. done. }
  destruct IH as (w & Hw & Hok & Hcap & Hv).
  { intros i x y Hx Hy. apply (Hc i); by apply lookup_app_l_Some. }
  { by apply Forall_app in HF as [? _]. }
  rewrite append_all_app, Hw. cbn [mbind go_bind append_all].
  assert (is_u32 (LedgerSeq b)) as Hb by (apply Forall_app in HF as [_ HF]; by inversion HF).
  destruct (Append_spec w b Hok Hb) as [(s & Hs & Hne & _) | (_ & w' & ev & Ha & Hok' & Hc' & Hv' & _)].
  - exfalso. rewrite Hv in Hs. unfold lastn in Hs.
    destruct l as [|x l]; [done|].
    rewrite (next_seq_drop _ (x :: l) b) in Hs by (done || (simpl; lia)). congruence.
  - rewrite Ha. cbn [mbind go_bind fst]. eexists. split; [done|]. split_and!; [done|congruence|].
    rewrite Hv', Hcap, Hv, view_append_lastn by lia. done.
Qed.
(** C25: A window is the list of the last ledgers appended to it: after any run of
    consecutive ledgers it holds the last ones, as many as its capacity, in order;
    its length, its items and its range are those of that list. *)
Theorem window_is_last_ledgers r l : 0 < r < 2147483648 -> contiguous l ->
  Forall (fun b => is_u32 (LedgerSeq b)) l ->
  let kept := lastn (Z.to_nat r) l in
  exists w, append_all (NewLedgerBucketWindow r) l = Ok w /\ Len w = zlen kept /\
    (forall i b, kept !! i = Some b -> Get w (Z.of_nat i) = Ok b) /\
    GetLedgerRange w = Ok (match head kept, last kept with
      | Some f, Some la => mkRange (mkInfo (LedgerSeq f) (LedgerCloseTimestamp f)) (mkInfo (LedgerSeq la) (LedgerCloseTimestamp la))
      | _, _ => zero_range
      end).
Proof.
  intros Hr Hc HF kept. destruct (append_all_lastn r l Hr Hc HF) as (w & Hw & Hok & _ & Hv). fold kept in Hv.
  exists w. rewrite <- Hv. split_and!; [done| | |].
  - rewrite Len_ok by done. unfold zlen. by rewrite length_window_view.
  - intros i b Hb. rewrite Get_view by (done || lia). by rewrite Nat2Z.id, Hb.
  - by apply window_range_spec.
Qed.
End Window.

(** ** The interface the fee window is built on *)

Class BucketQueue (A W : Type) := {
  bq_append : W -> LedgerBucket -> go (W * option (@LedgerBucket A));
  bq_len : W -> Z;
  bq_get : W -> Z -> go (@LedgerBucket A);
  bq_ok : W -> Prop;
  bq_cap : W -> nat;
  bq_view : W -> list (@LedgerBucket A);
  bq_view_cap w : bq_ok w -> (length (bq_view w) <= bq_cap w)%nat;
  bq_contiguous w : bq_ok w -> contiguous (bq_view w);
  bq_len_view w : bq_ok w -> bq_len w = zlen (bq_view w);
  bq_get_view w i b : bq_ok w -> bq_view w !! i = Some b -> bq_get w (Z.of_nat i) = Ok b;
  bq_append_view w b : bq_ok w -> is_u32 (LedgerSeq b) ->
    (exists s, next_seq (bq_view w) = Some s /\ s <> LedgerSeq b /\
               bq_append w b = Er (not_contiguous s (LedgerSeq b))) \/
    ((next_seq (bq_view w) = None \/ next_seq (bq_view w) = Some (LedgerSeq b)) /\
     exists w' ev, bq_append w b = Ok (w', ev) /\ bq_ok w' /\ bq_cap w' = bq_cap w /\
       bq_view w' = view_append (bq_cap w) (bq_view w) b);
}.

#[export] Instance ledger_bucket_queue A : BucketQueue A (@LedgerBucketWindow A).
Proof.
  refine {| bq_append := Append; bq_len := Len; bq_get := Get; bq_ok := window_ok;
            bq_cap w := Z.to_nat (wcap w); bq_view := window_view |}.
  - intros w [? ? ? ? ? ?]. rewrite length_window_view. unfold zlen in *. lia.
  - intros w Hok. apply Hok.
  - intros w Hok. rewrite Len_ok by done. unfold zlen. by rewrite length_window_view.
  - intros w i b Hok Hi. rewrite Get_view by (done || lia). by rewrite Nat2Z.id, Hi.
  - intros w b Hok Hb. destruct (Append_spec w b Hok Hb) as [?|(? & w' & ev & ? & ? & ? & ? & _)];
      [by left | right]. split; [done|]. exists w', ev. split_and!; try done. by f_equal.
Defined.

Arguments LedgerBucket : clear implicits.
Arguments LedgerBucketWindow : clear implicits.

Lemma window_is_last_ledgers_witness :
  let l := [mkBucket 5 50 true; mkBucket 6 60 false; mkBucket 7 70 true] in
  let kept := lastn 2 l in
  exists w, append_all (NewLedgerBucketWindow 2) l = Ok w /\ Len w = zlen kept /\
    (forall i b, kept !! i = Some b -> Get w (Z.of_nat i) = Ok b) /\
    GetLedgerRange w = Ok (mkRange (mkInfo 6 60) (mkInfo 7 70)).
Proof.
  apply (window_is_last_ledgers 2 [mkBucket 5 50 true; mkBucket 6 60 false; mkBucket 7 70 true]).
  - lia.
  - intros [|[|[|i]]] a b; simpl; intros [= <-] [= <-]; reflexivity.
  - repeat constructor; unfold is_u32; simpl; lia.
Defined.
