(* ===== verification/LedgerMeta.v ===== *)
(** * Ledger close metas and their transactions

    The interface of [github.com/stellar/go/xdr] and [.../ingest] the source
    uses on ledgers: accessors of a [LedgerCloseMeta], the transaction reader,
    and the fields of an [ingest.LedgerTransaction] that are read. *)

From S2P Require Import Prelude GoStd Externals.

Section Types.
Context `{V : ScVals}.

(** [SorobanMeta.Ext]: the version and, for version 1, the non-refundable and
    refundable resource fees charged. *)
Record SorobanMetaExt := mkSorobanExt { ext_V : Z; ext_V1 : option (Z * Z) }.

(** [tx.UnsafeMeta]: its version and the optional [SorobanMeta] of versions 3, 4. *)
Inductive TxMeta :=
  | MetaV3 (soroban : option SorobanMetaExt)
  | MetaV4 (soroban : option SorobanMetaExt)
  | MetaOther (v : Z).

(** [ingest.TransactionEvents] *)
Record TransactionEvents := mkTxEvents {
  te_Diagnostic : list DiagnosticEvent;
  te_Operation : list (list ContractEvent);
  te_Transaction : list ContractEvent;
}.

Record LedgerTransaction := mkLedgerTx {
  tx_Index : Z;
  tx_Hash : string;
  tx_IsFeeBump : bool;
  tx_InnerHash : string;
  tx_Successful : bool;
  tx_FeeCharged : Z;
  tx_Operations : list Z;
  tx_Meta : TxMeta;
  tx_ResultBytes : go string;
  tx_MetaBytes : go string;
  tx_EnvelopeBytes : go string;
  tx_Events : go TransactionEvents;
}.
End Types.

Class Ledgers `{V : ScVals} := {
  LedgerCloseMeta : Type;
  LedgerSequence : LedgerCloseMeta -> Z;
  LedgerCloseTime : LedgerCloseMeta -> Z;
  CountTransactions : LedgerCloseMeta -> Z;
  TxReader : Type;
  NewTxReader : string -> LedgerCloseMeta -> go TxReader;
  (** [None] is io.EOF *)
  reader_Read : TxReader -> go (option LedgerTransaction) * TxReader;
  (** [true] is io.EOF: the index is out of range *)
  reader_Seek : Z -> TxReader -> go bool * TxReader;
  (** the binary form of a [DiagnosticEvent] and its decoder *)
  event_MarshalBinary : DiagnosticEvent -> go string;
  event_Unmarshal : string -> go DiagnosticEvent;
}.

(** The documented behaviour of the reader on a ledger it can decode: it yields
    the ledger's transactions in application order, numbered from 1. *)
Class LedgersLaws `{V : ScVals} (D : Ledgers) (passphrase : string) := {
  ledger_txs : LedgerCloseMeta -> list LedgerTransaction;
  ledger_decodes : LedgerCloseMeta -> Prop;
  reader_at : LedgerCloseMeta -> nat -> TxReader -> Prop;
  lcm_count l : ledger_decodes l -> CountTransactions l = zlen (ledger_txs l);
  lcm_index l i tx : ledger_decodes l -> ledger_txs l !! i = Some tx ->
    tx_Index tx = Z.of_nat i + 1;
  lcm_seq l : ledger_decodes l -> 0 <= LedgerSequence l < 2147483648;
  reader_open l : ledger_decodes l ->
    exists r, NewTxReader passphrase l = Ok r /\ reader_at l 0 r;
  reader_read l i r tx : reader_at l i r -> ledger_txs l !! i = Some tx ->
    exists r', reader_Read r = (Ok (Some tx), r') /\ reader_at l (S i) r';
  reader_eof l i r : reader_at l i r -> ledger_txs l !! i = None ->
    exists r', reader_Read r = (Ok None, r') /\ reader_at l i r';
  reader_seek l i r n : reader_at l i r -> (n < length (ledger_txs l))%nat ->
    exists r', reader_Seek (Z.of_nat n) r = (Ok false, r') /\ reader_at l n r';
  reader_seek_eof l i r n : reader_at l i r ->
    n < 0 \/ zlen (ledger_txs l) <= n ->
    exists r', reader_Seek n r = (Ok true, r') /\ reader_at l i r';
  event_roundtrip e b : event_MarshalBinary e = Ok b -> event_Unmarshal b = Ok e;
}.

Section Loop.
Context `{V : ScVals} {D : Ledgers}.

(** [for { tx, err := reader.Read(); if EOF break; if err return err; body }]:
    [fuel] bounds the number of reads. *)
Fixpoint reader_loop {St} (fuel : nat) (body : LedgerTransaction -> St -> go St)
    (r : TxReader) (s : St) : go St :=
  match fuel with
  | O => Panic "out of fuel"
  | S f =>
      match reader_Read r with
      | (Ok None, _) => Ok s
      | (Ok (Some tx), r') => s' ← body tx s; reader_loop f body r' s'
      | (Er e, _) => Er e
      | (Panic m, _) => Panic m
      end
  end.

(** The same loop around calls that change a shared state. *)
Fixpoint reader_loop_st {S} (fuel : nat) (body : LedgerTransaction -> st S unit) (r : TxReader) :
    st S unit :=
  match fuel with
  | O => lift (Panic "out of fuel")
  | Datatypes.S f =>
      match reader_Read r with
      | (Ok None, _) => mret tt
      | (Ok (Some tx), r') => _ ← body tx; reader_loop_st f body r'
      | (Er e, _) => lift (Er e)
      | (Panic m, _) => lift (Panic m)
      end
  end.

Fixpoint st_iter {A S} (body : A -> st S unit) (l : list A) : st S unit :=
  match l with
  | [] => mret tt
  | x :: l' => _ ← body x; st_iter body l'
  end.

Fixpoint go_fold {A St} (body : A -> St -> go St) (l : list A) (s : St) : go St :=
  match l with
  | [] => Ok s
  | x :: l' => s' ← body x s; go_fold body l' s'
  end.

(** Reads enough for every transaction and the final EOF. *)
Definition read_fuel (l : LedgerCloseMeta) : nat := S (Z.to_nat (CountTransactions l)).

Context {passphrase : string} {L : LedgersLaws D passphrase}.

Lemma reader_loop_fold {St} body l i r (s : St) fuel :
  reader_at l i r -> (length (ledger_txs l) - i < fuel)%nat -> (i <= length (ledger_txs l))%nat ->
  reader_loop fuel body r s = go_fold body (drop i (ledger_txs l)) s.
Proof.
  revert i r s. induction fuel as [|f IH]; intros i r s Hr Hf Hi; [lia|]. simpl.
  destruct (ledger_txs l !! i) as [tx|] eqn:E.
  - destruct (reader_read _ _ _ _ Hr E) as (r' & -> & Hr').
    rewrite (drop_S _ _ _ E). simpl. destruct (body tx s) as [s'| |]; simpl; try done.
    apply lookup_lt_Some in E. apply IH; [done|lia|lia].
  - destruct (reader_eof _ _ _ Hr E) as (r' & -> & Hr').
    apply lookup_ge_None in E. rewrite drop_ge by lia. done.
Qed.

(** The whole loop of a caller: the fuel never runs out. *)
Lemma read_all_fold {St} body l r (s : St) :
  ledger_decodes l -> reader_at l 0 r ->
  reader_loop (read_fuel l) body r s = go_fold body (ledger_txs l) s.
Proof.
  intros Hd Hr. rewrite (reader_loop_fold body l 0); [done|done| |lia].
  unfold read_fuel. rewrite (lcm_count l Hd). unfold zlen. lia.
Qed.

Lemma reader_loop_st_iter {S} (body : LedgerTransaction -> st S unit) l i r s fuel :
  reader_at l i r -> (length (ledger_txs l) - i < fuel)%nat -> (i <= length (ledger_txs l))%nat ->
  reader_loop_st fuel body r s = st_iter body (drop i (ledger_txs l)) s.
Proof.
  revert i r s. induction fuel as [|f IH]; intros i r s Hr Hf Hi; [lia|]. simpl.
  destruct (ledger_txs l !! i) as [tx|] eqn:E.
  - destruct (reader_read _ _ _ _ Hr E) as (r' & -> & Hr').
    rewrite (drop_S _ _ _ E). simpl. unfold mbind, st_bind.
    destruct (body tx s) as [[u|e|m] s']; try done.
    apply lookup_lt_Some in E. apply IH; [done|lia|lia].
  - destruct (reader_eof _ _ _ Hr E) as (r' & -> & Hr').
    apply lookup_ge_None in E. rewrite drop_ge by lia. done.
Qed.

Lemma read_all_iter {S} (body : LedgerTransaction -> st S unit) l r s :
  ledger_decodes l -> reader_at l 0 r ->
  reader_loop_st (read_fuel l) body r s = st_iter body (ledger_txs l) s.
Proof.
  intros Hd Hr. rewrite (reader_loop_st_iter body l 0); [done|done| |lia].
  unfold read_fuel. rewrite (lcm_count l Hd). unfold zlen. lia.
Qed.
End Loop.

(** ** An instance for concrete runs: a ledger is its list of transactions *)

Section Toy.
Context `{V : ScVals}.
Record toy_lcm := mkToyLcm { toy_seq : Z; toy_time : Z; toy_txs : list LedgerTransaction }.
Record toy_reader := mkToyReader { tr_lcm : toy_lcm; tr_pos : nat }.
End Toy.

(** Events are written as a success flag, a type digit, the optional contract
    and the comma-separated data and topics. *)
Fixpoint cut_at (n : nat) (s : string) : string * string :=
  match n, s with
  | S n', String c s' => let '(a, b) := cut_at n' s' in (String c a, b)
  | _, _ => (EmptyString, s)
  end.

Lemma cut_at_app a b : cut_at (String.length a) (a +:+ b) = (a, b).
Proof. induction a as [|c a IH]; [by destruct b|]. rewrite str_app_cons. simpl. by rewrite IH. Qed.

Definition toy_marshal (e : @DiagnosticEvent toy_scvals) : go string :=
  let ev := Event_of e in
  let flag := if InSuccessfulContractCall e then "+"%char else "-"%char in
  match BodyV0 ev with
  | None => Er (EExt "xdr")
  | Some (topics, d) =>
      if (0 <=? EventTypeXDR ev) && (EventTypeXDR ev <=? 9) &&
         forallb (fun s => negb (has_char "," s)) (d :: topics) then
        let tail := Join "," (d :: topics) in
        let head := String flag (String (digit_char (EventTypeXDR ev)) EmptyString) in
        match ContractId ev with
        | None => Ok (head +:+ String "N" tail)
        | Some id => if (String.length id =? 32)%nat then Ok (head +:+ String "I" (id +:+ tail))
                     else Er (EExt "xdr")
        end
      else Er (EExt "xdr")
  end.

Definition toy_unmarshal (b : string) : go (@DiagnosticEvent toy_scvals) :=
  match b with
  | String f (String t (String k rest)) =>
      match digit_val t with
      | None => Er (EExt "xdr")
      | Some ty =>
          let '(id, tl) := if Ascii.eqb k "I" then let '(a, b) := cut_at 32 rest in (Some a, b)
                           else (None, rest) in
          match Split "," tl with
          | d :: topics =>
              Ok (mkDiagnosticEvent (Ascii.eqb f "+")
                    (mkContractEvent id ty (Some (topics : list (@ScVal toy_scvals), d))))
          | [] => Er (EExt "xdr")
          end
      end
  | _ => Er (EExt "xdr")
  end.

Lemma toy_roundtrip e b : toy_marshal e = Ok b -> toy_unmarshal b = Ok e.
Proof.
  unfold toy_marshal. destruct e as [sc [id ty [[topics d]|]]]; cbn [Event_of BodyV0 EventTypeXDR
    InSuccessfulContractCall ContractId]; [|done].
  destruct (_ && forallb _ _) eqn:E; [|done].
  apply andb_true_iff in E as [Et Ec]. apply andb_true_iff in Et as [E1%Z.leb_le E2%Z.leb_le].
  assert (Split "," (Join "," (d :: topics)) = d :: topics) as HS.
  { apply (Split_Join ","); [done|]. apply forallb_Forall in Ec.
    eapply Forall_impl; [exact Ec|]. simpl. intros x Hx. by destruct (has_char _ x). }
  remember (Join "," (d :: topics)) as tl eqn:Htl. clear Htl.
  assert (Ascii.eqb (if sc then "+"%char else "-"%char) "+" = sc) as Hf by (by destruct sc).
  destruct id as [id|]; [destruct (Nat.eqb_spec (String.length id) 32) as [El|]; [|done]|];
    intros [= <-]; rewrite !str_app_cons; cbn [toy_unmarshal];
    change (EmptyString +:+ ?t) with t; cbn [toy_unmarshal];
    rewrite digit_val_char by lia; cbn [Ascii.eqb Bool.eqb andb].
  - rewrite <- El, cut_at_app. cbn beta iota zeta. rewrite HS, Hf. done.
  - cbn beta iota zeta. rewrite HS, Hf. done.
Qed.

#[export] Instance toy_ledgers : Ledgers (V := toy_scvals) := {
  LedgerCloseMeta := toy_lcm;
  LedgerSequence := toy_seq;
  LedgerCloseTime := toy_time;
  CountTransactions l := zlen (toy_txs l);
  TxReader := toy_reader;
  NewTxReader _ l := Ok (mkToyReader l 0);
  reader_Read r :=
    match toy_txs (tr_lcm r) !! tr_pos r with
    | Some tx => (Ok (Some tx), mkToyReader (tr_lcm r) (S (tr_pos r)))
    | None => (Ok None, r)
    end;
  reader_Seek n r :=
    if (n <? 0) || (zlen (toy_txs (tr_lcm r)) <=? n) then (Ok true, r)
    else (Ok false, mkToyReader (tr_lcm r) (Z.to_nat n));
  event_MarshalBinary := toy_marshal;
  event_Unmarshal := toy_unmarshal;
}.

#[export] Instance toy_ledgers_laws p : LedgersLaws toy_ledgers p.
Proof.
  refine {|
    ledger_txs := toy_txs;
    ledger_decodes l := 0 <= toy_seq l < 2147483648 /\
      forall i tx, toy_txs l !! i = Some tx -> tx_Index tx = Z.of_nat i + 1;
    reader_at l n r := r = mkToyReader l n |}; simpl.
  - done.
  - intros l i tx [_ H]. apply H.
  - intros l [H _]. done.
  - eauto.
  - intros l i r tx -> E. simpl. rewrite E. eauto.
  - intros l i r -> E. simpl. rewrite E. eauto.
  - intros l i r n -> Hn. simpl. unfold zlen.
    destruct (Z.ltb_spec (Z.of_nat n) 0); [lia|].
    destruct (Z.leb_spec (Z.of_nat (length (toy_txs l))) (Z.of_nat n)); [lia|]. simpl.
    rewrite Nat2Z.id. eauto.
  - intros l i r n -> Hn. simpl. unfold zlen in *.
    destruct (Z.ltb_spec n 0); simpl; [eauto|].
    destruct (Z.leb_spec (Z.of_nat (length (toy_txs l))) n); [eauto | lia].
  - apply toy_roundtrip.
Defined.

Definition toy_close (seq time : Z) (txs : list (@LedgerTransaction toy_scvals)) :
  @LedgerCloseMeta toy_scvals toy_ledgers := mkToyLcm seq time txs.

(** Sample ledgers: two transactions with an event each, hashed by number. *)
Definition sample_hash (n : Z) : string := fmt_0d 32 n.
Definition sample_event (topic data : string) : @ContractEvent toy_scvals :=
  mkContractEvent None 1 (Some ([topic : @ScVal toy_scvals], data : @ScVal toy_scvals)).
Definition sample_tx (index n fee : Z) (topic : string) : @LedgerTransaction toy_scvals :=
  mkLedgerTx index (sample_hash n) false ""%string true fee [1] (MetaOther 2) (Ok "r"%string) (Ok "m"%string)
    (Ok "e"%string) (Ok (mkTxEvents [] [[sample_event topic "data"]] [])).
Definition sample_ledger (seq : Z) : @LedgerCloseMeta toy_scvals toy_ledgers :=
  toy_close seq (5 * seq) [sample_tx 1 (10 * seq + 1) (100 * seq) "transfer"; sample_tx 2 (10 * seq + 2) 300 "mint"].
