(* ===== verification/FeeWindow.v ===== *)
(** * Fee statistics: [internal/feewindow]

    The distribution of the fees of the last ledgers: [computeFeeDistribution]
    (mode and nearest-rank percentiles of the sorted fees), the per-kind window
    [FeeWindow] kept on top of a bucket queue, and [FeeWindows.IngestFees], which
    splits a ledger's transactions into Soroban and classic fees. *)

From S2P Require Import Prelude GoStd Externals BucketWindow LedgerMeta.

Record FeeDistribution := mkFD {
  Max : Z; Min : Z; Mode : Z;
  P10 : Z; P20 : Z; P30 : Z; P40 : Z; P50 : Z; P60 : Z; P70 : Z; P80 : Z; P90 : Z;
  P95 : Z; P99 : Z;
  FeeCount : Z; LedgerCount : Z;
}.
Definition zero_distribution : FeeDistribution :=
  mkFD 0 0 0 0 0 0 0 0 0 0 0 0 0 0 0 0.

(** ** [computeFeeDistribution] *)

(** [slices.Sort] on unsigned integers. *)
Definition sort_fees (l : list Z) : list Z := merge_sort Z.le l.

(** The loop from index 1; [lastVal], [mode], [maxRepetitions] and
    [localRepetitions] are its variables. *)
Fixpoint mode_loop (l : list Z) (lastVal mode maxR localR : Z) : Z * Z * Z :=
  match l with
  | [] => (mode, maxR, localR)
  | x :: l' =>
      if x =? lastVal then mode_loop l' lastVal mode maxR (localR + 1)
      else if maxR <? localR then mode_loop l' x lastVal localR 0
           else mode_loop l' x mode maxR 0
  end.

Definition mode_of (f0 : Z) (rest : list Z) : Z :=
  let '(mode, maxR, localR) := mode_loop rest f0 f0 0 0 in
  if maxR <? localR then default 0 (last (f0 :: rest)) else mode.

(** [fees[kth-1]] with [kth = ceil(p*count/100)], in uint64 arithmetic. *)
Definition percentile (fees : list Z) (p : Z) : go Z :=
  let kth := u64 (u64 (p * zlen fees) + 100 - 1) / 100 in
  go_index fees (u64 (kth - 1)).

Definition computeFeeDistribution (fees : list Z) (ledgerCount : Z) : go FeeDistribution :=
  match sort_fees fees with
  | [] => Ok zero_distribution
  | f0 :: rest =>
      let sorted := f0 :: rest in
      mx ← go_index sorted (zlen sorted - 1);
      p10 ← percentile sorted 10; p20 ← percentile sorted 20;
      p30 ← percentile sorted 30; p40 ← percentile sorted 40;
      p50 ← percentile sorted 50; p60 ← percentile sorted 60;
      p70 ← percentile sorted 70; p80 ← percentile sorted 80;
      p90 ← percentile sorted 90; p95 ← percentile sorted 95;
      p99 ← percentile sorted 99;
      Ok (mkFD mx f0 (mode_of f0 rest) p10 p20 p30 p40 p50 p60 p70 p80 p90 p95 p99
            (u32 (zlen sorted)) ledgerCount)
  end.

(** *** Specification: counting *)

Definition count (v : Z) (l : list Z) : nat := length (filter (fun x => x = v) l).
Definition count_le (v : Z) (l : list Z) : nat := length (filter (fun x => x <= v) l).

(** The most frequent value, the smallest of them on a tie. *)
Definition is_mode (m : Z) (l : list Z) : Prop :=
  m ∈ l /\ forall v, (count v l <= count m l)%nat /\ (count v l = count m l -> m <= v \/ count v l = 0%nat).

(** The nearest-rank percentile: the smallest value of the list that at least
    [p] percent of it do not exceed. *)
Definition is_percentile (p x : Z) (l : list Z) : Prop :=
  x ∈ l /\ p * zlen l <= 100 * Z.of_nat (count_le x l) /\
  forall y, y < x -> 100 * Z.of_nat (count_le y l) < p * zlen l.

Lemma sort_fees_perm l : sort_fees l ≡ₚ l.
Proof. apply merge_sort_Permutation. Qed.

Lemma sort_fees_sorted l : StronglySorted Z.le (sort_fees l).
Proof. apply (StronglySorted_merge_sort Z.le). Qed.

Lemma count_perm v l l' : l ≡ₚ l' -> count v l = count v l'.
Proof. intros H. unfold count. by rewrite H. Qed.
Lemma count_le_perm v l l' : l ≡ₚ l' -> count_le v l = count_le v l'.
Proof. intros H. unfold count_le. by rewrite H. Qed.

Lemma is_mode_perm m l l' : l ≡ₚ l' -> is_mode m l -> is_mode m l'.
Proof.
  intros H [Hin Hc]. split; [by rewrite <- H|]. intros v.
  rewrite <- !(count_perm _ _ _ H). apply Hc.
Qed.
Lemma is_percentile_perm p x l l' : l ≡ₚ l' -> is_percentile p x l -> is_percentile p x l'.
Proof.
  intros H (Hin & Hle & Hlt). unfold is_percentile.
  assert (zlen l' = zlen l) as -> by (unfold zlen; by rewrite H).
  split_and!; [by rewrite <- H | by rewrite <- (count_le_perm _ _ _ H) |].
  intros y Hy. rewrite <- (count_le_perm _ _ _ H). by apply Hlt.
Qed.

Lemma count_app v l l' : count v (l ++ l') = (count v l + count v l')%nat.
Proof. unfold count. by rewrite filter_app, length_app. Qed.
Lemma count_cons v x l : count v (x :: l) = ((if decide (x = v) then 1 else 0) + count v l)%nat.
Proof. unfold count. rewrite filter_cons. by destruct (decide _). Qed.
Lemma count_replicate v w n : count v (replicate n w) = if decide (w = v) then n else 0%nat.
Proof.
  induction n as [|n IH]; simpl; [by destruct (decide _)|].
  rewrite count_cons, IH. by destruct (decide _).
Qed.
Lemma count_zero v l : v ∉ l -> count v l = 0%nat.
Proof.
  induction l as [|x l IH]; [done|]. rewrite not_elem_of_cons, count_cons. intros [? ?].
  rewrite IH by done. destruct (decide _); [congruence | done].
Qed.
Lemma count_pos v l : v ∈ l <-> (0 < count v l)%nat.
Proof.
  split; [|destruct (decide (v ∈ l)); [done|]; rewrite count_zero by done; lia].
  intros H. induction H as [|? ? ? ? IH]; rewrite count_cons.
  - destruct (decide _); [lia | congruence].
  - lia.
Qed.

(** What the loop knows of the closed clusters [seen]: before the first one,
    [mode] is still the value of the open cluster. *)
Definition mode_info (seen : list Z) (lastVal mode maxR : Z) : Prop :=
  (seen = [] /\ mode = lastVal /\ maxR = 0) \/
  (is_mode mode seen /\ Z.of_nat (count mode seen) = maxR + 1).

(** Closing the cluster of [n] copies of [lastVal]. *)
Lemma mode_close seen lastVal mode maxR localR :
  mode_info seen lastVal mode maxR -> Forall (fun y => y < lastVal) seen -> 0 <= localR ->
  let all := seen ++ replicate (Z.to_nat (localR + 1)) lastVal in
  let m := if maxR <? localR then lastVal else mode in
  is_mode m all /\ Z.of_nat (count m all) = (if maxR <? localR then localR else maxR) + 1.
Proof.
  intros Hinfo Hlt Hlr. set (n := Z.to_nat (localR + 1)). cbn zeta.
  assert (forall v, count v (seen ++ replicate n lastVal) =
               if decide (lastVal = v) then n else count v seen) as Hcount.
  { intros v. rewrite count_app, count_replicate. destruct (decide _) as [<-|]; [|lia].
    rewrite count_zero; [lia|]. intros Hin. rewrite Forall_forall in Hlt.
    specialize (Hlt _ Hin). lia. }
  assert (lastVal ∈ seen ++ replicate n lastVal) as Hlast
    by (apply elem_of_app; right; apply elem_of_replicate; lia).
  unfold is_mode. setoid_rewrite Hcount.
  destruct Hinfo as [(-> & -> & ->) | [[Hin Hm] Hmc]].
  - assert ((if 0 <? localR then lastVal else lastVal) = lastVal) as -> by (by case_match).
    destruct (decide (lastVal = lastVal)) as [_|]; [|done].
    split; [split; [done|] | destruct (Z.ltb_spec 0 localR); lia].
    intros v. destruct (decide (lastVal = v)) as [<-|]; [split; [lia|left; lia]|].
    split; [unfold count; simpl; lia | by right].
  - assert (mode < lastVal) by (rewrite Forall_forall in Hlt; by apply Hlt).
    destruct (Z.ltb_spec maxR localR).
    + destruct (decide (lastVal = lastVal)) as [_|]; [|done].
      split; [split; [done|] | lia]. intros v.
      destruct (decide (lastVal = v)) as [<-|]; [split; [lia|left; lia]|].
      destruct (Hm v) as [Hv _]. split; lia.
    + destruct (decide (lastVal = mode)); [lia|].
      split; [split; [apply elem_of_app; by left|] | done]. intros v.
      destruct (decide (lastVal = v)) as [<-|]; [split; [lia|left; lia]|]. apply Hm.
Qed.

(** The loop invariant: [seen] holds the closed clusters, all below the open
    cluster of [localR + 1] copies of [lastVal]. *)
Lemma mode_loop_spec l lastVal mode maxR localR seen :
  StronglySorted Z.le (lastVal :: l) -> Forall (fun y => y < lastVal) seen ->
  0 <= localR -> mode_info seen lastVal mode maxR ->
  let '(m, mr, lr) := mode_loop l lastVal mode maxR localR in
  is_mode (if mr <? lr then default 0 (last (lastVal :: l)) else m)
          (seen ++ replicate (Z.to_nat (localR + 1)) lastVal ++ l).
Proof.
  revert lastVal mode maxR localR seen.
  induction l as [|x l IH]; intros lastVal mode maxR localR seen Hs Hlt Hlr Hinfo;
    pose proof (mode_close _ _ _ _ _ Hinfo Hlt Hlr) as [Hm Hc].
  { simpl. by rewrite app_nil_r. }
  assert (lastVal <= x) as Hx
    by (inversion Hs as [|? ? ? HF]; subst; by inversion HF).
  assert (StronglySorted Z.le (x :: l)) as Hs' by (by inversion Hs).
  cbn [mode_loop]. destruct (Z.eqb_spec x lastVal) as [->|Hne].
  - specialize (IH lastVal mode maxR (localR + 1) seen Hs' Hlt ltac:(lia) Hinfo).
    destruct (mode_loop l lastVal mode maxR (localR + 1)) as [[m mr] lr].
    replace (Z.to_nat (localR + 1 + 1)) with (S (Z.to_nat (localR + 1))) in IH by lia.
    rewrite replicate_S_end, <- app_assoc in IH. done.
  - set (seen' := seen ++ replicate (Z.to_nat (localR + 1)) lastVal) in *.
    assert (Forall (fun y => y < x) seen') as Hlt'.
    { apply Forall_app. split; [eapply Forall_impl; [exact Hlt|]; simpl; lia|].
      apply Forall_replicate. lia. }
    rewrite app_assoc. change (x :: l) with (replicate (Z.to_nat (0 + 1)) x ++ l).
    destruct (maxR <? localR).
    + apply (IH x lastVal localR 0 seen' Hs' Hlt' ltac:(lia)). by right.
    + apply (IH x mode maxR 0 seen' Hs' Hlt' ltac:(lia)). by right.
Qed.

Lemma mode_of_spec f0 rest : StronglySorted Z.le (f0 :: rest) ->
  is_mode (mode_of f0 rest) (f0 :: rest).
Proof.
  intros Hs. unfold mode_of.
  pose proof (mode_loop_spec rest f0 f0 0 0 [] Hs) as H.
  destruct (mode_loop rest f0 f0 0 0) as [[m mr] lr]. simpl in H. apply H; [|done|by left].
  constructor.
Qed.

(** *** Percentiles *)

(** In a sorted list, at least [i+1] elements are at most the [i]-th, and at
    most [i] are below it. *)
Lemma sorted_count_le l i x : StronglySorted Z.le l -> l !! i = Some x ->
  (S i <= count_le x l)%nat /\ forall y, y < x -> (count_le y l <= i)%nat.
Proof.
  intros Hs. revert i x. induction Hs as [|a l Hs IH HF]; intros i x Hi; [done|].
  rewrite Forall_forall in HF. unfold count_le in *. destruct i as [|i]; simpl in Hi.
  - injection Hi as ->. split.
    + rewrite filter_cons. destruct (decide (x <= x)); [simpl; lia | lia].
    + intros y Hy. assert (filter (fun z => z <= y) (x :: l) = []) as ->; [|simpl; lia].
      rewrite filter_cons. destruct (decide (x <= y)); [lia|].
      apply filter_none. intros z Hz. specialize (HF _ Hz). lia.
  - destruct (IH i x Hi) as [H1 H2]. assert (a <= x) by (apply HF; by eapply list_elem_of_lookup_2).
    split.
    + rewrite filter_cons. destruct (decide (a <= x)); [simpl; lia | lia].
    + intros y Hy. specialize (H2 y Hy). rewrite filter_cons.
      destruct (decide (a <= y)); simpl; lia.
Qed.

Lemma percentile_spec l p : StronglySorted Z.le l -> 0 < zlen l < 2 ^ 56 -> 1 <= p <= 100 ->
  exists x, percentile l p = Ok x /\ is_percentile p x l.
Proof.
  intros Hs Hlen Hp. unfold percentile. change (2 ^ 56) with 72057594037927936 in Hlen.
  rewrite (u64_small (p * zlen l)) by (unfold is_u64; nia).
  rewrite (u64_small (p * zlen l + 100 - 1)) by (unfold is_u64; nia).
  set (kth := (p * zlen l + 100 - 1) / 100).
  assert (100 * kth <= p * zlen l + 99 < 100 * kth + 100) as Hk by (subst kth; divlia).
  assert (1 <= kth <= zlen l) as Hk1 by nia.
  rewrite (u64_small (kth - 1)) by (unfold is_u64; nia).
  destruct (lookup_lt_is_Some_2 l (Z.to_nat (kth - 1))) as [x Hx]; [unfold zlen in *; lia|].
  exists x. split; [apply go_index_ok; split; [lia | done]|].
  destruct (sorted_count_le l _ x Hs Hx) as [H1 H2].
  split_and!; [by eapply list_elem_of_lookup_2 | lia|].
  intros y Hy. specialize (H2 y Hy). lia.
Qed.

(** All percentiles of a sorted list are the nearest-rank percentiles. *)
Definition distribution_ok (d : FeeDistribution) (fees : list Z) : Prop :=
  is_percentile 10 (P10 d) fees /\ is_percentile 20 (P20 d) fees /\
  is_percentile 30 (P30 d) fees /\ is_percentile 40 (P40 d) fees /\
  is_percentile 50 (P50 d) fees /\ is_percentile 60 (P60 d) fees /\
  is_percentile 70 (P70 d) fees /\ is_percentile 80 (P80 d) fees /\
  is_percentile 90 (P90 d) fees /\ is_percentile 95 (P95 d) fees /\
  is_percentile 99 (P99 d) fees /\ is_mode (Mode d) fees /\
  (Min d ∈ fees /\ forall f, f ∈ fees -> Min d <= f) /\
  (Max d ∈ fees /\ forall f, f ∈ fees -> f <= Max d) /\
  FeeCount d = u32 (zlen fees).

Lemma sorted_bounds l x y : StronglySorted Z.le l -> head l = Some x -> last l = Some y ->
  forall f, f ∈ l -> x <= f <= y.
Proof.
  intros Hs. revert x y. induction Hs as [|a l Hs IH HF]; intros x y Hx Hy f Hf; [done|].
  injection Hx as ->. rewrite Forall_forall in HF.
  destruct l as [|b l].
  - injection Hy as ->. apply elem_of_cons in Hf as [->|Hf]; [lia | by apply not_elem_of_nil in Hf].
  - specialize (IH b y eq_refl Hy).
    assert (x <= b) by (apply HF; by left).
    apply elem_of_cons in Hf as [->|Hf]; [specialize (IH b ltac:(by left)) | specialize (IH f Hf)]; lia.
Qed.

Lemma computeFeeDistribution_spec fees n : fees <> [] -> zlen fees < 2 ^ 56 ->
  exists d, computeFeeDistribution fees n = Ok d /\ distribution_ok d fees /\ LedgerCount d = n.
Proof.
  intros Hne Hlen. unfold computeFeeDistribution.
  pose proof (sort_fees_perm fees) as Hp. pose proof (sort_fees_sorted fees) as Hs.
  assert (zlen (sort_fees fees) = zlen fees) as HL by (unfold zlen; by rewrite Hp).
  destruct (sort_fees fees) as [|f0 rest] eqn:E.
  { apply Permutation_nil_l in Hp. by subst. }
  assert (0 < zlen (f0 :: rest) < 2 ^ 56) as Hb
    by (rewrite HL; split; [rewrite <- HL; unfold zlen; simpl; lia | done]).
  destruct (lookup_lt_is_Some_2 (f0 :: rest) (Z.to_nat (zlen (f0 :: rest) - 1))) as [mx Hmx];
    [unfold zlen; simpl; lia|].
  assert (go_index (f0 :: rest) (zlen (f0 :: rest) - 1) = Ok mx) as ->
    by (apply go_index_ok; split; [lia | done]).
  cbn [mbind go_bind].
  destruct (percentile_spec _ 10 Hs Hb ltac:(lia)) as (p10 & -> & H10).
  destruct (percentile_spec _ 20 Hs Hb ltac:(lia)) as (p20 & -> & H20).
  destruct (percentile_spec _ 30 Hs Hb ltac:(lia)) as (p30 & -> & H30).
  destruct (percentile_spec _ 40 Hs Hb ltac:(lia)) as (p40 & -> & H40).
  destruct (percentile_spec _ 50 Hs Hb ltac:(lia)) as (p50 & -> & H50).
  destruct (percentile_spec _ 60 Hs Hb ltac:(lia)) as (p60 & -> & H60).
  destruct (percentile_spec _ 70 Hs Hb ltac:(lia)) as (p70 & -> & H70).
  destruct (percentile_spec _ 80 Hs Hb ltac:(lia)) as (p80 & -> & H80).
  destruct (percentile_spec _ 90 Hs Hb ltac:(lia)) as (p90 & -> & H90).
  destruct (percentile_spec _ 95 Hs Hb ltac:(lia)) as (p95 & -> & H95).
  destruct (percentile_spec _ 99 Hs Hb ltac:(lia)) as (p99 & -> & H99).
  cbn [mbind go_bind]. eexists. split; [done|]. split; [|done].
  assert (last (f0 :: rest) = Some mx) as Hlast.
  { rewrite last_lookup, <- Hmx. f_equal. unfold zlen. simpl. lia. }
  pose proof (sorted_bounds _ f0 mx Hs eq_refl Hlast) as Hbounds.
  unfold distribution_ok. cbn -[zlen u32].
  split_and!; try (by eapply is_percentile_perm; [exact Hp|]).
  - eapply is_mode_perm; [exact Hp|]. by apply mode_of_spec.
  - rewrite <- Hp. by left.
  - intros f Hf. apply Hbounds. by rewrite Hp.
  - rewrite <- Hp. by eapply list_elem_of_lookup_2.
  - intros f Hf. apply Hbounds. by rewrite Hp.
  - by rewrite <- HL.
Qed.

(** ** One window: [FeeWindow] over a bucket queue *)

Section Single.
Context {W : Type} `{Q : BucketQueue (list Z) W}.

Record FeeWindow := mkFeeWindow {
  feesPerLedger : W;
  distribution : FeeDistribution;
}.

(** The loop [for i := range fw.feesPerLedger.Len()]. *)
Definition collect_fees (w : W) : go (list Z) :=
  parts ← mapM (fun i => b ← bq_get w i; Ok (BucketContent b)) (seqZ 0 (bq_len w));
  Ok (concat parts).

Definition AppendLedgerFees (fw : FeeWindow) (fees : LedgerBucket (list Z)) : go FeeWindow :=
  '(w, _) ← bq_append (feesPerLedger fw) fees;
  allFees ← collect_fees w;
  d ← computeFeeDistribution allFees (bq_len w);
  Ok (mkFeeWindow w d).

Definition GetFeeDistribution (fw : FeeWindow) : FeeDistribution := distribution fw.

(** The fees of a window and the statistics it must report for them. *)
Definition window_fees (w : W) : list Z := concat (BucketContent <$> bq_view w).

Definition reports (d : FeeDistribution) (fees : list Z) (ledgers : Z) : Prop :=
  match fees with
  | [] => d = zero_distribution
  | _ => distribution_ok d fees /\ LedgerCount d = ledgers
  end.

Definition fee_window_ok (fw : FeeWindow) : Prop :=
  bq_ok (feesPerLedger fw) /\
  reports (distribution fw) (window_fees (feesPerLedger fw)) (zlen (bq_view (feesPerLedger fw))).

Lemma collect_fees_view w : bq_ok w -> collect_fees w = Ok (window_fees w).
Proof.
  intros Hok. unfold collect_fees, window_fees. rewrite bq_len_view by done.
  assert (mapM (fun i => b ← bq_get w i; Ok (BucketContent b)) (seqZ 0 (zlen (bq_view w))) =
          Ok (BucketContent <$> bq_view w)) as ->; [|done].
  apply go_mapM_ok. unfold zlen. apply Forall2_same_length_lookup_2.
  { rewrite length_fmap, length_seqZ. lia. }
  intros i x y Hx Hy. apply lookup_seqZ in Hx as [-> Hi].
  rewrite list_lookup_fmap in Hy. destruct (bq_view w !! i) as [b|] eqn:E; [|done].
  injection Hy as <-. rewrite Z.add_0_l, (bq_get_view w i b) by done. done.
Qed.

Lemma reports_compute fees n : zlen fees < 2 ^ 56 ->
  exists d, computeFeeDistribution fees n = Ok d /\ reports d fees n.
Proof.
  intros H. destruct fees as [|f l]; [by eexists|].
  destruct (computeFeeDistribution_spec (f :: l) n) as (d & ? & ? & ?); [done..|].
  by exists d.
Qed.

(** Appending a ledger's fees: rejected unchanged when it is not the next
    ledger; otherwise the queue gains it and the statistics are recomputed. *)
Lemma AppendLedgerFees_spec fw b : bq_ok (feesPerLedger fw) -> is_u32 (LedgerSeq b) ->
  let view := bq_view (feesPerLedger fw) in
  let view' := view_append (bq_cap (feesPerLedger fw)) view b in
  zlen (concat (BucketContent <$> view')) < 2 ^ 56 ->
  (exists s, next_seq view = Some s /\ s <> LedgerSeq b /\
             AppendLedgerFees fw b = Er (not_contiguous s (LedgerSeq b))) \/
  ((next_seq view = None \/ next_seq view = Some (LedgerSeq b)) /\
   exists fw', AppendLedgerFees fw b = Ok fw' /\ fee_window_ok fw' /\
     bq_cap (feesPerLedger fw') = bq_cap (feesPerLedger fw) /\
     bq_view (feesPerLedger fw') = view').
Proof.
  intros Hok Hb view view' Hlen. unfold AppendLedgerFees.
  destruct (bq_append_view (feesPerLedger fw) b Hok Hb)
    as [(s & Hs & Hne & ->) | (Hs & w' & ev & -> & Hok' & Hcap & Hv)].
  { left. exists s. done. }
  right. split; [done|]. cbn [mbind go_bind]. rewrite collect_fees_view by done. cbn [mbind go_bind].
  rewrite bq_len_view by done. unfold window_fees. rewrite Hv. fold view view'.
  destruct (reports_compute (concat (BucketContent <$> view')) (zlen view') Hlen)
    as (d & -> & Hd).
  cbn [mbind go_bind]. eexists. split; [done|]. cbn [feesPerLedger distribution].
  split_and!; [|done..]. split; [done|]. cbn. unfold window_fees. by rewrite Hv.
Qed.
End Single.
Arguments FeeWindow : clear implicits.

Definition NewFeeWindow (retentionWindow : Z) : FeeWindow (LedgerBucketWindow (list Z)) :=
  mkFeeWindow (NewLedgerBucketWindow retentionWindow) zero_distribution.

Lemma NewFeeWindow_ok r : 0 < r < 2147483648 -> fee_window_ok (NewFeeWindow r).
Proof. intros. split; [by apply window_ok_new | done]. Qed.

(** A run of [AppendLedgerFees]. *)
Fixpoint append_ledgers {W} `{BucketQueue (list Z) W} (fw : FeeWindow W)
    (l : list (LedgerBucket (list Z))) : go (FeeWindow W) :=
  match l with
  | [] => Ok fw
  | b :: l' => fw' ← AppendLedgerFees fw b; append_ledgers fw' l'
  end.

(** ** Both windows: [FeeWindows] *)

Section Windows.
Context `{V : ScVals} {D : Ledgers} {X : XdrConsts} {DB : Type} `{S : Rollbacker DB}.
Context {W : Type} `{Q : BucketQueue (list Z) W}.

Record FeeWindows := mkFeeWindows {
  SorobanInclusionFeeWindow : FeeWindow W;
  ClassicFeeWindow : FeeWindow W;
  networkPassPhrase : string;
  fw_db : DB;
}.

Definition is_soroban_op (ty : Z) : bool :=
  (ty =? OperationTypeInvokeHostFunction) || (ty =? OperationTypeExtendFootprintTtl) ||
  (ty =? OperationTypeRestoreFootprint).

(** The resource fees in the meta of versions 3 and 4: [None] is the
    [continue] of a transaction without them. *)
Definition soroban_fees (m : TxMeta) : go (option (Z * Z)) :=
  match m with
  | MetaV3 sm | MetaV4 sm =>
      match sm with
      | None => Ok None
      | Some ext => if negb (ext_V ext =? 1) then Ok None
                    else match ext_V1 ext with
                         | Some f => Ok (Some f)
                         | None => Panic "nil pointer dereference"
                         end
      end
  | MetaOther _ => Ok None
  end.

(** The loop body: the Soroban and the classic fees so far. *)
Definition IngestFees_tx (tx : LedgerTransaction) (acc : list Z * list Z) : go (list Z * list Z) :=
  let '(sorobanInclusionFees, classicFees) := acc in
  let feeCharged := u64 (tx_FeeCharged tx) in
  let classic := Ok (sorobanInclusionFees, classicFees ++ [feeCharged / zlen (tx_Operations tx)]) in
  match tx_Operations tx with
  | [] => Ok acc
  | [op] =>
      if is_soroban_op op then
        o ← soroban_fees (tx_Meta tx);
        match o with
        | None => Ok acc
        | Some (nonRefundable, refundable) =>
            let resourceFeeCharged := i64 (nonRefundable + refundable) in
            Ok (sorobanInclusionFees ++ [u64 (feeCharged - u64 resourceFeeCharged)], classicFees)
        end
      else classic
  | _ => classic
  end.

(** [errors.Join(err, fw.db.Rollback())] *)
Definition join_rollback (fw : FeeWindows) (e : err) : FeeWindows * go unit :=
  let '(db', r) := db_Rollback (fw_db fw) in
  (mkFeeWindows (SorobanInclusionFeeWindow fw) (ClassicFeeWindow fw) (networkPassPhrase fw) db',
   Er (EJoin (e :: option_list r))).

Definition IngestFees (fw : FeeWindows) (meta : LedgerCloseMeta) : FeeWindows * go unit :=
  match (reader ← NewTxReader (networkPassPhrase fw) meta;
         reader_loop (read_fuel meta) IngestFees_tx reader ([], [])) with
  | Panic m => (fw, Panic m)
  | Er e => join_rollback fw e
  | Ok (sorobanInclusionFees, classicFees) =>
      let bucket := mkBucket (LedgerSequence meta) (LedgerCloseTime meta) in
      match AppendLedgerFees (ClassicFeeWindow fw) (bucket classicFees) with
      | Panic m => (fw, Panic m)
      | Er e => join_rollback fw e
      | Ok c =>
          let fw := mkFeeWindows (SorobanInclusionFeeWindow fw) c (networkPassPhrase fw) (fw_db fw) in
          match AppendLedgerFees (SorobanInclusionFeeWindow fw) (bucket sorobanInclusionFees) with
          | Panic m => (fw, Panic m)
          | Er e => join_rollback fw e
          | Ok s => (mkFeeWindows s c (networkPassPhrase fw) (fw_db fw), Ok tt)
          end
      end
  end.

(** *** Specification: which fee a transaction contributes *)

Inductive fee_kind := Soroban (fee : Z) | Classic (fee : Z) | NoFee.

Definition is_soroban_tx (tx : LedgerTransaction) : bool :=
  match tx_Operations tx with [op] => is_soroban_op op | _ => false end.

Definition resource_fee (tx : LedgerTransaction) : option Z :=
  match tx_Meta tx with
  | MetaV3 (Some ext) | MetaV4 (Some ext) =>
      if ext_V ext =? 1 then (fun '(a, b) => a + b) <$> ext_V1 ext else None
  | _ => None
  end.

Definition fee_of (tx : LedgerTransaction) : fee_kind :=
  if zlen (tx_Operations tx) =? 0 then NoFee
  else if is_soroban_tx tx then
    match resource_fee tx with Some r => Soroban (tx_FeeCharged tx - r) | None => NoFee end
  else Classic (tx_FeeCharged tx / zlen (tx_Operations tx)).

Definition soroban_part (tx : LedgerTransaction) : option Z :=
  match fee_of tx with Soroban f => Some f | _ => None end.
Definition classic_part (tx : LedgerTransaction) : option Z :=
  match fee_of tx with Classic f => Some f | _ => None end.

(** What the network guarantees of a transaction: the charged fee covers the
    resource fee it includes, and a version 1 extension carries its fees. *)
Definition fees_sane (tx : LedgerTransaction) : Prop :=
  0 <= tx_FeeCharged tx < 9223372036854775808 /\
  (forall r, resource_fee tx = Some r -> 0 <= r <= tx_FeeCharged tx) /\
  match tx_Meta tx with
  | MetaV3 (Some ext) | MetaV4 (Some ext) => ext_V ext = 1 -> ext_V1 ext <> None
  | _ => True
  end.

Lemma IngestFees_tx_spec tx ss cs : fees_sane tx ->
  IngestFees_tx tx (ss, cs) =
  Ok (ss ++ option_list (soroban_part tx), cs ++ option_list (classic_part tx)).
Proof.
  intros (Hf & Hr & Hm). unfold IngestFees_tx, soroban_part, classic_part, fee_of, is_soroban_tx, zlen.
  rewrite (u64_small (tx_FeeCharged tx)) by (unfold is_u64; lia).
  destruct (tx_Operations tx) as [|op [|op2 ops]]; simpl; rewrite ?app_nil_r; try done.
  destruct (is_soroban_op op); simpl; rewrite ?app_nil_r; [|done].
  assert (forall a b, resource_fee tx = Some (a + b) ->
            u64 (tx_FeeCharged tx - u64 (i64 (a + b))) = tx_FeeCharged tx - (a + b)) as Hsub.
  { intros a b E. specialize (Hr _ E). rewrite i64_small by (unfold is_i64; lia).
    rewrite !u64_small by (unfold is_u64; rewrite ?u64_small by (unfold is_u64; lia); lia). done. }
  unfold resource_fee in *. unfold soroban_fees.
  destruct (tx_Meta tx) as [[[v e]|]|[[v e]|]|v]; simpl in *; rewrite ?app_nil_r; try done;
    destruct (Z.eqb_spec v 1) as [->|]; simpl in *; rewrite ?app_nil_r; try done;
    (destruct e as [[a b]|]; simpl in *; [|by destruct Hm]);
    by rewrite Hsub, app_nil_r.
Qed.

Lemma IngestFees_fold txs ss cs : Forall fees_sane txs ->
  go_fold IngestFees_tx txs (ss, cs) = Ok (ss ++ omap soroban_part txs, cs ++ omap classic_part txs).
Proof.
  revert ss cs. induction txs as [|tx txs IH]; intros ss cs HF; [simpl; by rewrite !app_nil_r|].
  inversion HF; subst. cbn [go_fold]. rewrite IngestFees_tx_spec by done.
  cbn [mbind go_bind]. rewrite IH by done. simpl.
  unfold soroban_part, classic_part. destruct (fee_of tx); simpl; by rewrite <- ?app_assoc, ?app_nil_r.
Qed.

(** Ingesting a ledger is appending its fees to both windows. *)
Lemma IngestFees_appends fw meta {passphrase} {L : LedgersLaws D passphrase} :
  networkPassPhrase fw = passphrase -> ledger_decodes meta -> Forall fees_sane (ledger_txs meta) ->
  let bucket f := mkBucket (LedgerSequence meta) (LedgerCloseTime meta) (omap f (ledger_txs meta)) in
  IngestFees fw meta =
  match AppendLedgerFees (ClassicFeeWindow fw) (bucket classic_part) with
  | Panic m => (fw, Panic m)
  | Er e => join_rollback fw e
  | Ok c =>
      let fw := mkFeeWindows (SorobanInclusionFeeWindow fw) c (networkPassPhrase fw) (fw_db fw) in
      match AppendLedgerFees (SorobanInclusionFeeWindow fw) (bucket soroban_part) with
      | Panic m => (fw, Panic m)
      | Er e => join_rollback fw e
      | Ok s => (mkFeeWindows s c (networkPassPhrase fw) (fw_db fw), Ok tt)
      end
  end.
Proof.
  intros Hp Hd HF bucket. unfold IngestFees. rewrite Hp. destruct (reader_open meta Hd) as (r & -> & Hr).
  cbn [mbind go_bind]. rewrite (read_all_fold _ meta r) by done.
  rewrite IngestFees_fold by done. done.
Qed.
End Windows.
Arguments FeeWindows : clear implicits.

Definition NewFeeWindows {DB} (classicRetention sorobanRetention : Z) (passphrase : string) (d : DB) :
    FeeWindows DB (LedgerBucketWindow (list Z)) :=
  mkFeeWindows (NewFeeWindow sorobanRetention) (NewFeeWindow classicRetention) passphrase d.

(** ** Properties *)

Lemma append_ledgers_app {W} `{BucketQueue (list Z) W} fw l l' :
  append_ledgers fw (l ++ l') = fw' ← append_ledgers fw l; append_ledgers fw' l'.
Proof.
  revert fw. induction l as [|b l IH]; intros fw; [done|]. simpl.
  destruct (AppendLedgerFees fw b) as [fw'| |]; simpl; [apply IH|done|done].
Qed.

Lemma concat_fees_drop (l : list (LedgerBucket (list Z))) k :
  (length (concat (BucketContent <$> drop k l)) <= length (concat (BucketContent <$> l)))%nat.
Proof.
  revert k. induction l as [|b l IH]; intros [|k]; [simpl; lia | simpl; lia | cbn [drop]; lia |].
  specialize (IH k). cbn [drop]. rewrite fmap_cons. cbn [concat]. rewrite length_app. lia.
Qed.

Lemma append_ledgers_lastn r l : 0 < r < 2147483648 -> contiguous l ->
  Forall (fun b => is_u32 (LedgerSeq b)) l ->
  zlen (concat (BucketContent <$> l)) < 2 ^ 56 ->
  exists fw, append_ledgers (NewFeeWindow r) l = Ok fw /\ fee_window_ok fw /\
    bq_cap (feesPerLedger fw) = Z.to_nat r /\
    bq_view (feesPerLedger fw) = lastn (Z.to_nat r) l.
Proof.
  intros Hr. induction l as [|b l IH] using rev_ind; intros Hc HF Hlen.
  { exists (NewFeeWindow r). split_and!; [done|by apply NewFeeWindow_ok|done|done]. }
  assert (zlen (concat (BucketContent <$> l)) < 2 ^ 56) as Hlen'.
  { unfold zlen in *. rewrite fmap_app, concat_app, length_app in Hlen. clear -Hlen. lia. }
  apply Forall_app in HF as [HF HFb]. inversion HFb as [|? ? Hb _]; subst.
  assert (contiguous l) as Hcl.
  { intros i x y Hx Hy. apply (Hc i); by apply lookup_app_l_Some. }
  destruct (IH Hcl HF Hlen') as (fw & Hfw & Hok & Hcap & Hv).
  rewrite append_ledgers_app, Hfw. cbn [mbind go_bind append_ledgers].
  destruct (AppendLedgerFees_spec fw b) as [(s & Hs & Hne & _)|(_ & fw' & -> & Hok' & Hcap' & Hv')].
  - apply Hok.
  - done.
  - rewrite Hcap, Hv, view_append_lastn by lia. unfold lastn, zlen in *.
    pose proof (concat_fees_drop (l ++ [b]) (length (l ++ [b]) - Z.to_nat r)). lia.
  - exfalso. rewrite Hv in Hs. unfold lastn in Hs. destruct l as [|x l]; [done|].
    rewrite (next_seq_drop _ (x :: l) b) in Hs; [congruence|done| |simpl; lia].
    apply Forall_app. by split.
  - cbn [mbind go_bind]. exists fw'. split_and!; [done|done|congruence|].
    rewrite Hv', Hcap, Hv, view_append_lastn by lia. done.
Qed.

(** C14: After any run of consecutive ledgers, [GetFeeDistribution] reports, for
    the fees of the last [r] of them (the retention), their exact minimum,
    maximum, smallest mode, nearest-rank percentiles and counts. *)
Theorem fee_window_statistics r l : 0 < r < 2147483648 -> contiguous l ->
  Forall (fun b => is_u32 (LedgerSeq b)) l ->
  zlen (concat (BucketContent <$> l)) < 2 ^ 56 ->
  exists fw, append_ledgers (NewFeeWindow r) l = Ok fw /\
    reports (GetFeeDistribution fw)
      (concat (BucketContent <$> lastn (Z.to_nat r) l)) (zlen (lastn (Z.to_nat r) l)).
Proof.
  intros Hr Hc HF Hlen.
  destruct (append_ledgers_lastn r l Hr Hc HF Hlen) as (fw & Hfw & [_ Hrep] & _ & Hv).
  exists fw. split; [done|]. unfold window_fees in Hrep. by rewrite Hv in Hrep.
Qed.

Lemma fee_window_statistics_witness : exists fw,
  append_ledgers (NewFeeWindow 2)
    [mkBucket 7 0 [100]; mkBucket 8 5 [200; 300]; mkBucket 9 10 [300]] = Ok fw /\
  reports (GetFeeDistribution fw) [200; 300; 300] 2.
Proof.
  apply (fee_window_statistics 2 [mkBucket 7 0 [100]; mkBucket 8 5 [200; 300]; mkBucket 9 10 [300]]).
  - lia.
  - intros i a b Ha Hb. destruct i as [|[|[|i]]]; simpl in *; try done;
      injection Ha as <-; injection Hb as <-; reflexivity.
  - repeat constructor; simpl; lia.
  - vm_compute. reflexivity.
Defined.

(** ** Windows in service *)

Section Ready.
Context `{V : ScVals} {D : Ledgers} {X : XdrConsts} {DB : Type} `{S : Rollbacker DB}.
Context {W : Type} `{Q : BucketQueue (list Z) W}.
Context {passphrase : string} {L : LedgersLaws D passphrase}.

(** A window that is ready for ledger [seq]. *)
Definition window_ready (fw : FeeWindow W) (seq : Z) : Prop :=
  fee_window_ok fw /\ default seq (next_seq (bq_view (feesPerLedger fw))) = seq /\
  (0 < bq_cap (feesPerLedger fw))%nat.

(** The larger number of fees the two windows hold. *)
Definition fees_held (fw : FeeWindows DB W) : Z :=
  Z.max (zlen (concat (BucketContent <$> bq_view (feesPerLedger (ClassicFeeWindow fw)))))
        (zlen (concat (BucketContent <$> bq_view (feesPerLedger (SorobanInclusionFeeWindow fw))))).

Lemma view_append_fees cap (view : list (LedgerBucket (list Z))) b :
  (length (concat (BucketContent <$> view_append cap view b)) <=
   length (concat (BucketContent <$> view)) + length (BucketContent b))%nat.
Proof.
  unfold view_append.
  assert (length (concat (BucketContent <$> tail view)) <= length (concat (BucketContent <$> view)))%nat as Ht.
  { destruct view as [|x v]; [done|]. rewrite fmap_cons. cbn [tail concat]. rewrite length_app. lia. }
  destruct (_ <? _)%nat; rewrite fmap_app, concat_app, length_app; cbn [fmap list_fmap concat];
    rewrite app_nil_r; lia.
Qed.

Lemma length_omap_le {A C} (f : A -> option C) l : (length (omap f l) <= length l)%nat.
Proof. induction l as [|x l IH]; [done|]. cbn in *. destruct (f x); cbn in *; lia. Qed.

(** A ready window takes the ledger's fees and is ready for the next one. *)
Lemma window_ready_append fw b : window_ready fw (LedgerSeq b) -> is_u32 (LedgerSeq b + 1) -> 0 <= LedgerSeq b ->
  zlen (concat (BucketContent <$> bq_view (feesPerLedger fw))) + zlen (BucketContent b) < 2 ^ 56 ->
  exists fw', AppendLedgerFees fw b = Ok fw' /\ window_ready fw' (LedgerSeq b + 1) /\
    bq_view (feesPerLedger fw') = view_append (bq_cap (feesPerLedger fw)) (bq_view (feesPerLedger fw)) b.
Proof.
  intros (Hok & Hn & Hcap) Hu Hpos Hlen. unfold is_u32 in Hu.
  assert (is_u32 (LedgerSeq b)) as Hb by (unfold is_u32; lia).
  destruct (AppendLedgerFees_spec fw b (proj1 Hok) Hb) as [(q & Hq & Hne & _)|(Hnext & fw' & Ha & Hok' & Hc' & Hv')].
  - pose proof (view_append_fees (bq_cap (feesPerLedger fw)) (bq_view (feesPerLedger fw)) b).
    unfold zlen in *. lia.
  - rewrite Hq in Hn. simpl in Hn. congruence.
  - exists fw'. split; [done|]. split; [|done]. split; [done|]. rewrite Hc', Hv'. split; [|done].
    rewrite next_seq_append; [|done|apply bq_contiguous, Hok|done|done]. simpl. apply u32_small. done.
Qed.

(** Both fee windows take a ledger they are ready for. *)
Lemma IngestFees_step (fw : FeeWindows DB W) lcm :
  networkPassPhrase fw = passphrase -> ledger_decodes lcm ->
  0 < LedgerSequence lcm < 2147483647 -> Forall fees_sane (ledger_txs lcm) ->
  window_ready (ClassicFeeWindow fw) (LedgerSequence lcm) ->
  window_ready (SorobanInclusionFeeWindow fw) (LedgerSequence lcm) ->
  fees_held fw + zlen (ledger_txs lcm) < 2 ^ 56 ->
  exists fw', IngestFees fw lcm = (fw', Ok tt) /\
     networkPassPhrase fw' = passphrase /\ fw_db fw' = fw_db fw /\
     window_ready (ClassicFeeWindow fw') (LedgerSequence lcm + 1) /\
     window_ready (SorobanInclusionFeeWindow fw') (LedgerSequence lcm + 1) /\
     fees_held fw' <= fees_held fw + zlen (ledger_txs lcm).
Proof.
  intros Hpp Hlf Hseq Hfees Hcl Hso Hc. unfold fees_held in Hc. rewrite (IngestFees_appends _ _ Hpp Hlf Hfees). cbv zeta.
  pose proof (length_omap_le classic_part (ledger_txs lcm)).
  pose proof (length_omap_le soroban_part (ledger_txs lcm)).
  destruct (window_ready_append (ClassicFeeWindow fw)
    (mkBucket (LedgerSequence lcm) (LedgerCloseTime lcm) (omap classic_part (ledger_txs lcm))))
    as (c & -> & Hc1 & Hvc); [done|unfold is_u32; simpl; lia|simpl; lia|unfold zlen in *; simpl; lia|].
  destruct (window_ready_append (SorobanInclusionFeeWindow fw)
    (mkBucket (LedgerSequence lcm) (LedgerCloseTime lcm) (omap soroban_part (ledger_txs lcm))))
    as (so & Hs1 & Hs2 & Hvs); [done|unfold is_u32; simpl; lia|simpl; lia|unfold zlen in *; simpl; lia|].
  cbn [SorobanInclusionFeeWindow]. rewrite Hs1. eexists. split; [done|]. split_and!; [done..|].
  unfold fees_held. cbn [ClassicFeeWindow SorobanInclusionFeeWindow]. rewrite Hvc, Hvs.
  pose proof (view_append_fees (bq_cap (feesPerLedger (ClassicFeeWindow fw)))
    (bq_view (feesPerLedger (ClassicFeeWindow fw)))
    (mkBucket (LedgerSequence lcm) (LedgerCloseTime lcm) (omap classic_part (ledger_txs lcm)))) as H1.
  pose proof (view_append_fees (bq_cap (feesPerLedger (SorobanInclusionFeeWindow fw)))
    (bq_view (feesPerLedger (SorobanInclusionFeeWindow fw)))
    (mkBucket (LedgerSequence lcm) (LedgerCloseTime lcm) (omap soroban_part (ledger_txs lcm)))) as H2.
  unfold zlen in *. cbn [BucketContent] in *. lia.
Qed.

End Ready.

(** C15: Ingesting the next ledger into well-formed windows succeeds, keeps the
    database session untouched, and leaves each window with the statistics of
    its last ledgers, each Soroban transaction with resource fees counted by
    its inclusion fee, every other one by its fee per operation. *)
Theorem IngestFees_statistics `{V : ScVals} {D : Ledgers} {X : XdrConsts} {DB W} `{Rollbacker DB}
    `{BucketQueue (list Z) W} (fw : FeeWindows DB W) meta
    {passphrase} {L : LedgersLaws D passphrase} :
  networkPassPhrase fw = passphrase -> ledger_decodes meta -> Forall fees_sane (ledger_txs meta) ->
  fee_window_ok (ClassicFeeWindow fw) -> fee_window_ok (SorobanInclusionFeeWindow fw) ->
  let classic := bq_view (feesPerLedger (ClassicFeeWindow fw)) in
  let soroban := bq_view (feesPerLedger (SorobanInclusionFeeWindow fw)) in
  let bucket f := mkBucket (LedgerSequence meta) (LedgerCloseTime meta) (omap f (ledger_txs meta)) in
  let classic' := view_append (bq_cap (feesPerLedger (ClassicFeeWindow fw))) classic (bucket classic_part) in
  let soroban' := view_append (bq_cap (feesPerLedger (SorobanInclusionFeeWindow fw))) soroban (bucket soroban_part) in
  default (LedgerSequence meta) (next_seq classic) = LedgerSequence meta ->
  default (LedgerSequence meta) (next_seq soroban) = LedgerSequence meta ->
  zlen (concat (BucketContent <$> classic')) < 2 ^ 56 ->
  zlen (concat (BucketContent <$> soroban')) < 2 ^ 56 ->
  exists c s, IngestFees fw meta = (mkFeeWindows s c (networkPassPhrase fw) (fw_db fw), Ok tt) /\
    fee_window_ok c /\ bq_view (feesPerLedger c) = classic' /\
    fee_window_ok s /\ bq_view (feesPerLedger s) = soroban'.
Proof.
  intros Hp Hd HF Hcok Hsok classic soroban bucket classic' soroban' Hc Hs Hcl Hsl.
  pose proof (lcm_seq meta Hd) as Hseq.
  rewrite (IngestFees_appends fw meta Hp Hd HF). cbv zeta.
  fold (bucket classic_part) (bucket soroban_part).
  assert (forall f, is_u32 (LedgerSeq (bucket f))) as Hu by (intros f; unfold is_u32; simpl; lia).
  destruct (AppendLedgerFees_spec (ClassicFeeWindow fw) (bucket classic_part) (proj1 Hcok) (Hu _) Hcl)
    as [(q & Hq & Hne & _)|(_ & c & -> & Hok1 & _ & Hv1)].
  { fold classic in Hq. rewrite Hq in Hc. simpl in Hc, Hne. congruence. }
  destruct (AppendLedgerFees_spec (SorobanInclusionFeeWindow fw) (bucket soroban_part) (proj1 Hsok) (Hu _) Hsl)
    as [(q & Hq & Hne & _)|(_ & s & Hs' & Hok2 & _ & Hv2)].
  { fold soroban in Hq. rewrite Hq in Hs. simpl in Hs, Hne. congruence. }
  cbn [SorobanInclusionFeeWindow networkPassPhrase fw_db]. rewrite Hs'. exists c, s. done.
Qed.

Definition toy_tx (i : Z) (fee : Z) (ops : list Z) (m : TxMeta) : @LedgerTransaction toy_scvals :=
  mkLedgerTx i "h" false "" true fee ops m (Ok ""%string) (Ok ""%string) (Ok ""%string)
    (Ok (mkTxEvents [] [] [])).

Lemma IngestFees_statistics_witness : exists c s,
  IngestFees (NewFeeWindows 10 10 "net" tt)
    (toy_close 7 50 [toy_tx 1 300 [1; 1; 1] (MetaOther 2);
                    toy_tx 2 1000 [24] (MetaV3 (Some (mkSorobanExt 1 (Some (500, 400)))))]) =
    (mkFeeWindows s c "net" tt, Ok tt) /\
  bq_view (feesPerLedger c) = [mkBucket 7 50 [100]] /\
  bq_view (feesPerLedger s) = [mkBucket 7 50 [100]].
Proof.
  edestruct (IngestFees_statistics (NewFeeWindows 10 10 "net" tt)
    (toy_close 7 50 [toy_tx 1 300 [1; 1; 1] (MetaOther 2);
                    toy_tx 2 1000 [24] (MetaV3 (Some (mkSorobanExt 1 (Some (500, 400)))))])
    (L := toy_ledgers_laws "net")) as (c & s & H & _ & Hc & _ & Hs);
    [..|exists c, s; split; [exact H | split; [exact Hc | exact Hs]]].
  - reflexivity.
  - split; [simpl; lia|]. intros [|[|i]] tx Hi; simpl in Hi; simplify_eq; done.
  - assert (forall tx, tx_FeeCharged tx = 300 /\ tx_Meta tx = MetaOther 2 \/
              tx_FeeCharged tx = 1000 /\
                tx_Meta tx = MetaV3 (Some (mkSorobanExt 1 (Some (500, 400)))) -> fees_sane tx) as Hsane.
    { intros tx [[Hf Hm]|[Hf Hm]]; unfold fees_sane, resource_fee; rewrite Hf, Hm;
        (split_and!; [lia|lia|intros r Hr; simpl in Hr; simplify_eq; lia|done]). }
    apply Forall_cons_2; [apply Hsane; by left|].
    apply Forall_cons_2; [apply Hsane; by right | apply Forall_nil_2].
  - apply NewFeeWindow_ok. lia.
  - apply NewFeeWindow_ok. lia.
  - reflexivity.
  - reflexivity.
  - vm_compute. reflexivity.
  - vm_compute. reflexivity.
Defined.
