(* ===== verification/Config.v ===== *)
(** * Configuration: [internal/config]

    An option names a field of the configuration and says where its value comes
    from: a command line flag, an environment variable, a key of the TOML file,
    a default.  The source sets fields through pointers and reflection; here the
    configuration is a store of values by field name and an option carries the
    kind of its pointer.  Help texts are left out. *)

From S2P Require Import Prelude GoStd GoTime.

(** ** Values *)

(** Go's integer types; [INat] is [int] or [uint]. *)
Inductive ity := I8 | I16 | I32 | I64 | INat.
#[export] Instance ity_eq_dec : EqDecision ity.
Proof. solve_decision. Defined.
Definition bits (t : ity) : Z := match t with I8 => 8 | I16 => 16 | I32 => 32 | I64 | INat => 64 end.
Definition wrap_unsigned (t : ity) (z : Z) : Z := z mod 2 ^ bits t.
Definition wrap_signed (t : ity) (z : Z) : Z := (z + 2 ^ (bits t - 1)) mod 2 ^ bits t - 2 ^ (bits t - 1).

(** What [ConfigKey] points to. *)
Inductive kind := KBool | KInt (t : ity) | KUint (t : ity) | KString | KStrings | KDuration | KOther.

(** ** [LogFormat], [log_format.go] *)

Definition LogFormat : Type := Z.
Definition LogFormatText : LogFormat := 0.
Definition LogFormatJSON : LogFormat := 1.
Definition LogFormat_MarshalText (f : LogFormat) : go string :=
  if f =? LogFormatText then Ok "text"%string
  else if f =? LogFormatJSON then Ok "json"%string
  else Er (EFmt "unknown log format: %d" [FZ f]).
Definition LogFormat_UnmarshalText (text : string) : go LogFormat :=
  if String.eqb text "text" then Ok LogFormatText
  else if String.eqb text "json" then Ok LogFormatJSON
  else Er (EFmt "unknown log format: %s" [FS text]).
Definition LogFormat_String (f : LogFormat) : go string := LogFormat_MarshalText f.

(** ** Outside code: logrus levels, TOML trees, KebabToConstantCase of
       stellar/go, the operating system *)

Class ConfigLib := {
  KebabToConstantCase : string -> string;
  InfoLevel : Z;
  ParseLevel : string -> go Z;
  Table : Type;
  (** [ledgerbackend.BufferedStorageBackendConfig] and
      [datastore.DataStoreConfig], unmarshalled from a table *)
  Decoded : Type;
  unmarshal_table : Table -> string -> go Decoded;
}.

(** A Go value of type [interface{}]. *)
Inductive any {L : ConfigLib} :=
  | ANil | ABool (b : bool) | AInt (t : ity) (z : Z) | AUint (t : ity) (z : Z) | AStr (s : string)
  | AStrs (l : list string) | AList (l : list any) | ADuration (d : Z) | ALevel (l : Z) | AFormat (f : LogFormat)
  | ATable (t : Table) | AOther.
(** The value of a field. *)
Inductive value {L : ConfigLib} :=
  | VBool (b : bool) | VInt (z : Z) | VUint (z : Z) | VStr (s : string) | VStrs (l : list string)
  | VDuration (d : Z) | VLevel (l : Z) | VFormat (f : LogFormat) | VDecoded (d : Decoded).

Section Config.
Context {L : ConfigLib}.

Definition Config : Type := gmap string value.

Lemma field_set (cfg : Config) f v : (<[f := v]> cfg : Config) !! f = Some v.
Proof. apply lookup_insert_eq. Qed.
Lemma field_set_ne (cfg : Config) f g v : f <> g -> (<[f := v]> cfg : Config) !! g = cfg !! g.
Proof. apply lookup_insert_ne. Qed.

Lemma field_empty f : (∅ : Config) !! f = None.
Proof. apply lookup_empty. Qed.

(** Fields hold their zero value until they are set. *)
Definition bool_field (cfg : Config) (f : string) : bool := match cfg !! f with Some (VBool b) => b | _ => false end.
Definition uint_field (cfg : Config) (f : string) : Z := match cfg !! f with Some (VUint z) => z | _ => 0 end.
Definition string_field (cfg : Config) (f : string) : string := match cfg !! f with Some (VStr s) => s | _ => EmptyString end.
Definition duration_field (cfg : Config) (f : string) : Z := match cfg !! f with Some (VDuration d) => d | _ => 0 end.

Definition int_field (cfg : Config) (f : string) : Z := match cfg !! f with Some (VInt z) => z | _ => 0 end.
Definition strings_field (cfg : Config) (f : string) : list string := match cfg !! f with Some (VStrs l) => l | _ => [] end.
Definition level_field (cfg : Config) (f : string) : Z := match cfg !! f with Some (VLevel l) => l | _ => 0 end.
Definition format_field (cfg : Config) (f : string) : LogFormat := match cfg !! f with Some (VFormat l) => l | _ => LogFormatText end.
Definition decoded_field (cfg : Config) (f : string) : option Decoded := match cfg !! f with Some (VDecoded d) => Some d | _ => None end.

(** ** Parsers, [parse.go]

    The value for the field, or [None] when it is left alone. *)

Definition parseBool (name : string) (i : any) : go (option value) :=
  match i with
  | ANil => Ok None
  | ABool v => Ok (Some (VBool v))
  | AStr v =>
      match ParseBool (ToLower v) with
      | Ok b => Ok (Some (VBool b))
      | _ => Er (EFmt "invalid boolean value %s: %s" [FS name; FS v])
      end
  | _ => Er (EFmt "could not parse boolean %s: %v" [FS name])
  end.

Definition parseInt_text (t : ity) (v : string) : go (option value) :=
  parsed ← ParseInt v 64; Ok (Some (VInt (wrap_signed t parsed))).
Definition parseInt (t : ity) (name : string) (i : any) : go (option value) :=
  match i with
  | ANil => Ok None
  | AStr v => parseInt_text t v
  | AInt _ v | AUint _ v => parseInt_text t (Itoa v)
  | _ => Er (EFmt "could not parse int %s: %v" [FS name])
  end.

Definition parseUint_text (t : ity) (v : string) : go (option value) :=
  parsed ← ParseUint v 64; Ok (Some (VUint (wrap_unsigned t parsed))).
Definition parseUint (t : ity) (name : string) (i : any) : go (option value) :=
  match i with
  | ANil => Ok None
  | AStr v => parseUint_text t v
  | AInt _ v => if v <? 0 then Er (EFmt "%s cannot be negative" [FS name]) else parseUint_text t (Itoa v)
  | AUint _ v => parseUint_text t (Itoa v)
  | _ => Er (EFmt "could not parse uint %s: %v" [FS name])
  end.

Definition parseString (name : string) (i : any) : go (option value) :=
  match i with
  | ANil => Ok None
  | AStr v => Ok (Some (VStr v))
  | _ => Er (EFmt "could not parse string %s: %v" [FS name])
  end.

(** [SetUint] keeps the low bits of the field's type. *)
Definition parseUint32_text (t : ity) (name v : string) : go (option value) :=
  parsed ← ParseUint v 64;
  if u32max <? parsed then Er (EFmt "%s overflows uint32" [FS name])
  else Ok (Some (VUint (wrap_unsigned t parsed))).
Definition parseUint32 (t : ity) (name : string) (i : any) : go (option value) :=
  match i with
  | ANil => Ok None
  | AStr v => parseUint32_text t name v
  | AInt _ v => if v <? 0 then Er (EFmt "%s cannot be negative" [FS name]) else parseUint32_text t name (Itoa v)
  | AUint _ v => parseUint32_text t name (Itoa v)
  | _ => Er (EFmt "could not parse uint32 %s: %v" [FS name])
  end.

Definition parseDuration (name : string) (i : any) : go (option value) :=
  match i with
  | ANil => Ok None
  | AStr v => d ← on_err (EWrap "could not parse duration: %q: %w" [FS v]) (ParseDuration v); Ok (Some (VDuration d))
  | ADuration v => Ok (Some (VDuration v))
  | _ => Er (EFmt "%s is not a duration" [FS name])
  end.

(** The elements of a [[]interface{}]; [i] is the position. *)
Fixpoint string_elements (name : string) (i : Z) (l : list any) : go (list string) :=
  match l with
  | [] => Ok []
  | AStr s :: l' => rest ← string_elements name (i + 1) l'; Ok (s :: rest)
  | _ :: _ => Er (EFmt "could not parse %s: element %d is not a string" [FS name; FZ i])
  end.
Definition parseStringSlice (name : string) (i : any) : go (option value) :=
  match i with
  | ANil => Ok None
  | AStr v => Ok (Some (VStrs (if String.eqb v "" then [] else Split "," v)))
  | AStrs v => Ok (Some (VStrs v))
  | AList v => result ← string_elements name 0 v; Ok (Some (VStrs result))
  | _ => Er (EFmt "could not parse %s: %v" [FS name])
  end.

(** ** Options, [option.go] *)

Inductive validator := Required | Positive | Func (f : Config -> Config * option err).

Record Option_ := mkOption {
  o_Name : string;
  o_EnvVar : string;
  o_TomlKey : string;
  o_DefaultValue : any;
  o_ConfigKey : string;
  o_kind : kind;
  o_CustomSetValue : option (any -> go (option value));
  o_Validate : option validator;
}.
Definition Options : Type := list Option_.

Definition getEnvKey (o : Option_) : option string :=
  if String.eqb (o_EnvVar o) "-" || String.eqb (o_EnvVar o) "_" then None
  else if negb (String.eqb (o_EnvVar o) "") then Some (o_EnvVar o)
  else Some (KebabToConstantCase (o_Name o)).
Definition getTomlKey (o : Option_) : option string :=
  if String.eqb (o_TomlKey o) "-" || String.eqb (o_TomlKey o) "_" then None
  else if negb (String.eqb (o_TomlKey o) "") then Some (o_TomlKey o)
  else match getEnvKey o with
       | Some envVar => Some envVar
       | None => Some (KebabToConstantCase (o_Name o))
       end.

Definition parser (k : kind) : string -> any -> go (option value) :=
  match k with
  | KBool => parseBool
  | KInt t => parseInt t
  | KUint I64 => parseUint I64
  | KUint t => parseUint32 t
  | KString => parseString
  | KStrings => parseStringSlice
  | KDuration => parseDuration
  | KOther => fun name _ => Er (EFmt "no parser for flag %s" [FS name])
  end.
Definition parse_value (o : Option_) (i : any) : go (option value) :=
  match o_CustomSetValue o with
  | Some custom => custom i
  | None => parser (o_kind o) (o_Name o) i
  end.
Definition setValue (o : Option_) (i : any) (cfg : Config) : go Config :=
  v ← parse_value o i;
  Ok (match v with Some v => <[o_ConfigKey o := v]> cfg | None => cfg end).

(** ** Validation *)

(** Is the field different from its zero value? No table is required. *)
Definition is_set (k : kind) (cfg : Config) (f : string) : bool :=
  match cfg !! f with
  | None => false
  | Some (VBool b) => b
  | Some (VInt z) | Some (VUint z) | Some (VDuration z) | Some (VLevel z) | Some (VFormat z) => negb (z =? 0)
  | Some (VStr s) => negb (String.eqb s "")
  | Some (VStrs l) => negb (length l =? 0)%nat
  | Some (VDecoded _) => true
  end.

Definition ways_to_set (o : Option_) : list string :=
  (if negb (String.eqb (o_Name o) "") && negb (String.eqb (o_Name o) "-")
   then ["specify --" +:+ o_Name o +:+ " on the command line"] else [])%string ++
  (if negb (String.eqb (o_EnvVar o) "") && negb (String.eqb (o_EnvVar o) "-")
   then ["set the " +:+ o_EnvVar o +:+ " environment variable"] else [])%string ++
  (match getTomlKey o with Some k => ["set " +:+ k +:+ " in the config file"] | None => [] end)%string.
Definition advice (ways : list string) : string :=
  match ways with
  | [a] => " Please " +:+ a +:+ "."
  | [a; b] => " Please " +:+ a +:+ " or " +:+ b +:+ "."
  | [a; b; c] => " Please " +:+ a +:+ ", " +:+ b +:+ ", or " +:+ c +:+ "."
  | _ => ""
  end.
(** [missingRequiredOptionError] *)
Definition required (o : Option_) (cfg : Config) : option string :=
  if is_set (o_kind o) cfg (o_ConfigKey o) then None
  else Some (o_Name o +:+ " is required." +:+ advice (ways_to_set o)).

Definition positive (o : Option_) (cfg : Config) : option err :=
  match o_kind o with
  | KInt _ => match cfg !! o_ConfigKey o with
              | Some (VInt z) => if z <=? 0 then Some (EFmt "%s must be positive" [FS (o_Name o)]) else None
              | _ => Some (EFmt "%s must be positive" [FS (o_Name o)])
              end
  | KUint _ => if uint_field cfg (o_ConfigKey o) <=? 0 then Some (EFmt "%s must be positive" [FS (o_Name o)]) else None
  | _ => Some (EFmt "%s is not a positive integer" [FS (o_Name o)])
  end.

Inductive validation := Valid | Missing (msg : string) | Invalid (e : err).
Definition validate_option (o : Option_) (cfg : Config) : Config * validation :=
  match o_Validate o with
  | None => (cfg, Valid)
  | Some Required => (cfg, match required o cfg with Some m => Missing m | None => Valid end)
  | Some Positive => (cfg, match positive o cfg with Some e => Invalid e | None => Valid end)
  | Some (Func f) => let '(cfg', r) := f cfg in (cfg', match r with Some e => Invalid e | None => Valid end)
  end.
(** Missing options are collected, the first invalid one is returned at once. *)
Fixpoint validate_loop (options : Options) (missingOptions : list string) (cfg : Config) : Config * option err :=
  match options with
  | [] => (cfg, match missingOptions with
                | [] => None
                | _ => Some (EFmt "The following required configuration parameters are missing:" (FS <$> missingOptions))
                end)
  | o :: options' =>
      let '(cfg', r) := validate_option o cfg in
      match r with
      | Valid => validate_loop options' missingOptions cfg'
      | Missing m => validate_loop options' (missingOptions ++ [m]) cfg'
      | Invalid e => (cfg', Some (EWrap "invalid config value for %s: %w" [FS (o_Name o)] e))
      end
  end.
Definition Options_Validate (options : Options) (cfg : Config) : Config * option err := validate_loop options [] cfg.
End Config.
