(* ===== verification/ConfigLoad.v ===== *)
(** * Loading the configuration: [config/main.go], [config/flags.go], [config/toml.go]

    The flags are registered first; the values then come from the defaults, the
    environment, the flags and, if a file is named, from the file and once more
    from the environment and the flags. *)

From S2P Require Import Prelude GoStd GoTime Config.

Section Load.
Context {L : ConfigLib}.

(** ** Flags *)

(** [flagset.Bool], ...: the default is of the flag's type, and pflag panics when a
    name is registered twice. *)
Definition default_type_ok (k : kind) (i : any) : bool :=
  match k, i with
  | KBool, ABool _ | KDuration, ADuration _ | KString, AStr _ | KStrings, AStrs _ => true
  | KInt t, AInt t' _ | KUint t, AUint t' _ => bool_decide (t = t')
  | _, _ => false
  end.
Definition set_default (o : Option_) (i : any) : Option_ :=
  mkOption (o_Name o) (o_EnvVar o) (o_TomlKey o) i (o_ConfigKey o) (o_kind o) (o_CustomSetValue o) (o_Validate o).
Definition register (names : list string) (o : Option_) : go (list string * Option_) :=
  if existsb (String.eqb (o_Name o)) names then Panic ("flag redefined: " +:+ o_Name o) else Ok (o_Name o :: names, o).

Definition AddFlag (names : list string) (o : Option_) : go (list string * Option_) :=
  if (String.length (o_Name o) =? 0)%nat then Ok (names, o)
  else match o_CustomSetValue o with
  | Some _ => register names (match o_DefaultValue o with ANil => set_default o (AStr "") | _ => o end)
  | None =>
      let o := match o_kind o, o_DefaultValue o with
               | KString, ANil => set_default o (AStr "")
               | KStrings, ANil => set_default o (AStrs [])
               | _, _ => o
               end in
      match o_kind o with
      | KOther => Er (ENew "unexpected option type")
      | k => if default_type_ok k (o_DefaultValue o) then register names o else Panic "interface conversion"
      end
  end.
Fixpoint AddFlags (names : list string) (options : Options) : go Options :=
  match options with
  | [] => Ok []
  | o :: options' => r ← AddFlag names o; rest ← AddFlags r.1 options'; Ok (r.2 :: rest)
  end.

(** ** Sources *)

Record TomlTree := mkToml { Get : string -> option any; Keys : list string }.
Record Sources := mkSources {
  lookupEnv : string -> option string;
  (** the values of the flags given on the command line *)
  Changed : string -> option any;
  (** opening and reading a TOML file *)
  LoadFile : string -> go TomlTree;
  Version : string;
}.

(** One pass over the options: each one found in the source is set. *)
Fixpoint load (source : Option_ -> option any) (options : Options) (cfg : Config) : go Config :=
  match options with
  | [] => Ok cfg
  | o :: options' =>
      cfg ← (match source o with Some i => setValue o i cfg | None => Ok cfg end);
      load source options' cfg
  end.

Definition from_default (o : Option_) : option any := match o_DefaultValue o with ANil => None | i => Some i end.
Definition from_env (s : Sources) (o : Option_) : option any :=
  key ← getEnvKey o; AStr <$> lookupEnv s key.
Definition from_flags (s : Sources) (o : Option_) : option any :=
  if String.eqb (o_Name o) "" then None else Changed s (o_Name o).
Definition from_toml (tree : TomlTree) (o : Option_) : option any :=
  key ← getTomlKey o; Get tree key.

Definition loadDefaults (s : Sources) (options : Options) (cfg : Config) : go Config :=
  cfg ← load from_default options cfg;
  Ok (<["HistoryArchiveUserAgent"%string := VStr ("stellar-rpc/" +:+ Version s)]> cfg).
Definition loadEnv (s : Sources) : Options -> Config -> go Config := load (from_env s).
Definition loadFlags (s : Sources) : Options -> Config -> go Config := load (from_flags s).

Definition parseToml (tree : TomlTree) (strict : bool) (options : Options) (cfg : Config) : go Config :=
  cfg ← load (from_toml tree) options cfg;
  if bool_field cfg "Strict" || strict then
    match find (fun key => negb (existsb (fun o => bool_decide (getTomlKey o = Some key)) options)) (Keys tree) with
    | Some key => Er (EFmt "invalid config: unexpected entry specified in toml file %q" [FS key])
    | None => Ok cfg
    end
  else Ok cfg.
Definition loadConfigPath (s : Sources) (options : Options) (cfg : Config) : go Config :=
  tree ← LoadFile s (string_field cfg "ConfigPath");
  parseToml tree (bool_field cfg "Strict") options cfg.

Definition SetValues (s : Sources) (options : Options) (cfg : Config) : go Config :=
  cfg ← loadDefaults s options cfg;
  cfg ← loadEnv s options cfg;
  cfg ← loadFlags s options cfg;
  if negb (String.eqb (string_field cfg "ConfigPath") "") then
    cfg ← loadConfigPath s options cfg;
    cfg ← loadEnv s options cfg;
    loadFlags s options cfg
  else Ok cfg.

Definition ExtendedUserAgent (cfg : Config) (extension : string) : string :=
  if String.eqb (string_field cfg "HistoryArchiveUserAgent") "" then extension
  else string_field cfg "HistoryArchiveUserAgent" +:+ "/" +:+ extension.

(** ** One pass *)

(** The field of [o] after a pass, from what it was before. *)
Definition passed (source : Option_ -> option any) (o : Option_) (before after : option value) : Prop :=
  match source o with
  | None => after = before
  | Some i => match parse_value o i with
              | Ok (Some v) => after = Some v
              | Ok None => after = before
              | _ => False
              end
  end.

Lemma setValue_spec o i cfg cfg' : setValue o i cfg = Ok cfg' ->
  (forall f, f <> o_ConfigKey o -> cfg' !! f = cfg !! f) /\
  match parse_value o i with
  | Ok (Some v) => cfg' !! o_ConfigKey o = Some v
  | Ok None => cfg' !! o_ConfigKey o = cfg !! o_ConfigKey o
  | _ => False
  end.
Proof.
  unfold setValue. destruct (parse_value o i) as [[v|]|e|p]; cbn [mbind go_bind]; [| |done..]; intros [= <-]; [|done].
  split; [intros f Hf; by apply field_set_ne|]. apply field_set.
Qed.

Lemma load_spec source options cfg cfg' : NoDup (o_ConfigKey <$> options) -> load source options cfg = Ok cfg' ->
  (forall f, f ∉ (o_ConfigKey <$> options) -> cfg' !! f = cfg !! f) /\
  Forall (fun o => passed source o (cfg !! o_ConfigKey o) (cfg' !! o_ConfigKey o)) options.
Proof.
  revert cfg. induction options as [|o options IH]; intros cfg Hnd H; cbn [load fmap list_fmap] in *.
  { injection H as <-. by split. }
  apply NoDup_cons in Hnd as [Ho Hnd]. apply go_bind_ok in H as (cfg1 & H1 & H). destruct (IH cfg1 Hnd H) as [Hout HF].
  assert ((forall f, f <> o_ConfigKey o -> cfg1 !! f = cfg !! f) /\
          passed source o (cfg !! o_ConfigKey o) (cfg1 !! o_ConfigKey o)) as [Hne Hpass].
  { unfold passed. destruct (source o) as [i|]; [by apply setValue_spec|]. by injection H1 as <-. }
  split.
  - intros f Hf. apply not_elem_of_cons in Hf as [Hf1 Hf2]. by rewrite Hout, Hne.
  - constructor; [by rewrite (Hout _ Ho)|]. rewrite Forall_forall in *. intros x Hx. rewrite <- Hne; [by apply HF|].
    intros E. apply Ho. rewrite <- E. by apply list_elem_of_fmap_2.
Qed.

Lemma passed_in source options cfg cfg' o : NoDup (o_ConfigKey <$> options) -> load source options cfg = Ok cfg' ->
  o ∈ options -> passed source o (cfg !! o_ConfigKey o) (cfg' !! o_ConfigKey o).
Proof. intros Hnd H Ho. destruct (load_spec _ _ _ _ Hnd H) as [_ HF]. rewrite Forall_forall in HF. by apply HF. Qed.

(** What every pass keeps, and the user agent does not matter to, holds of a loaded
    configuration. *)
Lemma SetValues_ind (P : Config -> Prop) s options cfg cfg' : P cfg ->
  (forall source c c', load source options c = Ok c' -> P c -> P c') ->
  (forall c v, P c -> P (<["HistoryArchiveUserAgent"%string := v]> c)) ->
  SetValues s options cfg = Ok cfg' -> P cfg'.
Proof.
  intros H0 Hload Hagent H. unfold SetValues, loadDefaults in H.
  apply go_bind_ok in H as (cfg1 & (c & H1 & <-%Ok_inj)%go_bind_ok & H).
  apply go_bind_ok in H as (cfg2 & H2 & H). apply go_bind_ok in H as (cfg3 & H3 & H).
  assert (P cfg3) as P3 by (apply (Hload _ _ _ H3), (Hload _ _ _ H2), Hagent, (Hload _ _ _ H1), H0).
  destruct (negb _); [|by apply Ok_inj in H as <-].
  apply go_bind_ok in H as (cfg4 & H4 & H). apply go_bind_ok in H as (cfg5 & H5 & H6).
  unfold loadConfigPath in H4. apply go_bind_ok in H4 as (t & _ & H4). unfold parseToml in H4.
  apply go_bind_ok in H4 as (c4 & H4 & Hc4). apply (Hload _ _ _ H6), (Hload _ _ _ H5).
  assert (cfg4 = c4) as -> by (destruct (_ || _); [destruct (find _ _)|]; by go_inv).
  by apply (Hload _ _ _ H4).
Qed.
End Load.
