(* ===== verification/Options.v ===== *)
(** * The options: [config/options.go]

    The table of options with their keys, defaults and checks, and what loading
    and validating a configuration with it guarantees. *)

From S2P Require Import Prelude GoStd GoTime Config ConfigLoad.

Definition OneDayOfLedgers : Z := 17280.
Definition SevenDayOfLedgers : Z := OneDayOfLedgers * 7.
Definition defaultHTTPEndpoint : string := "localhost:8000".
Definition defaultCaptiveCoreHTTPPort : Z := 11626.
Definition defaultCaptiveCoreHTTPQueryPort : Z := 11628.

(** The machine: the path of [stellar-core], the number of processors, the working
    directory. *)
Record System := mkSystem { LookPath : string; NumCPU : Z; Getwd : go string }.

Section Options.
Context {L : ConfigLib}.

(** ** Setters of options with a parser of their own *)

Definition set_log_level (i : any) : go (option value) :=
  match i with
  | ANil => Ok None
  | AStr v => match ParseLevel v with
              | Ok ll => Ok (Some (VLevel ll))
              | _ => Er (EFmt "could not parse %s: %q" [FS "log-level"; FS v])
              end
  | ALevel v => Ok (Some (VLevel v))
  | _ => Er (EFmt "could not parse %s: %q" [FS "log-level"])
  end.
Definition set_log_format (i : any) : go (option value) :=
  match i with
  | ANil => Ok None
  | AStr v => f ← on_err (EWrap "could not parse %s: %w" [FS "log-format"]) (LogFormat_UnmarshalText v); Ok (Some (VFormat f))
  | AFormat v => Ok (Some (VFormat v))
  | _ => Er (EFmt "could not parse %s: %q" [FS "log-format"])
  end.
Definition cwd (sys : System) : go string := on_err (EWrap "unable to determine the current directory: %w" []) (Getwd sys).
Definition set_storage_path (sys : System) (i : any) : go (option value) :=
  match i with
  | AStr v => v ← (if String.eqb v "" || String.eqb v "." then cwd sys else Ok v); Ok (Some (VStr v))
  | ANil => v ← cwd sys; Ok (Some (VStr v))
  | _ => Er (EFmt "could not parse %s: %v" [FS "captive-core-storage-path"])
  end.
Definition unmarshalTOMLTree (configName : string) (tree : any) : go (option value) :=
  match tree with
  | ATable t => d ← unmarshal_table t configName; Ok (Some (VDecoded d))
  | _ => Er (EFmt "expected TOML table for %s, got %T" [FS configName])
  end.

(** ** Checks of their own *)

(** A default that depends on another option. *)
Definition default_core_url (cfg : Config) : Config * option err :=
  (if String.eqb (string_field cfg "StellarCoreURL") ""
   then <["StellarCoreURL"%string := VStr ("http://localhost:" +:+ Itoa (uint_field cfg "CaptiveCoreHTTPPort"))]> cfg
   else cfg, None).
Definition at_most (f max fmt : string) (cfg : Config) : Config * option err :=
  (cfg, if uint_field cfg max <? uint_field cfg f
        then Some (EFmt fmt [FZ (uint_field cfg f); FZ (uint_field cfg max)]) else None).

(** ** The table *)

Definition core_options (sys : System) : Options := [
    mkOption "config-path" "SOROBAN_RPC_CONFIG_PATH" "-" ANil "ConfigPath" KString None None;
    mkOption "config-strict" "SOROBAN_RPC_CONFIG_STRICT" "STRICT" (ABool false) "Strict" KBool None None;
    mkOption "endpoint" "" "" (AStr defaultHTTPEndpoint) "Endpoint" KString None None;
    mkOption "admin-endpoint" "" "" ANil "AdminEndpoint" KString None None;
    mkOption "stellar-core-url" "" "" ANil "StellarCoreURL" KString None (Some (Func default_core_url));
    mkOption "stellar-core-timeout" "" "" (ADuration (2 * Second)) "CoreRequestTimeout" KDuration None None;
    mkOption "stellar-captive-core-http-port" "" "" (AUint I16 defaultCaptiveCoreHTTPPort) "CaptiveCoreHTTPPort" (KUint I16) None None;
    mkOption "stellar-captive-core-http-query-port" "" "" (AUint I16 defaultCaptiveCoreHTTPQueryPort) "CaptiveCoreHTTPQueryPort" (KUint I16) None (Some Positive);
    mkOption "stellar-captive-core-http-query-thread-pool-size" "" "" (AUint I16 (wrap_unsigned I16 (NumCPU sys))) "CaptiveCoreHTTPQueryThreadPoolSize" (KUint I16) None None;
    mkOption "stellar-captive-core-http-query-snapshot-ledgers" "" "" (AUint I16 4) "CaptiveCoreHTTPQuerySnapshotLedgers" (KUint I16) None None;
    mkOption "log-level" "" "" (ALevel InfoLevel) "LogLevel" KOther (Some set_log_level) None;
    mkOption "log-format" "" "" (AFormat LogFormatText) "LogFormat" KOther (Some set_log_format) None;
    mkOption "stellar-core-binary-path" "" "" (AStr (LookPath sys)) "StellarCoreBinaryPath" KString None (Some Required);
    mkOption "captive-core-config-path" "" "" ANil "CaptiveCoreConfigPath" KString None (Some Required);
    mkOption "captive-core-storage-path" "" "" ANil "CaptiveCoreStoragePath" KString (Some (set_storage_path sys)) None]%string.
Definition storage_options (sys : System) : Options := [
    mkOption "history-archive-urls" "" "" ANil "HistoryArchiveURLs" KStrings None (Some Required);
    mkOption "friendbot-url" "" "" ANil "FriendbotURL" KString None None;
    mkOption "network-passphrase" "" "" ANil "NetworkPassphrase" KString None (Some Required);
    mkOption "db-path" "" "" (AStr "soroban_rpc.sqlite") "SQLiteDBPath" KString None None;
    mkOption "ingestion-timeout" "" "" (ADuration (50 * Minute)) "IngestionTimeout" KDuration None None;
    mkOption "checkpoint-frequency" "" "" (AUint I32 64) "CheckpointFrequency" (KUint I32) None None;
    mkOption "history-retention-window" "" "" (AUint I32 SevenDayOfLedgers) "HistoryRetentionWindow" (KUint I32) None (Some Positive);
    mkOption "classic-fee-stats-retention-window" "" "" (AUint I32 10) "ClassicFeeStatsLedgerRetentionWindow" (KUint I32) None (Some Positive);
    mkOption "soroban-fee-stats-retention-window" "" "" (AUint I32 50) "SorobanFeeStatsLedgerRetentionWindow" (KUint I32) None (Some Positive);
    mkOption "max-events-limit" "" "" (AUint INat 10000) "MaxEventsLimit" (KUint INat) None None;
    mkOption "default-events-limit" "" "" (AUint INat 100) "DefaultEventsLimit" (KUint INat) None (Some (Func (at_most "DefaultEventsLimit" "MaxEventsLimit" "default-events-limit (%v) cannot exceed max-events-limit (%v)")));
    mkOption "max-transactions-limit" "" "" (AUint INat 200) "MaxTransactionsLimit" (KUint INat) None None;
    mkOption "default-transactions-limit" "" "" (AUint INat 50) "DefaultTransactionsLimit" (KUint INat) None (Some (Func (at_most "DefaultTransactionsLimit" "MaxTransactionsLimit" "default-transactions-limit (%v) cannot exceed max-transactions-limit (%v)")));
    mkOption "max-ledgers-limit" "" "" (AUint INat 200) "MaxLedgersLimit" (KUint INat) None None;
    mkOption "default-ledgers-limit" "" "" (AUint INat 50) "DefaultLedgersLimit" (KUint INat) None (Some (Func (at_most "DefaultLedgersLimit" "MaxLedgersLimit" "default-ledgers-limit (%v) cannot exceed max-ledgers-limit (%v)")));
    mkOption "max-healthy-ledger-latency" "" "" (ADuration (30 * Second)) "MaxHealthyLedgerLatency" KDuration None None;
    mkOption "preflight-worker-count" "" "" (AUint INat (wrap_unsigned INat (NumCPU sys))) "PreflightWorkerCount" (KUint INat) None (Some Positive);
    mkOption "preflight-worker-queue-size" "" "" (AUint INat (wrap_unsigned INat (NumCPU sys))) "PreflightWorkerQueueSize" (KUint INat) None (Some Positive);
    mkOption "preflight-enable-debug" "" "" (ABool true) "PreflightEnableDebug" KBool None None]%string.
Definition backlog_options (sys : System) : Options := [
    mkOption "" "" (KebabToConstantCase "request-backlog-global-queue-limit") (AUint INat 5000) "RequestBacklogGlobalQueueLimit" (KUint INat) None (Some Positive);
    mkOption "" "" (KebabToConstantCase "request-backlog-get-health-queue-limit") (AUint INat 1000) "RequestBacklogGetHealthQueueLimit" (KUint INat) None (Some Positive);
    mkOption "" "" (KebabToConstantCase "request-backlog-get-events-queue-limit") (AUint INat 1000) "RequestBacklogGetEventsQueueLimit" (KUint INat) None (Some Positive);
    mkOption "" "" (KebabToConstantCase "request-backlog-get-network-queue-limit") (AUint INat 1000) "RequestBacklogGetNetworkQueueLimit" (KUint INat) None (Some Positive);
    mkOption "" "" (KebabToConstantCase "request-backlog-get-version-info-queue-limit") (AUint INat 1000) "RequestBacklogGetVersionInfoQueueLimit" (KUint INat) None (Some Positive);
    mkOption "" "" (KebabToConstantCase "request-backlog-get-latest-ledger-queue-limit") (AUint INat 1000) "RequestBacklogGetLatestLedgerQueueLimit" (KUint INat) None (Some Positive);
    mkOption "" "" (KebabToConstantCase "request-backlog-get-ledger-entries-queue-limit") (AUint INat 1000) "RequestBacklogGetLedgerEntriesQueueLimit" (KUint INat) None (Some Positive);
    mkOption "" "" (KebabToConstantCase "request-backlog-get-transaction-queue-limit") (AUint INat 1000) "RequestBacklogGetTransactionQueueLimit" (KUint INat) None (Some Positive);
    mkOption "" "" (KebabToConstantCase "request-backlog-get-transactions-queue-limit") (AUint INat 1000) "RequestBacklogGetTransactionsQueueLimit" (KUint INat) None (Some Positive);
    mkOption "" "" (KebabToConstantCase "request-backlog-get-ledgers-queue-limit") (AUint INat 1000) "RequestBacklogGetLedgersQueueLimit" (KUint INat) None (Some Positive);
    mkOption "" "" (KebabToConstantCase "request-backlog-send-transaction-queue-limit") (AUint INat 500) "RequestBacklogSendTransactionQueueLimit" (KUint INat) None (Some Positive);
    mkOption "" "" (KebabToConstantCase "request-backlog-simulate-transaction-queue-limit") (AUint INat 100) "RequestBacklogSimulateTransactionQueueLimit" (KUint INat) None (Some Positive);
    mkOption "" "" (KebabToConstantCase "request-backlog-get-fee-stats-queue-limit") (AUint INat 100) "RequestBacklogGetFeeStatsTransactionQueueLimit" (KUint INat) None (Some Positive)]%string.
Definition duration_options (sys : System) : Options := [
    mkOption "" "" (KebabToConstantCase "request-execution-warning-threshold") (ADuration (5 * Second)) "RequestExecutionWarningThreshold" KDuration None None;
    mkOption "" "" (KebabToConstantCase "max-request-execution-duration") (ADuration (25 * Second)) "MaxRequestExecutionDuration" KDuration None None;
    mkOption "" "" (KebabToConstantCase "max-get-health-execution-duration") (ADuration (5 * Second)) "MaxGetHealthExecutionDuration" KDuration None None;
    mkOption "" "" (KebabToConstantCase "max-get_events-execution-duration") (ADuration (10 * Second)) "MaxGetEventsExecutionDuration" KDuration None None;
    mkOption "" "" (KebabToConstantCase "max-get-network-execution-duration") (ADuration (5 * Second)) "MaxGetNetworkExecutionDuration" KDuration None None;
    mkOption "" "" (KebabToConstantCase "max-get-version-info-execution-duration") (ADuration (5 * Second)) "MaxGetVersionInfoExecutionDuration" KDuration None None;
    mkOption "" "" (KebabToConstantCase "max-get-latest-ledger-execution-duration") (ADuration (5 * Second)) "MaxGetLatestLedgerExecutionDuration" KDuration None None;
    mkOption "" "" (KebabToConstantCase "max-get_ledger-entries-execution-duration") (ADuration (5 * Second)) "MaxGetLedgerEntriesExecutionDuration" KDuration None None;
    mkOption "" "" (KebabToConstantCase "max-get-transaction-execution-duration") (ADuration (5 * Second)) "MaxGetTransactionExecutionDuration" KDuration None None;
    mkOption "" "" (KebabToConstantCase "max-get-transactions-execution-duration") (ADuration (5 * Second)) "MaxGetTransactionsExecutionDuration" KDuration None None;
    mkOption "" "" (KebabToConstantCase "max-get-ledgers-execution-duration") (ADuration (10 * Second)) "MaxGetLedgersExecutionDuration" KDuration None None;
    mkOption "" "" (KebabToConstantCase "max-send-transaction-execution-duration") (ADuration (15 * Second)) "MaxSendTransactionExecutionDuration" KDuration None None;
    mkOption "" "" (KebabToConstantCase "max-simulate-transaction-execution-duration") (ADuration (15 * Second)) "MaxSimulateTransactionExecutionDuration" KDuration None None;
    mkOption "" "" (KebabToConstantCase "max-get-fee-stats-execution-duration") (ADuration (5 * Second)) "MaxGetFeeStatsExecutionDuration" KDuration None None;
    mkOption "serve-ledgers-from-datastore" "" (KebabToConstantCase "serve-ledgers-from-datastore") (ABool false) "ServeLedgersFromDatastore" KBool None None;
    mkOption "" "" "buffered_storage_backend_config" ANil "BufferedStorageBackendConfig" KOther (Some (unmarshalTOMLTree "buffered_storage_backend_config")) None;
    mkOption "" "" "datastore_config" ANil "DataStoreConfig" KOther (Some (unmarshalTOMLTree "datastore_config")) None]%string.

Definition options (sys : System) : Options :=
  core_options sys ++ storage_options sys ++ backlog_options sys ++ duration_options sys.
(** ** Flags *)

(** The default a flag leaves in its option. *)
Definition with_flag_default (o : Option_) : Option_ :=
  if String.eqb (o_Name o) "" then o
  else match o_CustomSetValue o, o_kind o, o_DefaultValue o with
       | Some _, _, ANil | None, KString, ANil => set_default o (AStr "")
       | None, KStrings, ANil => set_default o (AStrs [])
       | _, _, _ => o
       end.

Lemma options_flagged sys : AddFlags [] (options sys) = Ok (with_flag_default <$> options sys).
Proof. reflexivity. Qed.

Definition keys_of (opts : Options) : list string := o_ConfigKey <$> opts.
Lemma flag_default_key o : o_ConfigKey (with_flag_default o) = o_ConfigKey o.
Proof. unfold with_flag_default. by repeat case_match. Qed.
Lemma options_keys sys : NoDup (keys_of (with_flag_default <$> options sys)) /\
  "HistoryArchiveUserAgent"%string ∉ keys_of (with_flag_default <$> options sys).
Proof.
  pose proof flag_default_key as E.
  assert (keys_of (with_flag_default <$> options sys) = keys_of (options (mkSystem "" 1 (Ok ""%string)))) as ->.
  { unfold keys_of. rewrite <- list_fmap_compose. transitivity (o_ConfigKey <$> options sys); [|reflexivity].
    apply list_fmap_ext. intros i o _. apply E. }
  split; apply (bool_decide_unpack _); vm_compute; exact I.
Qed.

(** ** Only nil leaves a field alone *)

Definition nil_only (o : Option_) : Prop := forall i, parse_value o i = Ok None -> i = ANil.

Lemma parseUint32_text_some t name v : parseUint32_text t name v <> Ok None.
Proof. unfold parseUint32_text. intros H. go_inv. by destruct (u32max <? _). Qed.
Lemma parseUint_text_some t v : parseUint_text t v <> Ok None.
Proof. unfold parseUint_text. intros H. go_inv. done. Qed.

Lemma parser_nil k name i : parser k name i = Ok None -> i = ANil.
Proof.
  assert (forall t, parseUint32 t name i = Ok None -> i = ANil) as H32.
  { intros t. destruct i as [| |t' z|t' z|v| | | | | | |]; unfold parseUint32; try done.
    - destruct (z <? 0); [done|]. intros H. by destruct (parseUint32_text_some t name (Itoa z)).
    - intros H. by destruct (parseUint32_text_some t name (Itoa z)).
    - intros H. by destruct (parseUint32_text_some t name v). }
  destruct k as [|t|t| | | |]; cbn [parser].
  - destruct i as [| | | |v| | | | | | |]; unfold parseBool; try done. by destruct (ParseBool _).
  - destruct i; unfold parseInt, parseInt_text; intros H; try done; go_inv; done.
  - destruct t; try apply H32. destruct i as [| |t' z|t' z|v| | | | | | |]; unfold parseUint; try done.
    + destruct (z <? 0); [done|]. intros H. by destruct (parseUint_text_some I64 (Itoa z)).
    + intros H. by destruct (parseUint_text_some I64 (Itoa z)).
    + intros H. by destruct (parseUint_text_some I64 v).
  - by destruct i.
  - destruct i; unfold parseStringSlice; intros H; try done; go_inv; done.
  - destruct i; unfold parseDuration; intros H; try done; go_inv; done.
  - done.
Qed.

Lemma custom_nil o f : o_CustomSetValue o = Some f -> (forall i, f i = Ok None -> i = ANil) -> nil_only o.
Proof. intros E H i. unfold parse_value. rewrite E. apply H. Qed.
Lemma plain_nil o : o_CustomSetValue o = None -> nil_only o.
Proof. intros E i. unfold parse_value. rewrite E. apply parser_nil. Qed.
Lemma flag_default_custom o : o_CustomSetValue (with_flag_default o) = o_CustomSetValue o.
Proof. unfold with_flag_default. repeat case_match; done. Qed.

Definition customs (sys : System) : list (any -> go (option value)) :=
  [set_log_level; set_log_format; set_storage_path sys; unmarshalTOMLTree "buffered_storage_backend_config";
   unmarshalTOMLTree "datastore_config"].
Lemma customs_nil sys : Forall (fun f => forall i, f i = Ok None -> i = ANil) (customs sys).
Proof.
  repeat constructor; intros i H.
  - destruct i as [| | | |v| | | | | | |]; try done. cbn in H. by destruct (ParseLevel v).
  - destruct i; unfold set_log_format in H; try done; go_inv; done.
  - destruct i; unfold set_storage_path in H; try done; go_inv; done.
  - destruct i; unfold unmarshalTOMLTree in H; try done; go_inv; done.
  - destruct i; unfold unmarshalTOMLTree in H; try done; go_inv; done.
Qed.
Lemma options_customs sys :
  omap o_CustomSetValue (options sys) = customs sys.
Proof. reflexivity. Qed.

Lemma option_nil_only sys o : o ∈ with_flag_default <$> options sys -> nil_only o.
Proof.
  intros (o0 & -> & Ho)%list_elem_of_fmap. destruct (o_CustomSetValue o0) as [f|] eqn:E.
  - apply (custom_nil _ f); [by rewrite flag_default_custom|].
    pose proof (customs_nil sys) as Hc. rewrite Forall_forall in Hc. apply Hc. rewrite <- options_customs.
    apply list_elem_of_omap. eauto.
  - apply plain_nil. by rewrite flag_default_custom.
Qed.

(** ** Precedence *)

Fixpoint first_of {A} (l : list (option A)) : option A :=
  match l with [] => None | Some x :: _ => Some x | None :: l' => first_of l' end.

Definition holds (o : Option_) (cfg : Config) (i : option any) : Prop :=
  match i with
  | Some i => exists v, parse_value o i = Ok (Some v) /\ cfg !! o_ConfigKey o = Some v
  | None => cfg !! o_ConfigKey o = None
  end.

Lemma pass_holds source opts cfg cfg' o i : NoDup (keys_of opts) -> nil_only o -> source o <> Some ANil ->
  load source opts cfg = Ok cfg' -> o ∈ opts -> holds o cfg i -> holds o cfg' (first_of [source o; i]).
Proof.
  intros Hnd Hnil Hs Hl Ho Hi. pose proof (passed_in _ _ _ _ _ Hnd Hl Ho) as Hp. unfold passed in Hp.
  destruct (source o) as [j|]; cbn [first_of].
  - destruct (parse_value o j) as [[v|]|e|p] eqn:E; [|apply Hnil in E; by subst|done..]. cbn. eauto.
  - destruct i; cbn in *; [|by rewrite Hp]. destruct Hi as (v & Hv & Hc). exists v. by rewrite Hp.
Qed.
(** The sources of one option, the strongest first. *)
Definition sources (s : Sources) (tree : option TomlTree) (o : Option_) : list (option any) :=
  [from_flags s o; from_env s o; (t ← tree; from_toml t o); from_default o].
Definition no_nil (s : Sources) : Prop :=
  (forall n, Changed s n <> Some ANil) /\ (forall p t k, LoadFile s p = Ok t -> Get t k <> Some ANil).

Lemma sources_not_nil s o : no_nil s -> from_flags s o <> Some ANil /\ from_env s o <> Some ANil /\ from_default o <> Some ANil.
Proof.
  intros [Hf _]. split_and!.
  - unfold from_flags. by destruct (String.eqb _ _).
  - unfold from_env. destruct (getEnvKey o); [|done]. cbn. by destruct (lookupEnv s s0).
  - unfold from_default. by destruct (o_DefaultValue o).
Qed.

(** The first passes: the defaults, the environment and the flags. *)
Lemma first_passes s opts cfg1 cfg2 cfg3 o : NoDup (keys_of opts) -> "HistoryArchiveUserAgent"%string ∉ keys_of opts ->
  no_nil s -> nil_only o -> o ∈ opts ->
  loadDefaults s opts ∅ = Ok cfg1 -> loadEnv s opts cfg1 = Ok cfg2 -> loadFlags s opts cfg2 = Ok cfg3 ->
  holds o cfg3 (first_of (sources s None o)).
Proof.
  intros Hnd Hua Hn Ho Hin H1 H2 H3. destruct (sources_not_nil s o Hn) as (Nf & Ne & Nd).
  unfold loadDefaults in H1. apply go_bind_ok in H1 as (cfg0 & H1 & [= <-]).
  assert (holds o cfg0 (first_of [from_default o; None])) as G0 by (by eapply pass_holds).
  assert (o_ConfigKey o <> "HistoryArchiveUserAgent"%string) as Hk.
  { intros E. apply Hua. rewrite <- E. by apply list_elem_of_fmap_2. }
  set (cfg1 := <["HistoryArchiveUserAgent"%string := _]> cfg0) in *.
  assert (holds o cfg1 (first_of [from_default o; None])) as G1.
  { assert (cfg1 !! o_ConfigKey o = cfg0 !! o_ConfigKey o) as E1 by (by apply field_set_ne).
    unfold holds in *. by rewrite E1. }
  pose proof (pass_holds _ _ _ _ _ _ Hnd Ho Ne H2 Hin G1) as G2.
  pose proof (pass_holds _ _ _ _ _ _ Hnd Ho Nf H3 Hin G2) as G3.
  unfold sources. cbn in *. by destruct (from_flags s o), (from_env s o), (from_default o).
Qed.

Lemma parseToml_load tree strict opts cfg cfg' : parseToml tree strict opts cfg = Ok cfg' ->
  load (from_toml tree) opts cfg = Ok cfg'.
Proof.
  unfold parseToml. intros H. apply go_bind_ok in H as (c & H1 & H). destruct (_ || strict); [|by go_inv].
  destruct (find _ _); by go_inv.
Qed.

Lemma config_path_option sys : exists o, o ∈ with_flag_default <$> options sys /\ o_ConfigKey o = "ConfigPath"%string /\
  getTomlKey o = None.
Proof. eexists. split; [left|done]. Qed.

(** C32: After a successful start with the flags registered, every option holds the
    value parsed from its strongest source: the command line, then the environment,
    then the file named by the first two, then the default; only an option
    with none of them keeps its zero value. *)
Theorem SetValues_precedence sys s opts cfg : AddFlags [] (options sys) = Ok opts -> no_nil s ->
  SetValues s opts ∅ = Ok cfg ->
  exists tree, ((string_field cfg "ConfigPath" = ""%string /\ tree = None) \/
                (exists t, LoadFile s (string_field cfg "ConfigPath") = Ok t /\ tree = Some t)) /\
    Forall (fun o => match first_of (sources s tree o) with
                     | Some i => exists v, parse_value o i = Ok (Some v) /\ cfg !! o_ConfigKey o = Some v
                     | None => cfg !! o_ConfigKey o = None
                     end) opts.
Proof.
  rewrite options_flagged. intros <-%Ok_inj Hn H. pose proof (option_nil_only sys) as Hno.
  destruct (options_keys sys) as [Hnd Hua], (config_path_option sys) as (cp & Hcp & Hkey & Htoml).
  set (opts := with_flag_default <$> options sys) in *. clearbody opts. unfold SetValues in H.
  apply go_bind_ok in H as (cfg1 & H1 & H). apply go_bind_ok in H as (cfg2 & H2 & H). apply go_bind_ok in H as (cfg3 & H3 & H).
  assert (forall o, o ∈ opts -> holds o cfg3 (first_of (sources s None o))) as G3.
  { intros o Ho. apply (first_passes s opts cfg1 cfg2 cfg3 o); try assumption. by apply Hno. }
  destruct (String.eqb_spec (string_field cfg3 "ConfigPath") "") as [Ep|Ep]; cbn [negb] in H.
  { injection H as <-. exists None. split; [by left|]. by apply Forall_forall. }
  apply go_bind_ok in H as (cfg4 & H4 & H). apply go_bind_ok in H as (cfg5 & H5 & H6).
  unfold loadConfigPath in H4. apply go_bind_ok in H4 as (t & Ht & H4%parseToml_load).
  assert (forall o, o ∈ opts -> holds o cfg (first_of (sources s (Some t) o))) as G6.
  { intros o Ho. destruct (sources_not_nil s o Hn) as (Nf & Ne & _). pose proof (Hno o Ho) as No.
    assert (from_toml t o <> Some ANil) as Nt by (unfold from_toml; destruct (getTomlKey o); [|done]; by eapply Hn).
    pose proof (pass_holds _ _ _ _ _ _ Hnd No Nt H4 Ho (G3 o Ho)) as G4.
    pose proof (pass_holds _ _ _ _ _ _ Hnd No Ne H5 Ho G4) as G5.
    pose proof (pass_holds _ _ _ _ _ _ Hnd No Nf H6 Ho G5) as G6.
    unfold sources in *. cbn in *. by destruct (from_flags s o), (from_env s o), (from_toml t o), (from_default o). }
  exists (Some t). split; [|by apply Forall_forall]. right. exists t. split; [|done].
  specialize (G3 cp Hcp). specialize (G6 cp Hcp).
  assert (first_of (sources s (Some t) cp) = first_of (sources s None cp)) as Es.
  { unfold sources, from_toml. cbn. by rewrite Htoml. }
  rewrite Es in G6. unfold holds in G3, G6. rewrite Hkey in G3, G6.
  assert (cfg !! "ConfigPath"%string = cfg3 !! "ConfigPath"%string) as Ec.
  { destruct (first_of _); [|by rewrite G3, G6]. destruct G3 as (v & Hv & ->), G6 as (v' & Hv' & ->). congruence. }
  unfold string_field in *. by rewrite Ec.
Qed.
(** ** Types *)

(** The values a field of a kind can hold; [uint] and smaller types are parsed as
    uint32. *)
Definition has_kind (k : kind) (v : value) : Prop :=
  match k, v with
  | KBool, VBool _ | KString, VStr _ | KStrings, VStrs _ | KDuration, VDuration _ => True
  | KInt t, VInt z => - 2 ^ (bits t - 1) <= z < 2 ^ (bits t - 1)
  | KUint I64, VUint z => is_u64 z
  | KUint t, VUint z => 0 <= z < 2 ^ bits t /\ is_u32 z
  | KOther, (VLevel _ | VFormat _ | VDecoded _) => True
  | _, _ => False
  end.

Lemma parseUint32_text_kind t name v r : t <> I64 -> parseUint32_text t name v = Ok (Some r) -> has_kind (KUint t) r.
Proof.
  unfold parseUint32_text. intros Ht H. apply go_bind_ok in H as (n & Hn & H). apply ParseUint_bound in Hn; [|lia].
  destruct (Z.ltb_spec u32max n) as [|Hle]; [done|]. injection H as <-. unfold has_kind, wrap_unsigned, u32max, is_u32 in *.
  destruct t; try done; unfold bits; pose proof (Z.mod_pos_bound n (2 ^ 8)); pose proof (Z.mod_pos_bound n (2 ^ 16));
    pose proof (Z.mod_pos_bound n (2 ^ 32)); try lia. rewrite Z.mod_small by lia. lia.
Qed.

Lemma parser_kind k name i v : k <> KOther -> parser k name i = Ok (Some v) -> has_kind k v.
Proof.
  assert (forall t, t <> I64 -> parseUint32 t name i = Ok (Some v) -> has_kind (KUint t) v) as H32.
  { intros t Ht. destruct i as [| |t' z|t' z|s| | | | | | |]; unfold parseUint32; try done.
    - destruct (z <? 0); [done|]. by apply parseUint32_text_kind.
    - by apply parseUint32_text_kind.
    - by apply parseUint32_text_kind. }
  assert (forall t s, parseUint_text t s = Ok (Some v) -> t = I64 -> has_kind (KUint t) v) as H64.
  { intros t s H ->. unfold parseUint_text in H. apply go_bind_ok in H as (n & _ & [= <-]). unfold has_kind, is_u64, wrap_unsigned.
    apply Z.mod_pos_bound. done. }
  assert (forall t s, parseInt_text t s = Ok (Some v) -> has_kind (KInt t) v) as HI.
  { intros t s H. unfold parseInt_text in H. apply go_bind_ok in H as (n & _ & [= <-]). unfold has_kind, wrap_signed.
    destruct t; unfold bits; divlia. }
  intros Hk. destruct k as [|t|t| | | |]; cbn [parser].
  - destruct i as [| | | |s| | | | | | |]; unfold parseBool; try done; [by intros [= <-]|]. by destruct (ParseBool _); intros [= <-].
  - destruct i; unfold parseInt; try done; apply HI.
  - destruct t; try (by apply H32). destruct i as [| |t' z|t' z|s| | | | | | |]; unfold parseUint; try done.
    + destruct (z <? 0); [done|]. intros H. by eapply H64.
    + intros H. by eapply H64.
    + intros H. by eapply H64.
  - destruct i; try done; by intros [= <-].
  - destruct i; unfold parseStringSlice; intros H; try done; go_inv; done.
  - destruct i; unfold parseDuration; intros H; try done; go_inv; done.
  - done.
Qed.

Definition well_kinded (o : Option_) : Prop := forall i v, parse_value o i = Ok (Some v) -> has_kind (o_kind o) v.
Lemma flag_default_kind o : o_kind (with_flag_default o) = o_kind o.
Proof. unfold with_flag_default. by repeat case_match. Qed.
Lemma flag_default_name o : o_Name (with_flag_default o) = o_Name o.
Proof. unfold with_flag_default. by repeat case_match. Qed.
Lemma flag_default_parse o i : parse_value (with_flag_default o) i = parse_value o i.
Proof. unfold parse_value. by rewrite flag_default_custom, flag_default_kind, flag_default_name. Qed.
Lemma plain_kinded o : o_CustomSetValue o = None -> o_kind o <> KOther -> well_kinded o.
Proof. intros E Hk i v. unfold parse_value. rewrite E. by apply parser_kind. Qed.

Definition kinded_customs (sys : System) : list (kind * (any -> go (option value))) :=
  [(KOther, set_log_level); (KOther, set_log_format); (KString, set_storage_path sys);
   (KOther, unmarshalTOMLTree "buffered_storage_backend_config"); (KOther, unmarshalTOMLTree "datastore_config")].
Lemma options_kinded_customs sys :
  omap (fun o => pair (o_kind o) <$> o_CustomSetValue o) (options sys) = kinded_customs sys.
Proof. reflexivity. Qed.
Lemma customs_kinded sys : Forall (fun kf => forall i v, kf.2 i = Ok (Some v) -> has_kind kf.1 v) (kinded_customs sys).
Proof.
  repeat constructor; intros i v H; cbn [fst snd] in *.
  - destruct i as [| | | |s| | | | | | |]; unfold set_log_level in H; try done; [destruct (ParseLevel s)|]; go_inv; done.
  - destruct i; unfold set_log_format in H; try done; go_inv; done.
  - destruct i; unfold set_storage_path in H; try done; go_inv; done.
  - destruct i; unfold unmarshalTOMLTree in H; try done; go_inv; done.
  - destruct i; unfold unmarshalTOMLTree in H; try done; go_inv; done.
Qed.

Definition plain_kind (o : Option_) : bool :=
  match o_CustomSetValue o, o_kind o with None, KOther => false | _, _ => true end.
Lemma options_plain_kinds sys : forallb plain_kind (options sys) = true.
Proof. reflexivity. Qed.

Lemma option_kinded sys o : o ∈ with_flag_default <$> options sys -> well_kinded o.
Proof.
  intros (o0 & -> & Ho)%list_elem_of_fmap. intros i v. rewrite flag_default_parse, flag_default_kind.
  destruct (o_CustomSetValue o0) as [f|] eqn:E.
  - unfold parse_value. rewrite E. pose proof (customs_kinded sys) as HF. rewrite Forall_forall in HF.
    apply (HF (o_kind o0, f)). rewrite <- options_kinded_customs. apply list_elem_of_omap. exists o0. by rewrite E.
  - apply plain_kinded; [done|]. pose proof (options_plain_kinds sys) as HF. apply forallb_Forall in HF.
    rewrite Forall_forall in HF. specialize (HF o0 Ho). unfold plain_kind in HF. rewrite E in HF. by destruct (o_kind o0).
Qed.

(** Every field that is set holds a value of its option's kind. *)
Definition well_typed (opts : Options) (cfg : Config) : Prop :=
  forall o, o ∈ opts -> forall v, cfg !! o_ConfigKey o = Some v -> has_kind (o_kind o) v.

Lemma loaded_typed sys s cfg : SetValues s (with_flag_default <$> options sys) ∅ = Ok cfg ->
  well_typed (with_flag_default <$> options sys) cfg.
Proof.
  destruct (options_keys sys) as [Hnd Hua]. apply SetValues_ind.
  - intros o _ v Hv. by rewrite field_empty in Hv.
  - intros src c c' Hl Hc o Ho v Hv. pose proof (passed_in _ _ _ _ _ Hnd Hl Ho) as Hp. unfold passed in Hp.
    specialize (Hc o Ho). rewrite Hv in Hp. destruct (src o) as [i|]; [|by apply Hc].
    destruct (parse_value o i) as [[v'|]|e|p] eqn:E; [|by apply Hc|done..]. injection Hp as ->.
    by eapply option_kinded.
  - intros c v Hc o Ho v' Hv. apply (Hc o Ho). rewrite <- Hv. symmetry. apply field_set_ne. intros E. apply Hua.
    rewrite E. by apply list_elem_of_fmap_2.
Qed.

(** A [uint] or narrower field is never above 2^32 - 1. *)
Lemma loaded_uint sys s cfg o t : SetValues s (with_flag_default <$> options sys) ∅ = Ok cfg ->
  o ∈ options sys -> o_kind o = KUint t -> t <> I64 -> 0 <= uint_field cfg (o_ConfigKey o) <= u32max.
Proof.
  intros H Ho Hk Ht. apply loaded_typed in H. unfold uint_field.
  specialize (H (with_flag_default o) (list_elem_of_fmap_2 _ _ _ Ho)). rewrite flag_default_key, flag_default_kind, Hk in H.
  destruct (cfg !! o_ConfigKey o) as [[]|]; try (unfold u32max; lia). specialize (H _ eq_refl). unfold has_kind, is_u32, u32max in *.
  destruct t; try done; lia.
Qed.

(** C38: Whatever the sources hold, loading either fails or sets every field it
    sets to a value of its option's type: an unsigned field a number of its width,
    and at most 2^32 - 1 even when it is wider. *)
Theorem SetValues_typed sys s opts : AddFlags [] (options sys) = Ok opts ->
  match SetValues s opts ∅ with
  | Ok cfg => Forall (fun o => (forall v, cfg !! o_ConfigKey o = Some v -> has_kind (o_kind o) v) /\
                               (o_kind o = KUint INat -> 0 <= uint_field cfg (o_ConfigKey o) <= u32max)) opts
  | _ => True
  end.
Proof.
  rewrite options_flagged. intros <-%Ok_inj. destruct (SetValues s _ ∅) as [cfg| |] eqn:H; [|done..].
  apply Forall_forall. intros o Ho. split; [by apply (loaded_typed sys s)|]. intros Hk.
  apply list_elem_of_fmap in Ho as (o0 & -> & Ho). rewrite flag_default_kind in Hk.
  rewrite (flag_default_key o0).
  by eapply loaded_uint.
Qed.

(** A number written for an unsigned option is checked against 2^32 only: below,
    a narrower field silently takes it modulo its width, so a port of 70000
    becomes 4464; above, it is an error. *)
Theorem unsigned_text_wraps o t n : o_CustomSetValue o = None -> o_kind o = KUint t -> t <> I64 -> 0 <= n < 2 ^ 64 ->
  parse_value o (AStr (Itoa n)) =
    (if n <=? u32max then Ok (Some (VUint (n mod 2 ^ bits t))) else Er (EFmt "%s overflows uint32" [FS (o_Name o)])) /\
  (bits t = 16 -> parse_value o (AStr "70000") = Ok (Some (VUint 4464))).
Proof.
  intros Hc Hk Ht Hn. unfold parse_value. rewrite Hc, Hk. assert (parser (KUint t) = parseUint32 t) as -> by (by destruct t).
  unfold parseUint32, parseUint32_text. rewrite ParseUint_Itoa by done. cbn [mbind go_bind]. split.
  - destruct (Z.leb_spec n u32max), (Z.ltb_spec u32max n); try lia; done.
  - intros E. unfold wrap_unsigned. rewrite E. reflexivity.
Qed.
(** ** Validation *)

(** Configurations that differ at most in [StellarCoreURL]. *)
Definition same_but_url (c c' : Config) : Prop := forall f, f <> "StellarCoreURL"%string -> c' !! f = c !! f.
#[local] Instance same_but_url_equiv : Equivalence same_but_url.
Proof.
  split; [by intros c f _|intros c c' H f Hf; by rewrite H|intros c1 c2 c3 H1 H2 f Hf; by rewrite H2, H1].
Qed.

(** A check changes only that field, and its verdict does not depend on it. *)
Definition url_only (o : Option_) : Prop :=
  (forall c, same_but_url c (validate_option o c).1) /\
  (forall c c', same_but_url c c' -> (validate_option o c).2 = (validate_option o c').2).

Lemma validate_loop_none opts ms cfg : Forall url_only opts ->
  ((validate_loop opts ms cfg).2 = None <-> ms = [] /\ Forall (fun o => (validate_option o cfg).2 = Valid) opts) /\
  same_but_url cfg (validate_loop opts ms cfg).1.
Proof.
  intros HF. revert ms cfg. induction HF as [|o opts [Hsame Hverdict] HF IH]; intros ms cfg; cbn [validate_loop].
  { cbn. split; [|reflexivity]. destruct ms; split; try done. by intros [? _]. }
  specialize (Hsame cfg). destruct (validate_option o cfg) as [cfg' r] eqn:E. cbn [fst snd] in Hsame.
  assert (Forall (fun o => (validate_option o cfg').2 = Valid) opts <-> Forall (fun o => (validate_option o cfg).2 = Valid) opts) as HE.
  { rewrite !Forall_forall. rewrite Forall_forall in HF. split; intros H x Hx; rewrite <- (H x Hx).
    - by apply (HF x Hx).
    - symmetry. by apply (HF x Hx). }
  rewrite Forall_cons, E. cbn [snd]. destruct r as [|m|e].
  - destruct (IH ms cfg') as [Hiff Hs]. split; [rewrite Hiff, HE; naive_solver|by transitivity cfg'].
  - destruct (IH (ms ++ [m]) cfg') as [Hiff Hs]. split; [|by transitivity cfg'].
    rewrite Hiff. split; [|by intros (_ & ? & _)]. intros [Hn _]. by destruct ms.
  - cbn. split; [naive_solver|done].
Qed.

(** The checks of the table: a required or positive field other than the URL, or
    one of the four functions. *)
Definition limit_checks : list (Config -> Config * option err) :=
  [at_most "DefaultEventsLimit" "MaxEventsLimit" "default-events-limit (%v) cannot exceed max-events-limit (%v)";
   at_most "DefaultTransactionsLimit" "MaxTransactionsLimit" "default-transactions-limit (%v) cannot exceed max-transactions-limit (%v)";
   at_most "DefaultLedgersLimit" "MaxLedgersLimit" "default-ledgers-limit (%v) cannot exceed max-ledgers-limit (%v)"].
Definition func_of (o : Option_) : option (Config -> Config * option err) :=
  match o_Validate o with Some (Func f) => Some f | _ => None end.
Lemma options_funcs sys : omap func_of (options sys) = default_core_url :: limit_checks.
Proof. reflexivity. Qed.
Definition simple_check (o : Option_) : bool :=
  match o_Validate o, o_kind o with
  | Some Required, _ | Some Positive, KUint _ => negb (String.eqb (o_ConfigKey o) "StellarCoreURL")
  | Some Positive, _ => false
  | _, _ => true
  end.
Lemma options_simple sys : forallb simple_check (options sys) = true.
Proof. reflexivity. Qed.

Lemma is_set_same k f c c' : same_but_url c c' -> f <> "StellarCoreURL"%string -> is_set k c' f = is_set k c f.
Proof. intros H Hf. unfold is_set. by rewrite H. Qed.
Lemma uint_field_same f c c' : same_but_url c c' -> f <> "StellarCoreURL"%string -> uint_field c' f = uint_field c f.
Proof. intros H Hf. unfold uint_field. by rewrite H. Qed.

Lemma option_url_only sys o : o ∈ options sys -> url_only o.
Proof.
  intros Ho. pose proof (options_simple sys) as Hs. apply forallb_Forall in Hs. rewrite Forall_forall in Hs.
  specialize (Hs o Ho). unfold simple_check in Hs. unfold url_only, validate_option.
  destruct (o_Validate o) as [[| |f]|] eqn:E.
  - apply negb_true_iff, String.eqb_neq in Hs. split; [reflexivity|]. intros c c' Hc. cbn. unfold required.
    by rewrite (is_set_same _ _ c c').
  - destruct (o_kind o) eqn:Ek; try done. apply negb_true_iff, String.eqb_neq in Hs. split; [reflexivity|].
    intros c c' Hc. cbn. unfold positive. rewrite Ek. by rewrite (uint_field_same _ c c').
  - assert (f ∈ default_core_url :: limit_checks) as Hf.
    { rewrite <- (options_funcs sys). apply list_elem_of_omap. exists o. unfold func_of. by rewrite E. }
    apply elem_of_cons in Hf as [-> |Hf].
    + unfold default_core_url. split; [|done]. intros c g Hg. cbn [fst].
      destruct (String.eqb _ _); [apply field_set_ne; congruence|done].
    + unfold limit_checks in Hf.
      repeat (apply elem_of_cons in Hf as [-> |Hf];
        [split; [reflexivity|]; intros c c' Hc; unfold at_most; by rewrite !(uint_field_same _ c c')|]).
      by apply not_elem_of_nil in Hf.
  - split; [reflexivity|done].
Qed.

Lemma flag_default_validate opts ms cfg : validate_loop (with_flag_default <$> opts) ms cfg = validate_loop opts ms cfg.
Proof.
  revert ms cfg. induction opts as [|o opts IH]; intros ms cfg; [done|]. cbn [fmap list_fmap validate_loop].
  assert (validate_option (with_flag_default o) cfg = validate_option o cfg) as ->
    by (unfold with_flag_default; repeat case_match; done).
  rewrite flag_default_name. destruct (validate_option o cfg) as [c [|m|e]]; auto.
Qed.

Definition fields_with (v : validator -> bool) (opts : Options) : list string :=
  omap (fun o => match o_Validate o with Some x => if v x then Some (o_ConfigKey o) else None | None => None end) opts.
Definition is_required (v : validator) : bool := match v with Required => true | _ => false end.
Definition is_positive (v : validator) : bool := match v with Positive => true | _ => false end.

(** What a configuration must satisfy. *)
Record acceptable (sys : System) (cfg : Config) : Prop := {
  acc_required o : o ∈ options sys -> o_Validate o = Some Required -> is_set (o_kind o) cfg (o_ConfigKey o) = true;
  acc_positive o : o ∈ options sys -> o_Validate o = Some Positive -> 0 < uint_field cfg (o_ConfigKey o);
  acc_events : uint_field cfg "DefaultEventsLimit" <= uint_field cfg "MaxEventsLimit";
  acc_transactions : uint_field cfg "DefaultTransactionsLimit" <= uint_field cfg "MaxTransactionsLimit";
  acc_ledgers : uint_field cfg "DefaultLedgersLimit" <= uint_field cfg "MaxLedgersLimit";
}.

Lemma func_checked sys f : f ∈ default_core_url :: limit_checks -> exists o, o ∈ options sys /\ o_Validate o = Some (Func f).
Proof.
  rewrite <- (options_funcs sys). intros (o & Ho & E)%list_elem_of_omap. exists o. split; [done|]. unfold func_of in E.
  destruct (o_Validate o) as [[| |g]|]; try done. by injection E as <-.
Qed.

Lemma limit_valid f max fmt cfg : (match (at_most f max fmt cfg).2 with Some e => Invalid e | None => Valid end) = Valid <->
  uint_field cfg f <= uint_field cfg max.
Proof. unfold at_most. cbn. destruct (Z.ltb_spec (uint_field cfg max) (uint_field cfg f)); split; try done; lia. Qed.

Lemma all_valid_acceptable sys cfg : Forall (fun o => (validate_option o cfg).2 = Valid) (options sys) <-> acceptable sys cfg.
Proof.
  rewrite Forall_forall. split.
  - intros H. assert (forall f, f ∈ limit_checks -> (match (f cfg).2 with Some e => Invalid e | None => Valid end) = Valid) as Hl.
    { intros f Hf. destruct (func_checked sys f) as (o & Ho & E); [by right|]. specialize (H o Ho). unfold validate_option in H.
      rewrite E in H. by destruct (f cfg). }
    split.
    + intros o Ho E. specialize (H o Ho). unfold validate_option in H. rewrite E in H. cbn in H. unfold required in H. by destruct (is_set _ _ _).
    + intros o Ho E. specialize (H o Ho). unfold validate_option in H. rewrite E in H. cbn in H.
      pose proof (options_simple sys) as Hs. apply forallb_Forall in Hs. rewrite Forall_forall in Hs. specialize (Hs o Ho).
      unfold simple_check in Hs. rewrite E in Hs. unfold positive in H. destruct (o_kind o); try done.
      destruct (Z.leb_spec (uint_field cfg (o_ConfigKey o)) 0); [done|lia].
    + eapply limit_valid, Hl. by left.
    + eapply limit_valid, Hl. right. by left.
    + eapply limit_valid, Hl. right. right. by left.
  - intros [Hr Hp H1 H2 H3] o Ho. unfold validate_option. destruct (o_Validate o) as [[| |f]|] eqn:E; cbn; [| | |done].
    + unfold required. by rewrite (Hr o Ho E).
    + unfold positive. specialize (Hp o Ho E). pose proof (options_simple sys) as Hs. apply forallb_Forall in Hs.
      rewrite Forall_forall in Hs. specialize (Hs o Ho). unfold simple_check in Hs. rewrite E in Hs. destruct (o_kind o); try done.
      by destruct (Z.leb_spec (uint_field cfg (o_ConfigKey o)) 0); [lia|].
    + assert (f ∈ default_core_url :: limit_checks) as Hf.
      { rewrite <- (options_funcs sys). apply list_elem_of_omap. exists o. unfold func_of. by rewrite E. }
      apply elem_of_cons in Hf as [-> |Hf]; [done|].
      assert ((match (f cfg).2 with Some e => Invalid e | None => Valid end) = Valid) as Hv; [|by destruct (f cfg)].
      unfold limit_checks in Hf. repeat (apply elem_of_cons in Hf as [-> |Hf]; [by apply limit_valid|]). by apply not_elem_of_nil in Hf.
Qed.

(** The unsigned options, parsed as uint32, that must be positive. *)
Definition positive_uints (opts : Options) : list string :=
  omap (fun o => match o_Validate o, o_kind o with
                 | Some Positive, KUint I64 => None
                 | Some Positive, KUint _ => Some (o_ConfigKey o)
                 | _, _ => None
                 end) opts.

Lemma positive_uint sys s cfg f : SetValues s (with_flag_default <$> options sys) ∅ = Ok cfg -> acceptable sys cfg ->
  f ∈ positive_uints (options sys) -> 0 < uint_field cfg f <= u32max.
Proof.
  intros Hl Ha (o & Ho & E)%list_elem_of_omap. destruct (o_Validate o) as [[]|] eqn:Ev; try discriminate E.
  destruct (o_kind o) as [| |t| | | |] eqn:Ek; try discriminate E.
  assert (t <> I64 /\ o_ConfigKey o = f) as [Ht <-] by (clear -E; destruct t; by inversion E).
  pose proof (acc_positive _ _ Ha o Ho Ev). pose proof (loaded_uint sys s cfg o t Hl Ho Ek Ht). lia.
Qed.
Lemma url_not_positive sys : "StellarCoreURL"%string ∉ positive_uints (options sys).
Proof. apply (bool_decide_unpack _). vm_compute. exact I. Qed.

(** What is known of a configuration that was loaded and accepted. *)
Lemma accepted_config sys s opts cfg : AddFlags [] (options sys) = Ok opts -> SetValues s opts ∅ = Ok cfg ->
  (Options_Validate opts cfg).2 = None ->
  same_but_url cfg (Options_Validate opts cfg).1 /\ acceptable sys cfg /\
  (forall f, f ∈ positive_uints (options sys) -> 0 < uint_field (Options_Validate opts cfg).1 f <= u32max).
Proof.
  rewrite options_flagged. intros <-%Ok_inj Hl Hv.
  destruct (validate_loop_none (options sys) [] cfg) as [Hiff Hsame].
  { apply Forall_forall. intros o. apply option_url_only. }
  unfold Options_Validate in *. rewrite flag_default_validate in *. apply Hiff in Hv as [_ Hacc%all_valid_acceptable].
  split_and!; [done..|]. intros f Hf.
  rewrite (uint_field_same f cfg _ Hsame) by (intros ->; revert Hf; apply (url_not_positive sys)).
  by eapply positive_uint.
Qed.

(** A configuration is accepted exactly when every required option is set, every
    positive one is positive and no default limit exceeds its maximum; checking
    changes nothing but an empty Core URL. *)
Theorem Options_Validate_spec sys opts cfg : AddFlags [] (options sys) = Ok opts ->
  ((Options_Validate opts cfg).2 = None <-> acceptable sys cfg) /\
  (forall f, f <> "StellarCoreURL"%string -> (Options_Validate opts cfg).1 !! f = cfg !! f) /\
  fields_with is_required opts =
    ["StellarCoreBinaryPath"; "CaptiveCoreConfigPath"; "HistoryArchiveURLs"; "NetworkPassphrase"]%string /\
  length (fields_with is_positive opts) = 19%nat.
Proof.
  rewrite options_flagged. intros <-%Ok_inj. unfold Options_Validate. rewrite flag_default_validate.
  destruct (validate_loop_none (options sys) [] cfg) as [Hiff Hsame].
  { apply Forall_forall. intros o. apply option_url_only. }
  split_and!; [|exact Hsame|reflexivity|reflexivity]. rewrite Hiff, all_valid_acceptable.
  split; [by intros [_ ?]|by intros ?].
Qed.
End Options.

(** ** A concrete run *)

#[export] Instance toy_config_lib : ConfigLib := {
  KebabToConstantCase s := map_string (fun c => if Ascii.eqb c "-" then "_"%char else upper_char c) s;
  InfoLevel := 4;
  ParseLevel s := if String.eqb s "debug" then Ok 5 else if String.eqb s "info" then Ok 4 else Er (EExt "not a valid logrus Level");
  Table := unit;
  Decoded := unit;
  unmarshal_table _ _ := Ok tt;
}.
Definition sample_system : System := mkSystem "/usr/bin/stellar-core" 8 (Ok "/home"%string).
(** A passphrase and a file on the command line, a port and a limit in the
    environment, the limit and two paths in the file. *)
Definition sample_toml : TomlTree :=
  mkToml (fun k => if String.eqb k "MAX_EVENTS_LIMIT" then Some (AInt I64 30)
                   else if String.eqb k "CAPTIVE_CORE_CONFIG_PATH" then Some (AStr "core.cfg")
                   else if String.eqb k "HISTORY_ARCHIVE_URLS" then Some (AList [AStr "http://a"]) else None)
         ["MAX_EVENTS_LIMIT"; "CAPTIVE_CORE_CONFIG_PATH"; "HISTORY_ARCHIVE_URLS"]%string.
Definition sample_sources : Sources :=
  mkSources (fun k => if String.eqb k "STELLAR_CAPTIVE_CORE_HTTP_PORT" then Some "70000"%string
                      else if String.eqb k "MAX_EVENTS_LIMIT" then Some "200"%string else None)
            (fun n => if String.eqb n "network-passphrase" then Some (AStr "net")
                      else if String.eqb n "config-path" then Some (AStr "rpc.toml") else None)
            (fun _ => Ok sample_toml) "0.0.0".
Definition sample_options : Options := match AddFlags [] (options sample_system) with Ok o => o | _ => [] end.
Definition sample_config : Config := match SetValues sample_sources sample_options ∅ with Ok c => c | _ => ∅ end.

Lemma sample_options_ok : AddFlags [] (options sample_system) = Ok sample_options.
Proof. reflexivity. Qed.
Lemma sample_config_ok : SetValues sample_sources sample_options ∅ = Ok sample_config.
Proof.
  assert (is_ok (SetValues sample_sources sample_options ∅) = true) as H by (vm_compute; reflexivity).
  unfold sample_config. by destruct (SetValues sample_sources sample_options ∅).
Qed.
Example sample_config_fields :
  uint_field sample_config "MaxEventsLimit" = 200 /\ uint_field sample_config "CaptiveCoreHTTPPort" = 4464 /\
  string_field sample_config "CaptiveCoreConfigPath" = "core.cfg"%string /\
  string_field sample_config "CaptiveCoreStoragePath" = "/home"%string /\
  duration_field sample_config "MaxGetEventsExecutionDuration" = 10 * Second /\
  (Options_Validate sample_options sample_config).2 = None /\
  string_field (Options_Validate sample_options sample_config).1 "StellarCoreURL" = "http://localhost:4464"%string.
Proof. repeat split; vm_compute; reflexivity. Qed.

Lemma SetValues_precedence_witness :
  exists tree, ((string_field sample_config "ConfigPath" = ""%string /\ tree = None) \/
                (exists t, LoadFile sample_sources (string_field sample_config "ConfigPath") = Ok t /\ tree = Some t)) /\
    Forall (fun o => match first_of (sources sample_sources tree o) with
                     | Some i => exists v, parse_value o i = Ok (Some v) /\ sample_config !! o_ConfigKey o = Some v
                     | None => sample_config !! o_ConfigKey o = None
                     end) sample_options.
Proof.
  apply (SetValues_precedence sample_system sample_sources sample_options sample_config).
  - apply sample_options_ok.
  - split; [intros n; cbn; by repeat case_match|]. intros p t k [= <-]. cbn. by repeat case_match.
  - apply sample_config_ok.
Defined.
Lemma SetValues_typed_witness :
  Forall (fun o => (forall v, sample_config !! o_ConfigKey o = Some v -> has_kind (o_kind o) v) /\
                   (o_kind o = KUint INat -> 0 <= uint_field sample_config (o_ConfigKey o) <= u32max)) sample_options.
Proof.
  pose proof (SetValues_typed sample_system sample_sources sample_options sample_options_ok) as H.
  rewrite sample_config_ok in H. exact H.
Defined.
Definition sample_port : Option_ := mkOption "stellar-captive-core-http-port" "" "" ANil "CaptiveCoreHTTPPort" (KUint I16) None None.
Lemma unsigned_text_wraps_witness :
  parse_value sample_port (AStr (Itoa 65536)) =
    (if 65536 <=? u32max then Ok (Some (VUint (65536 mod 2 ^ bits I16)))
     else Er (EFmt "%s overflows uint32" [FS (o_Name sample_port)])) /\
  (bits I16 = 16 -> parse_value sample_port (AStr "70000") = Ok (Some (VUint 4464))).
Proof. apply (unsigned_text_wraps sample_port I16 65536); [reflexivity..|discriminate|lia]. Defined.
Lemma Options_Validate_spec_witness :
  ((Options_Validate sample_options sample_config).2 = None <-> acceptable sample_system sample_config) /\
  (forall f, f <> "StellarCoreURL"%string -> (Options_Validate sample_options sample_config).1 !! f = sample_config !! f) /\
  fields_with is_required sample_options =
    ["StellarCoreBinaryPath"; "CaptiveCoreConfigPath"; "HistoryArchiveURLs"; "NetworkPassphrase"]%string /\
  length (fields_with is_positive sample_options) = 19%nat.
Proof. apply (Options_Validate_spec sample_system sample_options sample_config). apply sample_options_ok. Defined.
