(* ===== verification/WordWrap.v ===== *)
(** * Comments of the generated configuration file: [config/toml.go], [wordWrap] *)

From S2P Require Import Prelude GoStd.

Definition strlen (s : string) : Z := Z.of_nat (String.length s).
Definition newline : string := String (ascii_of_N 10) EmptyString.
(** [strings.Fields] *)
Definition Fields (s : string) : list string := FieldsFunc is_space s.

Fixpoint wrap_loop (lineWidth : Z) (words : list string) (wrapped : string) (spaceLeft : Z) : string :=
  match words with
  | [] => wrapped
  | word :: words' =>
      if spaceLeft <? strlen word + 1
      then wrap_loop lineWidth words' (wrapped +:+ newline +:+ word) (lineWidth - strlen word)
      else wrap_loop lineWidth words' (wrapped +:+ " " +:+ word) (spaceLeft - (1 + strlen word))
  end.
Definition wordWrap (text : string) (lineWidth : Z) : string :=
  match Fields (TrimSpace text) with
  | [] => text
  | word :: words => wrap_loop lineWidth words word (lineWidth - strlen word)
  end.

Lemma Join_snoc sep l x : l <> [] -> Join sep (l ++ [x]) = (Join sep l +:+ sep +:+ x)%string.
Proof.
  intros Hne. induction l as [|a [|b l] IH]; [done|done|].
  change ((a :: b :: l) ++ [x]) with (a :: b :: (l ++ [x])).
  change (Join sep (a :: b :: (l ++ [x]))) with (a +:+ (sep +:+ Join sep ((b :: l) ++ [x])))%string.
  rewrite IH by done. change (Join sep (a :: b :: l)) with (a +:+ (sep +:+ Join sep (b :: l)))%string.
  by rewrite !str_app_assoc.
Qed.
Lemma strlen_app a b : strlen (a +:+ b) = strlen a + strlen b.
Proof.
  unfold strlen. induction a as [|c a IH]; [done|]. rewrite str_app_cons. cbn [String.length]. lia.
Qed.

(** The text of lines of words. *)
Definition text_of (lines : list (list string)) : string := Join newline (Join " " <$> lines).

(** A line is a single word or fits; a line ends where the next word would not
    have fitted. *)
Definition line_ok (w : Z) (l : list string) : Prop := l <> [] /\ (length l = 1%nat \/ strlen (Join " " l) <= w).
Definition greedy (w : Z) (lines : list (list string)) : Prop :=
  forall i l word l', lines !! i = Some l -> lines !! S i = Some (word :: l') -> w < strlen (Join " " l) + 1 + strlen word.

Lemma greedy_grow w done cur word : cur <> [] -> greedy w (done ++ [cur]) -> greedy w (done ++ [cur ++ [word]]).
Proof.
  intros Hne H i l x l' Hl Hl'. apply lookup_lt_Some in Hl' as Hlt. rewrite length_app in Hlt. simpl in Hlt.
  rewrite lookup_app_l in Hl by lia.
  destruct (decide (S i < length done)%nat) as [Hi|Hi].
  - rewrite lookup_app_l in Hl' by lia. apply (H i l x l'); rewrite lookup_app_l by lia; done.
  - rewrite lookup_app_r in Hl' by lia. replace (S i - length done)%nat with 0%nat in Hl' by lia. injection Hl' as E.
    destruct cur as [|y cur]; [done|]. injection E as -> _. apply (H i l x cur).
    + by rewrite lookup_app_l by lia.
    + rewrite lookup_app_r by lia. by replace (S i - length done)%nat with 0%nat by lia.
Qed.
Lemma greedy_next w done cur word : greedy w (done ++ [cur]) -> w < strlen (Join " " cur) + 1 + strlen word ->
  greedy w ((done ++ [cur]) ++ [[word]]).
Proof.
  intros H Hw i l x l' Hl Hl'. apply lookup_lt_Some in Hl' as Hlt. rewrite !length_app in Hlt. simpl in Hlt.
  destruct (decide (S i < length (done ++ [cur]))%nat) as [Hi|Hi].
  - rewrite lookup_app_l in Hl, Hl' by lia. by apply (H i l x l').
  - rewrite length_app in Hi. simpl in Hi. assert (i = length done) as -> by lia.
    rewrite lookup_app_l in Hl by (rewrite length_app; simpl; lia). rewrite lookup_app_r in Hl by lia.
    rewrite Nat.sub_diag in Hl. injection Hl as <-. rewrite lookup_app_r in Hl' by (rewrite length_app; simpl; lia).
    rewrite length_app in Hl'. simpl in Hl'. replace (S (length done) - (length done + 1))%nat with 0%nat in Hl' by lia.
    by injection Hl' as <- _.
Qed.

Lemma wrap_loop_spec w words : forall done cur, cur <> [] -> Forall (line_ok w) (done ++ [cur]) -> greedy w (done ++ [cur]) ->
  exists lines, wrap_loop w words (text_of (done ++ [cur])) (w - strlen (Join " " cur)) = text_of lines /\
    concat lines = concat (done ++ [cur]) ++ words /\ Forall (line_ok w) lines /\ greedy w lines.
Proof.
  induction words as [|word words IH]; intros done cur Hne HF Hg; cbn [wrap_loop].
  { exists (done ++ [cur]). by rewrite app_nil_r. }
  destruct (Z.ltb_spec (w - strlen (Join " " cur)) (strlen word + 1)) as [Hlt|Hle].
  - destruct (IH (done ++ [cur]) [word]) as (lines & Hw & Hc & HF' & Hg').
    + done.
    + apply Forall_app. split; [done|]. constructor; [|done]. split; [done|by left].
    + apply greedy_next; [done|lia].
    + exists lines. split_and!; try done.
      * rewrite <- Hw. f_equal. unfold text_of. rewrite (fmap_app _ (done ++ [cur])).
        change (Join " " <$> [[word]]) with [word]. rewrite (Join_snoc newline (Join " " <$> (done ++ [cur]))); [done|]. rewrite fmap_app. by destruct (Join " " <$> done).
      * rewrite Hc, (concat_app (done ++ [cur])). simpl. by rewrite <- app_assoc.
  - destruct (IH done (cur ++ [word])) as (lines & Hw & Hc & HF' & Hg').
    + by destruct cur.
    + apply Forall_app in HF as [HF _]. apply Forall_app. split; [done|]. constructor; [|done]. split; [by destruct cur|].
      right. rewrite Join_snoc by done. rewrite !strlen_app. change (strlen " ") with 1. lia.
    + by apply greedy_grow.
    + exists lines. split_and!; try done.
      * rewrite <- Hw. f_equal.
        -- unfold text_of. rewrite !fmap_app. simpl. rewrite (Join_snoc " " cur) by done.
           destruct (Join " " <$> done) as [|d ds] eqn:Ed; [done|]. rewrite <- Ed. rewrite !Join_snoc by (by rewrite Ed).
           by rewrite !str_app_assoc.
        -- rewrite Join_snoc by done. rewrite !strlen_app. change (strlen " ") with 1. lia.
      * rewrite Hc, !concat_app. simpl. by rewrite !app_nil_r, <- !app_assoc.
Qed.

(** Wrapping keeps the words of a text in order, on lines separated by newlines
    and words by single spaces; a line fits the width unless it is one word, and
    is broken only where the next word would not have fitted. *)
Theorem wordWrap_lines text w : Fields (TrimSpace text) <> [] ->
  exists lines, wordWrap text w = text_of lines /\ concat lines = Fields (TrimSpace text) /\
    Forall (line_ok w) lines /\ greedy w lines.
Proof.
  unfold wordWrap. destruct (Fields (TrimSpace text)) as [|word words]; [done|]. intros _.
  destruct (wrap_loop_spec w words [] [word]) as (lines & Hw & Hc & HF & Hg).
  - done.
  - constructor; [|done]. split; [done|by left].
  - intros i l x l' _ H. by destruct i.
  - exists lines. by split_and!.
Qed.

Example wrap_10 : wordWrap " Maximum number  of requests" 10 = ("Maximum" +:+ newline +:+ "number of" +:+ newline +:+ "requests")%string.
Proof. reflexivity. Qed.
Lemma wordWrap_lines_witness : exists lines, wordWrap "Maximum number of requests" 10 = text_of lines /\
  concat lines = Fields (TrimSpace "Maximum number of requests") /\ Forall (line_ok 10) lines /\ greedy 10 lines.
Proof. apply (wordWrap_lines "Maximum number of requests" 10). vm_compute. discriminate. Defined.
