(* ===== verification/ConfigSave.v ===== *)
(** * Writing the configuration back: [config/toml.go], [marshalTOML]

    [gen-config-file] prints the configuration as a TOML file: one entry per
    option with its help text as a comment, commented out when the field is zero. *)

From S2P Require Import Prelude GoStd GoTime DurationText Config ConfigLoad Options WordWrap.

Section Save.
Context {L : ConfigLib}.

(** A value given to the tree: bytes are written as they are. *)
Inductive toml_value := TRaw (text : string) | TString (s : string) | TBool (b : bool) | TStrings (l : list string)
  | TTree (t : Table) | TOther.
Record toml_entry := mkEntry {
  e_Comment : string;
  e_Commented : bool;
  e_value : toml_value;
}.
Definition TomlDoc : Type := gmap string toml_entry.
End Save.

(** go-toml's encoder and decoder, the text of a level, and the default tables of
    stellar/go encoded and read as a tree; the help texts are in the source, but
    left out of the options here. *)
Class TomlCodec (L : ConfigLib) := {
  Bytes : Type;
  Marshal : TomlDoc -> go Bytes;
  LoadBytes : Bytes -> go TomlTree;
  Level_String : Z -> string;
  default_table : string -> go Table;
  Usage : string -> string;
}.

(** What the decoder makes of a value. *)
Definition read_value {L : ConfigLib} (v : toml_value) : any :=
  match v with
  | TRaw text => match ParseInt text 64 with Ok z => AInt I64 z | _ => AOther end
  | TString s => AStr s
  | TBool b => ABool b
  | TStrings l => AList (AStr <$> l)
  | TTree t => ATable t
  | TOther => AOther
  end.
Definition writable {L : ConfigLib} (v : toml_value) : Prop :=
  match v with TRaw text => exists z, ParseInt text 64 = Ok z | TOther => False | _ => True end.

(** An encoded document reads back, but for the entries commented out. *)
Class TomlCodecLaws {L : ConfigLib} (T : TomlCodec L) := {
  codec_reads (doc : TomlDoc) : (forall k e, doc !! k = Some e -> writable (e_value e)) ->
    exists bytes tree, Marshal doc = Ok bytes /\ LoadBytes bytes = Ok tree /\
      (forall k, Get tree k = match doc !! k with
                              | Some e => if e_Commented e then None else Some (read_value (e_value e))
                              | None => None
                              end) /\
      (forall k, k ∈ Keys tree <-> is_Some (Get tree k));
  default_table_ok name : exists t, default_table name = Ok t;
}.

Section Write.
Context {L : ConfigLib} {T : TomlCodec L}.

Definition maxLineWidth : Z := 80.
Definition commentIndent : Z := 2.

(** The options with a [MarshalTOML] of their own, by field.  The tables written
    are the defaults, whatever the configuration holds. *)
Definition custom_marshal (f : string) : option (Config -> go toml_value) :=
  if String.eqb f "LogLevel" then Some (fun cfg => Ok (TString (Level_String (level_field cfg f))))
  else if String.eqb f "LogFormat" then Some (fun cfg => s ← LogFormat_String (format_field cfg f); Ok (TString s))
  else if String.eqb f "BufferedStorageBackendConfig" then
    Some (fun _ => t ← on_err (EWrap "failed to marshal buffered_storage_backend_config: %w" []) (default_table "buffered_storage_backend_config"); Ok (TTree t))
  else if String.eqb f "DataStoreConfig" then
    Some (fun _ => t ← on_err (EWrap "failed to marshal datastore_config: %w" []) (default_table "datastore_config"); Ok (TTree t))
  else None.

Definition marshalTOML (o : Option_) (cfg : Config) : go toml_value :=
  let f := o_ConfigKey o in
  match custom_marshal f with
  | Some custom => custom cfg
  | None =>
      match o_kind o with
      | KInt _ => Ok (TRaw (Itoa (int_field cfg f)))
      | KUint _ => Ok (TRaw (Itoa (uint_field cfg f)))
      | KDuration => Ok (TString (Duration_String (duration_field cfg f)))
      | KBool => Ok (TBool (bool_field cfg f))
      | KString => Ok (TString (string_field cfg f))
      | KStrings => Ok (TStrings (strings_field cfg f))
      | KOther => Ok TOther
      end
  end.

(** [strings.ReplaceAll(s, "\n", "\n ")] *)
Fixpoint indent_lines (s : string) : string :=
  match s with
  | EmptyString => EmptyString
  | String c s' => if Ascii.eqb c (ascii_of_N 10) then String c (String " " (indent_lines s')) else String c (indent_lines s')
  end.
Definition comment_of (o : Option_) : string := indent_lines (wordWrap (Usage (o_ConfigKey o)) (maxLineWidth - commentIndent)).

(** None of the values is a [toml.Marshaler].  An empty list is taken to be nil. *)
Fixpoint marshal_loop (options : Options) (cfg : Config) (tree : TomlDoc) : go TomlDoc :=
  match options with
  | [] => Ok tree
  | option :: options' =>
      match getTomlKey option with
      | None => marshal_loop options' cfg tree
      | Some key =>
          value ← marshalTOML option cfg;
          marshal_loop options' cfg
            (<[key := mkEntry (comment_of option) (negb (is_set (o_kind option) cfg (o_ConfigKey option))) value]> tree)
      end
  end.
Definition MarshalTOML (options : Options) (cfg : Config) : go Bytes :=
  tree ← marshal_loop options cfg ∅; Marshal tree.
End Write.

(** ** Reading the file back *)

Section Reload.
Context {L : ConfigLib} {T : TomlCodec L} {TL : TomlCodecLaws T}.

Lemma load_total source options cfg :
  (forall o i, o ∈ options -> source o = Some i -> exists v, parse_value o i = Ok v) ->
  exists cfg', load source options cfg = Ok cfg'.
Proof.
  revert cfg. induction options as [|o options IH]; intros cfg H; cbn [load]; [by eexists|].
  assert (exists c, (match source o with Some i => setValue o i cfg | None => Ok cfg end) = Ok c) as [c ->].
  { destruct (source o) as [i|] eqn:E; [|by eexists]. destruct (H o i ltac:(by left) E) as [v Hv].
    unfold setValue. rewrite Hv. cbn. by eexists. }
  cbn [mbind go_bind]. apply IH. intros o' i Ho. apply H. by right.
Qed.

Definition toml_keys (options : Options) : list string := omap getTomlKey options.

Lemma toml_keys_cons o options : toml_keys (o :: options) = option_list (getTomlKey o) ++ toml_keys options.
Proof. unfold toml_keys. cbn. by destruct (getTomlKey o). Qed.

(** The entry of every option, and no other. *)
Lemma marshal_loop_spec options cfg tree : NoDup (toml_keys options) ->
  Forall (fun o => exists v, marshalTOML o cfg = Ok v) options ->
  exists tree', marshal_loop options cfg tree = Ok tree' /\
    (forall o key v, o ∈ options -> getTomlKey o = Some key -> marshalTOML o cfg = Ok v ->
      tree' !! key = Some (mkEntry (comment_of o) (negb (is_set (o_kind o) cfg (o_ConfigKey o))) v)) /\
    (forall k, k ∉ toml_keys options -> tree' !! k = tree !! k).
Proof.
  intros Hnd HF. revert tree. induction HF as [|o options [v Hv] HF IH]; intros tree; cbn [marshal_loop].
  { exists tree. split; [done|]. split; [|done]. by intros o key v Ho%not_elem_of_nil. }
  rewrite toml_keys_cons in Hnd. destruct (getTomlKey o) as [key|] eqn:E; cbn [option_list app] in Hnd.
  - simpl in Hnd. apply NoDup_cons in Hnd as [Hk Hnd]. rewrite Hv. cbn [mbind go_bind].
    destruct (IH Hnd (<[key := mkEntry (comment_of o) (negb (is_set (o_kind o) cfg (o_ConfigKey o))) v]> tree)) as (tree' & Hl & Hin & Hout).
    exists tree'. split; [done|]. split.
    + intros o' key' v' [-> |Ho]%elem_of_cons Hk' Hv'; [|by apply Hin]. rewrite E in Hk'. injection Hk' as <-.
      rewrite Hv in Hv'. injection Hv' as <-. rewrite Hout by done. apply (lookup_insert_eq (M := gmap string)).
    + intros k. rewrite toml_keys_cons, E. simpl. intros [Hne Hni]%not_elem_of_cons. rewrite Hout by done.
      by apply (lookup_insert_ne (M := gmap string)).
  - destruct (IH Hnd tree) as (tree' & Hl & Hin & Hout). exists tree'. split; [done|]. split.
    + intros o' key' v' [-> |Ho]%elem_of_cons; [congruence|by apply Hin].
    + intros k. rewrite toml_keys_cons, E. apply Hout.
Qed.

(** A configuration that can be written and read: typed, durations of whole
    seconds, a level the logger can parse back, a known format, no tables. *)
Record savable (opts : Options) (cfg : Config) : Prop := {
  sv_typed : well_typed opts cfg;
  sv_seconds o : o ∈ opts -> o_kind o = KDuration ->
    duration_field cfg (o_ConfigKey o) mod Second = 0 /\ - maxInt64 <= duration_field cfg (o_ConfigKey o) <= maxInt64;
  sv_level v : cfg !! "LogLevel"%string = Some v -> exists l, v = VLevel l /\ ParseLevel (Level_String l) = Ok l;
  sv_format v : cfg !! "LogFormat"%string = Some v -> v = VFormat LogFormatText \/ v = VFormat LogFormatJSON;
  sv_path : string_field cfg "CaptiveCoreStoragePath" <> "."%string;
  sv_tables : cfg !! "BufferedStorageBackendConfig"%string = None /\ cfg !! "DataStoreConfig"%string = None;
}.

(** The options with a setter of their own, by field, and the kinds of the others. *)
Definition named_customs (sys : System) : list (string * kind * (any -> go (option value))) :=
  [("LogLevel"%string, KOther, set_log_level); ("LogFormat"%string, KOther, set_log_format);
   ("CaptiveCoreStoragePath"%string, KString, set_storage_path sys);
   ("BufferedStorageBackendConfig"%string, KOther, unmarshalTOMLTree "buffered_storage_backend_config");
   ("DataStoreConfig"%string, KOther, unmarshalTOMLTree "datastore_config")].
Lemma options_named_customs sys :
  omap (fun o => pair (o_ConfigKey o, o_kind o) <$> o_CustomSetValue o) (options sys) = named_customs sys.
Proof. reflexivity. Qed.
Definition plainly_marshalled (o : Option_) : bool :=
  match o_CustomSetValue o with
  | Some _ => true
  | None => match custom_marshal (o_ConfigKey o) with
            | Some _ => false
            | None => match o_kind o with KOther | KInt _ | KUint I64 => false | _ => true end
            end
  end.
Lemma options_plainly_marshalled sys : forallb plainly_marshalled (options sys) = true.
Proof. reflexivity. Qed.

Lemma string_elements_AStr name i l : string_elements name i (AStr <$> l) = Ok l.
Proof. revert i. induction l as [|x l IH]; intros i; cbn; [done|]. by rewrite IH. Qed.

(** [o] writes its field, and reads what it wrote when the field is set. *)
Definition rereads (cfg : Config) (o : Option_) : Prop :=
  exists v, marshalTOML o cfg = Ok v /\ writable v /\
    (is_set (o_kind o) cfg (o_ConfigKey o) = true -> parse_value o (read_value v) = Ok (cfg !! o_ConfigKey o)).

Lemma custom_rereads sys opts cfg o f : savable opts cfg -> o_CustomSetValue o = Some f ->
  (o_ConfigKey o, o_kind o, f) ∈ named_customs sys ->
  (forall v, cfg !! o_ConfigKey o = Some v -> has_kind (o_kind o) v) -> rereads cfg o.
Proof.
  intros [_ _ Hlevel Hformat Hpath [Hb Hd]] Ef Hin Ht. unfold rereads, marshalTOML, parse_value. rewrite Ef. clear Ef.
  revert Hin Ht. generalize (o_ConfigKey o) (o_kind o). intros k kd Hin Ht.
  unfold named_customs in Hin. rewrite !elem_of_cons in Hin.
  destruct Hin as [E|[E|[E|[E|[E|Hin%not_elem_of_nil]]]]]; [..|done]; injection E as -> -> ->; cbn.
  - eexists. split_and!; [done|done|]. unfold level_field, is_set. destruct (cfg !! "LogLevel"%string) as [v|]; [|done].
    destruct (Hlevel v eq_refl) as (l & -> & Hl). intros _. cbn. by rewrite Hl.
  - assert (exists s, LogFormat_String (format_field cfg "LogFormat") = Ok s /\
      (is_set KOther cfg "LogFormat" = true -> set_log_format (AStr s) = Ok (cfg !! "LogFormat"%string))) as (s & -> & Hs).
    { unfold format_field, is_set. destruct (cfg !! "LogFormat"%string) as [v|]; [|eexists; split; [reflexivity|done]].
      destruct (Hformat v eq_refl) as [-> | ->]; eexists; (split; [reflexivity|]); intros _; reflexivity. }
    eexists. split_and!; [done|done|]. exact Hs.
  - eexists. split_and!; [done|done|]. unfold string_field, is_set in *.
    destruct (cfg !! "CaptiveCoreStoragePath"%string) as [v|]; [|done]. specialize (Ht v eq_refl). destruct v; try done. intros Hs.
    cbn. destruct (String.eqb_spec s ""); [by subst|]. by destruct (String.eqb_spec s ".").
  - destruct (default_table_ok (T := T) "buffered_storage_backend_config") as [t ->]. eexists. split_and!; [done|done|].
    unfold is_set. by rewrite Hb.
  - destruct (default_table_ok (T := T) "datastore_config") as [t ->]. eexists. split_and!; [done|done|].
    unfold is_set. by rewrite Hd.
Qed.

Lemma plain_rereads opts cfg o : savable opts cfg -> o_CustomSetValue o = None -> plainly_marshalled o = true ->
  (forall v, cfg !! o_ConfigKey o = Some v -> has_kind (o_kind o) v) ->
  (o_kind o = KDuration -> duration_field cfg (o_ConfigKey o) mod Second = 0 /\
     - maxInt64 <= duration_field cfg (o_ConfigKey o) <= maxInt64) -> rereads cfg o.
Proof.
  intros _ Ef Hp Ht Hsec. unfold rereads, marshalTOML, parse_value. unfold plainly_marshalled in Hp. rewrite Ef in *.
  destruct (custom_marshal (o_ConfigKey o)); [done|].
  destruct (o_kind o) as [|t|t| | | |]; try done; eexists; (split; [reflexivity|]); cbn [writable read_value].
  - split; [done|]. unfold bool_field, is_set. destruct (cfg !! _) as [v|]; [|done].
    specialize (Ht v eq_refl). by destruct v.
  - assert (0 <= uint_field cfg (o_ConfigKey o) <= u32max /\ uint_field cfg (o_ConfigKey o) < 2 ^ bits t) as [Hu Hw].
    { unfold uint_field. destruct (cfg !! _) as [v|]; [|by destruct t]. specialize (Ht v eq_refl).
      unfold has_kind, is_u32, u32max in *. destruct v, t; try done; lia. }
    unfold u32max in Hu. pose proof (ParseInt_Itoa (uint_field cfg (o_ConfigKey o)) 64 ltac:(lia) ltac:(lia)) as E.
    split; [by eexists|]. rewrite E. intros Hset. unfold parser.
    assert (parseUint32 t (o_Name o) (AInt I64 (uint_field cfg (o_ConfigKey o))) = Ok (Some (VUint (uint_field cfg (o_ConfigKey o))))) as Hparse.
    { unfold parseUint32. destruct (Z.ltb_spec (uint_field cfg (o_ConfigKey o)) 0); [lia|]. unfold parseUint32_text.
      rewrite ParseUint_Itoa by lia. cbn [mbind go_bind]. unfold u32max. destruct (Z.ltb_spec 4294967295 (uint_field cfg (o_ConfigKey o))); [lia|].
      unfold wrap_unsigned. by rewrite Z.mod_small by lia. }
    assert (cfg !! o_ConfigKey o = Some (VUint (uint_field cfg (o_ConfigKey o)))) as ->.
    { unfold uint_field, is_set in *. destruct (cfg !! _) as [v|]; [|done]. specialize (Ht v eq_refl). destruct t, v; done. }
    by destruct t.
  - split; [done|]. unfold string_field, is_set. destruct (cfg !! _) as [v|]; [|done]. specialize (Ht v eq_refl). by destruct v.
  - split; [done|]. unfold strings_field, is_set. destruct (cfg !! _) as [v|]; [|done]. specialize (Ht v eq_refl). destruct v; try done.
    intros _. cbn. by rewrite string_elements_AStr.
  - split; [done|]. intros Hset. destruct (Hsec eq_refl) as [Hm Hb]. cbn. rewrite ParseDuration_String by done. cbn.
    unfold duration_field, is_set in *. destruct (cfg !! _) as [v|]; [|done]. specialize (Ht v eq_refl). by destruct v.
Qed.

Lemma option_rereads sys cfg o : savable (with_flag_default <$> options sys) cfg ->
  o ∈ with_flag_default <$> options sys -> rereads cfg o.
Proof.
  intros Hs Ho. pose proof (sv_typed _ _ Hs o Ho) as Ht. pose proof (sv_seconds _ _ Hs o Ho) as Hsec.
  apply list_elem_of_fmap in Ho as (o0 & -> & Ho). destruct (o_CustomSetValue o0) as [f|] eqn:Ef.
  - eapply (custom_rereads sys); [exact Hs|by rewrite flag_default_custom| |exact Ht].
    rewrite flag_default_key, flag_default_kind, <- options_named_customs. apply list_elem_of_omap. exists o0. by rewrite Ef.
  - eapply plain_rereads; [exact Hs|by rewrite flag_default_custom| |exact Ht|exact Hsec].
    pose proof (options_plainly_marshalled sys) as HF. apply forallb_Forall in HF. rewrite Forall_forall in HF.
    specialize (HF o0 Ho). unfold plainly_marshalled in *. by rewrite flag_default_custom, flag_default_key, flag_default_kind.
Qed.

(** Every key of the file is an option's. *)
Lemma no_unknown_key (tree : TomlTree) options : (forall k, k ∈ Keys tree -> k ∈ toml_keys options) ->
  find (fun key => negb (existsb (fun o => bool_decide (getTomlKey o = Some key)) options)) (Keys tree) = None.
Proof.
  intros Hk. destruct (find _ _) as [key|] eqn:E; [|done]. exfalso. apply find_some in E as [Hin E].
  apply list_elem_of_In, Hk, list_elem_of_omap in Hin as (o & Ho & Hkey). apply negb_true_iff in E.
  rewrite <- not_true_iff_false in E. apply E, existsb_exists. exists o. split; [by apply list_elem_of_In|].
  by apply bool_decide_eq_true_2.
Qed.

(** C24: The file [gen-config-file] writes from a savable configuration (each field
    of its option's kind; durations of whole seconds; a log level that parses and
    one of the two log formats; a storage path other than the dot; and neither a
    datastore nor a backend table, whose values the writer would replace with the
    defaults) reads back, in strict mode, and every option with a key has the value
    it was written with, if that is not zero; a field that is zero is written
    commented out and comes back unset, not as zero. *)
Theorem config_file_roundtrip sys opts cfg : AddFlags [] (options sys) = Ok opts -> NoDup (toml_keys opts) -> savable opts cfg ->
  exists bytes tree cfg', MarshalTOML opts cfg = Ok bytes /\ LoadBytes bytes = Ok tree /\
    parseToml tree true opts ∅ = Ok cfg' /\
    forall o, o ∈ opts -> cfg' !! o_ConfigKey o =
      match getTomlKey o with
      | Some _ => if is_set (o_kind o) cfg (o_ConfigKey o) then cfg !! o_ConfigKey o else None
      | None => None
      end.
Proof.
  rewrite options_flagged. intros <-%Ok_inj Hnd Hs. set (opts := with_flag_default <$> options sys) in *.
  assert (forall o, o ∈ opts -> rereads cfg o) as Hre by (intros o; by apply option_rereads).
  destruct (marshal_loop_spec opts cfg ∅ Hnd) as (doc & Hdoc & Hin & Hout).
  { apply Forall_forall. intros o Ho. destruct (Hre o Ho) as (v & Hv & _). by exists v. }
  assert (forall k, is_Some (doc !! k) -> exists o v, o ∈ opts /\ getTomlKey o = Some k /\ marshalTOML o cfg = Ok v /\
    writable v /\ doc !! k = Some (mkEntry (comment_of o) (negb (is_set (o_kind o) cfg (o_ConfigKey o))) v)) as Hfrom.
  { intros k [e He]. destruct (decide (k ∈ toml_keys opts)) as [Hk|Hk]; [|rewrite Hout in He; done].
    apply list_elem_of_omap in Hk as (o & Ho & Hk). destruct (Hre o Ho) as (v & Hv & Hw & _). exists o, v. split_and!; try done.
    by apply Hin. }
  destruct (codec_reads (T := T) doc) as (bytes & tree & Hb & Ht & Hget & Hkeys).
  { intros k e He. destruct (Hfrom k ltac:(by eexists)) as (o & v & _ & _ & _ & Hw & E). rewrite E in He. by injection He as <-. }
  assert (forall o, o ∈ opts -> from_toml tree o = None \/ exists i, from_toml tree o = Some i /\
    is_set (o_kind o) cfg (o_ConfigKey o) = true /\ parse_value o i = Ok (cfg !! o_ConfigKey o)) as Hsrc.
  { intros o Ho. unfold from_toml. destruct (getTomlKey o) as [key|] eqn:Ek; [|by left]. cbn.
    destruct (Hre o Ho) as (v & Hv & _ & Hp). rewrite Hget, (Hin o key v Ho Ek Hv). cbn.
    destruct (is_set _ _ _) eqn:Eset; [right|by left]. eexists. split_and!; [done|done|]. by apply Hp. }
  destruct (load_total (from_toml tree) opts ∅) as [cfg' Hload].
  { intros o i Ho Hi. destruct (Hsrc o Ho) as [E|(i' & E & _ & Hp)]; rewrite Hi in E; [done|]. injection E as <-. by eexists. }
  exists bytes, tree, cfg'. split_and!.
  - unfold MarshalTOML. by rewrite Hdoc.
  - done.
  - unfold parseToml. rewrite Hload. cbn [mbind go_bind]. rewrite orb_true_r, no_unknown_key; [done|].
    intros k Hk%Hkeys. rewrite Hget in Hk. apply list_elem_of_omap. destruct (doc !! k) as [e|] eqn:E; [|by destruct Hk].
    destruct (Hfrom k ltac:(by eexists)) as (o & v & Ho & Hko & _). by exists o.
  - intros o Ho. pose proof (passed_in _ _ _ _ _ (proj1 (options_keys sys)) Hload Ho) as Hp. unfold passed in Hp.
    rewrite field_empty in Hp. destruct (Hsrc o Ho) as [E|(i & E & Hset & Hpv)]; rewrite E in Hp.
    + destruct (getTomlKey o) as [key|] eqn:Ek; [|done]. destruct (is_set _ _ _) eqn:Eset; [|done]. exfalso.
      destruct (Hre o Ho) as (v & Hv & _). unfold from_toml in E. rewrite Ek in E. cbn in E.
      rewrite Hget, (Hin o key v Ho Ek Hv) in E. cbn in E. by rewrite Eset in E.
    + rewrite Hpv in Hp. unfold from_toml in E. destruct (getTomlKey o); [|done]. rewrite Hset.
      destruct (cfg !! o_ConfigKey o) as [v|]; done.
Qed.
End Reload.

(** ** A concrete file *)

#[export] Instance toy_codec : TomlCodec toy_config_lib := {
  Bytes := TomlDoc;
  Marshal doc := Ok doc;
  LoadBytes doc :=
    let get k := match doc !! k with
                 | Some e => if e_Commented e then None else Some (read_value (e_value e))
                 | None => None
                 end in
    Ok (mkToml get (filter (fun k => is_Some (get k)) (map_to_list doc).*1));
  Level_String l := if l =? 5 then "debug"%string else "info"%string;
  default_table _ := Ok tt;
  Usage f := f;
}.
#[export] Instance toy_codec_laws : TomlCodecLaws toy_codec.
Proof.
  split; [|by eexists]. intros doc _. eexists _, _. split; [reflexivity|]. split; [reflexivity|]. split; [done|].
  intros k. cbn [Keys Get]. rewrite list_elem_of_filter. split; [by intros [? _]|]. intros Hk. split; [exact Hk|].
  apply list_elem_of_fmap. destruct (doc !! k) as [e|] eqn:E; [|by destruct Hk]. exists (k, e). split; [done|].
  by apply (elem_of_map_to_list (M := gmap string)).
Qed.

Lemma sample_savable : savable sample_options sample_config.
Proof.
  constructor.
  - pose proof (options_flagged sample_system) as E. rewrite sample_options_ok in E. apply Ok_inj in E.
    pose proof sample_config_ok as H. rewrite E in H |- *. exact (loaded_typed sample_system sample_sources sample_config H).
  - assert (forallb (fun o => match o_kind o with
        | KDuration => (duration_field sample_config (o_ConfigKey o) mod Second =? 0) &&
            (- maxInt64 <=? duration_field sample_config (o_ConfigKey o)) && (duration_field sample_config (o_ConfigKey o) <=? maxInt64)
        | _ => true end) sample_options = true) as H by (vm_compute; reflexivity).
    apply forallb_Forall in H. rewrite Forall_forall in H. intros o Ho Ek. specialize (H o Ho). rewrite Ek in H. lia.
  - intros v H. exists 4. assert (sample_config !! "LogLevel"%string = Some (VLevel 4)) as E by (vm_compute; reflexivity).
    rewrite E in H. clear E. injection H as <-. split; reflexivity.
  - intros v H. left. assert (sample_config !! "LogFormat"%string = Some (VFormat LogFormatText)) as E by (vm_compute; reflexivity).
    rewrite E in H. clear E. injection H as <-. reflexivity.
  - vm_compute. discriminate.
  - split; vm_compute; reflexivity.
Qed.

Lemma config_file_roundtrip_witness : exists bytes tree cfg',
  MarshalTOML sample_options sample_config = Ok bytes /\ LoadBytes bytes = Ok tree /\
  parseToml tree true sample_options ∅ = Ok cfg' /\
  cfg' !! "NetworkPassphrase"%string = Some (VStr "net"%string).
Proof.
  destruct (config_file_roundtrip sample_system sample_options sample_config sample_options_ok) as (b & t & c & H1 & H2 & H3 & H4).
  - apply (bool_decide_unpack _). vm_compute. exact I.
  - apply sample_savable.
  - exists b, t, c. split; [exact H1|]. split; [exact H2|]. split; [exact H3|].
    destruct (nth_error sample_options 17) as [o|] eqn:E; [|discriminate E].
    specialize (H4 o ltac:(apply list_elem_of_In; exact (nth_error_In _ _ E))). vm_compute in E. injection E as <-.
    etransitivity; [exact H4|]. vm_compute. reflexivity.
Defined.

(** A value set to zero over a default that is not is lost: written from a
    configuration without debugging of preflights, the file turns it on again. *)
Definition no_debug_sources : Sources :=
  mkSources (fun _ => None)
    (fun n => if String.eqb n "preflight-enable-debug" then Some (ABool false) else None) (fun _ => Er (EExt "no file")) "0.0.0".
Definition reloading (tree : TomlTree) : Sources :=
  mkSources (fun _ => None) (fun n => if String.eqb n "config-path" then Some (AStr "saved.toml") else None) (fun _ => Ok tree) "0.0.0".
Definition saved_and_reloaded (s : Sources) (f : string) : go (bool * bool) :=
  cfg ← SetValues s sample_options ∅;
  bytes ← MarshalTOML sample_options cfg;
  tree ← LoadBytes bytes;
  cfg' ← SetValues (reloading tree) sample_options ∅;
  Ok (bool_field cfg f, bool_field cfg' f).
Lemma zero_values_not_saved : saved_and_reloaded no_debug_sources "PreflightEnableDebug" = Ok (false, true).
Proof. vm_compute. reflexivity. Qed.
