(* ===== verification/Backlog.v ===== *)
(** * The backlog queue limiter: [internal/network/backlogQ.go]

    Requests run concurrently: a request is a thread whose program counter
    walks through the atomic operations of [ServeHTTP] (or [Handle]) on the
    limiter's shared words, and an execution interleaves the threads' steps. *)

From S2P Require Import Prelude.

Definition RequestBacklogQueueNoLimit : Z := 18446744073709551615.

(** The shared fields of [backlogQLimiter]; a nil gauge or logger is [None],
    the gauge is its value and the logger the messages it received. *)
Record backlogQLimiter := mkBacklog {
  limit : Z;
  pending : Z;
  gauge : option Z;
  limitReached : Z;
  logger : option (list err);
}.

Definition MakeBacklogQueueLimiter (gauge : option Z) (limit : Z) (logger : option (list err)) :
    backlogQLimiter :=
  mkBacklog limit 0 gauge 0 logger.

Definition add_pending (q : backlogQLimiter) (d : Z) : backlogQLimiter :=
  mkBacklog (limit q) (u64 (pending q + d)) (gauge q) (limitReached q) (logger q).
Definition add_gauge (q : backlogQLimiter) (d : Z) : backlogQLimiter :=
  mkBacklog (limit q) (pending q) ((fun g => g + d) <$> gauge q) (limitReached q) (logger q).
Definition set_limitReached (q : backlogQLimiter) (v : Z) : backlogQLimiter :=
  mkBacklog (limit q) (pending q) (gauge q) v (logger q).
Definition log_msg (q : backlogQLimiter) (m : err) : backlogQLimiter :=
  mkBacklog (limit q) (pending q) (gauge q) (limitReached q) ((fun l => l ++ [m]) <$> logger q).

(** The points of a request between two operations on shared memory. *)
Inductive pc :=
  | PStart          (** the request arrived *)
  | PPassThrough    (** no limit: the downstream handler runs, uncounted *)
  | PReject         (** over the limit, the increment is still to be undone *)
  | PLimitLog       (** the compare-and-swap on [limitReached] *)
  | PRejected
  | PGaugeInc       (** admitted *)
  | PDownstream     (** the downstream handler runs *)
  | PPendingDec     (** it returned or panicked: the deferred function *)
  | PGaugeDec
  | PClearReached
  | PDone.

(** What the caller of a rejected request gets. *)
Inductive response := Status (code : Z) | CallError (e : err).

(** A rejection's response and its log message, by limit. *)
Record front_end := mkFront { reject_response : Z -> response; reject_log : Z -> err }.

Definition ServeHTTP : front_end :=
  mkFront (fun _ => Status 503)
    (fun limit => EFmt "Backlog queue limiter reached the queue limit of %d executing concurrent http requests." [FZ limit]).
Definition Handle (method : string) : front_end :=
  mkFront (fun limit => CallError (EFmt "rpc queue for %s surpassed queue limit of %d requests" [FS method; FZ limit]))
    (fun limit => EFmt "Backlog queue limiter reached the queue limit of %d executing concurrent rpc %s requests."
      [FZ limit; FS method]).

(** One atomic step of a request; a finished request has none. *)
Definition backlog_step (f : front_end) (q : backlogQLimiter) (p : pc) : option (backlogQLimiter * pc) :=
  match p with
  | PStart =>
      if limit q =? RequestBacklogQueueNoLimit then Some (q, PPassThrough)
      else let q' := add_pending q 1 in
           if limit q <? pending q' then Some (q', PReject) else Some (q', PGaugeInc)
  | PPassThrough => Some (q, PDone)
  | PReject => Some (add_pending q RequestBacklogQueueNoLimit, PLimitLog)
  | PLimitLog =>
      if limitReached q =? 0
      then Some (log_msg (set_limitReached q 1) (reject_log f (limit q)), PRejected)
      else Some (q, PRejected)
  | PGaugeInc => Some (add_gauge q 1, PDownstream)
  | PDownstream => Some (q, PPendingDec)
  | PPendingDec => Some (add_pending q RequestBacklogQueueNoLimit, PGaugeDec)
  | PGaugeDec => Some (add_gauge q (-1), PClearReached)
  | PClearReached => Some (set_limitReached q 0, PDone)
  | PRejected | PDone => None
  end.

(** What a finished request answered: [None] is the downstream's answer. *)
Definition answer (f : front_end) (q : backlogQLimiter) (p : pc) : option response :=
  match p with PRejected => Some (reject_response f (limit q)) | _ => None end.

(** ** The system: any number of requests on one limiter *)

Definition system : Type := backlogQLimiter * list pc.

Definition sys_step (f : front_end) (i : nat) (s : system) : option system :=
  p ← s.2 !! i; '(q', p') ← backlog_step f s.1 p; Some (q', <[i := p']> s.2).

Inductive steps (f : front_end) : system -> system -> Prop :=
  | steps_refl s : steps f s s
  | steps_cons s s' s'' i : steps f s s' -> sys_step f i s' = Some s'' -> steps f s s''.

(** Executing a schedule. *)
Fixpoint run_schedule (f : front_end) (sched : list nat) (s : system) : option system :=
  match sched with
  | [] => Some s
  | i :: sched' => s' ← sys_step f i s; run_schedule f sched' s'
  end.

Lemma steps_trans f s s' s'' : steps f s s' -> steps f s' s'' -> steps f s s''.
Proof.
  intros H. induction 1 as [|? ? ? ? ? IH Hs]; [done|]. by eapply steps_cons; [apply IH | exact Hs].
Qed.

Lemma run_schedule_steps f sched s s' : run_schedule f sched s = Some s' -> steps f s s'.
Proof.
  revert s. induction sched as [|i sched IH]; intros s; simpl; [intros [= <-]; constructor|].
  intros (s1 & H1 & H2)%bind_Some. eapply steps_trans; [|by apply IH].
  econstructor; [constructor | done].
Qed.

(** Requests whose increment of [pending] is not undone yet, those admitted
    among them, and those the gauge counts. *)
Definition holds (p : pc) : bool :=
  match p with PReject | PGaugeInc | PDownstream | PPendingDec => true | _ => false end.
Definition admitted (p : pc) : bool :=
  match p with PGaugeInc | PDownstream | PPendingDec => true | _ => false end.
Definition gauged (p : pc) : bool :=
  match p with PDownstream | PPendingDec | PGaugeDec => true | _ => false end.
Definition running (p : pc) : bool := match p with PDownstream => true | _ => false end.
Definition finished (p : pc) : bool := match p with PDone | PRejected => true | _ => false end.

(** The limiter's invariant: [pending] and the gauge count the requests they
    are meant to, and no more than [limit] requests are admitted. *)
Definition backlog_inv (l : Z) (g0 : option Z) (n : nat) (s : system) : Prop :=
  limit s.1 = l /\ length s.2 = n /\
  pending s.1 = countb holds s.2 /\
  gauge s.1 = (fun g => g + countb gauged s.2) <$> g0 /\
  countb admitted s.2 <= l.

Lemma backlog_inv_init l g0 lg n : 0 <= l ->
  backlog_inv l g0 n (MakeBacklogQueueLimiter g0 l lg, replicate n PStart).
Proof.
  intros Hl.
  assert (forall p : pc -> bool, p PStart = false -> countb p (replicate n PStart) = 0) as Hz.
  { intros p Hp. apply countb_zero. by apply Forall_replicate. }
  split_and!; simpl; rewrite ?length_replicate, ?Hz by done; try done.
  destruct g0; simpl; [f_equal; lia | done].
Qed.

Lemma u64_dec z : 0 < z < 18446744073709551616 -> u64 (z + RequestBacklogQueueNoLimit) = z - 1.
Proof. intros. unfold u64, RequestBacklogQueueNoLimit. divlia. Qed.

(** Every step preserves the invariant. *)
Lemma backlog_inv_step f l g0 n i s s' : Z.of_nat n < 18446744073709551616 ->
  backlog_inv l g0 n s -> sys_step f i s = Some s' -> backlog_inv l g0 n s'.
Proof.
  intros Hn (Hl & Hlen & Hp & Hg & Ha) Hs. destruct s as [q ts]; simpl in *.
  unfold sys_step in Hs. simpl in Hs.
  apply bind_Some in Hs as (p & Hi & ([q' p'] & Hs & [= <-])%bind_Some).
  pose proof (fun f => countb_insert f ts i p p' Hi) as Hins.
  pose proof (countb_range holds ts) as Hr. unfold zlen in Hr.
  pose proof (fun f => countb_lookup_pos f ts i p Hi) as Hpos.
  assert (countb holds (<[i:=p']> ts) <= Z.of_nat n) as Hr'.
  { pose proof (countb_range holds (<[i:=p']> ts)) as [_ H]. unfold zlen in H.
    rewrite length_insert in H. lia. }
  pose proof (countb_le admitted holds (<[i:=p']> ts) ltac:(by intros [])) as Hle.
  unfold backlog_inv; cbn [fst snd]. rewrite length_insert.
  rewrite !Hins in *. specialize (Hpos holds). clear Hins.
  destruct p; cbn [backlog_step] in Hs; repeat case_match; simplify_eq;
    cbn [add_pending add_gauge set_limitReached log_msg limit pending gauge logger limitReached
         holds admitted gauged Z.b2z] in *;
    rewrite ?Hg; (split_and!; try done);
    try (rewrite Hp; first [rewrite u64_dec by (specialize (Hpos eq_refl); lia)
                           | rewrite u64_small by (unfold is_u64; lia) | idtac]; lia);
    try (destruct g0 as [g|]; simpl; [f_equal; lia | done]); try lia.
  match goal with H : (limit _ <? _) = false |- _ => apply Z.ltb_ge in H end.
  rewrite Hp, u64_small in * by (unfold is_u64; lia). lia.
Qed.

Lemma backlog_inv_steps f l g0 n s s' : Z.of_nat n < 18446744073709551616 ->
  backlog_inv l g0 n s -> steps f s s' -> backlog_inv l g0 n s'.
Proof.
  intros Hn Hi. induction 1 as [|? ? ? ? ? IH Hs]; [done|].
  eapply backlog_inv_step; [done | by apply IH | exact Hs].
Qed.

(** A request is admitted exactly when fewer than [limit] are counted. *)
Lemma backlog_arrival f l g0 n q ts i : Z.of_nat n < 18446744073709551616 ->
  backlog_inv l g0 n (q, ts) -> l <> RequestBacklogQueueNoLimit -> ts !! i = Some PStart ->
  sys_step f i (q, ts) =
  Some (add_pending q 1, <[i := if countb holds ts <? l then PGaugeInc else PReject]> ts).
Proof.
  intros Hn (Hl & Hlen & Hp & Hg & Ha) Hnl Hi. unfold sys_step. cbn [fst snd] in *. rewrite Hi. simpl.
  destruct (Z.eqb_spec (limit q) RequestBacklogQueueNoLimit); [congruence|].
  assert (countb holds (<[i:=PGaugeInc]> ts) <= Z.of_nat n) as Hr.
  { pose proof (countb_range holds (<[i:=PGaugeInc]> ts)) as [_ H]. unfold zlen in H.
    rewrite length_insert in H. lia. }
  rewrite (countb_insert _ _ _ _ _ Hi) in Hr. simpl in Hr.
  pose proof (countb_range holds ts).
  rewrite Hp, u64_small by (unfold is_u64; lia). rewrite Hl.
  destruct (Z.ltb_spec l (countb holds ts + 1)), (Z.ltb_spec (countb holds ts) l); done || lia.
Qed.

(** A request that is not finished can always step: no step blocks. *)
Lemma backlog_progress f q ts i p : ts !! i = Some p -> finished p = false ->
  exists s', sys_step f i (q, ts) = Some s'.
Proof.
  intros Hi Hf. unfold sys_step. simpl. rewrite Hi. simpl.
  destruct p; simpl in *; try done; repeat case_match; eauto.
Qed.

(** Steps left to a request, whatever the others do. *)
Definition remaining (p : pc) : nat :=
  match p with
  | PStart => 7 | PPassThrough => 1 | PReject => 2 | PLimitLog => 1 | PRejected => 0
  | PGaugeInc => 5 | PDownstream => 4 | PPendingDec => 3 | PGaugeDec => 2 | PClearReached => 1
  | PDone => 0
  end.

Lemma backlog_step_remaining f q p q' p' : backlog_step f q p = Some (q', p') ->
  (remaining p' < remaining p)%nat.
Proof. destruct p; simpl; intros; repeat case_match; simplify_eq; simpl; lia. Qed.

Lemma finished_counts ts : Forall (fun p => finished p = true) ts ->
  countb holds ts = 0 /\ countb gauged ts = 0.
Proof.
  intros HF. split; apply countb_zero; (eapply Forall_impl; [exact HF|]); by intros [].
Qed.

Lemma run_schedule_length f sched q ts s' : run_schedule f sched (q, ts) = Some s' ->
  (length sched <= sum_list_with remaining ts)%nat.
Proof.
  revert q ts. induction sched as [|i sched IH]; intros q ts; simpl; [lia|].
  unfold sys_step. simpl.
  intros ([q1 ts1] & (p & Hi & ([q2 p'] & Hs & [= <- <-])%bind_Some)%bind_Some & Hrun)%bind_Some.
  apply backlog_step_remaining in Hs. apply IH in Hrun.
  pose proof (sum_insert remaining ts i p p' Hi). lia.
Qed.

(** C11: Whatever the interleaving of up to 2^64 - 1 concurrent requests on a fresh
    limiter (HTTP or JSON-RPC front end), at most [limit] of them are past
    admission at any moment, [pending] counts exactly the requests whose
    increment is not undone and the gauge those being served; when all have
    finished, both are back at their initial values. *)
Theorem backlog_bounded f l g0 lg n s :
  0 <= l -> Z.of_nat n < 18446744073709551616 ->
  steps f (MakeBacklogQueueLimiter g0 l lg, replicate n PStart) s ->
  countb admitted s.2 <= l /\
  pending s.1 = countb holds s.2 /\
  gauge s.1 = (fun g => g + countb gauged s.2) <$> g0 /\
  (Forall (fun p => finished p = true) s.2 -> pending s.1 = 0 /\ gauge s.1 = g0).
Proof.
  intros Hl Hn Hs.
  pose proof (backlog_inv_steps f l g0 n _ s Hn (backlog_inv_init l g0 lg n Hl) Hs)
    as (_ & _ & Hp & Hg & Ha).
  split_and!; [done..|]. intros [H1 H2]%finished_counts. rewrite Hp, Hg, H1, H2.
  split; [done|]. destruct g0; simpl; [f_equal; lia | done].
Qed.

(** Three requests on a limiter of one: the second is rejected while the first
    runs, the third is admitted after it is done. *)
Definition three_requests : list nat := [0; 0; 1; 0; 1; 1; 0; 0; 0; 2; 2]%nat.
Lemma backlog_bounded_witness : exists s,
  run_schedule (Handle "getEvents") three_requests
    (MakeBacklogQueueLimiter (Some 0) 1 (Some []), replicate 3 PStart) = Some s /\
  s.2 = [PDone; PRejected; PDownstream] /\ countb admitted s.2 <= 1 /\ gauge s.1 = Some 1.
Proof.
  eexists. split; [vm_compute; reflexivity|]. split; [reflexivity|].
  match goal with |- countb admitted (snd ?s) <= 1 /\ _ =>
    destruct (backlog_bounded (Handle "getEvents") 1 (Some 0) (Some []) 3 s
      ltac:(lia) ltac:(simpl; lia)) as (H1 & H2 & H3 & _)
  end; [eapply run_schedule_steps with three_requests; reflexivity|].
  split; [exact H1 | rewrite H3; reflexivity].
Defined.

(** C30: An arriving request is admitted if and only if fewer than [limit] requests
    hold an increment of [pending]; no request ever blocks, and every
    execution of [n] requests ends within [7 n] atomic steps. *)
Theorem backlog_admission f l g0 lg n q ts :
  0 <= l < RequestBacklogQueueNoLimit -> Z.of_nat n < 18446744073709551616 ->
  steps f (MakeBacklogQueueLimiter g0 l lg, replicate n PStart) (q, ts) ->
  (forall i, ts !! i = Some PStart ->
     sys_step f i (q, ts) =
     Some (add_pending q 1, <[i := if countb holds ts <? l then PGaugeInc else PReject]> ts)) /\
  (forall i p, ts !! i = Some p -> finished p = false -> exists s', sys_step f i (q, ts) = Some s') /\
  (forall sched s', run_schedule f sched
     (MakeBacklogQueueLimiter g0 l lg, replicate n PStart) = Some s' -> (length sched <= 7 * n)%nat).
Proof.
  intros Hl Hn Hs. split_and!.
  - intros i Hi. eapply backlog_arrival; [exact Hn| |lia|done].
    eapply backlog_inv_steps; [done| |exact Hs]. apply backlog_inv_init. lia.
  - intros i p. apply backlog_progress.
  - intros sched s' Hr%run_schedule_length.
    assert (sum_list_with remaining (replicate n PStart) = 7 * n)%nat as E; [|lia].
    clear. induction n as [|n IH]; simpl in *; lia.
Qed.

Lemma backlog_admission_witness :
  sys_step ServeHTTP 0 (MakeBacklogQueueLimiter None 0 None, [PStart]) =
  Some (mkBacklog 0 1 None 0 None, [PReject]).
Proof.
  destruct (backlog_admission ServeHTTP 0 None None 1 (MakeBacklogQueueLimiter None 0 None) [PStart])
    as (H & _).
  - unfold RequestBacklogQueueNoLimit. lia.
  - simpl. lia.
  - apply (steps_refl ServeHTTP).
  - apply (H 0%nat). reflexivity.
Defined.
