(* ===== verification/PanicGroup.v ===== *)
(** * Recovering goroutines: [internal/util/panicgroup.go]

    What happens when the function of a goroutine panics: the call stack is
    logged, counted, and the process exits if the group says so. *)

From S2P Require Import Prelude GoStd.

(** A group; the log is the lines it received, the counter its value. *)
Record panicGroup := mkPG {
  pg_log : option (list string);
  logPanicsToStdErr : bool;
  exitProcessOnPanic : bool;
  panicsCounter : option Z;
}.

Definition UnrecoverablePanicGroup : panicGroup := mkPG None true true None.
Definition RecoverablePanicGroup : panicGroup := mkPG None true false None.

Definition Log (pg : panicGroup) (log : option (list string)) : panicGroup :=
  mkPG log (logPanicsToStdErr pg) (exitProcessOnPanic pg) (panicsCounter pg).
Definition Counter (pg : panicGroup) (counter : option Z) : panicGroup :=
  mkPG (pg_log pg) (logPanicsToStdErr pg) (exitProcessOnPanic pg) counter.

(** The lines of the stack from [unwindStackLines] on, up to the first that
    names [last]. *)
Fixpoint stack_lines (lines : list string) (last : string) (unwind : nat) : list string :=
  match lines, unwind with
  | [], _ => []
  | _ :: lines', S u => stack_lines lines' last u
  | l :: lines', O => if Contains l last then [l] else l :: stack_lines lines' last O
  end.

(** [stack] is what [debug.Stack()] returns, [res] the panic value printed. *)
Definition CallStack (res topLevelFunctionName lastCallstackMethod : string) (unwind : nat)
    (stack : string) : list string :=
  (if String.eqb topLevelFunctionName "" then res
   else res +:+ " when calling " +:+ topLevelFunctionName) ::
  stack_lines (FieldsFunc (fun c => Ascii.eqb c "010" || Ascii.eqb c "009") stack)
    lastCallstackMethod unwind.

Definition getPanicCallStack (res fn stack : string) : list string :=
  CallStack res fn "(*panicGroup).Go" 10 stack.

(** How the goroutine's function ended. *)
Inductive ending := Returned | Panicked (res : string).

(** The process: its standard error and whether [os.Exit(1)] was called. *)
Record process := mkProc { stderr : list string; exited : bool }.

Definition recoverRoutine (pg : panicGroup) (p : process) (fn stack : string) (e : ending) :
    panicGroup * process :=
  match e with
  | Returned => (pg, p)
  | Panicked res =>
      match getPanicCallStack res fn stack with
      | [] => (pg, p)
      | cs =>
          (mkPG ((fun l => l ++ cs) <$> pg_log pg) (logPanicsToStdErr pg) (exitProcessOnPanic pg)
             ((fun n => n + 1) <$> panicsCounter pg),
           mkProc (if logPanicsToStdErr pg then stderr p ++ cs else stderr p)
             (exited p || exitProcessOnPanic pg))
      end
  end.

(** [Go fn]: the goroutine runs [fn] and its deferred recovery. *)
Definition Go (pg : panicGroup) (p : process) (fn stack : string) (e : ending) : panicGroup * process :=
  recoverRoutine pg p fn stack e.

Lemma CallStack_nonempty res fn m u st : CallStack res fn m u st <> [].
Proof. done. Qed.
