(* ===== verification/DurationLimiter.v ===== *)
(** * The request duration limiter: [internal/network/requestdurationlimiter.go]

    The downstream handler runs in a goroutine of its own; the limiter selects
    between its timers and the handler's completion.  A run is the sequence of
    channel receptions the [select] statement made. *)

From S2P Require Import Prelude GoStd PanicGroup.

Definition maxDuration : Z := 9223372036854775807.
Definition RequestDurationLimiterNoLimit : Z := maxDuration.

(** Counters and logger may be nil. *)
Record requestDurationLimiter := mkDuration {
  warningThreshold : Z;
  limitThreshold : Z;
  dl_logger : option (list err);
  warningCounter : option Z;
  limitCounter : option Z;
}.

Definition MakeRequestDurationLimiter (warningThreshold limitThreshold : Z)
    (warningCounter limitCounter : option Z) (logger : option (list err)) : requestDurationLimiter :=
  mkDuration (if limitThreshold <? warningThreshold then limitThreshold else warningThreshold)
    limitThreshold logger warningCounter limitCounter.

(** A timer's channel is nil, and never ready, when it is not set. *)
Definition has_warningCh (q : requestDurationLimiter) : bool :=
  negb (warningThreshold q =? 0) && (warningThreshold q <? limitThreshold q).
Definition has_limitCh (q : requestDurationLimiter) : bool := negb (limitThreshold q =? 0).

(** Receptions on the three channels; [Completed r] carries the handler's end. *)
Inductive event (R : Type) := WarningTimer | LimitTimer | Completed (r : R).
Arguments WarningTimer {R}.
Arguments LimitTimer {R}.
Arguments Completed {R} r.

Inductive decision (R : Type) := ByLimit | ByCompletion (warn : bool) (r : R).
Arguments ByLimit {R}.
Arguments ByCompletion {R} warn r.

(** The [for { select }] loop: [None] when it is still waiting after the
    receptions given, or when one is on a nil channel (it cannot happen). *)
Fixpoint select_loop {R} (q : requestDurationLimiter) (warn : bool) (evs : list (event R)) :
    option (decision R) :=
  match evs with
  | [] => None
  | WarningTimer :: evs' => if has_warningCh q then select_loop q true evs' else None
  | LimitTimer :: _ => if has_limitCh q then Some ByLimit else None
  | Completed r :: _ => Some (ByCompletion warn r)
  end.

Definition log_info (q : requestDurationLimiter) (m : err) : requestDurationLimiter :=
  mkDuration (warningThreshold q) (limitThreshold q) ((fun l => l ++ [m]) <$> dl_logger q)
    (warningCounter q) (limitCounter q).
Definition inc_warning (q : requestDurationLimiter) : requestDurationLimiter :=
  mkDuration (warningThreshold q) (limitThreshold q) (dl_logger q)
    ((fun n => n + 1) <$> warningCounter q) (limitCounter q).
Definition inc_limit (q : requestDurationLimiter) : requestDurationLimiter :=
  mkDuration (warningThreshold q) (limitThreshold q) (dl_logger q)
    (warningCounter q) ((fun n => n + 1) <$> limitCounter q).

Definition limit_msg (what : string) (q : requestDurationLimiter) : err :=
  EFmt "Request processing for %s exceed limiting threshold of %v" [FS what; FZ (limitThreshold q)].
Definition warning_msg (what : string) (q : requestDurationLimiter) : err :=
  EFmt "Request processing for %s exceed warning threshold of %v" [FS what; FZ (warningThreshold q)].

Definition on_limit (q : requestDurationLimiter) (what : string) : requestDurationLimiter :=
  log_info (inc_limit q) (limit_msg what q).
Definition on_warning (warn : bool) (q : requestDurationLimiter) (what : string) : requestDurationLimiter :=
  if warn then log_info (inc_warning q) (warning_msg what q) else q.

(** ** HTTP responses *)

(** [net/http]'s response writer: the header map, the status line once it is
    written, and the body.  Later status lines are ignored, the first byte
    writes the default one. *)
Record ResponseWriter := mkRW {
  rw_header : gmap string (list string);
  rw_status : option (Z * gmap string (list string));
  rw_body : string;
}.
Definition rw_WriteHeader (rw : ResponseWriter) (code : Z) : ResponseWriter :=
  match rw_status rw with
  | Some _ => rw
  | None => mkRW (rw_header rw) (Some (code, rw_header rw)) (rw_body rw)
  end.
Definition rw_Write (rw : ResponseWriter) (buf : string) : ResponseWriter :=
  let rw := rw_WriteHeader rw 200 in
  mkRW (rw_header rw) (rw_status rw) (rw_body rw +:+ buf).
Definition rw_SetHeader (rw : ResponseWriter) (k : string) (v : list string) : ResponseWriter :=
  mkRW (<[k := v]> (rw_header rw)) (rw_status rw) (rw_body rw).

Record bufferedResponseWriter := mkBuf {
  header : gmap string (list string);
  buffer : string;
  statusCode : Z;
}.

(** The copy loop over the header map of the underlying writer. *)
Definition makeBufferedResponseWriter (rw : ResponseWriter) : bufferedResponseWriter :=
  mkBuf (map_fold (fun k v h => <[k := v]> h) ∅ (rw_header rw)) EmptyString 0.
Definition bw_SetHeader (w : bufferedResponseWriter) (k : string) (v : list string) : bufferedResponseWriter :=
  mkBuf (<[k := v]> (header w)) (buffer w) (statusCode w).
Definition bw_Write (w : bufferedResponseWriter) (buf : string) : bufferedResponseWriter :=
  mkBuf (header w) (buffer w +:+ buf) (statusCode w).
Definition bw_WriteHeader (w : bufferedResponseWriter) (code : Z) : bufferedResponseWriter :=
  mkBuf (header w) (buffer w) code.

(** [ctx_ok] is [ctx.Err() == nil]. *)
Definition WriteOut (w : bufferedResponseWriter) (ctx_ok : bool) (rw : ResponseWriter) : ResponseWriter :=
  let headers := map_fold (fun k _ h => delete k h) (rw_header rw) (rw_header rw) in
  let headers := map_fold (fun k v h => <[k := v]> h) headers (header w) in
  let rw := mkRW headers (rw_status rw) (rw_body rw) in
  if String.eqb (buffer w) "" then
    if negb (statusCode w =? 0) then rw_WriteHeader rw (statusCode w) else rw
  else
    let rw := if negb (statusCode w =? 0) then rw_WriteHeader rw (statusCode w) else rw in
    if ctx_ok then rw_Write rw (buffer w) else rw.

(** What a downstream handler does to the writer it is given. *)
Inductive wop := SetHeader (k : string) (v : list string) | WWrite (buf : string) | WWriteHeader (code : Z).
Definition run_buffered (ops : list wop) (w : bufferedResponseWriter) : bufferedResponseWriter :=
  foldl (fun w o => match o with
                    | SetHeader k v => bw_SetHeader w k v
                    | WWrite b => bw_Write w b
                    | WWriteHeader c => bw_WriteHeader w c
                    end) w ops.
Definition run_direct (ops : list wop) (rw : ResponseWriter) : ResponseWriter :=
  foldl (fun w o => match o with
                    | SetHeader k v => rw_SetHeader w k v
                    | WWrite b => rw_Write w b
                    | WWriteHeader c => rw_WriteHeader w c
                    end) rw ops.

(** The downstream handler's run: its writes, and the panic value and stack it
    ended with, if it panicked. *)
Record handler_run := mkRun { hr_ops : list wop; hr_panic : option (string * string) }.

(** What is received from [requestCompleted]: nothing from a closed channel. *)
Definition completed_strings (fn : string) (r : handler_run) : list string :=
  match hr_panic r with
  | Some (e, stack) => CallStack e fn "(*httpRequestDurationLimiter).ServeHTTP.func1()" 8 stack
  | None => []
  end.

(** [ServeHTTP]: [evs] are the receptions of the loop; [ctx_ok] whether the
    request's own context is still live when the response is written; [fn] the
    run-time name of the downstream handler. *)
Definition ServeHTTP (q : requestDurationLimiter) (fn path : string) (evs : list (event handler_run))
    (direct : handler_run) (ctx_ok : bool) (res : ResponseWriter) :
    option (go (requestDurationLimiter * ResponseWriter)) :=
  if limitThreshold q =? RequestDurationLimiterNoLimit then
    Some (match hr_panic direct with
          | None => Ok (q, run_direct (hr_ops direct) res)
          | Some (m, _) => Panic m
          end)
  else
    let responseBuffer := makeBufferedResponseWriter res in
    match select_loop q false evs with
    | None => None
    | Some ByLimit =>
        Some (Ok (on_limit q path, if ctx_ok then rw_WriteHeader res 504 else res))
    | Some (ByCompletion warn r) =>
        let responseBuffer := run_buffered (hr_ops r) responseBuffer in
        let q := on_warning warn q path in
        Some (Ok (match completed_strings fn r with
                  | [] => (q, WriteOut responseBuffer ctx_ok res)
                  | errStrings =>
                      (foldl (fun q s => log_info q (ENew s)) q errStrings, rw_WriteHeader res 500)
                  end))
    end.

(** ** The JSON-RPC front end *)

Definition ErrRequestExceededProcessingLimitThreshold : err :=
  ERpcValue (-32001) (ENew "request exceeded processing limit threshold").
Definition ErrFailToProcessDueToInternalIssue : err :=
  ERpcValue (-32003) (ENew "request failed to process due to internal issue").

(** The downstream call returns a value or an error, or panics. [requestCompleted]
    is closed without a value when it panics. *)
Definition Handle {A} (q : requestDurationLimiter) (method : string) (evs : list (event (go A)))
    (direct : go A) (ctx_err : option err) : option (requestDurationLimiter * go A) :=
  if limitThreshold q =? RequestDurationLimiterNoLimit then Some (q, direct)
  else
    match select_loop q false evs with
    | None => None
    | Some ByLimit =>
        Some (on_limit q method,
              match ctx_err with
              | None => Er ErrRequestExceededProcessingLimitThreshold
              | Some e => Er e
              end)
    | Some (ByCompletion warn r) =>
        (* the goroutine's recovery logs without a nil test *)
        match r, dl_logger q with
        | Panic m, None => Some (q, Panic "nil logger")
        | Panic m, Some _ =>
            let q := log_info q (EFmt "Request for method %s resulted in an error : %v" [FS method; FS m]) in
            Some (on_warning warn q method, Er ErrFailToProcessDueToInternalIssue)
        | _, _ => Some (on_warning warn q method, r)
        end
    end.

(** ** Copying header maps *)

Lemma fold_insert {V} (m h : gmap string V) :
  map_fold (fun k v h => <[k := v]> h) h m = m ∪ h.
Proof.
  apply (map_fold_weak_ind (fun r m => r = m ∪ h)); [by rewrite (left_id_L ∅ _)|].
  intros k v m' r Hk ->. by rewrite insert_union_l.
Qed.

Lemma fold_delete {V} (m h : gmap string V) :
  map_fold (fun k _ h => delete k h) h m = h ∖ m.
Proof.
  apply (map_fold_weak_ind (fun r m => r = h ∖ m)); [by rewrite map_difference_empty|].
  intros k v m' r Hk ->. apply map_eq. intros i. rewrite lookup_delete, !lookup_difference.
  destruct (decide (k = i)) as [->|].
  - rewrite lookup_insert. by destruct (decide _).
  - rewrite lookup_insert_ne by done. done.
Qed.

Lemma make_header rw : header (makeBufferedResponseWriter rw) = rw_header rw.
Proof. simpl. rewrite fold_insert. by rewrite (right_id_L ∅ _). Qed.

Lemma WriteOut_headers w ctx_ok rw : rw_header (WriteOut w ctx_ok rw) = header w.
Proof.
  unfold WriteOut. rewrite fold_delete, fold_insert, map_difference_diag, (right_id_L ∅ _).
  unfold rw_Write, rw_WriteHeader.
  repeat case_match; simplify_eq; simpl in *; repeat case_match; simplify_eq; done.
Qed.

(** ** Buffering is transparent

    A handler in the usual order: headers, at most one non-zero status line, then
    the body. *)
Definition orderly_ops (hs : list (string * list string)) (st : option Z) (ws : list string) : list wop :=
  map (fun '(k, v) => SetHeader k v) hs ++ map WWriteHeader (option_list st) ++ map WWrite ws.

Definition set_headers (hs : list (string * list string)) (h : gmap string (list string)) :=
  foldl (fun h '(k, v) => <[k := v]> h) h hs.
Definition concat_str (ws : list string) (s : string) : string := foldl (fun s w => s +:+ w) s ws.

Lemma run_buffered_orderly hs st ws h : st <> Some 0 ->
  run_buffered (orderly_ops hs st ws) (mkBuf h "" 0) =
  mkBuf (set_headers hs h) (concat_str ws "") (default 0 st).
Proof.
  intros Hst. unfold run_buffered, orderly_ops. rewrite !foldl_app.
  assert (forall w, foldl (fun w o => match o with
        | SetHeader k v => bw_SetHeader w k v | WWrite b => bw_Write w b
        | WWriteHeader c => bw_WriteHeader w c end) w (map (fun '(k, v) => SetHeader k v) hs) =
      mkBuf (set_headers hs (header w)) (buffer w) (statusCode w)) as ->.
  { induction hs as [|[k v] hs IH]; intros w; [by destruct w|]. simpl. by rewrite IH. }
  assert (forall w, foldl (fun w o => match o with
        | SetHeader k v => bw_SetHeader w k v | WWrite b => bw_Write w b
        | WWriteHeader c => bw_WriteHeader w c end) w (map WWrite ws) =
      mkBuf (header w) (concat_str ws (buffer w)) (statusCode w)) as ->.
  { unfold concat_str. induction ws as [|b ws IH]; intros w; [by destruct w|]. simpl. by rewrite IH. }
  by destruct st.
Qed.

Lemma foldl_direct_writes ws rw :
  foldl (fun w o => match o with
        | SetHeader k v => rw_SetHeader w k v | WWrite b => rw_Write w b
        | WWriteHeader c => rw_WriteHeader w c end) rw (map WWrite ws) =
  match ws with
  | [] => rw
  | _ => mkRW (rw_header rw) (Some (default (200, rw_header rw) (rw_status rw))) (concat_str ws (rw_body rw))
  end.
Proof.
  revert rw. induction ws as [|b ws IH]; intros rw; [done|]. simpl. rewrite IH.
  unfold concat_str. unfold rw_Write, rw_WriteHeader.
  destruct rw as [h [[c hh]|] body], ws; simpl; done.
Qed.

Lemma run_direct_orderly hs st ws h body :
  run_direct (orderly_ops hs st ws) (mkRW h None body) =
  mkRW (set_headers hs h)
    (match st, ws with
     | Some c, _ => Some (c, set_headers hs h)
     | None, [] => None
     | None, _ => Some (200, set_headers hs h)
     end) (concat_str ws body).
Proof.
  unfold run_direct, orderly_ops. rewrite !foldl_app.
  assert (forall w, foldl (fun w o => match o with
        | SetHeader k v => rw_SetHeader w k v | WWrite b => rw_Write w b
        | WWriteHeader c => rw_WriteHeader w c end) w (map (fun '(k, v) => SetHeader k v) hs) =
      mkRW (set_headers hs (rw_header w)) (rw_status w) (rw_body w)) as ->.
  { induction hs as [|[k v] hs IH]; intros w; [by destruct w|]. simpl. by rewrite IH. }
  rewrite foldl_direct_writes. by destruct st, ws.
Qed.

Lemma concat_str_app ws a b : concat_str ws (a +:+ b) = a +:+ concat_str ws b.
Proof.
  revert b. unfold concat_str. induction ws as [|w ws IH]; intros b; simpl; [done|].
  by rewrite str_app_assoc, IH.
Qed.

(** The response a completed orderly request gets through the buffer is the one
    it writes directly. *)
Lemma WriteOut_transparent hs st ws h body : st <> Some 0 ->
  (concat_str ws "" = EmptyString -> ws = []) ->
  WriteOut (run_buffered (orderly_ops hs st ws) (makeBufferedResponseWriter (mkRW h None body)))
    true (mkRW h None body) =
  run_direct (orderly_ops hs st ws) (mkRW h None body).
Proof.
  intros Hst Hws. rewrite run_direct_orderly.
  pose proof (make_header (mkRW h None body)) as Hh.
  destruct (makeBufferedResponseWriter (mkRW h None body)) as [h' b' s'] eqn:E.
  unfold makeBufferedResponseWriter in E. injection E as E1 <- <-. cbn [header rw_header] in Hh. subst h'.
  rewrite Hh. rewrite run_buffered_orderly by done. unfold WriteOut. cbn [header buffer statusCode rw_header rw_status rw_body].
  rewrite fold_delete, fold_insert, map_difference_diag, (right_id_L ∅ _).
  assert (concat_str ws body = body +:+ concat_str ws "") as ->.
  { by rewrite <- concat_str_app, str_app_empty. }
  destruct (String.eqb_spec (concat_str ws "") "") as [Ee|Ee].
  - rewrite (Hws Ee). simpl. rewrite str_app_empty. destruct st as [c|]; simpl; [|done].
    destruct (Z.eqb_spec c 0); [congruence|]. done.
  - destruct ws as [|w ws]; [done|]. destruct st as [c|]; simpl; [|done].
    destruct (Z.eqb_spec c 0); [congruence|]. done.
Qed.

(** ** The loop *)

Lemma select_loop_warnings {R} q w n (evs : list (event R)) :
  has_warningCh q = true ->
  select_loop q w (replicate n WarningTimer ++ evs) =
  select_loop q (w || (0 <? Z.of_nat n)) evs.
Proof.
  intros Hw. revert w. induction n as [|n IH]; intros w; [by rewrite orb_false_r|].
  cbn [replicate app select_loop]. rewrite Hw, IH. f_equal.
  replace (0 <? Z.of_nat (S n)) with true by (symmetry; apply Z.ltb_lt; lia). by destruct w.
Qed.

(** The first reception from [limitCh] or [requestCompleted] decides. *)
Lemma select_loop_decides {R} q w (pre : list (event R)) e post :
  Forall (fun e => e = WarningTimer) pre -> (pre <> [] -> has_warningCh q = true) ->
  match e with
  | WarningTimer => True
  | LimitTimer => has_limitCh q = true -> select_loop q w (pre ++ e :: post) = Some ByLimit
  | Completed r => select_loop q w (pre ++ e :: post) =
      Some (ByCompletion (w || (0 <? zlen pre)) r)
  end.
Proof.
  intros HF Hw. assert (pre = replicate (length pre) WarningTimer) as Hpre.
  { clear Hw. induction HF as [|x l -> HF IH]; [done|]. simpl. by rewrite <- IH. }
  destruct e as [| |r]; [done| |].
  - intros Hl. destruct pre as [|p pre]; [simpl; by rewrite Hl|].
    rewrite Hpre, select_loop_warnings by auto. simpl. by rewrite Hl.
  - destruct pre as [|p pre]; [simpl; by rewrite orb_false_r|].
    rewrite Hpre at 1. rewrite select_loop_warnings by auto. done.
Qed.

(** ** Properties *)

(** C27: A request whose handler finishes before the limit, in the usual order of
    writes, is answered through the buffer exactly as it would be directly
    (status, headers, body), and only the warning counter moves, when the
    warning timer fired first. *)
Theorem ServeHTTP_completes q fn path n hs st ws post direct h body :
  limitThreshold q <> RequestDurationLimiterNoLimit ->
  (n <> 0%nat -> has_warningCh q = true) ->
  st <> Some 0 -> (concat_str ws "" = EmptyString -> ws = []) ->
  let res := mkRW h None body in
  ServeHTTP q fn path
    (replicate n WarningTimer ++ Completed (mkRun (orderly_ops hs st ws) None) :: post) direct true res =
  Some (Ok (if (0 <? n)%nat then on_warning true q path else q, run_direct (orderly_ops hs st ws) res)).
Proof.
  intros Hl Hw Hst Hws res. unfold ServeHTTP. destruct (Z.eqb_spec (limitThreshold q) RequestDurationLimiterNoLimit); [done|].
  pose proof (select_loop_decides q false (replicate n WarningTimer)
    (Completed (mkRun (orderly_ops hs st ws) None)) post) as Hd. simpl in Hd.
  rewrite Hd; [|by apply Forall_replicate|by destruct n; auto].
  unfold completed_strings. cbn [hr_panic hr_ops]. subst res. cbv zeta.
  rewrite WriteOut_transparent by done.
  unfold zlen. rewrite length_replicate. do 3 f_equal. by destruct n.
Qed.

Lemma ServeHTTP_completes_witness :
  let q := MakeRequestDurationLimiter 5 10 (Some 0) (Some 0) None in
  ServeHTTP q "h" "/" [WarningTimer; Completed (mkRun [SetHeader "a" ["b"]; WWrite "ok"] None)]
    (mkRun [] None) true (mkRW ∅ None "") =
  Some (Ok (mkDuration 5 10 None (Some 1) (Some 0),
            mkRW {[ "a" := ["b"] ]} (Some (200, {[ "a" := ["b"] ]})) "ok")).
Proof.
  intros q. rewrite (ServeHTTP_completes q "h" "/" 1 [("a", ["b"])] None ["ok"] [] (mkRun [] None) ∅ "");
    [reflexivity | done | done | done | done].
Defined.

(** C28: Once the limit timer is received before the completion, nothing of what
    the handler wrote or writes reaches the client: the response is the
    untouched one with status 504, or untouched when the client is gone, and
    the limit counter moves by one. *)
Theorem ServeHTTP_limit q fn path n post direct ctx_ok h body :
  limitThreshold q <> RequestDurationLimiterNoLimit -> has_limitCh q = true ->
  (n <> 0%nat -> has_warningCh q = true) ->
  exists q', ServeHTTP q fn path (replicate n WarningTimer ++ LimitTimer :: post) direct ctx_ok (mkRW h None body) =
    Some (Ok (q', mkRW h (if ctx_ok then Some (504, h) else None) body)) /\
  limitCounter q' = Z.succ <$> limitCounter q /\ warningCounter q' = warningCounter q.
Proof.
  intros Hl Hlc Hw. exists (on_limit q path). split; [|done].
  unfold ServeHTTP. destruct (Z.eqb_spec (limitThreshold q) RequestDurationLimiterNoLimit); [done|].
  pose proof (select_loop_decides q false (replicate n (@WarningTimer handler_run)) LimitTimer post) as Hd.
  simpl in Hd. rewrite Hd; [by destruct ctx_ok|by apply Forall_replicate|by destruct n; auto|done].
Qed.

Lemma ServeHTTP_limit_witness : exists q',
  ServeHTTP (MakeRequestDurationLimiter 20 10 None (Some 7) None) "h" "/"
    [LimitTimer; Completed (mkRun [WWrite "late"] None)] (mkRun [] None) true (mkRW ∅ None "") =
  Some (Ok (q', mkRW ∅ (Some (504, ∅)) "")) /\ limitCounter q' = Some 8 /\ warningCounter q' = None.
Proof.
  apply (ServeHTTP_limit (MakeRequestDurationLimiter 20 10 None (Some 7) None) "h" "/" 0
    [Completed (mkRun [WWrite "late"] None)] (mkRun [] None) true ∅ "");
    [vm_compute; congruence | reflexivity | done].
Defined.
