(* ===== verification/TxCache.v ===== *)
(** * The transactional cache: [internal/db/transactionalcache.go]

    A key-value cache with snapshot readers and batched writers. *)

From S2P Require Import Prelude.

(** [entries] is the map shared by the cache and its write transactions. *)
Record transactionalCache := mkCache { entries : gmap string string }.
Definition newTransactionalCache : transactionalCache := mkCache ∅.

(** In a read transaction, a nil pointer says that the key is known to be
    absent from the storage. *)
Record transactionalCacheReadTx := mkReadTx { read_entries : gmap string (option string) }.
Record transactionalCacheWriteTx := mkWriteTx { pendingUpdates : gmap string (option string) }.

(** The copy loop over the entries. *)
Definition newReadTx (c : transactionalCache) : transactionalCacheReadTx :=
  mkReadTx (map_fold (fun k v m => <[k := Some v]> m) ∅ (entries c)).
Definition newWriteTx : transactionalCacheWriteTx := mkWriteTx ∅.

Definition get (r : transactionalCacheReadTx) (key : string) : option (option string) :=
  read_entries r !! key.
Definition read_upsert (r : transactionalCacheReadTx) (key : string) (value : option string) :
    transactionalCacheReadTx :=
  mkReadTx (<[key := value]> (read_entries r)).

Definition write_upsert (w : transactionalCacheWriteTx) (key val : string) : transactionalCacheWriteTx :=
  mkWriteTx (<[key := Some val]> (pendingUpdates w)).
Definition write_delete (w : transactionalCacheWriteTx) (key : string) : transactionalCacheWriteTx :=
  mkWriteTx (<[key := None]> (pendingUpdates w)).

(** The loop over the pending updates, on the parent's map. *)
Definition commit (w : transactionalCacheWriteTx) (parent : transactionalCache) : transactionalCache :=
  mkCache (map_fold (fun key newValue m =>
    match newValue with
    | None => delete key m
    | Some v => <[key := v]> m
    end) (entries parent) (pendingUpdates w)).

(** A write transaction's operations, in order. *)
Inductive cache_op := CUpsert (key val : string) | CDelete (key : string).
Definition run_ops (ops : list cache_op) : transactionalCacheWriteTx :=
  foldl (fun w o => match o with CUpsert k v => write_upsert w k v | CDelete k => write_delete w k end)
    newWriteTx ops.

(** What the operations mean on a plain map. *)
Definition apply_ops (ops : list cache_op) (m : gmap string string) : gmap string string :=
  foldl (fun m o => match o with CUpsert k v => <[k := v]> m | CDelete k => delete k m end) m ops.

Lemma commit_lookup w c k :
  entries (commit w c) !! k =
  match pendingUpdates w !! k with Some v => v | None => entries c !! k end.
Proof.
  destruct w as [p]; simpl. revert k.
  apply (map_fold_weak_ind (fun r p => forall k, r !! k =
    match p !! k with Some v => v | None => entries c !! k end)).
  - intros k. by rewrite lookup_empty.
  - intros k v p' r Hk IH k'. destruct (decide (k = k')) as [<-|Hne].
    + rewrite lookup_insert. destruct (decide (k = k)); [|done].
      destruct v; [by rewrite lookup_insert_eq | by rewrite lookup_delete_eq].
    + rewrite (lookup_insert_ne p') by done.
      destruct v; [rewrite lookup_insert_ne by done | rewrite lookup_delete_ne by done]; apply IH.
Qed.

Lemma newReadTx_get c k : get (newReadTx c) k = Some <$> entries c !! k.
Proof.
  unfold get, newReadTx. cbn [read_entries]. revert k.
  apply (map_fold_weak_ind (fun r m => forall k, r !! k = Some <$> m !! k)).
  - intros k. by rewrite !lookup_empty.
  - intros k v m r Hk IH k'. destruct (decide (k = k')) as [<-|Hne].
    + by rewrite !lookup_insert_eq.
    + by rewrite !lookup_insert_ne.
Qed.

Lemma run_ops_snoc ops o : run_ops (ops ++ [o]) =
  match o with CUpsert k v => write_upsert (run_ops ops) k v | CDelete k => write_delete (run_ops ops) k end.
Proof. unfold run_ops. by rewrite foldl_app. Qed.
Lemma apply_ops_snoc ops o m : apply_ops (ops ++ [o]) m =
  match o with CUpsert k v => <[k := v]> (apply_ops ops m) | CDelete k => delete k (apply_ops ops m) end.
Proof. unfold apply_ops. by rewrite foldl_app. Qed.

(** Committing a write transaction has exactly the effect of its upserts and
    deletes applied in order to the cache, and a reader opened afterwards sees
    precisely the resulting entries. *)
Theorem commit_refines ops c :
  entries (commit (run_ops ops) c) = apply_ops ops (entries c) /\
  forall k, get (newReadTx (commit (run_ops ops) c)) k = Some <$> apply_ops ops (entries c) !! k.
Proof.
  assert (entries (commit (run_ops ops) c) = apply_ops ops (entries c)) as E.
  { apply map_eq. intros k. rewrite commit_lookup.
    induction ops as [|o ops IH] using rev_ind; [done|]. rewrite run_ops_snoc, apply_ops_snoc.
    destruct o as [k' v|k']; simpl; destruct (decide (k' = k)) as [<-|Hne];
      rewrite ?lookup_insert_eq, ?lookup_delete_eq, ?lookup_insert_ne, ?lookup_delete_ne by done; done. }
  split; [done|]. intros k. by rewrite newReadTx_get, E.
Qed.
