(* ===== verification/Store.v ===== *)
(** * The database: tables, sessions and metadata ([internal/db/db.go])

    The SQL tables of [internal/db/sqlmigrations], the effect of a statement on
    them, and the sessions of [support/db] the source runs them in.  A
    statement can also fail in the driver: which ones do is a parameter. *)

From S2P Require Import Prelude GoStd Externals LedgerMeta.

Section Tables.
Context `{V : ScVals} {D : Ledgers}.

Record tx_row := mkTxRow { txr_ledger_sequence : Z; txr_application_order : Z }.
Record event_row := mkEventRow {
  ev_contract_id : option string;
  ev_event_type : Z;
  ev_event_data : string;
  ev_ledger_close_time : Z;
  ev_transaction_hash : string;
  ev_topics : list (option string);
}.

(** Each table by its primary key. *)
Record Tables := mkTables {
  ledger_close_meta : gmap Z LedgerCloseMeta;
  transactions : gmap string tx_row;
  events : gmap string event_row;
  metadata : gmap string string;
}.
Definition no_tables : Tables := mkTables ∅ ∅ ∅ ∅.

Definition set_ledgers (f : gmap Z LedgerCloseMeta -> gmap Z LedgerCloseMeta) (t : Tables) : Tables :=
  mkTables (f (ledger_close_meta t)) (transactions t) (events t) (metadata t).
Definition set_transactions (f : gmap string tx_row -> gmap string tx_row) (t : Tables) : Tables :=
  mkTables (ledger_close_meta t) (f (transactions t)) (events t) (metadata t).
Definition set_events (f : gmap string event_row -> gmap string event_row) (t : Tables) : Tables :=
  mkTables (ledger_close_meta t) (transactions t) (f (events t)) (metadata t).
Definition set_metadata (f : gmap string string -> gmap string string) (t : Tables) : Tables :=
  mkTables (ledger_close_meta t) (transactions t) (events t) (f (metadata t)).
End Tables.

(** Driver failures, by statement and the tables it runs on. *)
Class Driver `{V : ScVals} {D : Ledgers} := { drv_error : string -> Tables -> option err }.
#[export] Instance healthy `{V : ScVals} {D : Ledgers} : Driver := { drv_error _ _ := None }.

(** [INSERT INTO ... VALUES rows]: one statement, undone as a whole when a key is
    already taken. *)
Fixpoint insert_rows {K A} `{Countable K} (rows : list (K * A)) (m : gmap K A) : go (gmap K A) :=
  match rows with
  | [] => Ok m
  | (k, x) :: rows' =>
      match m !! k with
      | Some _ => Er (EExt "UNIQUE constraint failed")
      | None => insert_rows rows' (<[k := x]> m)
      end
  end.

Lemma insert_rows_ok {K A} `{Countable K} (rows : list (K * A)) (m : gmap K A) :
  NoDup rows.*1 -> (forall k, k ∈ rows.*1 -> m !! k = None) ->
  insert_rows rows m = Ok (list_to_map rows ∪ m).
Proof.
  revert m. induction rows as [|[k x] rows IH]; intros m Hn Hk.
  { simpl. by rewrite (left_id_L ∅ (∪)). }
  inversion Hn as [|? ? Hnin Hn']; subst. simpl. rewrite Hk by (simpl; by left).
  rewrite IH; [|done|].
  - f_equal. apply map_eq. intros i. simpl. rewrite !lookup_union.
    destruct (decide (k = i)) as [<-|Hne].
    + rewrite (not_elem_of_list_to_map_1 rows k Hnin), !lookup_insert_eq. by destruct (m !! k).
    + by rewrite !lookup_insert_ne.
  - intros i Hi. rewrite lookup_insert_ne; [|set_solver]. apply Hk. simpl. by right.
Qed.

Lemma insert_rows_conflict {K A} `{Countable K} (rows : list (K * A)) (m : gmap K A) k x :
  k ∈ rows.*1 -> m !! k = Some x -> exists e, insert_rows rows m = Er e.
Proof.
  revert m x. induction rows as [|[k' y] rows IH]; intros m x Hk Hm.
  { by apply not_elem_of_nil in Hk. }
  simpl. destruct (m !! k') eqn:E; [eauto|]. simpl in Hk. apply elem_of_cons in Hk as [->|Hk].
  - congruence.
  - apply (IH _ x); [done|]. rewrite lookup_insert_ne; [done|]. congruence.
Qed.

(** ** Sessions

    The committed tables are shared by every session of the process; a session
    with an open transaction works on its own copy until it commits.  The
    state below is that of one session together with the shared tables and the
    shared cache of the latest ledger. *)

Section Sessions.
Context `{V : ScVals} {D : Ledgers} {Drv : Driver}.

Record DB := mkDB {
  disk : Tables;
  latestLedgerSeq : Z;
  latestLedgerCloseTime : Z;
  sess_tx : option Tables;
}.

Definition OpenSQLiteDB (file : Tables) : DB := mkDB file 0 0 None.

Definition view (w : DB) : Tables := default (disk w) (sess_tx w).
Definition set_view (t : Tables) (w : DB) : DB :=
  match sess_tx w with
  | Some _ => mkDB (disk w) (latestLedgerSeq w) (latestLedgerCloseTime w) (Some t)
  | None => mkDB t (latestLedgerSeq w) (latestLedgerCloseTime w) None
  end.
Definition set_tx (o : option Tables) (w : DB) : DB :=
  mkDB (disk w) (latestLedgerSeq w) (latestLedgerCloseTime w) o.
Definition set_disk (t : Tables) (w : DB) : DB :=
  mkDB t (latestLedgerSeq w) (latestLedgerCloseTime w) (sess_tx w).
Definition set_cache (seq time : Z) (w : DB) : DB := mkDB (disk w) seq time (sess_tx w).

(** Reading and changing statements; [name] identifies the statement to the
    driver. *)
Definition Select {A} (name : string) (f : Tables -> A) : st DB A := fun w =>
  match drv_error name (view w) with
  | Some e => (Er e, w)
  | None => (Ok (f (view w)), w)
  end.
Definition Exec (name : string) (f : Tables -> go Tables) : st DB unit := fun w =>
  match drv_error name (view w) with
  | Some e => (Er e, w)
  | None => match f (view w) with
            | Ok t => (Ok tt, set_view t w)
            | Er e => (Er e, w)
            | Panic m => (Panic m, w)
            end
  end.

(** [support/db]'s transactions: the error texts are the library's. *)
Definition not_in_transaction : err := EExt "not in transaction".
Definition already_in_transaction : err := EExt "already in transaction".

Definition Begin : st DB unit := fun w =>
  match sess_tx w, drv_error "BEGIN" (view w) with
  | Some _, _ => (Er already_in_transaction, w)
  | None, Some e => (Er e, w)
  | None, None => (Ok tt, set_tx (Some (disk w)) w)
  end.
Definition session_Commit : st DB unit := fun w =>
  match sess_tx w with
  | None => (Er not_in_transaction, w)
  | Some t => match drv_error "COMMIT" t with
              | Some e => (Er e, set_tx None w)
              | None => (Ok tt, set_tx None (set_disk t w))
              end
  end.
Definition session_Rollback : st DB unit := fun w =>
  match sess_tx w with
  | None => (Er not_in_transaction, w)
  | Some t => match drv_error "ROLLBACK" t with
              | Some e => (Er e, set_tx None w)
              | None => (Ok tt, set_tx None w)
              end
  end.

Definition is_ok_or (r : go unit) : option err :=
  match r with Er e => Some e | _ => None end.

#[export] Instance db_rollbacker : Rollbacker DB :=
  {| db_Rollback w := let '(r, w') := session_Rollback w in (w', is_ok_or r) |}.

(** ** The metadata table *)

Definition ErrEmptyDB : err := ESentinel "DB is empty".
Definition metaTableName : string := "metadata".

Definition getMetaValue (key : string) : st DB string :=
  results ← Select "select metadata" (fun t => option_list (metadata t !! key));
  lift (match results with
        | [] => Er ErrEmptyDB
        | [v] => Ok v
        | _ => Er (EFmt "multiple entries (%d) for key %q in table %q"
                    [FZ (zlen results); FS key; FS metaTableName])
        end).

Definition getMetaBool (key : string) : st DB bool :=
  valueStr ← getMetaValue key; lift (ParseBool valueStr).

(** [REPLACE INTO] *)
Definition setMetaBool (key : string) (value : bool) : st DB unit :=
  Exec "replace metadata" (fun t => Ok (set_metadata (<[key := FormatBool value]>) t)).

Lemma getMetaBool_spec key w : drv_error "select metadata" (view w) = None ->
  getMetaBool key w =
  (match metadata (view w) !! key with
   | None => Er ErrEmptyDB
   | Some v => ParseBool v
   end, w).
Proof.
  intros Hd. unfold getMetaBool, getMetaValue, mbind, st_bind, Select. rewrite Hd.
  by destruct (metadata (view w) !! key).
Qed.

Lemma view_set_view t w : view (set_view t w) = t.
Proof. by destruct w as [? ? ? [|]]. Qed.

Lemma ParseBool_FormatBool b : ParseBool (FormatBool b) = Ok b.
Proof. by destruct b. Qed.

Lemma getMetaBool_setMetaBool key b w w' : setMetaBool key b w = (Ok tt, w') ->
  drv_error "select metadata" (view w') = None -> getMetaBool key w' = (Ok b, w').
Proof.
  unfold setMetaBool, Exec. destruct (drv_error _ _); intros [= <-] Hd.
  rewrite getMetaBool_spec by done. rewrite view_set_view. simpl.
  rewrite lookup_insert_eq. by rewrite ParseBool_FormatBool.
Qed.
End Sessions.
