(* ===== verification/LedgerStore.v ===== *)
(** * Ledgers in the database: [internal/db/ledger.go]

    Readers of the [ledger_close_meta] table, with and without the cache of the
    latest ledger, and its writer.  Rows come in the order of [sequence], the
    table's row id. *)

From S2P Require Import Prelude GoStd Externals BucketWindow LedgerMeta Store.

Section Ledger.
Context `{V : ScVals} {D : Ledgers} {Drv : Driver}.

Definition ledgerCloseMetaTableName : string := "ledger_close_meta".

(** [SELECT meta FROM ledger_close_meta WHERE p(sequence)] *)
Definition ledger_rows (p : Z -> bool) (t : Tables) : list LedgerCloseMeta :=
  (filter (fun kl => p kl.1 = true) (rows_by_key Z.le (ledger_close_meta t))).*2.

(** [SELECT MIN(sequence)], [SELECT MAX(sequence)]: NULL on an empty table. *)
Definition min_sequence (t : Tables) : option Z :=
  (fun kl => kl.1) <$> head (rows_by_key Z.le (ledger_close_meta t)).
Definition max_sequence (t : Tables) : option Z :=
  (fun kl => kl.1) <$> last (rows_by_key Z.le (ledger_close_meta t)).
Definition is_seq (o : option Z) (k : Z) : bool :=
  match o with Some m => k =? m | None => false end.

Definition info_of (l : LedgerCloseMeta) : LedgerInfo := mkInfo (LedgerSequence l) (LedgerCloseTime l).

Definition range_error : err -> err := EWrap "couldn't query ledger range: %w" [].

Definition getLedgerRangeWithCache (latestSeq latestTime : Z) : st DB LedgerRange :=
  lcm ← wrap_err range_error
          (Select "range with cache" (fun t => ledger_rows (is_seq (min_sequence t)) t));
  lift (match lcm with
        | [] => Er ErrEmptyDB
        | l0 :: _ => Ok (mkRange (info_of l0) (mkInfo latestSeq latestTime))
        end).

Definition getLedgerRangeWithoutCache : st DB LedgerRange :=
  lcms ← wrap_err range_error (Select "range without cache"
    (fun t => ledger_rows (fun k => is_seq (min_sequence t) k || is_seq (max_sequence t) k) t));
  lift (match lcms with
        | [] => Er ErrEmptyDB
        | l0 :: _ => ln ← go_index lcms (zlen lcms - 1); Ok (mkRange (info_of l0) (info_of ln))
        end).

(** [ledgerReader.GetLedgerRange] *)
Definition GetLedgerRange : st DB LedgerRange :=
  w ← get_st;
  if negb (latestLedgerSeq w =? 0)
  then getLedgerRangeWithCache (latestLedgerSeq w) (latestLedgerCloseTime w)
  else getLedgerRangeWithoutCache.

(** The cache is filled on a miss. *)
Definition getLatestLedgerSequence : st DB Z :=
  w ← get_st;
  if negb (latestLedgerSeq w =? 0) then mret (latestLedgerSeq w)
  else
    ledgerRange ← GetLedgerRange;
    _ ← modify (fun w => if latestLedgerSeq w =? 0
                         then set_cache (Sequence (RLast ledgerRange)) (CloseTime (RLast ledgerRange)) w
                         else w);
    mret (Sequence (RLast ledgerRange)).
Definition GetLatestLedgerSequence : st DB Z := getLatestLedgerSequence.

Definition getLedgerFromDB (sequence : Z) : st DB (option LedgerCloseMeta) :=
  results ← Select "select ledger" (ledger_rows (fun k => k =? sequence));
  lift (match results with
        | [] => Ok None
        | [l] => Ok (Some l)
        | _ => Er (EFmt "multiple lcm entries (%d) for sequence %d in table %q"
                    [FZ (zlen results); FZ sequence; FS ledgerCloseMetaTableName])
        end).
Definition GetLedger (sequence : Z) : st DB (option LedgerCloseMeta) := getLedgerFromDB sequence.

(** [StreamAllLedgers] and [StreamLedgerRange]: [f] runs on a state of its own
    for each row of the query made on [w]. *)
Definition stream {S} (name : string) (rows : Tables -> list LedgerCloseMeta) (w : DB)
    (f : LedgerCloseMeta -> st S unit) : st S unit :=
  match Select name rows w with
  | (Er e, _) => lift (Er e)
  | (Panic m, _) => lift (Panic m)
  | (Ok q, _) =>
      _ ← st_fold (fun closeMeta _ => f closeMeta) q tt;
      lift (match drv_error "rows.Err" (view w) with Some e => Er e | None => Ok tt end)
  end.
Definition StreamAllLedgers {S} (w : DB) (f : LedgerCloseMeta -> st S unit) : st S unit :=
  stream "stream all" (ledger_rows (fun _ => true)) w f.
Definition StreamLedgerRange {S} (w : DB) (startLedger endLedger : Z) (f : LedgerCloseMeta -> st S unit) :
    st S unit :=
  stream "stream range" (ledger_rows (fun k => (startLedger <=? k) && (k <=? endLedger))) w f.

(** ** Read transactions *)

(** The session's snapshot and the cache at the time it was opened. *)
Record ledgerReaderTx := mkLedgerReaderTx {
  ltx_db : DB;
  ltx_latestLedgerSeq : Z;
  ltx_latestLedgerCloseTime : Z;
}.

Definition ledgerReader_NewTx (w : DB) : go ledgerReaderTx :=
  let clone := set_tx None w in
  match on_err (EWrap "failed to begin read transaction: %w" []) (Begin clone).1 with
  | Ok _ => Ok (mkLedgerReaderTx (Begin clone).2 (latestLedgerSeq w) (latestLedgerCloseTime w))
  | Er e => Er e
  | Panic m => Panic m
  end.

Definition tx_GetLedgerRange (l : ledgerReaderTx) : go LedgerRange :=
  ((if negb (ltx_latestLedgerSeq l =? 0)
    then getLedgerRangeWithCache (ltx_latestLedgerSeq l) (ltx_latestLedgerCloseTime l)
    else getLedgerRangeWithoutCache) (ltx_db l)).1.
Definition BatchGetLedgers (l : ledgerReaderTx) (start endd : Z) : go (list LedgerCloseMeta) :=
  if endd <? start then Er (ENew "batch size must be greater than zero")
  else (Select "batch ledgers" (ledger_rows (fun k => (start <=? k) && (k <=? endd))) (ltx_db l)).1.
Definition tx_GetLedger (l : ledgerReaderTx) (sequence : Z) : go (option LedgerCloseMeta) :=
  (getLedgerFromDB sequence (ltx_db l)).1.
Definition Done (l : ledgerReaderTx) : go unit := (session_Rollback (ltx_db l)).1.

(** ** Writing *)

(** [DELETE FROM ledger_close_meta WHERE sequence < cutoff] *)
Definition trimLedgers (latest retentionWindow : Z) : st DB unit :=
  if u32 (latest + 1) <=? retentionWindow then mret tt
  else
    let cutoff := u32 (u32 (latest + 1) - retentionWindow) in
    Exec "trim ledgers" (fun t => Ok (set_ledgers (filter (fun kl => ~ kl.1 < cutoff)) t)).

Definition InsertLedger (ledger : LedgerCloseMeta) : st DB unit :=
  Exec "insert ledger" (fun t =>
    m ← insert_rows [(LedgerSequence ledger, ledger)] (ledger_close_meta t);
    Ok (set_ledgers (fun _ => m) t)).

(** ** What the queries return *)

(** Every row is stored under the sequence of its ledger. *)
Definition ledgers_keyed (t : Tables) : Prop :=
  forall k l, ledger_close_meta t !! k = Some l -> LedgerSequence l = k.

Lemma elem_of_ledger_rows p t l : ledgers_keyed t ->
  l ∈ ledger_rows p t <-> ledger_close_meta t !! LedgerSequence l = Some l /\ p (LedgerSequence l) = true.
Proof.
  intros Hk. unfold ledger_rows. rewrite list_elem_of_fmap. split.
  - intros ([k l'] & -> & [Hp He]%list_elem_of_filter). simpl in *. apply elem_of_rows in He.
    rewrite (Hk _ _ He) in *. done.
  - intros [Hl Hp]. exists (LedgerSequence l, l). split; [done|]. apply list_elem_of_filter.
    split; [done|]. by apply elem_of_rows.
Qed.

Definition seq_lt (a b : LedgerCloseMeta) : Prop := LedgerSequence a < LedgerSequence b.

(** A list of keyed rows in the order of distinct keys is in strict order. *)
Lemma keyed_sorted (l : list (Z * LedgerCloseMeta)) : 
  StronglySorted (key_le Z.le) l -> NoDup l.*1 -> Forall (fun kl => LedgerSequence kl.2 = kl.1) l ->
  StronglySorted seq_lt l.*2.
Proof.
  intros Hs. induction Hs as [|x l Hs IH Hx]; intros Hn HF; [constructor|].
  inversion Hn as [|? ? Hnin Hn']; inversion HF as [|? ? Hxk HF']; subst.
  simpl. constructor; [by apply IH|]. apply Forall_fmap, Forall_forall. intros y Hy.
  rewrite Forall_forall in Hx, HF'. specialize (Hx _ Hy). specialize (HF' _ Hy).
  unfold seq_lt, key_le in *. simpl. rewrite Hxk, HF'.
  assert (x.1 <> y.1); [|lia]. intros E. apply Hnin. rewrite E. by apply list_elem_of_fmap_2.
Qed.

Lemma ledger_rows_sorted p t : ledgers_keyed t -> StronglySorted seq_lt (ledger_rows p t).
Proof.
  intros Hk. unfold ledger_rows. apply keyed_sorted.
  - apply StronglySorted_filter. by apply rows_sorted; apply _.
  - by apply NoDup_fst_filter, rows_NoDup.
  - apply Forall_forall. intros [k l] [_ He%elem_of_rows]%list_elem_of_filter. by apply Hk.
Qed.

Lemma seq_lt_NoDup l : StronglySorted seq_lt l -> NoDup l.
Proof.
  induction 1 as [|x l Hs IH Hx]; constructor; [|done]. intros Hin.
  rewrite Forall_forall in Hx. specialize (Hx _ Hin). unfold seq_lt in Hx. lia.
Qed.

Lemma seq_lt_unique l l' : StronglySorted seq_lt l -> StronglySorted seq_lt l' ->
  (forall x, x ∈ l <-> x ∈ l') -> l = l'.
Proof.
  intros Hs Hs' Hiff. apply (StronglySorted_unique_strong seq_lt l l').
  - intros x y _ _ H1 H2. unfold seq_lt in *. lia.
  - done.
  - done.
  - apply NoDup_Permutation; [by apply seq_lt_NoDup..|done].
Qed.

(** All ledgers, in order; the oldest and the newest. *)
Definition all_ledgers (t : Tables) : list LedgerCloseMeta := ledger_rows (fun _ => true) t.

(** A query selects among all ledgers. *)
Lemma ledger_rows_filter p t : ledgers_keyed t ->
  ledger_rows p t = filter (fun l => p (LedgerSequence l) = true) (all_ledgers t).
Proof.
  intros Hk. apply seq_lt_unique.
  - by apply ledger_rows_sorted.
  - apply StronglySorted_filter_any. by apply ledger_rows_sorted.
  - intros l. unfold all_ledgers. rewrite list_elem_of_filter, !elem_of_ledger_rows by done. naive_solver.
Qed.

Lemma all_ledgers_rows t : all_ledgers t = (rows_by_key Z.le (ledger_close_meta t)).*2.
Proof. unfold all_ledgers, ledger_rows. by rewrite filter_all. Qed.

Lemma elem_of_all_ledgers t l : ledgers_keyed t ->
  l ∈ all_ledgers t <-> ledger_close_meta t !! LedgerSequence l = Some l.
Proof. intros Hk. unfold all_ledgers. rewrite elem_of_ledger_rows by done. naive_solver. Qed.

Lemma keyed_fst t : ledgers_keyed t ->
  (rows_by_key Z.le (ledger_close_meta t)).*1 = LedgerSequence <$> all_ledgers t.
Proof.
  intros Hk. rewrite all_ledgers_rows, <- list_fmap_compose.
  apply list_fmap_ext. intros i [k l] Hi. simpl. symmetry. apply Hk.
  apply (elem_of_rows Z.le). by eapply list_elem_of_lookup_2.
Qed.

Lemma min_sequence_all t : ledgers_keyed t -> min_sequence t = LedgerSequence <$> head (all_ledgers t).
Proof.
  intros Hk. unfold min_sequence. pose proof (keyed_fst t Hk) as E.
  destruct (rows_by_key Z.le (ledger_close_meta t)), (all_ledgers t); simpl in *; congruence.
Qed.
Lemma max_sequence_all t : ledgers_keyed t -> max_sequence t = LedgerSequence <$> last (all_ledgers t).
Proof.
  intros Hk. unfold max_sequence. rewrite <- !fmap_last. f_equal. by apply keyed_fst.
Qed.

(** The rows with the smallest, or the smallest and the largest, sequence. *)
Lemma min_row t : ledgers_keyed t ->
  ledger_rows (is_seq (min_sequence t)) t = option_list (head (all_ledgers t)).
Proof.
  intros Hk. rewrite min_sequence_all by done.
  assert (forall l, l ∈ all_ledgers t <-> ledger_close_meta t !! LedgerSequence l = Some l) as Hall
    by (intros l; by apply elem_of_all_ledgers).
  apply seq_lt_unique.
  - by apply ledger_rows_sorted.
  - destruct (head (all_ledgers t)); repeat constructor.
  - intros l. rewrite elem_of_ledger_rows, <- Hall by done.
    destruct (all_ledgers t) as [|l0 ls]; simpl; [split; intros Hl; [by destruct Hl|by apply not_elem_of_nil in Hl]|].
    rewrite list_elem_of_singleton, Z.eqb_eq. split.
    + intros [Hl E]. apply Hall in Hl. rewrite E in Hl. 
      assert (ledger_close_meta t !! LedgerSequence l0 = Some l0) by (apply Hall; by left). congruence.
    + intros ->. split; [by left|done].
Qed.

Lemma min_max_rows t l0 ls : ledgers_keyed t -> all_ledgers t = l0 :: ls ->
  ledger_rows (fun k => is_seq (min_sequence t) k || is_seq (max_sequence t) k) t =
  l0 :: option_list (last ls).
Proof.
  intros Hk E. rewrite min_sequence_all, max_sequence_all by done.
  assert (forall l, l ∈ l0 :: ls <-> ledger_close_meta t !! LedgerSequence l = Some l) as Hall
    by (intros l; rewrite <- E; by apply elem_of_all_ledgers).
  pose proof (ledger_rows_sorted (fun _ => true) t Hk) as Hs. fold (all_ledgers t) in Hs. rewrite E in *.
  assert (forall l, l ∈ option_list (last ls) -> l ∈ ls) as Hlast.
  { intros l. destruct (last ls) eqn:EL; simpl; [|by intros ?%not_elem_of_nil].
    rewrite list_elem_of_singleton. intros ->. apply last_Some in EL as [l' ->]. set_solver. }
  apply seq_lt_unique.
  - by apply ledger_rows_sorted.
  - inversion Hs as [|? ? Hs' HF]; subst. constructor; [destruct (last ls); repeat constructor|].
    apply Forall_forall. intros x Hx%Hlast. rewrite Forall_forall in HF. by apply HF.
  - intros l. rewrite (elem_of_cons (option_list _)), elem_of_ledger_rows, <- Hall by done.
    assert (last (l0 :: ls) = Some (default l0 (last ls))) as -> by (rewrite last_cons; by destruct (last ls)).
    cbn [head fmap option_fmap option_map is_seq]. split.
    + intros [Hl [Hm|Hm]%orb_true_iff]; apply Z.eqb_eq in Hm; apply Hall in Hl; rewrite Hm in Hl.
      * assert (l0 ∈ l0 :: ls) as H0 by (by left). apply Hall in H0. left. congruence.
      * destruct (last ls) as [x|] eqn:EL; simpl in *.
        -- right. assert (x ∈ l0 :: ls) as H0 by (right; apply Hlast; by left). apply Hall in H0.
           apply list_elem_of_singleton. congruence.
        -- assert (l0 ∈ l0 :: ls) as H0 by (by left). apply Hall in H0. left. congruence.
    + intros [->|Hl].
      * split; [by left|]. by rewrite Z.eqb_refl.
      * split; [right; by apply Hlast|]. destruct (last ls) as [x|]; simpl in *; [|by apply not_elem_of_nil in Hl].
        apply list_elem_of_singleton in Hl as ->. by rewrite Z.eqb_refl, orb_true_r.
Qed.

(** ** The range of ledgers, with or without the cache *)

(** The cache is empty or names the newest ledger of the tables. *)
Definition cache_ok (w : DB) : Prop :=
  latestLedgerSeq w = 0 \/
  exists l, last (all_ledgers (disk w)) = Some l /\
            info_of l = mkInfo (latestLedgerSeq w) (latestLedgerCloseTime w).

Definition range_of (t : Tables) : go LedgerRange :=
  match head (all_ledgers t), last (all_ledgers t) with
  | Some a, Some b => Ok (mkRange (info_of a) (info_of b))
  | _, _ => Er ErrEmptyDB
  end.

Definition reads_fine (w : DB) : Prop := forall name, drv_error name (view w) = None.

Lemma getLedgerRangeWithoutCache_spec w : reads_fine w -> ledgers_keyed (view w) ->
  getLedgerRangeWithoutCache w = (range_of (view w), w).
Proof.
  intros Hd Hk. unfold getLedgerRangeWithoutCache, range_of, wrap_err, Select, mbind, st_bind, lift.
  rewrite Hd. simpl. destruct (all_ledgers (view w)) as [|l0 ls] eqn:E.
  - unfold ledger_rows. rewrite all_ledgers_rows in E. apply fmap_nil_inv in E.
    rewrite E. done.
  - rewrite (min_max_rows _ l0 ls) by done. destruct ls as [|l1 ls]; [done|].
    rewrite (last_cons l0). destruct (last (l1 :: ls)) as [ln|] eqn:EL; [done|].
    by apply last_None in EL.
Qed.

Lemma getLedgerRangeWithCache_spec w seq time : reads_fine w -> ledgers_keyed (view w) ->
  getLedgerRangeWithCache seq time w =
  (match head (all_ledgers (view w)) with
   | Some a => Ok (mkRange (info_of a) (mkInfo seq time))
   | None => Er ErrEmptyDB
   end, w).
Proof.
  intros Hd Hk. unfold getLedgerRangeWithCache, wrap_err, Select, mbind, st_bind, lift.
  rewrite Hd. simpl. rewrite min_row by done. by destruct (head _).
Qed.

(** The cache changes nothing but the query, in or outside of a transaction that
    leaves the ledgers alone. *)
Lemma GetLedgerRange_view w : reads_fine w -> ledgers_keyed (view w) ->
  all_ledgers (view w) = all_ledgers (disk w) -> cache_ok w ->
  GetLedgerRange w = (range_of (disk w), w).
Proof.
  intros Hd Hk Hv Hc. assert (range_of (view w) = range_of (disk w)) as Hr by (unfold range_of; by rewrite Hv).
  unfold GetLedgerRange, get_st, mbind, st_bind.
  destruct (Z.eqb_spec (latestLedgerSeq w) 0); simpl.
  - by rewrite getLedgerRangeWithoutCache_spec, Hr.
  - destruct Hc as [|(l & Hl & Hi)]; [done|].
    rewrite getLedgerRangeWithCache_spec, Hv by done. unfold range_of. rewrite Hl.
    destruct (all_ledgers (disk w)); [done|]. simpl. by rewrite Hi.
Qed.

Lemma GetLedgerRange_spec w : reads_fine w -> ledgers_keyed (disk w) -> sess_tx w = None -> cache_ok w ->
  GetLedgerRange w = (range_of (disk w), w).
Proof.
  intros Hd Hk Hs Hc. assert (view w = disk w) as Hv by (unfold view; by rewrite Hs).
  by apply GetLedgerRange_view; rewrite ?Hv.
Qed.

Lemma getLatestLedgerSequence_view w : reads_fine w -> ledgers_keyed (view w) ->
  all_ledgers (view w) = all_ledgers (disk w) -> cache_ok w ->
  exists w', getLatestLedgerSequence w =
    (match last (all_ledgers (disk w)) with Some l => Ok (LedgerSequence l) | None => Er ErrEmptyDB end, w') /\
    disk w' = disk w /\ sess_tx w' = sess_tx w /\ cache_ok w'.
Proof.
  intros Hd Hk Hv Hc. unfold getLatestLedgerSequence, get_st.
  unfold mbind at 1, st_bind at 1.
  destruct (Z.eqb_spec (latestLedgerSeq w) 0) as [Hz|Hz]; simpl.
  - unfold mbind at 1, st_bind at 1. rewrite GetLedgerRange_view by done. unfold range_of.
    destruct (all_ledgers (disk w)) as [|a ls] eqn:E; simpl; [by exists w|].
    destruct (last (a :: ls)) as [b|] eqn:EL; [|by apply last_None in EL].
    unfold modify, mbind, st_bind, mret, st_ret. rewrite Hz. simpl. eexists. split; [done|].
    split_and!; [done..|]. right. exists b. rewrite <- E in EL. by split.
  - destruct Hc as [|(l & Hl & Hi)]; [done|]. exists w. rewrite Hl.
    assert (LedgerSequence l = latestLedgerSeq w) as -> by (unfold info_of in Hi; congruence).
    split_and!; [done|done|done|]. right. by exists l.
Qed.

Lemma getLatestLedgerSequence_spec w : reads_fine w -> ledgers_keyed (disk w) -> sess_tx w = None ->
  cache_ok w ->
  exists w', getLatestLedgerSequence w =
    (match last (all_ledgers (disk w)) with Some l => Ok (LedgerSequence l) | None => Er ErrEmptyDB end, w') /\
    disk w' = disk w /\ sess_tx w' = None /\ cache_ok w'.
Proof.
  intros Hd Hk Hs Hc. assert (view w = disk w) as Hv by (unfold view; by rewrite Hs).
  rewrite <- Hs. by apply getLatestLedgerSequence_view; rewrite ?Hv.
Qed.

(** ** Single ledgers and read transactions *)

Lemma ledger_rows_eq t k : ledgers_keyed t ->
  ledger_rows (fun j => j =? k) t = option_list (ledger_close_meta t !! k).
Proof.
  intros Hk. apply seq_lt_unique; [by apply ledger_rows_sorted| |].
  - destruct (_ !! k); simpl; repeat constructor.
  - intros l. rewrite elem_of_ledger_rows, Z.eqb_eq by done. destruct (ledger_close_meta t !! k) as [l'|] eqn:E; simpl.
    + rewrite list_elem_of_singleton. split; [intros [H <-]; congruence|intros ->].
      by rewrite (Hk _ _ E).
    + rewrite elem_of_nil. split; [intros [H <-]; congruence|done].
Qed.

Lemma getLedgerFromDB_spec k w : reads_fine w -> ledgers_keyed (view w) ->
  getLedgerFromDB k w = (Ok (ledger_close_meta (view w) !! k), w).
Proof.
  intros Hd Hk. unfold getLedgerFromDB, Select, mbind, st_bind, lift. rewrite Hd, ledger_rows_eq by done.
  by destruct (_ !! k).
Qed.

(** A read transaction sees the committed tables. *)
Lemma ledgerReader_NewTx_spec w : (forall name t, drv_error name t = None) -> ledgers_keyed (disk w) -> cache_ok w ->
  exists tx, ledgerReader_NewTx w = Ok tx /\ tx_GetLedgerRange tx = range_of (disk w) /\
    (forall k, tx_GetLedger tx k = Ok (ledger_close_meta (disk w) !! k)) /\
    (forall a b, a <= b -> BatchGetLedgers tx a b =
       Ok (filter (fun l => a <= LedgerSequence l <= b) (all_ledgers (disk w)))) /\
    Done tx = Ok tt.
Proof.
  intros Hd Hk Hc. unfold ledgerReader_NewTx, Begin, set_tx. simpl. rewrite Hd. simpl.
  eexists. split; [reflexivity|].
  set (w1 := mkDB (disk w) (latestLedgerSeq w) (latestLedgerCloseTime w) (Some (disk w))).
  assert (view w1 = disk w) as Hv by done.
  assert (reads_fine w1) as Hr by (intros n; apply Hd).
  split_and!.
  - replace (tx_GetLedgerRange _) with (GetLedgerRange w1).1.
    { by rewrite GetLedgerRange_view by done. }
    unfold tx_GetLedgerRange, GetLedgerRange, get_st, mbind, st_bind. simpl. by destruct (_ =? 0).
  - intros k. unfold tx_GetLedger. simpl. fold w1. by rewrite getLedgerFromDB_spec.
  - intros a b Hab. unfold BatchGetLedgers, Select. simpl. destruct (Z.ltb_spec b a); [lia|].
    fold w1. rewrite Hd. simpl. rewrite Hv. f_equal. rewrite ledger_rows_filter by done.
    apply list_filter_iff. intros l. rewrite andb_true_iff, !Z.leb_le. lia.
  - unfold Done, session_Rollback. simpl. by rewrite Hd.
Qed.
(** C26: The cache of the latest ledger is only an optimisation: with a cache that is
    empty or names the last stored ledger, the range, the latest sequence and a
    read transaction give what the tables alone give, the first and last
    stored ledgers with their close times, or that the database is empty. *)
Theorem cache_is_transparent w : (forall name t, drv_error name t = None) -> ledgers_keyed (disk w) ->
  sess_tx w = None -> cache_ok w ->
  let range := match head (all_ledgers (disk w)), last (all_ledgers (disk w)) with
               | Some a, Some b => Ok (mkRange (mkInfo (LedgerSequence a) (LedgerCloseTime a))
                                               (mkInfo (LedgerSequence b) (LedgerCloseTime b)))
               | _, _ => Er ErrEmptyDB
               end in
  GetLedgerRange w = (range, w) /\ getLedgerRangeWithoutCache w = (range, w) /\
  (getLatestLedgerSequence w).1 = (match last (all_ledgers (disk w)) with Some l => Ok (LedgerSequence l) | None => Er ErrEmptyDB end) /\
  (getLatestLedgerSequence (set_cache 0 0 w)).1 = (getLatestLedgerSequence w).1.
Proof.
  intros Hd Hk Hs Hc range. assert (view w = disk w) as Hv by (unfold view; by rewrite Hs).
  assert (reads_fine w) as Hr by (intros n; apply Hd).
  assert (range = range_of (disk w)) as -> by done. split_and!.
  - by apply GetLedgerRange_spec.
  - rewrite <- Hv. apply getLedgerRangeWithoutCache_spec; [done|by rewrite Hv].
  - destruct (getLatestLedgerSequence_spec w) as (w' & -> & _); done.
  - destruct (getLatestLedgerSequence_spec w) as (w' & -> & _); [done..|].
    destruct (getLatestLedgerSequence_spec (set_cache 0 0 w)) as (w'' & -> & _); try done. by left.
Qed.
End Ledger.

(** ** A concrete run *)

Definition cached_tables : @Tables toy_scvals toy_ledgers :=
  mkTables (list_to_map ((fun l => (LedgerSequence l, l)) <$> [sample_ledger 7; sample_ledger 8])) ∅ ∅ ∅.
Definition cached_db : @DB toy_scvals toy_ledgers := mkDB cached_tables 8 40 None.
Lemma cache_is_transparent_witness :
  GetLedgerRange cached_db = (Ok (mkRange (mkInfo 7 35) (mkInfo 8 40)), cached_db) /\
  getLedgerRangeWithoutCache cached_db = (Ok (mkRange (mkInfo 7 35) (mkInfo 8 40)), cached_db) /\
  (getLatestLedgerSequence cached_db).1 = Ok 8 /\
  (getLatestLedgerSequence (set_cache 0 0 cached_db)).1 = (getLatestLedgerSequence cached_db).1.
Proof.
  apply (cache_is_transparent cached_db).
  - by intros name t.
  - intros k l H. unfold cached_db, cached_tables in H. cbn [disk ledger_close_meta] in H. apply elem_of_list_to_map_2 in H.
    repeat (apply elem_of_cons in H as [[= -> ->]|H]; [reflexivity|]). by apply not_elem_of_nil in H.
  - reflexivity.
  - right. exists (sample_ledger 8). split; vm_compute; reflexivity.
Defined.
