(* ===== verification/EventStore.v ===== *)
(** * Events in the database: [internal/db/event.go]

    Ingestion writes one row per event of the ledger's successful
    transactions, keyed by the text of its cursor; a reader scans the rows of a
    cursor range in key order, with conditions on the indexed columns.  The
    abstract state of the table is its log: the events with their positions,
    in the order of the positions. *)

From S2P Require Import Prelude GoStd Externals Cursor Filters LedgerMeta Store.

Section Events.
Context `{V : ScVals} {D : Ledgers} {Drv : Driver} {T : Toid} {K : Strkey}.

Definition firstLedger : Z := 2.

Definition transactionEventsIntoDiagnosticEvents (allEvents : TransactionEvents) : list DiagnosticEvent :=
  let diagEvents := te_Diagnostic allEvents in
  let diagEvents :=
    match diagEvents with
    | [] => diagEvents ++ (mkDiagnosticEvent true <$> concat (te_Operation allEvents))
    | _ => diagEvents
    end in
  diagEvents ++ (mkDiagnosticEvent true <$> te_Transaction allEvents).

(** The four topic columns: the first topics, NULL for the missing ones. *)
Definition encode_topics (topics : list ScVal) : go (list (option string)) :=
  segs ← mapM ScVal_MarshalBinary (take (Z.to_nat MaxTopicCount) topics);
  Ok (resize (Z.to_nat MaxTopicCount) None (Some <$> segs)).

(** An event with its position, the close time and the transaction. *)
Record entry := mkEntry {
  en_cursor : Cursor;
  en_event : DiagnosticEvent;
  en_time : Z;
  en_hash : string;
}.

(** One iteration of the inner loop: the values added to the query. *)
Definition event_values (en : entry) : go (string * event_row) :=
  id ← Cursor_String (en_cursor en);
  eventBlob ← event_MarshalBinary (en_event en);
  match BodyV0 (Event_of (en_event en)) with
  | None => Er (ENew "unknown event version")
  | Some (topics, _) =>
      topicList ← encode_topics topics;
      Ok (id, mkEventRow (ContractId (Event_of (en_event en))) (EventTypeXDR (Event_of (en_event en)))
                eventBlob (en_time en) (en_hash en) topicList)
  end.

Definition event_cursor (lcm : LedgerCloseMeta) (tx : LedgerTransaction) (index : nat) : Cursor :=
  mkCursor (LedgerSequence lcm) (tx_Index tx) 0 (u32 (Z.of_nat index)).

Definition tx_entries (lcm : LedgerCloseMeta) (tx : LedgerTransaction) (es : list DiagnosticEvent) : list entry :=
  imap (fun index e => mkEntry (event_cursor lcm tx index) e (LedgerCloseTime lcm) (tx_Hash tx)) es.

Definition InsertEvents_tx (lcm : LedgerCloseMeta) (tx : LedgerTransaction) : st DB unit :=
  if negb (tx_Successful tx) then mret tt
  else
    allEvents ← lift (tx_Events tx);
    match transactionEventsIntoDiagnosticEvents allEvents with
    | [] => mret tt
    | diagEvents =>
        rows ← lift (mapM event_values (tx_entries lcm tx diagEvents));
        Exec "insert events" (fun t => m ← insert_rows rows (events t); Ok (set_events (fun _ => m) t))
    end.

(** A writer of events; [None] is a missing statement cache. *)
Record eventHandler := mkEventHandler { eh_stmtCache : bool; eh_passphrase : string }.

Definition InsertEvents (h : eventHandler) (lcm : LedgerCloseMeta) : st DB unit :=
  if negb (eh_stmtCache h) then lift (Er (ENew "EventWriter incorrectly initialized without stmtCache"))
  else if CountTransactions lcm =? 0 then mret tt
  else
    txReader ← wrap_err (fun e => EJoin [e; EFmt "failed to open transaction reader for ledger %d" [FZ (LedgerSequence lcm)]])
                 (lift (NewTxReader (eh_passphrase h) lcm));
    reader_loop_st (read_fuel lcm) (InsertEvents_tx lcm) txReader.

(** [DELETE FROM events WHERE id < cutoff] *)
Definition trimEvents (latest retentionWindow : Z) : st DB unit :=
  if u32 (latest + 1) <=? retentionWindow then mret tt
  else
    let cutoff := u32 (u32 (latest + 1) - retentionWindow) in
    id ← lift (Cursor_String (mkCursor cutoff 0 0 0));
    Exec "trim events" (fun t => Ok (set_events (filter (fun kr => str_ltb kr.1 id = false)) t)).

(** ** Reading *)

(** A column in a list of values: NULL is in none, no value is in the empty one. *)
Definition column_in (c : option string) (vs : list string) : bool :=
  match c with Some v => existsb (String.eqb v) vs | None => false end.

(** The disjunction over the topic columns that are constrained. *)
Definition topic_conditions (topics : list (option (list string))) : list (nat * list string) :=
  omap id (imap (fun i t => (fun vs => (i, vs)) <$> t) topics).
Definition row_matches_topics (topics : list (option (list string))) (cols : list (option string)) : bool :=
  match topic_conditions topics with
  | [] => true
  | conds => existsb (fun iv => column_in (default None (cols !! iv.1)) iv.2) conds
  end.

(** There are four topic columns. *)
Definition topic_columns_exist (topics : list (option (list string))) : bool :=
  forallb (fun iv => (iv.1 <? 4)%nat) (topic_conditions topics).

Definition event_query (start endd : string) (contractIDs : list string)
    (topics : list (option (list string))) (eventTypes : list Z) (t : Tables) : list (string * event_row) :=
  filter (fun kr =>
    str_leb start kr.1 && str_ltb kr.1 endd &&
    ((zlen contractIDs =? 0) || column_in (ev_contract_id kr.2) contractIDs) &&
    ((zlen eventTypes =? 0) || existsb (Z.eqb (ev_event_type kr.2)) eventTypes) &&
    row_matches_topics topics (ev_topics kr.2) = true)
  (rows_by_key str_le (events t)).

(** [xdr.Hash(slice)]: the conversion of a slice to a 32-byte array. *)
Definition to_hash (s : string) : go string :=
  if (String.length s <? 32)%nat then Panic "cannot convert slice to array" else Ok (substring 0 32 s).

Definition scan_row (kr : string * event_row) : go entry :=
  cur ← on_err (fun e => EJoin [e; ENew "failed to parse cursor"]) (ParseCursor kr.1);
  eventXDR ← on_err (fun e => EJoin [e; ENew "failed to decode event"]) (event_Unmarshal (ev_event_data kr.2));
  txHash ← to_hash (ev_transaction_hash kr.2);
  Ok (mkEntry cur eventXDR (ev_ledger_close_time kr.2) txHash).

(** The row loop: [f] returns whether to go on, with what it has collected. *)
Fixpoint scan_rows {B} (f : entry -> B -> bool * B) (rows : list (string * event_row)) (b : B) : go (bool * B) :=
  match rows with
  | [] => Ok (true, b)
  | kr :: rows' =>
      en ← scan_row kr;
      let '(more, b') := f en b in
      if more then scan_rows f rows' b' else Ok (false, b')
  end.

(** A scan stopped by [f] returns at once; a complete one returns [rows.Err()]. *)
Definition end_scan {B} (w : DB) (scanned : bool * B) : go B :=
  if scanned.1 then match drv_error "rows.Err" (view w) with Some e => Er e | None => Ok scanned.2 end
  else Ok scanned.2.

Definition GetEvents {B} (w : DB) (cursorRange : CursorRange) (contractIDs : list string)
    (topics : list (option (list string))) (eventTypes : list Z) (f : entry -> B -> bool * B) (b : B) : go B :=
  start ← Cursor_String (Start cursorRange);
  endd ← Cursor_String (End cursorRange);
  _ ← mapM (fun id => on_err (fun e => EJoin [e; ENew "failed to encode contract id"]) (strkey_Encode id)) contractIDs;
  rows ← on_err (fun e => EJoin [e; ENew "db read failed for requested parameter"])
           (if topic_columns_exist topics
            then (Select "get events" (event_query start endd contractIDs topics eventTypes) w).1
            else Er (EExt "no such column"));
  scanned ← scan_rows f rows b;
  end_scan w scanned.

(** ** The log of the table *)

Context {passphrase : string} {L : LedgersLaws D passphrase} {TL : ToidLaws T}.

Definition entry_ok (en : entry) : Prop :=
  cursor_ok (en_cursor en) /\ String.length (en_hash en) = 32%nat.

Definition event_log (t : Tables) (es : list entry) : Prop :=
  Forall entry_ok es /\
  Forall2 (fun en kr => event_values en = Ok kr) es (rows_by_key str_le (events t)).

Definition cursor_lt (a b : entry) : Prop := Cmp (en_cursor a) (en_cursor b) < 0.

Lemma event_values_key en kr : event_values en = Ok kr -> Cursor_String (en_cursor en) = Ok kr.1.
Proof.
  unfold event_values. destruct (Cursor_String (en_cursor en)) as [id| |]; simpl; try done.
  destruct (event_MarshalBinary _); simpl; try done. destruct (BodyV0 _) as [[topics d]|]; try done.
  destruct (encode_topics topics); simpl; try done. by intros [= <-].
Qed.

(** What the row of an entry holds. *)
Lemma event_values_row en kr : event_values en = Ok kr ->
  event_MarshalBinary (en_event en) = Ok (ev_event_data kr.2) /\
  ev_contract_id kr.2 = ContractId (Event_of (en_event en)) /\
  ev_event_type kr.2 = EventTypeXDR (Event_of (en_event en)) /\
  ev_ledger_close_time kr.2 = en_time en /\ ev_transaction_hash kr.2 = en_hash en /\
  exists topics d, BodyV0 (Event_of (en_event en)) = Some (topics, d) /\
    encode_topics topics = Ok (ev_topics kr.2).
Proof.
  unfold event_values. destruct (Cursor_String (en_cursor en)) as [id| |]; simpl; try done.
  destruct (event_MarshalBinary _); simpl; try done. destruct (BodyV0 _) as [[topics d]|]; try done.
  destruct (encode_topics topics) eqn:E; simpl; try done. intros [= <-]. simpl. eauto 10.
Qed.

Lemma event_key_order a b ka kb : entry_ok a -> entry_ok b ->
  event_values a = Ok ka -> event_values b = Ok kb ->
  str_cmp ka.1 kb.1 = match Cmp (en_cursor a) (en_cursor b) ?= 0 with Lt => Lt | Eq => Eq | Gt => Gt end.
Proof.
  intros [Ha _] [Hb _] Ea%event_values_key Eb%event_values_key. by apply Cursor_String_cmp.
Qed.

Lemma event_key_inj a b ka kb : entry_ok a -> entry_ok b ->
  event_values a = Ok ka -> event_values b = Ok kb -> ka.1 = kb.1 -> en_cursor a = en_cursor b.
Proof.
  intros Ha Hb Ea Eb E. pose proof (event_key_order a b ka kb Ha Hb Ea Eb) as H.
  rewrite E, str_cmp_refl in H. apply Cmp_eq.
  destruct (Z.compare_spec (Cmp (en_cursor a) (en_cursor b)) 0); done.
Qed.

(** The log is in strictly increasing order of positions. *)
Lemma event_log_sorted t es : event_log t es -> StronglySorted cursor_lt es.
Proof.
  intros [Hok HF].
  pose proof (rows_sorted str_le (events t)) as Hs. pose proof (rows_NoDup str_le (events t)) as Hn.
  revert Hs Hn Hok. induction HF as [|en kr es rows Hen HF IH]; intros Hs Hn Hok; [constructor|].
  inversion Hs as [|? ? Hs' Hlt]; inversion Hn as [|? ? Hnin Hn']; inversion Hok as [|? ? Hen_ok Hok']; subst.
  constructor; [by apply IH|]. apply Forall_forall. intros x Hx.
  apply list_elem_of_lookup in Hx as [i Hx]. destruct (Forall2_lookup_l _ _ _ _ _ HF Hx) as (kx & Hkx & Ex).
  rewrite Forall_lookup in Hok'. rewrite Forall_lookup in Hlt. specialize (Hok' _ _ Hx). specialize (Hlt _ _ Hkx).
  pose proof (event_key_order en x kr kx Hen_ok Hok' Hen Ex) as Hc.
  unfold key_le, str_le, str_leb in Hlt. unfold cursor_lt. rewrite Hc in Hlt.
  destruct (Z.compare_spec (Cmp (en_cursor en) (en_cursor x)) 0) as [E| |]; [|done|done].
  exfalso. apply Hnin. apply str_cmp_eq in Hc. rewrite Hc. apply list_elem_of_fmap_2.
  by eapply list_elem_of_lookup_2.
Qed.

Lemma substring_all s n : String.length s = n -> substring 0 n s = s.
Proof.
  revert n. induction s as [|c s IH]; intros n <-; [done|]. simpl. by rewrite IH.
Qed.

(** Scanning the row of an entry gives the entry back. *)
Lemma scan_row_values en kr : entry_ok en -> event_values en = Ok kr -> scan_row kr = Ok en.
Proof.
  intros [Hc Hh] Hv. pose proof (event_values_key _ _ Hv) as Hk.
  destruct (event_values_row _ _ Hv) as (Hb & _ & _ & Ht & Hhash & _).
  destruct (ParseCursor_String_ok _ Hc) as (s & Hs & Hp). rewrite Hk in Hs. injection Hs as <-.
  unfold scan_row. rewrite Hp. cbn [on_err mbind go_bind].
  rewrite (event_roundtrip _ _ Hb). cbn [on_err mbind go_bind].
  unfold to_hash. rewrite Hhash, Hh. cbn [Nat.ltb Nat.leb mbind go_bind].
  rewrite substring_all by done. rewrite Ht. by destruct en.
Qed.

(** ** Reading: the scan of a range is the fold over the selected entries *)

Definition entry_topics (en : entry) : list (option string) :=
  match BodyV0 (Event_of (en_event en)) with
  | Some (topics, _) => match encode_topics topics with Ok c => c | _ => [] end
  | None => []
  end.

Definition entry_selected (r : CursorRange) (contractIDs : list string)
    (topics : list (option (list string))) (eventTypes : list Z) (en : entry) : bool :=
  (Cmp (Start r) (en_cursor en) <=? 0) && (Cmp (en_cursor en) (End r) <? 0) &&
  ((zlen contractIDs =? 0) || column_in (ContractId (Event_of (en_event en))) contractIDs) &&
  ((zlen eventTypes =? 0) || existsb (Z.eqb (EventTypeXDR (Event_of (en_event en)))) eventTypes) &&
  row_matches_topics topics (entry_topics en).

Fixpoint scan {B} (f : entry -> B -> bool * B) (es : list entry) (b : B) : B :=
  match es with
  | [] => b
  | en :: es' => let '(more, b') := f en b in if more then scan f es' b' else b'
  end.

Lemma scan_rows_ok {B} (f : entry -> B -> bool * B) es rows b :
  Forall2 (fun en kr => scan_row kr = Ok en) es rows ->
  exists more, scan_rows f rows b = Ok (more, scan f es b).
Proof.
  intros HF. revert b. induction HF as [|en kr es rows He HF IH]; intros b; [by exists true|].
  simpl. rewrite He. simpl. destruct (f en b) as [[] b']; [apply IH | by exists false].
Qed.

Lemma GetEvents_spec {B} w es r contractIDs topics eventTypes (f : entry -> B -> bool * B) b :
  (forall n, drv_error n (view w) = None) -> event_log (view w) es ->
  cursor_ok (Start r) -> cursor_ok (End r) ->
  Forall (fun id => exists s, strkey_Encode id = Ok s) contractIDs -> topic_columns_exist topics = true ->
  GetEvents w r contractIDs topics eventTypes f b =
  Ok (scan f (filter (fun en => entry_selected r contractIDs topics eventTypes en = true) es) b).
Proof.
  intros Hd [Hok HF] Hs He Hids Ht. unfold GetEvents.
  destruct (ParseCursor_String_ok _ Hs) as (s & Es & _). destruct (ParseCursor_String_ok _ He) as (e & Ee & _).
  rewrite Es, Ee. cbn [mbind go_bind].
  assert (exists l, mapM (fun id => on_err (fun e => EJoin [e; ENew "failed to encode contract id"])
            (strkey_Encode id)) contractIDs = Ok l) as [l ->].
  { clear -Hids. induction Hids as [|id ids (x & Hx) _ (l & IH)]; [by eexists|].
    simpl. rewrite Hx. simpl. rewrite IH. simpl. by eexists. }
  cbn [mbind go_bind]. rewrite Ht. unfold Select. rewrite Hd. cbn [on_err fst mbind go_bind].
  assert (Forall2 (fun en kr => scan_row kr = Ok en)
            (filter (fun en => entry_selected r contractIDs topics eventTypes en = true) es)
            (event_query s e contractIDs topics eventTypes (view w))) as HF'.
  { unfold event_query. clear -HF Hok Hs He Es Ee L TL.
    induction HF as [|en kr es rows Hv HF IH]; [constructor|].
    inversion Hok as [|? ? Hen Hok']; subst. specialize (IH Hok').
    rewrite !filter_cons.
    assert (str_leb s kr.1 && str_ltb kr.1 e &&
      ((zlen contractIDs =? 0) || column_in (ev_contract_id kr.2) contractIDs) &&
      ((zlen eventTypes =? 0) || existsb (Z.eqb (ev_event_type kr.2)) eventTypes) &&
      row_matches_topics topics (ev_topics kr.2) =
      entry_selected r contractIDs topics eventTypes en) as ->.
    { pose proof (event_values_key _ _ Hv) as Hk. unfold entry_selected, entry_topics.
      destruct (event_values_row _ _ Hv) as (_ & -> & -> & _ & _ & (tp & d & -> & ->)).
      rewrite (Cursor_String_leb (Start r) (en_cursor en)) by (done || apply Hen).
      rewrite (Cursor_String_ltb (en_cursor en) (End r)) by (done || apply Hen). done. }
    destruct (decide _); [|done]. constructor; [by apply scan_row_values | done]. }
  destruct (scan_rows_ok f _ _ b HF') as [more ->]. cbn [mbind go_bind]. unfold end_scan. cbn [fst snd].
  rewrite Hd. by destruct more.
Qed.

(** ** Writing: insertion adds the ledger's entries to the log *)

Lemma event_log_insert t es new rows : event_log t es -> Forall entry_ok new ->
  mapM event_values new = Ok rows -> NoDup (en_cursor <$> new) ->
  (forall a b, a ∈ new -> b ∈ es -> en_cursor a <> en_cursor b) ->
  exists m es', insert_rows rows (events t) = Ok m /\ es' ≡ₚ es ++ new /\
    event_log (set_events (fun _ => m) t) es'.
Proof.
  intros [Hok HF] Hnew Hrows%go_mapM_ok Hnd Hdis.
  assert (NoDup rows.*1) as Hn.
  { apply NoDup_alt. intros i j k Hi Hj. apply list_lookup_fmap_Some in Hi as (ka & -> & Hka).
    apply list_lookup_fmap_Some in Hj as (kb & E & Hkb).
    destruct (Forall2_lookup_r _ _ _ _ _ Hrows Hka) as (a & Ha & Ea).
    destruct (Forall2_lookup_r _ _ _ _ _ Hrows Hkb) as (b & Hb & Eb).
    rewrite Forall_lookup in Hnew. pose proof (event_key_inj a b ka kb (Hnew _ _ Ha) (Hnew _ _ Hb) Ea Eb E) as Ec.
    rewrite NoDup_alt in Hnd. apply (Hnd i j (en_cursor a)).
    - by rewrite list_lookup_fmap, Ha.
    - by rewrite list_lookup_fmap, Hb, Ec. }
  assert (forall k, k ∈ rows.*1 -> events t !! k = None) as Hfresh.
  { intros k Hk. destruct (events t !! k) as [r|] eqn:E; [exfalso|done].
    apply (elem_of_rows str_le) in E. apply list_elem_of_lookup in E as [j Hj].
    destruct (Forall2_lookup_r _ _ _ _ _ HF Hj) as (b & Hb & Eb).
    apply list_elem_of_lookup in Hk as [i Hi]. apply list_lookup_fmap_Some in Hi as (ka & E & Hka).
    destruct (Forall2_lookup_r _ _ _ _ _ Hrows Hka) as (a & Ha & Ea).
    rewrite Forall_lookup in Hnew, Hok.
    apply (Hdis a b); [by eapply list_elem_of_lookup_2..|].
    eapply event_key_inj; [by eapply Hnew|by eapply Hok|done..]. }
  exists (list_to_map rows ∪ events t).
  pose proof (rows_union str_le rows (events t) Hn Hfresh) as Hp.
  assert (Forall2 (fun en kr => event_values en = Ok kr) (new ++ es) (rows ++ rows_by_key str_le (events t))) as HF2
    by (by apply Forall2_app).
  apply Forall2_flip in HF2.
  destruct (Permutation_Forall2 (symmetry Hp) HF2) as (es' & Hes & HF').
  exists es'. split_and!; [by apply insert_rows_ok|by rewrite <- Hes, Permutation_app_comm|].
  apply Forall2_flip in HF'. split; [|done].
  rewrite <- Hes. apply Forall_app. by split.
Qed.

(** The entries a transaction and a ledger contribute. *)
Definition tx_log (lcm : LedgerCloseMeta) (tx : LedgerTransaction) : list entry :=
  match tx_Successful tx, tx_Events tx with
  | true, Ok te => tx_entries lcm tx (transactionEventsIntoDiagnosticEvents te)
  | _, _ => []
  end.
Definition ledger_log (lcm : LedgerCloseMeta) : list entry := concat (tx_log lcm <$> ledger_txs lcm).

(** What the ledger must satisfy to be indexed: the events of its successful
    transactions decode and encode, and their positions have a text. *)
Definition tx_fine (lcm : LedgerCloseMeta) (tx : LedgerTransaction) : Prop :=
  tx_Successful tx = true ->
  String.length (tx_Hash tx) = 32%nat /\ 0 <= tx_Index tx <= TransactionMask /\
  exists te rows, tx_Events tx = Ok te /\
    zlen (transactionEventsIntoDiagnosticEvents te) <= u32max /\
    mapM event_values (tx_log lcm tx) = Ok rows.

Lemma tx_entries_lookup lcm tx es i en : tx_entries lcm tx es !! i = Some en ->
  exists e, es !! i = Some e /\
    en = mkEntry (event_cursor lcm tx i) e (LedgerCloseTime lcm) (tx_Hash tx).
Proof.
  unfold tx_entries. rewrite list_lookup_imap. destruct (es !! i) as [e|]; simpl; [|done].
  intros [= <-]. eauto.
Qed.

Lemma tx_log_positions lcm tx a : a ∈ tx_log lcm tx ->
  Ledger (en_cursor a) = LedgerSequence lcm /\ Tx (en_cursor a) = tx_Index tx.
Proof.
  unfold tx_log. intros Ha. destruct (tx_Successful tx); [|by apply not_elem_of_nil in Ha].
  destruct (tx_Events tx) as [te| |]; try by apply not_elem_of_nil in Ha.
  apply list_elem_of_lookup in Ha as [i Hi]. by apply tx_entries_lookup in Hi as (e & _ & ->).
Qed.

Lemma tx_log_ok lcm tx : tx_fine lcm tx -> 0 <= LedgerSequence lcm < 2147483648 ->
  Forall entry_ok (tx_log lcm tx) /\ NoDup (en_cursor <$> tx_log lcm tx).
Proof.
  intros Hf Hseq. unfold tx_log. destruct (tx_Successful tx) eqn:Es; [|split; constructor].
  destruct (Hf Es) as (Hh & Hi & te & rows & -> & Hlen & _). unfold u32max, zlen in Hlen.
  split.
  - apply Forall_lookup. intros i en Hen. pose proof Hen as Hen'.
    apply tx_entries_lookup in Hen as (e & He & ->). split; [|done].
    split; simpl; [|apply u32_range]. unfold toid_in_range. destruct toid_masks. lia.
  - apply NoDup_alt. intros i j c Hci Hcj.
    apply list_lookup_fmap_Some in Hci as (a & Eca & Ha).
    apply list_lookup_fmap_Some in Hcj as (b & Ecb & Hb).
    apply tx_entries_lookup in Ha as (ea & Ha & ->). apply tx_entries_lookup in Hb as (eb & Hb & ->).
    subst c. apply (f_equal Event) in Ecb. simpl in Ecb. apply lookup_lt_Some in Ha, Hb.
    rewrite !u32_small in Ecb by (unfold is_u32; lia). lia.
Qed.

(** One transaction. *)
Lemma InsertEvents_tx_spec lcm tx w es : (forall n t, drv_error n t = None) ->
  tx_fine lcm tx -> 0 <= LedgerSequence lcm < 2147483648 -> event_log (view w) es ->
  (forall a b, a ∈ tx_log lcm tx -> b ∈ es -> en_cursor a <> en_cursor b) ->
  exists m es', InsertEvents_tx lcm tx w = (Ok tt, set_view (set_events (fun _ => m) (view w)) w) /\
    es' ≡ₚ es ++ tx_log lcm tx /\ event_log (set_events (fun _ => m) (view w)) es'.
Proof.
  intros Hd Hf Hseq Hlog Hdis. destruct (tx_log_ok lcm tx Hf Hseq) as [Hok Hnd].
  assert (set_view (set_events (fun _ => events (view w)) (view w)) w = w) as Hsame.
  { destruct w as [[] ? ? [[]|]]; done. }
  unfold InsertEvents_tx. destruct (tx_Successful tx) eqn:Es; cbn [negb].
  2: { exists (events (view w)), es. rewrite Hsame. unfold tx_log. rewrite Es, app_nil_r.
       split_and!; [done|done|]. by destruct (view w). }
  destruct (Hf Es) as (_ & _ & te & rows & Ete & _ & Hrows). unfold tx_log in *. rewrite Es, Ete in *.
  unfold mbind, st_bind at 1, lift at 1.
  destruct (transactionEventsIntoDiagnosticEvents te) as [|d ds] eqn:Ed.
  { exists (events (view w)), es. rewrite Hsame. change (tx_entries lcm tx []) with (@nil entry).
    rewrite app_nil_r. split_and!; [done|done|]. by destruct (view w). }
  unfold st_bind, lift. rewrite Hrows.
  destruct (event_log_insert (view w) es _ rows Hlog Hok Hrows Hnd Hdis) as (m & es' & Hm & Hp & Hl).
  exists m, es'. unfold Exec. rewrite Hd, Hm. done.
Qed.

Lemma InsertEvents_txs_spec lcm txs w es : (forall n t, drv_error n t = None) ->
  Forall (tx_fine lcm) txs -> 0 <= LedgerSequence lcm < 2147483648 -> event_log (view w) es ->
  NoDup (tx_Index <$> txs) ->
  (forall b tx, b ∈ es -> tx ∈ txs ->
     Ledger (en_cursor b) = LedgerSequence lcm -> Tx (en_cursor b) <> tx_Index tx) ->
  exists m es', st_iter (InsertEvents_tx lcm) txs w = (Ok tt, set_view (set_events (fun _ => m) (view w)) w) /\
    es' ≡ₚ es ++ concat (tx_log lcm <$> txs) /\ event_log (set_events (fun _ => m) (view w)) es'.
Proof.
  intros Hd Hf Hseq. revert w es. induction Hf as [|tx txs Htx Hf IH]; intros w es Hlog Hnd Hdis.
  { exists (events (view w)), es. simpl. rewrite app_nil_r.
    split_and!; [by destruct w as [[] ? ? [[]|]]|done|by destruct (view w)]. }
  inversion Hnd as [|? ? Hnin Hnd']; subst.
  destruct (InsertEvents_tx_spec lcm tx w es Hd Htx Hseq Hlog) as (m & es1 & Hrun & Hp1 & Hlog1).
  { intros a b Ha Hb E. destruct (tx_log_positions _ _ _ Ha) as [HL HT].
    apply (Hdis b tx); [done|by left|congruence|congruence]. }
  set (w1 := set_view (set_events (fun _ => m) (view w)) w) in *.
  assert (view w1 = set_events (fun _ => m) (view w)) as Hv by apply view_set_view.
  destruct (IH w1 es1) as (m' & es2 & Hrun2 & Hp2 & Hlog2).
  - by rewrite Hv.
  - done.
  - intros b tx' Hb Htx' HL. rewrite Hp1, elem_of_app in Hb. destruct Hb as [Hb|Hb].
    + apply Hdis; [done|by right|done].
    + destruct (tx_log_positions _ _ _ Hb) as [_ ->]. intros E. apply Hnin. rewrite E.
      by apply list_elem_of_fmap_2.
  - exists m', es2. cbn [st_iter]. unfold mbind, st_bind. rewrite Hrun, Hrun2.
    rewrite Hv in *. split_and!.
    + by destruct w as [[] ? ? [[]|]].
    + rewrite Hp2, Hp1. simpl. by rewrite <- app_assoc.
    + by destruct (view w).
Qed.

Lemma InsertEvents_spec lcm w es : (forall n t, drv_error n t = None) ->
  ledger_decodes lcm -> Forall (tx_fine lcm) (ledger_txs lcm) -> event_log (view w) es ->
  Forall (fun b => Ledger (en_cursor b) <> LedgerSequence lcm) es ->
  exists m es', InsertEvents (mkEventHandler true passphrase) lcm w =
      (Ok tt, set_view (set_events (fun _ => m) (view w)) w) /\
    es' ≡ₚ es ++ ledger_log lcm /\ event_log (set_events (fun _ => m) (view w)) es'.
Proof.
  intros Hd Hdec Hf Hlog Hne. unfold InsertEvents. cbn [eh_stmtCache eh_passphrase negb].
  pose proof (lcm_count lcm Hdec) as Hcount. destruct (Z.eqb_spec (CountTransactions lcm) 0) as [Hz|Hz].
  { exists (events (view w)), es. unfold ledger_log. destruct (ledger_txs lcm) as [|? ?]; [|unfold zlen in *; simpl in *; lia].
    simpl. rewrite app_nil_r. split_and!; [by destruct w as [[] ? ? [[]|]]|done|by destruct (view w)]. }
  destruct (reader_open lcm Hdec) as (r & Hr & Hat). rewrite Hr.
  unfold wrap_err, lift, mbind, st_bind. cbn [on_err].
  rewrite (read_all_iter _ lcm r w Hdec Hat).
  apply InsertEvents_txs_spec; [done|done|by apply lcm_seq|done| |].
  - apply NoDup_alt. intros i j x Hi Hj. apply list_lookup_fmap_Some in Hi as (a & -> & Ha).
    apply list_lookup_fmap_Some in Hj as (b & E & Hb).
    apply (lcm_index lcm _ _ Hdec) in Ha, Hb. lia.
  - intros b tx Hb _ HL. rewrite Forall_forall in Hne. by destruct (Hne b Hb).
Qed.

(** ** Trimming *)

Lemma trimEvents_spec latest retention w es : (forall n t, drv_error n t = None) ->
  0 <= latest < 2147483647 -> 0 <= retention < 4294967296 -> event_log (view w) es ->
  exists m, trimEvents latest retention w = (Ok tt, set_view (set_events (fun _ => m) (view w)) w) /\
    event_log (set_events (fun _ => m) (view w))
      (filter (fun en => latest + 1 - retention <= Ledger (en_cursor en)) es).
Proof.
  intros Hd Hl Hr [Hok HF]. unfold trimEvents. rewrite (u32_small (latest + 1)) by (unfold is_u32; lia).
  destruct (Z.leb_spec (latest + 1) retention) as [Hle|Hgt].
  { exists (events (view w)). split; [by destruct w as [[] ? ? [[]|]]|].
    rewrite filter_all; [by destruct (view w)|]. intros en Hen. rewrite Forall_forall in Hok.
    destruct (Hok _ Hen) as [[(? & _) _] _]. lia. }
  rewrite u32_small by (unfold is_u32; lia). set (cutoff := latest + 1 - retention) in *.
  assert (cursor_ok (mkCursor cutoff 0 0 0)) as Hc.
  { split; simpl; [unfold toid_in_range; destruct toid_masks|unfold is_u32]; lia. }
  destruct (ParseCursor_String_ok _ Hc) as (id & Hid & _). rewrite Hid.
  unfold mbind, st_bind, lift, Exec. rewrite Hd.
  exists (filter (fun kr => str_ltb kr.1 id = false) (events (view w))). split; [done|].
  split; [by apply Forall_forall; intros en [_ Hen]%list_elem_of_filter; rewrite Forall_forall in Hok; apply Hok|].
  simpl. rewrite rows_filter by apply _.
  clear -HF Hok Hc Hid TL. induction HF as [|en kr es rows Hv HF IH]; [constructor|].
  inversion Hok as [|? ? Hen Hok']; subst. specialize (IH Hok'). rewrite !filter_cons.
  pose proof (Cursor_String_ltb (en_cursor en) (mkCursor cutoff 0 0 0) kr.1 id (proj1 Hen) Hc
    (event_values_key _ _ Hv) Hid) as ->.
  destruct Hen as [[(Hl & Ht & Ho) He] _]. unfold is_u32 in He.
  pose proof (Cmp_lt_iff (en_cursor en) (mkCursor cutoff 0 0 0)) as Hiff. simpl in Hiff.
  destruct (Z.ltb_spec (Cmp (en_cursor en) (mkCursor cutoff 0 0 0)) 0) as [Hlt|Hge].
  - destruct (decide (cutoff <= _)); [lia|]. done.
  - destruct (decide (cutoff <= _)); [|lia]. by constructor.
Qed.
End Events.
