(* ===== verification/TxStore.v ===== *)
(** * Transactions in the database: [internal/db/transaction.go]

    Ingestion indexes each transaction by its hash (and a fee bump by the inner
    hash too); a lookup finds the row, decodes the ledger it names and reads
    the transaction at its application order. *)

From S2P Require Import Prelude GoStd Externals BucketWindow LedgerMeta Store LedgerStore EventStore.

Section Transactions.
Context `{V : ScVals} {D : Ledgers} {Drv : Driver}.

Definition ErrNoTransaction : err := ESentinel "no transaction with this hash exists".
Definition io_EOF : err := ESentinel "EOF".

Record Transaction := mkTransaction {
  TransactionHash : string;
  Result : string;
  Meta : string;
  Envelope : string;
  Events : list string;
  FeeBump : bool;
  ApplicationOrder : Z;
  Successful : bool;
  TxLedger : LedgerInfo;
}.

(** The handler; [th_stmtCache] is false when it was built without one. *)
Record transactionHandler := mkTransactionHandler { th_stmtCache : bool; th_passphrase : string }.

(** [for i := range txCount { tx, err := reader.Read(); ... }] *)
Fixpoint read_txs (n : nat) (i : Z) (reader : TxReader) (m : gmap string LedgerTransaction) :
    go (gmap string LedgerTransaction) :=
  match n with
  | O => Ok m
  | S n' =>
      let fail := EWrap "failed reading tx %d: %w" [FZ i] in
      match reader_Read reader with
      | (Er e, _) => Er (fail e)
      | (Ok None, _) => Er (fail io_EOF)
      | (Panic p, _) => Panic p
      | (Ok (Some tx), reader') =>
          let m := if tx_IsFeeBump tx then <[tx_InnerHash tx := tx]> m else m in
          read_txs n' (i + 1) reader' (<[tx_Hash tx := tx]> m)
      end
  end.

Definition InsertTransactions (txn : transactionHandler) (lcm : LedgerCloseMeta) : st DB unit :=
  let txCount := CountTransactions lcm in
  if negb (th_stmtCache txn) then lift (Er (ENew "TransactionWriter incorrectly initialized without stmtCache"))
  else if txCount =? 0 then mret tt
  else
    reader ← wrap_err (EWrap "failed to open transaction reader for ledger %d: %w" [FZ (LedgerSequence lcm)])
               (lift (NewTxReader (th_passphrase txn) lcm));
    txs ← lift (read_txs (Z.to_nat txCount) 0 reader ∅);
    let rows := (fun ht => (ht.1, mkTxRow (LedgerSequence lcm) (tx_Index ht.2))) <$> map_to_list txs in
    Exec "insert transactions" (fun t =>
      m ← insert_rows rows (transactions t); Ok (set_transactions (fun _ => m) t)).

(** [DELETE FROM transactions WHERE ledger_sequence < cutoff] *)
Definition trimTransactions (latest retentionWindow : Z) : st DB unit :=
  if u32 (latest + 1) <=? retentionWindow then mret tt
  else
    let cutoff := u32 (u32 (latest + 1) - retentionWindow) in
    Exec "trim transactions" (fun t =>
      Ok (set_transactions (filter (fun hr => ~ txr_ledger_sequence hr.2 < cutoff)) t)).

(** The join of the two tables on the ledger sequence. *)
Definition transaction_rows (hash : string) (t : Tables) : list (Z * LedgerCloseMeta) :=
  match transactions t !! hash with
  | None => []
  | Some r => match ledger_close_meta t !! txr_ledger_sequence r with
              | None => []
              | Some lcm => [(txr_application_order r, lcm)]
              end
  end.

Definition getTransactionByHash (txn : transactionHandler) (hash : string) (w : DB) :
    go (LedgerCloseMeta * LedgerTransaction) :=
  rows ← on_err (EWrap "db read failed for txhash %s: %w" [FS (HexEncode hash)])
           (Select "get transaction" (transaction_rows hash) w).1;
  match rows with
  | [] => Er ErrNoTransaction
  | (txIndex, lcm) :: _ =>
      reader ← on_err (EWrap "failed to create ledger reader: %w" []) (NewTxReader (th_passphrase txn) lcm);
      let fail := EWrap "failed to index to tx %d in ledger %d (txhash=%s): %w"
                    [FZ txIndex; FZ (LedgerSequence lcm); FS hash] in
      match reader_Seek (txIndex - 1) reader with
      | (Er e, _) => Er (fail e)
      | (Ok true, _) => Er (fail io_EOF)
      | (Panic p, _) => Panic p
      | (Ok false, reader') =>
          match (reader_Read reader').1 with
          | Ok (Some tx) => Ok (lcm, tx)
          | Ok None => Er io_EOF
          | Er e => Er e
          | Panic p => Panic p
          end
      end
  end.

Fixpoint marshal_events (i : Z) (evs : list DiagnosticEvent) : go (list string) :=
  match evs with
  | [] => Ok []
  | e :: evs' =>
      b ← on_err (EWrap "couldn't encode transaction DiagnosticEvent %d: %w" [FZ i]) (event_MarshalBinary e);
      bs ← marshal_events (i + 1) evs';
      Ok (b :: bs)
  end.

Definition ParseTransaction (lcm : LedgerCloseMeta) (ingestTx : LedgerTransaction) : go Transaction :=
  result ← on_err (EWrap "couldn't encode transaction Result: %w" []) (tx_ResultBytes ingestTx);
  meta ← on_err (EWrap "couldn't encode transaction UnsafeMeta: %w" []) (tx_MetaBytes ingestTx);
  envelope ← on_err (EWrap "couldn't encode transaction Envelope: %w" []) (tx_EnvelopeBytes ingestTx);
  allEvents ← on_err (EWrap "couldn't encode transaction Events: %w" []) (tx_Events ingestTx);
  events ← marshal_events 0 (transactionEventsIntoDiagnosticEvents allEvents);
  Ok (mkTransaction (HexEncode (tx_Hash ingestTx)) result meta envelope events
        (tx_IsFeeBump ingestTx) (i32 (tx_Index ingestTx)) (tx_Successful ingestTx)
        (mkInfo (LedgerSequence lcm) (LedgerCloseTime lcm))).

Definition GetTransaction (txn : transactionHandler) (hash : string) (w : DB) : go Transaction :=
  found ← getTransactionByHash txn hash w;
  ParseTransaction found.1 found.2.

(** ** The index *)

Context {passphrase : string} {L : LedgersLaws D passphrase}.

(** The hashes a transaction is found under. *)
Definition tx_keys (tx : LedgerTransaction) : list string :=
  (if tx_IsFeeBump tx then [tx_InnerHash tx] else []) ++ [tx_Hash tx].

Definition add_tx (m : gmap string LedgerTransaction) (tx : LedgerTransaction) : gmap string LedgerTransaction :=
  <[tx_Hash tx := tx]> (if tx_IsFeeBump tx then <[tx_InnerHash tx := tx]> m else m).

Lemma add_tx_in m tx h : h ∈ tx_keys tx -> add_tx m tx !! h = Some tx.
Proof.
  unfold tx_keys, add_tx. intros Hh. destruct (decide (tx_Hash tx = h)) as [<-|Hne].
  { by rewrite lookup_insert_eq. }
  rewrite lookup_insert_ne by done. destruct (tx_IsFeeBump tx); [|set_solver].
  assert (h = tx_InnerHash tx) as -> by set_solver. by rewrite lookup_insert_eq.
Qed.
Lemma add_tx_out m tx h : h ∉ tx_keys tx -> add_tx m tx !! h = m !! h.
Proof.
  unfold tx_keys, add_tx. intros Hh. rewrite lookup_insert_ne by set_solver.
  destruct (tx_IsFeeBump tx); [|done]. rewrite lookup_insert_ne by set_solver. done.
Qed.

Lemma read_txs_fold lcm n k r m i : reader_at lcm k r -> (k + n <= length (ledger_txs lcm))%nat ->
  read_txs n i r m = Ok (foldl add_tx m (take n (drop k (ledger_txs lcm)))).
Proof.
  revert k r m i. induction n as [|n IH]; intros k r m i Hr Hn; [done|]. cbn [read_txs].
  destruct (lookup_lt_is_Some_2 (ledger_txs lcm) k) as [tx Htx]; [lia|].
  destruct (reader_read _ _ _ _ Hr Htx) as (r' & -> & Hr').
  rewrite (IH (S k)) by (done || lia). rewrite (drop_S _ _ _ Htx). done.
Qed.

Lemma fold_add_out txs m h : Forall (fun tx => h ∉ tx_keys tx) txs -> foldl add_tx m txs !! h = m !! h.
Proof.
  intros HF. revert m. induction HF as [|tx txs Htx HF IH]; intros m; [done|].
  simpl. by rewrite IH, add_tx_out.
Qed.

Lemma fold_add_in txs m i tx h : NoDup (concat (tx_keys <$> txs)) -> txs !! i = Some tx -> h ∈ tx_keys tx ->
  foldl add_tx m txs !! h = Some tx.
Proof.
  revert m i. induction txs as [|x txs IH]; intros m i Hn Hi Hh; [done|].
  rewrite fmap_cons in Hn. cbn [concat] in Hn. apply NoDup_app in Hn as (_ & Hd & Hn).
  destruct i as [|i]; simpl in Hi.
  - injection Hi as ->. simpl. rewrite fold_add_out; [by apply add_tx_in|].
    apply Forall_forall. intros y Hy Hk. apply (Hd h Hh). apply elem_of_concat.
    exists (tx_keys y). split; [done|]. by apply list_elem_of_fmap_2.
  - simpl. by apply (IH _ i).
Qed.

(** ** Insertion *)

Definition keys_of (lcm : LedgerCloseMeta) : list string := concat (tx_keys <$> ledger_txs lcm).

(** What is found under a hash after the ledger is indexed. *)
Definition indexed (lcm : LedgerCloseMeta) (old new : gmap string tx_row) : Prop :=
  (forall i tx h, ledger_txs lcm !! i = Some tx -> h ∈ tx_keys tx ->
     new !! h = Some (mkTxRow (LedgerSequence lcm) (Z.of_nat i + 1))) /\
  (forall h, h ∉ keys_of lcm -> new !! h = old !! h).

Lemma elem_of_keys lcm h : h ∈ keys_of lcm <-> exists i tx, ledger_txs lcm !! i = Some tx /\ h ∈ tx_keys tx.
Proof.
  unfold keys_of. rewrite elem_of_concat. split.
  - intros (ks & Hh & (tx & -> & Htx)%list_elem_of_fmap). apply list_elem_of_lookup in Htx as [i Hi]. eauto.
  - intros (i & tx & Hi & Hh). exists (tx_keys tx). split; [done|]. apply list_elem_of_fmap_2.
    by eapply list_elem_of_lookup_2.
Qed.

Lemma InsertTransactions_spec lcm w : (forall n t, drv_error n t = None) ->
  ledger_decodes lcm -> NoDup (keys_of lcm) ->
  (forall h, h ∈ keys_of lcm -> transactions (view w) !! h = None) ->
  exists m, InsertTransactions (mkTransactionHandler true passphrase) lcm w =
      (Ok tt, set_view (set_transactions (fun _ => m) (view w)) w) /\
    indexed lcm (transactions (view w)) m.
Proof.
  intros Hd Hdec Hnd Hfresh. unfold InsertTransactions. cbn [th_stmtCache th_passphrase negb].
  pose proof (lcm_count lcm Hdec) as Hc.
  destruct (Z.eqb_spec (CountTransactions lcm) 0) as [Hz|Hz].
  { exists (transactions (view w)). split; [by destruct w as [[] ? ? [[]|]]|]. split; [|done].
    intros i tx h Hi. apply lookup_lt_Some in Hi. unfold zlen in Hc. lia. }
  destruct (reader_open lcm Hdec) as (r & Hr & Hat). rewrite Hr.
  unfold wrap_err, lift, mbind, st_bind. cbn [on_err].
  replace (Z.to_nat (CountTransactions lcm)) with (length (ledger_txs lcm)) by (unfold zlen in Hc; lia).
  rewrite (read_txs_fold lcm _ 0) by (done || lia). rewrite drop_0, take_ge by lia.
  set (txs := foldl add_tx ∅ (ledger_txs lcm)).
  set (row := fun ht : string * LedgerTransaction => (ht.1, mkTxRow (LedgerSequence lcm) (tx_Index ht.2))).
  assert ((row <$> map_to_list txs).*1 = (map_to_list txs).*1) as Hfst.
  { rewrite <- list_fmap_compose. apply list_fmap_ext. done. }
  assert (forall h tx, txs !! h = Some tx -> h ∈ keys_of lcm) as Hin.
  { intros h tx Htx. destruct (decide (h ∈ keys_of lcm)) as [|Hn]; [done|].
    assert (txs !! h = None) as E; [|congruence]. subst txs. rewrite fold_add_out; [apply lookup_empty|].
    apply Forall_forall. intros y [i Hi]%list_elem_of_lookup Hk. apply Hn, elem_of_keys. eauto. }
  unfold Exec. rewrite Hd. rewrite insert_rows_ok.
  - cbn [go_bind]. eexists. split; [done|].
    assert (forall h, (list_to_map (row <$> map_to_list txs) : gmap string tx_row) !! h =
              (fun tx => mkTxRow (LedgerSequence lcm) (tx_Index tx)) <$> txs !! h) as Hlook.
    { intros h. destruct (txs !! h) as [tx|] eqn:E; simpl.
      - apply elem_of_list_to_map_1; [rewrite Hfst; apply NoDup_fst_map_to_list|].
        apply list_elem_of_fmap. exists (h, tx). split; [done|]. by apply elem_of_map_to_list.
      - apply not_elem_of_list_to_map_1. rewrite Hfst. intros ([h' tx] & Hh & Htx)%list_elem_of_fmap.
        simpl in Hh. subst h'. apply elem_of_map_to_list in Htx. congruence. }
    split.
    + intros i tx h Hi Hh. apply lookup_union_Some_l. rewrite Hlook. subst txs.
      rewrite (fold_add_in _ _ i tx) by done. simpl. by rewrite (lcm_index lcm i tx Hdec Hi).
    + intros h Hh. apply lookup_union_r. rewrite Hlook.
      destruct (txs !! h) eqn:E; [|done]. by apply Hin in E.
  - rewrite Hfst. apply NoDup_fst_map_to_list.
  - intros h. rewrite Hfst. intros ([h' tx] & -> & Htx)%list_elem_of_fmap.
    apply elem_of_map_to_list in Htx. apply Hfresh. by eapply Hin.
Qed.

(** ** Lookup *)

(** Rows name transactions of the stored ledgers. *)
Definition index_sound (t : Tables) : Prop :=
  forall h r lcm, transactions t !! h = Some r -> ledger_close_meta t !! txr_ledger_sequence r = Some lcm ->
    ledger_decodes lcm /\
    exists i tx, txr_application_order r = Z.of_nat i + 1 /\ ledger_txs lcm !! i = Some tx /\ h ∈ tx_keys tx.

Lemma getTransactionByHash_spec h w : (forall n t, drv_error n t = None) -> index_sound (view w) ->
  match transaction_rows h (view w) with
  | [] => getTransactionByHash (mkTransactionHandler true passphrase) h w = Er ErrNoTransaction
  | (_, lcm) :: _ => exists tx, tx ∈ ledger_txs lcm /\ h ∈ tx_keys tx /\
      getTransactionByHash (mkTransactionHandler true passphrase) h w = Ok (lcm, tx)
  end.
Proof.
  intros Hd Hs. unfold getTransactionByHash, Select. rewrite Hd. cbn [fst on_err mbind go_bind].
  unfold transaction_rows. destruct (transactions (view w) !! h) as [r|] eqn:Er; [|done].
  destruct (ledger_close_meta (view w) !! txr_ledger_sequence r) as [lcm|] eqn:El; [|done].
  destruct (Hs h r lcm Er El) as (Hdec & i & tx & Ho & Hi & Hh).
  exists tx. split; [by eapply list_elem_of_lookup_2|]. split; [done|].
  cbn [th_passphrase]. destruct (reader_open lcm Hdec) as (rd & -> & Hat). cbn [on_err mbind go_bind th_passphrase].
  rewrite Ho. replace (Z.of_nat i + 1 - 1) with (Z.of_nat i) by lia.
  destruct (reader_seek lcm 0 rd i Hat) as (rd' & -> & Hat'); [by eapply lookup_lt_Some|].
  destruct (reader_read lcm i rd' tx Hat' Hi) as (rd'' & -> & _). done.
Qed.
End Transactions.
