(* ===== verification/WriteTx.v ===== *)
(** * Write transactions: [ReadWriter] and [WriteTx] of [internal/db/db.go]

    The abstract state of the database is the list of the ledgers it retains;
    [represents] relates it to the tables.  Inserting a ledger appends to the
    list and committing keeps its last [historyRetentionWindow] elements. *)

From S2P Require Import Prelude GoStd Externals Cursor BucketWindow LedgerMeta Store LedgerStore EventStore TxStore.

Section WriteTx.
Context `{V : ScVals} {D : Ledgers} {Drv : Driver} {T : Toid}.

Record readWriter := mkReadWriter {
  historyRetentionWindow : Z;
  rw_passphrase : string;
}.

Definition rw_GetLatestLedgerSequence : st DB Z := getLatestLedgerSequence.

(** [NewTx]: the transaction runs in a clone of the session; from here on the
    state is the clone's, with the shared tables and cache. *)
Definition NewTx (rw : readWriter) : st DB unit := _ ← modify (set_tx None); Begin.

Definition LedgerWriter_InsertLedger (rw : readWriter) (lcm : LedgerCloseMeta) : st DB unit := InsertLedger lcm.
Definition TransactionWriter (rw : readWriter) : transactionHandler := mkTransactionHandler true (rw_passphrase rw).
Definition EventWriter (rw : readWriter) : eventHandler := mkEventHandler true (rw_passphrase rw).

(** [commitAndUpdateCache]: under the cache's lock. *)
Definition commitAndUpdateCache (ledgerSeq ledgerCloseTime : Z) : st DB unit :=
  _ ← session_Commit; modify (set_cache ledgerSeq ledgerCloseTime).

(** The checkpoint pragma, run outside of any transaction. *)
Definition postCommit : st DB unit := fun w =>
  match drv_error "PRAGMA wal_checkpoint(TRUNCATE)" (disk w) with
  | Some e => (Er e, w)
  | None => (Ok tt, w)
  end.

Definition Commit (rw : readWriter) (ledgerCloseMeta : LedgerCloseMeta) : st DB unit :=
  let ledgerSeq := LedgerSequence ledgerCloseMeta in
  let ledgerCloseTime := LedgerCloseTime ledgerCloseMeta in
  _ ← trimLedgers ledgerSeq (historyRetentionWindow rw);
  _ ← trimTransactions ledgerSeq (historyRetentionWindow rw);
  _ ← trimEvents ledgerSeq (historyRetentionWindow rw);
  _ ← commitAndUpdateCache ledgerSeq ledgerCloseTime;
  postCommit.

Definition is_not_in_transaction (e : err) : bool :=
  match e with EExt s => String.eqb s "not in transaction" | _ => false end.

(** Rolling back after a commit is not an error. *)
Definition Rollback : st DB unit := fun w =>
  match session_Rollback w with
  | (Er e, w') => (if is_not_in_transaction e then Ok tt else Er e, w')
  | r => r
  end.

(** ** The ledgers a database retains *)

Context {passphrase : string} {L : LedgersLaws D passphrase} {TL : ToidLaws T}.

Record represents (t : Tables) (ls : list LedgerCloseMeta) : Prop := {
  rep_keyed : ledgers_keyed t;
  rep_ledgers : all_ledgers t = ls;
  rep_tx h r : transactions t !! h = Some r <->
    exists lcm j tx, lcm ∈ ls /\ ledger_txs lcm !! j = Some tx /\ h ∈ tx_keys tx /\
      r = mkTxRow (LedgerSequence lcm) (Z.of_nat j + 1);
  rep_events : event_log t (concat (ledger_log <$> ls));
}.

(** A ledger that can be indexed. *)
Definition ledger_fine (lcm : LedgerCloseMeta) : Prop :=
  ledger_decodes lcm /\ NoDup (keys_of lcm) /\ Forall (tx_fine lcm) (ledger_txs lcm).

(** Ledgers with consecutive sequences. *)
Definition consecutive (ls : list LedgerCloseMeta) : Prop :=
  forall i a b, ls !! i = Some a -> ls !! S i = Some b -> LedgerSequence b = LedgerSequence a + 1.

Definition keep_from (cutoff : Z) (ls : list LedgerCloseMeta) : list LedgerCloseMeta :=
  filter (fun l => cutoff <= LedgerSequence l) ls.

Lemma represents_empty : represents no_tables [].
Proof.
  constructor.
  - intros k l. simpl. by rewrite lookup_empty.
  - done.
  - intros h r. simpl. rewrite lookup_empty. split; [done|].
    intros (lcm & _ & _ & Hl & _). by apply not_elem_of_nil in Hl.
  - split; [constructor|]. constructor.
Qed.

Lemma represents_keyed_member t ls l : represents t ls -> l ∈ ls -> ledger_close_meta t !! LedgerSequence l = Some l.
Proof. intros [Hk Hl _ _] Hin. rewrite <- Hl in Hin. by apply elem_of_all_ledgers in Hin. Qed.

Lemma represents_sorted t ls : represents t ls -> StronglySorted seq_lt ls.
Proof. intros [Hk <- _ _]. by apply ledger_rows_sorted. Qed.

(** ** Trimming *)

Definition trim_tables (cutoff : Z) (t t' : Tables) : Prop :=
  ledger_close_meta t' = filter (fun kl => ~ kl.1 < cutoff) (ledger_close_meta t) /\
  transactions t' = filter (fun hr => ~ txr_ledger_sequence hr.2 < cutoff) (transactions t) /\
  metadata t' = metadata t.

Lemma ledger_log_ledger lcm en : en ∈ ledger_log lcm -> Ledger (en_cursor en) = LedgerSequence lcm.
Proof.
  unfold ledger_log. intros (l & Hen & (tx & -> & _)%list_elem_of_fmap)%elem_of_concat.
  by apply tx_log_positions in Hen as [? _].
Qed.

Lemma filter_log cutoff ls :
  filter (fun en => cutoff <= Ledger (en_cursor en)) (concat (ledger_log <$> ls)) =
  concat (ledger_log <$> keep_from cutoff ls).
Proof.
  induction ls as [|l ls IH]; [done|]. rewrite fmap_cons. cbn [concat]. rewrite filter_app, IH.
  unfold keep_from. rewrite filter_cons. destruct (decide (cutoff <= LedgerSequence l)) as [Hle|Hgt].
  - rewrite fmap_cons. cbn [concat]. f_equal. apply filter_all. intros en Hen.
    by rewrite (ledger_log_ledger l).
  - rewrite filter_none; [done|]. intros en Hen. by rewrite (ledger_log_ledger l).
Qed.

Lemma trim_represents cutoff t t' ls : represents t ls -> trim_tables cutoff t t' ->
  event_log t' (filter (fun en => cutoff <= Ledger (en_cursor en)) (concat (ledger_log <$> ls))) ->
  represents t' (keep_from cutoff ls).
Proof.
  intros [Hk Hl Htx Hev] (HL & HT & _) Hlog.
  assert (ledgers_keyed t') as Hk'.
  { intros k l. rewrite HL. intros [Hkl _]%map_lookup_filter_Some. by apply Hk. }
  constructor; [done| | |by rewrite <- filter_log].
  - apply seq_lt_unique.
    + by apply ledger_rows_sorted.
    + unfold keep_from. rewrite <- Hl. clear -Hk. pose proof (ledger_rows_sorted (fun _ => true) t Hk) as Hs.
      fold (all_ledgers t) in Hs. induction Hs as [|x l Hs IH Hx]; [constructor|].
      rewrite filter_cons. destruct (decide _); [|done]. constructor; [done|].
      apply Forall_forall. intros y [_ Hy]%list_elem_of_filter. rewrite Forall_forall in Hx. by apply Hx.
    + intros l. rewrite elem_of_all_ledgers by done. unfold keep_from.
      rewrite list_elem_of_filter, <- Hl, elem_of_all_ledgers, HL, map_lookup_filter_Some by done.
      simpl. split; intros [? ?]; split; (done || lia).
  - intros h r. rewrite HT, map_lookup_filter_Some, Htx. simpl. unfold keep_from. split.
    + intros [(lcm & j & tx & Hin & Hj & Hh & ->) Hc]. simpl in Hc. exists lcm, j, tx.
      split_and!; try done. apply list_elem_of_filter. split; [lia|done].
    + intros (lcm & j & tx & [Hc Hin]%list_elem_of_filter & Hj & Hh & ->). split; [|simpl; lia].
      by exists lcm, j, tx.
Qed.

(** For consecutive ledgers ending at [seq], keeping those above
    [seq - retention] is keeping the last [retention]. *)
Lemma consecutive_nth ls i j a b : consecutive ls -> ls !! i = Some a -> ls !! j = Some b -> (i <= j)%nat ->
  LedgerSequence b = LedgerSequence a + Z.of_nat (j - i).
Proof.
  intros Hc Ha. revert b. induction j as [|j IH]; intros b Hb Hij.
  - replace i with 0%nat in Ha by lia. simpl in *. rewrite Ha in Hb. injection Hb as ->.
    replace (0 - i)%nat with 0%nat by lia. lia.
  - destruct (decide (i = S j)) as [->|].
    + rewrite Ha in Hb. injection Hb as ->. replace (S j - S j)%nat with 0%nat by lia. lia.
    + destruct (lookup_lt_is_Some_2 ls j) as [c Hc']; [apply lookup_lt_Some in Hb; lia|].
      rewrite (Hc j c b Hc' Hb), (IH c Hc') by lia. lia.
Qed.

Lemma keep_from_lastn ls l n : consecutive (ls ++ [l]) ->
  keep_from (LedgerSequence l + 1 - Z.of_nat n) (ls ++ [l]) = lastn n (ls ++ [l]).
Proof.
  intros Hc. set (all := ls ++ [l]) in *.
  assert (all !! length ls = Some l) as Hlast by (unfold all; by rewrite list_lookup_middle).
  assert (length all = S (length ls)) as Hlen by (unfold all; rewrite length_app; simpl; lia).
  unfold lastn, keep_from. set (k := (length all - n)%nat).
  rewrite <- (take_drop k all) at 1. rewrite filter_app, filter_none, filter_all; [done| |].
  - intros x [i Hi]%list_elem_of_lookup. rewrite lookup_drop in Hi. apply lookup_lt_Some in Hi as Hlt.
    pose proof (consecutive_nth all (k + i) (length ls) x l Hc Hi Hlast ltac:(lia)). lia.
  - intros x [i Hi]%list_elem_of_lookup. apply lookup_lt_Some in Hi as Hlt. rewrite length_take in Hlt.
    rewrite lookup_take_lt in Hi by lia.
    pose proof (consecutive_nth all i (length ls) x l Hc Hi Hlast ltac:(lia)). lia.
Qed.

Lemma consecutive_drop ls k : consecutive ls -> consecutive (drop k ls).
Proof. intros Hc i a b. rewrite !lookup_drop, Nat.add_succ_r. apply Hc. Qed.

Lemma last_lastn {A} n (ls : list A) l : (0 < n)%nat -> last (lastn n (ls ++ [l])) = Some l.
Proof.
  intros Hn. unfold lastn. rewrite length_app. simpl. rewrite drop_app_le by lia. apply last_snoc.
Qed.

(** ** Inserting a ledger *)

(** The three writers, in the order of ingestion. *)
Definition store_ledger (rw : readWriter) (lcm : LedgerCloseMeta) : st DB unit :=
  _ ← InsertLedger lcm;
  _ ← InsertTransactions (TransactionWriter rw) lcm;
  InsertEvents (EventWriter rw) lcm.

Lemma tx_log_sorted lcm tx : tx_fine lcm tx -> StronglySorted cursor_lt (tx_log lcm tx).
Proof.
  intros Hf. unfold tx_log. destruct (tx_Successful tx) eqn:Es; [|constructor].
  destruct (Hf Es) as (_ & _ & te & rows & -> & Hlen & _). unfold u32max, zlen in Hlen.
  apply StronglySorted_by_index. intros i j a b Ha Hb Hij.
  apply tx_entries_lookup in Ha as (ea & Ha & ->). apply tx_entries_lookup in Hb as (eb & Hb & ->).
  apply lookup_lt_Some in Ha, Hb. unfold cursor_lt. apply Cmp_lt_iff. simpl.
  rewrite !u32_small by (unfold is_u32; lia). lia.
Qed.

Lemma ledger_log_sorted lcm : ledger_fine lcm -> StronglySorted cursor_lt (ledger_log lcm).
Proof.
  intros (Hdec & _ & Hf). unfold ledger_log.
  assert (forall i tx, ledger_txs lcm !! i = Some tx -> tx_Index tx = Z.of_nat i + 1) as Hix
    by (intros i tx; by apply lcm_index).
  revert Hf Hix. generalize (ledger_txs lcm) as txs.
  induction txs as [|tx txs IH] using rev_ind; intros Hf Hix; [constructor|].
  rewrite fmap_app, concat_app. apply Forall_app in Hf as [Hf Htx]. inversion Htx as [|? ? Htx' _]; subst.
  apply StronglySorted_app_2.
  - intros a b (l & Ha & (tx' & -> & Htx'')%list_elem_of_fmap)%elem_of_concat Hb.
    simpl in Hb. rewrite app_nil_r in Hb.
    destruct (tx_log_positions _ _ _ Ha) as [La Ta], (tx_log_positions _ _ _ Hb) as [Lb Tb].
    apply list_elem_of_lookup in Htx'' as [i Hi]. apply lookup_lt_Some in Hi as Hlt.
    pose proof (Hix i tx' ltac:(by apply lookup_app_l_Some)) as E1.
    pose proof (Hix (length txs) tx ltac:(by apply list_lookup_middle)) as E2.
    apply Cmp_lt_iff. lia.
  - apply IH; [done|]. intros i tx' Hi. apply Hix. by apply lookup_app_l_Some.
  - simpl. rewrite app_nil_r. by apply tx_log_sorted.
Qed.

Lemma cursor_lt_unique (l l' : list entry) : StronglySorted cursor_lt l -> StronglySorted cursor_lt l' ->
  l ≡ₚ l' -> l = l'.
Proof.
  intros Hs Hs' Hp. apply (StronglySorted_unique_strong cursor_lt l l'); [|done..].
  intros x y _ _ H1 H2. unfold cursor_lt in *. rewrite Cmp_antisym in H2. lia.
Qed.

Definition no_driver_errors : Prop := forall name t, drv_error name t = None.

Lemma InsertLedger_spec lcm w : no_driver_errors -> ledger_close_meta (view w) !! LedgerSequence lcm = None ->
  InsertLedger lcm w = (Ok tt, set_view (set_ledgers (insert (LedgerSequence lcm) lcm) (view w)) w).
Proof. intros Hd Hn. unfold InsertLedger, Exec. rewrite Hd. simpl. by rewrite Hn. Qed.

Lemma all_ledgers_insert t ls lcm : ledgers_keyed t -> all_ledgers t = ls ->
  Forall (fun l => LedgerSequence l < LedgerSequence lcm) ls ->
  let t' := set_ledgers (insert (LedgerSequence lcm) lcm) t in
  ledgers_keyed t' /\ all_ledgers t' = ls ++ [lcm].
Proof.
  intros Hk Hl HF t'. assert (ledgers_keyed t') as Hk'.
  { intros k l. subst t'. simpl. rewrite lookup_insert_Some. intros [[<- <-]|[_ Hkl]]; [done|by apply Hk]. }
  split; [done|]. apply seq_lt_unique.
  - by apply ledger_rows_sorted.
  - apply StronglySorted_app_2.
    + intros a b Ha Hb%list_elem_of_singleton. subst b. rewrite Forall_forall in HF. by apply HF.
    + rewrite <- Hl. by apply ledger_rows_sorted.
    + repeat constructor.
  - intros l. rewrite elem_of_all_ledgers, elem_of_app, list_elem_of_singleton by done. subst t'. simpl.
    rewrite lookup_insert_Some, <- Hl, elem_of_all_ledgers by done. split.
    + intros [[_ ->]|[_ H]]; [by right|by left].
    + intros [H| ->]; [right|by left]. split; [|done]. intros E.
      assert (l ∈ ls) as Hin by (rewrite <- Hl; by apply elem_of_all_ledgers).
      rewrite Forall_forall in HF. specialize (HF _ Hin). lia.
Qed.

(** The transaction index and the event log of a list of ledgers. *)
Definition indexes_tx (m : gmap string tx_row) (ls : list LedgerCloseMeta) : Prop :=
  forall h r, m !! h = Some r <->
    exists lcm j tx, lcm ∈ ls /\ ledger_txs lcm !! j = Some tx /\ h ∈ tx_keys tx /\
      r = mkTxRow (LedgerSequence lcm) (Z.of_nat j + 1).
Definition indexes_events (t : Tables) (ls : list LedgerCloseMeta) : Prop :=
  event_log t (concat (ledger_log <$> ls)).

Lemma index_tx_step lcm w ls : no_driver_errors -> ledger_fine lcm ->
  indexes_tx (transactions (view w)) ls ->
  (forall l h, l ∈ ls -> h ∈ keys_of l -> h ∉ keys_of lcm) ->
  exists m, InsertTransactions (mkTransactionHandler true passphrase) lcm w =
      (Ok tt, set_view (set_transactions (fun _ => m) (view w)) w) /\ indexes_tx m (ls ++ [lcm]).
Proof.
  intros Hd (Hdec & Hnd & _) Htx Hfresh.
  destruct (InsertTransactions_spec lcm w Hd Hdec Hnd) as (m & Hrun & Hin & Hout).
  { intros h Hh. destruct (transactions (view w) !! h) as [r|] eqn:E; [exfalso|done].
    apply Htx in E as (l & j & tx & Hin & Hj & Hh' & _). apply (Hfresh l h Hin); [|done].
    apply elem_of_keys. eauto. }
  exists m. split; [done|]. intros h r. destruct (decide (h ∈ keys_of lcm)) as [Hh|Hh].
  - pose proof Hh as (j & tx & Hj & Hht)%elem_of_keys. rewrite (Hin j tx h Hj Hht). split.
    + intros [= <-]. exists lcm, j, tx. set_solver.
    + intros (l & j' & tx' & [Hl'|Hl']%elem_of_app & Hj' & Hh' & ->).
      { exfalso. apply (Hfresh l h Hl'); [|done]. apply elem_of_keys. eauto. }
      apply list_elem_of_singleton in Hl' as ->. specialize (Hin j' tx' h Hj' Hh') as E1.
      rewrite (Hin j tx h Hj Hht) in E1. done.
  - rewrite Hout, (Htx h r) by done. split.
    + intros (l & j & tx & Hl' & ?). exists l, j, tx. set_solver.
    + intros (l & j & tx & [Hl'|Hl']%elem_of_app & Hj & Hh' & Hr); [by exists l, j, tx|].
      apply list_elem_of_singleton in Hl' as ->. exfalso. apply Hh, elem_of_keys. eauto.
Qed.

Lemma index_events_step lcm w ls : no_driver_errors -> ledger_fine lcm ->
  indexes_events (view w) ls -> Forall (fun l => LedgerSequence l < LedgerSequence lcm) ls ->
  exists m, InsertEvents (mkEventHandler true passphrase) lcm w =
      (Ok tt, set_view (set_events (fun _ => m) (view w)) w) /\
    indexes_events (set_events (fun _ => m) (view w)) (ls ++ [lcm]).
Proof.
  intros Hd Hfine Hev Hseq. pose proof Hfine as (Hdec & _ & Hf).
  destruct (InsertEvents_spec lcm w (concat (ledger_log <$> ls)) Hd Hdec Hf Hev) as (me & es' & Hrun & Hpe & Hle).
  { apply Forall_forall. intros b (l & Hb & (l' & -> & Hl')%list_elem_of_fmap)%elem_of_concat.
    rewrite (ledger_log_ledger l') by done. rewrite Forall_forall in Hseq. specialize (Hseq _ Hl'). lia. }
  exists me. split; [done|].
  assert (es' = concat (ledger_log <$> ls) ++ ledger_log lcm) as ->.
  { apply cursor_lt_unique; [by eapply event_log_sorted| |done]. apply StronglySorted_app_2.
    - intros a b (l & Ha & (l' & -> & Hl')%list_elem_of_fmap)%elem_of_concat Hb%ledger_log_ledger.
      apply ledger_log_ledger in Ha. apply Cmp_lt_iff. rewrite Forall_forall in Hseq.
      specialize (Hseq _ Hl'). lia.
    - by eapply event_log_sorted.
    - by apply ledger_log_sorted. }
  unfold indexes_events. rewrite fmap_app, concat_app. cbn [fmap list_fmap concat]. by rewrite app_nil_r.
Qed.

Lemma store_ledger_spec rw lcm w ls : no_driver_errors -> rw_passphrase rw = passphrase ->
  represents (view w) ls -> ledger_fine lcm ->
  Forall (fun l => LedgerSequence l < LedgerSequence lcm) ls ->
  (forall l h, l ∈ ls -> h ∈ keys_of l -> h ∉ keys_of lcm) ->
  exists t', store_ledger rw lcm w = (Ok tt, set_view t' w) /\ represents t' (ls ++ [lcm]) /\
    metadata t' = metadata (view w).
Proof.
  intros Hd Hp Hrep Hfine Hseq Hfresh. pose proof Hrep as [Hk Hl Htx Hev].
  unfold store_ledger, TransactionWriter, EventWriter. rewrite Hp. unfold mbind, st_bind.
  rewrite InsertLedger_spec; [|done|].
  2: { destruct (ledger_close_meta (view w) !! LedgerSequence lcm) as [l|] eqn:E; [exfalso|done].
       pose proof (Hk _ _ E) as El. rewrite <- El in E. apply elem_of_all_ledgers in E; [|done].
       rewrite Hl in E. rewrite Forall_forall in Hseq. specialize (Hseq _ E). lia. }
  destruct (all_ledgers_insert (view w) ls lcm Hk Hl Hseq) as [Hk1 Hl1].
  set (w1 := set_view _ w).
  assert (view w1 = set_ledgers (insert (LedgerSequence lcm) lcm) (view w)) as Hv1 by apply view_set_view.
  destruct (index_tx_step lcm w1 ls Hd Hfine) as (m & -> & Hm); [by rewrite Hv1|done|].
  set (w2 := set_view _ w1).
  assert (view w2 = set_transactions (fun _ => m) (view w1)) as Hv2 by apply view_set_view.
  destruct (index_events_step lcm w2 ls Hd Hfine) as (me & -> & Hme); [by rewrite Hv2, Hv1|done|].
  rewrite Hv2, Hv1 in *. eexists. split; [by destruct w as [[] ? ? [[]|]]|]. split; [|done].
  constructor; [exact Hk1|exact Hl1|exact Hm|exact Hme].
Qed.

(** ** Committing *)

Lemma u32_cutoff latest retention : 0 <= latest < 2147483647 -> 0 <= retention < 4294967296 ->
  retention < latest + 1 -> u32 (u32 (latest + 1) - retention) = latest + 1 - retention.
Proof. intros. rewrite (u32_small (latest + 1)) by (unfold is_u32; lia). apply u32_small. unfold is_u32. lia. Qed.

Lemma trimLedgers_spec latest retention w : no_driver_errors ->
  0 <= latest < 2147483647 -> 0 <= retention < 4294967296 ->
  (forall k l, ledger_close_meta (view w) !! k = Some l -> 0 <= k) ->
  trimLedgers latest retention w =
  (Ok tt, set_view (set_ledgers (filter (fun kl => ~ kl.1 < latest + 1 - retention)) (view w)) w).
Proof.
  intros Hd Hl Hr Hpos. unfold trimLedgers. rewrite (u32_small (latest + 1)) by (unfold is_u32; lia).
  destruct (Z.leb_spec (latest + 1) retention).
  - assert (set_ledgers (filter (fun kl => ~ kl.1 < latest + 1 - retention)) (view w) = view w) as ->;
      [|by destruct w as [[] ? ? [[]|]]].
    destruct (view w) as [ml mt me mm]; unfold set_ledgers; simpl in *. f_equal.
    apply map_filter_id. intros k l Hkl. simpl. specialize (Hpos _ _ Hkl). lia.
  - rewrite u32_small by (unfold is_u32; lia). unfold Exec. by rewrite Hd.
Qed.

Lemma trimTransactions_spec latest retention w : no_driver_errors ->
  0 <= latest < 2147483647 -> 0 <= retention < 4294967296 ->
  (forall h r, transactions (view w) !! h = Some r -> 0 <= txr_ledger_sequence r) ->
  trimTransactions latest retention w =
  (Ok tt, set_view (set_transactions (filter (fun hr => ~ txr_ledger_sequence hr.2 < latest + 1 - retention)) (view w)) w).
Proof.
  intros Hd Hl Hr Hpos. unfold trimTransactions. rewrite (u32_small (latest + 1)) by (unfold is_u32; lia).
  destruct (Z.leb_spec (latest + 1) retention).
  - assert (set_transactions (filter (fun hr => ~ txr_ledger_sequence hr.2 < latest + 1 - retention)) (view w) = view w) as ->;
      [|by destruct w as [[] ? ? [[]|]]].
    destruct (view w) as [ml mt me mm]; unfold set_transactions; simpl in *. f_equal.
    apply map_filter_id. intros k l Hkl. simpl. specialize (Hpos _ _ Hkl). lia.
  - rewrite u32_small by (unfold is_u32; lia). unfold Exec. by rewrite Hd.
Qed.

(** Committing keeps the last ledgers, publishes the transaction's tables and
    points the cache at the committed ledger. *)
(** What [Commit] does inside of the transaction. *)
Definition trim (rw : readWriter) (ledgerSeq : Z) : st DB unit :=
  _ ← trimLedgers ledgerSeq (historyRetentionWindow rw);
  _ ← trimTransactions ledgerSeq (historyRetentionWindow rw);
  trimEvents ledgerSeq (historyRetentionWindow rw).
Lemma Commit_trim rw lcm w :
  Commit rw lcm w = (_ ← trim rw (LedgerSequence lcm);
                     _ ← commitAndUpdateCache (LedgerSequence lcm) (LedgerCloseTime lcm); postCommit) w.
Proof.
  unfold Commit, trim, mbind, st_bind. destruct (trimLedgers _ _ w) as [[[]|?|?] w1]; [|done|done].
  destruct (trimTransactions _ _ w1) as [[[]|?|?] w2]; [|done|done]. by destruct (trimEvents _ _ w2) as [[[]|?|?] w3].
Qed.

Lemma trim_spec rw lcm w t ls : no_driver_errors -> sess_tx w = Some t ->
  represents t (ls ++ [lcm]) -> Forall ledger_fine (ls ++ [lcm]) -> consecutive (ls ++ [lcm]) ->
  LedgerSequence lcm < 2147483647 -> 0 <= historyRetentionWindow rw < 4294967296 ->
  exists t', trim rw (LedgerSequence lcm) w = (Ok tt, set_view t' w) /\
    represents t' (lastn (Z.to_nat (historyRetentionWindow rw)) (ls ++ [lcm])) /\
    metadata t' = metadata t.
Proof.
  intros Hd Hs Hrep Hfine Hc Hseq Hret. set (ret := historyRetentionWindow rw) in *.
  assert (view w = t) as Hv by (unfold view; by rewrite Hs).
  assert (forall l, l ∈ ls ++ [lcm] -> 0 <= LedgerSequence l < 2147483648) as Hpos.
  { intros l Hl. rewrite Forall_forall in Hfine. by apply lcm_seq, (Hfine l Hl). }
  pose proof (Hpos lcm ltac:(set_solver)) as Hlcm.
  set (cutoff := LedgerSequence lcm + 1 - ret).
  unfold trim. fold ret. unfold mbind at 1, st_bind at 1. rewrite trimLedgers_spec; [|done|lia|done|].
  2: { intros k l. rewrite Hv. intros Hk. pose proof (rep_keyed _ _ Hrep k l Hk) as <-.
       apply Hpos. rewrite <- (rep_ledgers _ _ Hrep). apply elem_of_all_ledgers; [|done]. apply Hrep. }
  set (w1 := set_view _ w).
  assert (view w1 = set_ledgers (filter (fun kl => ~ kl.1 < cutoff)) t) as Hv1
    by (unfold w1; by rewrite view_set_view, Hv).
  unfold mbind at 1, st_bind at 1. rewrite trimTransactions_spec; [|done|lia|done|].
  2: { intros h r. rewrite Hv1. simpl. intros (l & j & tx & Hl & _ & _ & ->)%(rep_tx _ _ Hrep). by apply Hpos. }
  set (w2 := set_view _ w1).
  assert (view w2 = set_transactions (filter (fun hr => ~ txr_ledger_sequence hr.2 < cutoff)) (view w1)) as Hv2
    by (unfold w2; by rewrite view_set_view).
  destruct (trimEvents_spec (LedgerSequence lcm) ret w2 (concat (ledger_log <$> (ls ++ [lcm]))) Hd ltac:(lia) Hret)
    as (me & Htrim & Hlog).
  { rewrite Hv2, Hv1. exact (rep_events _ _ Hrep). }
  rewrite Htrim. exists (set_events (fun _ => me) (view w2)). split; [|split; [|by rewrite Hv2, Hv1]].
  { unfold w2, w1, set_view. by rewrite Hs. }
  rewrite <- (Z2Nat.id ret) in Hlog by lia.
  rewrite <- (keep_from_lastn ls lcm (Z.to_nat ret) Hc). rewrite Z2Nat.id by lia. fold cutoff.
  eapply trim_represents; [exact Hrep| |].
  - rewrite Hv2, Hv1. split_and!; done.
  - rewrite Z2Nat.id in Hlog by lia. exact Hlog.
Qed.

Lemma Commit_spec rw lcm w t ls : no_driver_errors -> sess_tx w = Some t ->
  represents t (ls ++ [lcm]) -> Forall ledger_fine (ls ++ [lcm]) -> consecutive (ls ++ [lcm]) ->
  LedgerSequence lcm < 2147483647 -> 0 <= historyRetentionWindow rw < 4294967296 ->
  exists t', Commit rw lcm w = (Ok tt, mkDB t' (LedgerSequence lcm) (LedgerCloseTime lcm) None) /\
    represents t' (lastn (Z.to_nat (historyRetentionWindow rw)) (ls ++ [lcm])) /\
    metadata t' = metadata t.
Proof.
  intros Hd Hs Hrep Hfine Hc Hseq Hret. destruct (trim_spec rw lcm w t ls) as (t' & Htrim & Hrep' & Hmd); [done..|].
  exists t'. split; [|done]. rewrite Commit_trim. unfold mbind, st_bind. rewrite Htrim.
  unfold commitAndUpdateCache, session_Commit, modify, mbind, st_bind, postCommit, set_view. rewrite Hs. cbn [sess_tx]. by rewrite !Hd.
Qed.
End WriteTx.
