(* ===== verification/Schema.v ===== *)
(** * Opening the database ([internal/db/db.go], [internal/db/sqlmigrations])

    The SQLite file with its schema, the schema migrations embedded in the binary,
    and the opening of a session, which runs the migrations the file does not have
    yet.  [sql-migrate] and the driver are parameters. *)

From S2P Require Import Prelude GoStd Externals LedgerMeta Store LedgerStore EventStore TxStore WriteTx.

(** ** The statements of the migrations *)

Inductive col_type := INTEGER | TEXT | BLOB.
Record column := mkColumn { col_name : string; col_ty : col_type; col_not_null : bool; col_primary_key : bool }.

Inductive statement :=
  | CreateTable (name : string) (cols : list column)
  | CreateIndex (name table : string) (cols : list string)
  | DropTable (name : string)
  | DeleteMetadata (key : string).

Section Schema.
Context `{V : ScVals} {D : Ledgers} {Drv : Driver}.

(** A database file: its tables and indexes, the rows of the tables the program
    uses, those of [ledger_entries], which only older releases used, and the
    migrations recorded by [sql-migrate]. *)
Record File := mkFile {
  schema : gmap string (list column);
  indexes : gmap string (string * list string);
  content : Tables;
  ledger_entries : gmap string string;
  applied : list string;
}.
Definition new_file : File := mkFile ∅ ∅ no_tables ∅ [].

(** The rows of a table that is created or dropped. *)
Definition clear (name : string) (t : Tables) : Tables :=
  if String.eqb name "ledger_close_meta" then set_ledgers (fun _ => ∅) t
  else if String.eqb name "transactions" then set_transactions (fun _ => ∅) t
  else if String.eqb name "events" then set_events (fun _ => ∅) t
  else if String.eqb name "metadata" then set_metadata (fun _ => ∅) t
  else t.
Definition clear_entries (name : string) (m : gmap string string) : gmap string string :=
  if String.eqb name "ledger_entries" then ∅ else m.

Definition taken (name : string) (f : File) : bool :=
  bool_decide (is_Some (schema f !! name) \/ is_Some (indexes f !! name)).

(** One statement; the error texts are SQLite's. *)
Definition exec_statement (s : statement) (f : File) : go File :=
  match s with
  | CreateTable name cols =>
      if taken name f then Er (EExt "already exists")
      else Ok (mkFile (<[name := cols]> (schema f)) (indexes f) (clear name (content f))
                 (clear_entries name (ledger_entries f)) (applied f))
  | CreateIndex name table cols =>
      match schema f !! table with
      | None => Er (EExt "no such table")
      | Some tcols =>
          if taken name f then Er (EExt "already exists")
          else if forallb (fun c => bool_decide (c ∈ col_name <$> tcols)) cols
          then Ok (mkFile (schema f) (<[name := (table, cols)]> (indexes f)) (content f) (ledger_entries f) (applied f))
          else Er (EExt "no such column")
      end
  | DropTable name =>
      match schema f !! name with
      | None => Er (EExt "no such table")
      | Some _ =>
          Ok (mkFile (delete name (schema f)) (filter (fun p => p.2.1 <> name) (indexes f))
                (clear name (content f)) (clear_entries name (ledger_entries f)) (applied f))
      end
  | DeleteMetadata key =>
      match schema f !! "metadata"%string with
      | None => Er (EExt "no such table")
      | Some _ => Ok (mkFile (schema f) (indexes f) (set_metadata (delete key) (content f)) (ledger_entries f) (applied f))
      end
  end.

Fixpoint exec_statements (ss : list statement) (f : File) : go File :=
  match ss with
  | [] => Ok f
  | s :: ss' => f' ← exec_statement s f; exec_statements ss' f'
  end.

(** A script: its statements and its record, in one transaction. *)
Definition script : Type := string * list statement.
Definition record (id : string) (f : File) : File :=
  mkFile (schema f) (indexes f) (content f) (ledger_entries f) (applied f ++ [id]).
Definition apply_script (s : script) (f : File) : go File :=
  f' ← exec_statements s.2 f; Ok (record s.1 f').
Fixpoint apply_scripts (l : list script) (f : File) : go File :=
  match l with
  | [] => Ok f
  | s :: l' => f' ← apply_script s f; apply_scripts l' f'
  end.
End Schema.
Arguments File {V D}.

(** ** The embedded scripts

    The [Up] part of each; the [Down] parts are never run. *)

Definition col (name : string) (ty : col_type) : column := mkColumn name ty false false.
Definition col_nn (name : string) (ty : col_type) : column := mkColumn name ty true false.

(** [01_init.sql] *)
Definition init_sql : list statement :=
  [CreateTable "ledger_entries" [mkColumn "key" BLOB true true; col_nn "entry" BLOB];
   CreateTable "metadata" [mkColumn "key" TEXT true true; col_nn "value" TEXT];
   CreateTable "ledger_close_meta" [mkColumn "sequence" INTEGER true true; col_nn "meta" BLOB]]%string.
(** [02_transactions.sql] *)
Definition transactions_sql : list statement :=
  [CreateTable "transactions"
     [mkColumn "hash" BLOB false true; col_nn "ledger_sequence" INTEGER; col_nn "application_order" INTEGER];
   CreateIndex "index_ledger_sequence" "transactions" ["ledger_sequence"]]%string.
(** [03_events.sql] *)
Definition events_sql : list statement :=
  [CreateTable "events"
     [mkColumn "id" TEXT false true; col "contract_id" BLOB; col_nn "event_type" INTEGER; col_nn "event_data" BLOB;
      col_nn "ledger_close_time" INTEGER; col "transaction_hash" BLOB;
      col "topic1" BLOB; col "topic2" BLOB; col "topic3" BLOB; col "topic4" BLOB];
   CreateIndex "idx_contract_id" "events" ["contract_id"];
   CreateIndex "idx_topic1" "events" ["topic1"]]%string.
(** [04_metadata.sql] *)
Definition metadata_sql : list statement := [DeleteMetadata "LatestLedgerSequence"].
(** [05_drop_ledger_entries.sql] *)
Definition drop_ledger_entries_sql : list statement := [DropTable "ledger_entries"].

(** [//go:embed sqlmigrations/*.sql]: the files of the directory, by name. *)
Definition sqlMigrations : list script :=
  [("01_init.sql", init_sql); ("02_transactions.sql", transactions_sql); ("03_events.sql", events_sql);
   ("04_metadata.sql", metadata_sql); ("05_drop_ledger_entries.sql", drop_ledger_entries_sql)]%string.

Definition ErrNotExist : err := ESentinel "file does not exist".
Definition embed_ReadDir (path : string) : go (list string) :=
  if String.eqb path "sqlmigrations" then Ok sqlMigrations.*1 else Er ErrNotExist.
Definition embed_ReadFile (path : string) : go (list statement) :=
  match list_find (fun f => "sqlmigrations/" +:+ f.1 = path)%string sqlMigrations with
  | Some (_, f) => Ok f.2
  | None => Er ErrNotExist
  end.

(** ** [sql-migrate] *)

Record AssetMigrationSource := mkAssets {
  Asset : string -> go (list statement);
  AssetDir : string -> go (list string);
  Dir : string;
}.
Inductive MigrationDirection := Up | Down.

Class SqlMigrate `{V : ScVals} {D : Ledgers} :=
  { ExecMax : string -> AssetMigrationSource -> MigrationDirection -> Z -> st File Z }.

(** The scripts of a source, in the order of its directory. *)
Definition listed (src : AssetMigrationSource) : go (list script) :=
  names ← AssetDir src (Dir src);
  mapM (fun name => body ← Asset src (Dir src +:+ "/" +:+ name)%string; Ok (name, body)) names.

(** What its documentation promises of [ExecMax(db, dialect, src, Up, 0)] on a file that has the
    first of the scripts: each of the others runs in a transaction of its own, in
    order, until one fails; without a failure all of them run. *)
Class SqlMigrateLaws `{V : ScVals} {D : Ledgers} {Drv : Driver} (SM : SqlMigrate) := {
  em_transactions dialect src scripts k f r f' :
    listed src = Ok scripts -> StronglySorted (fun a b => String.ltb a b = true) scripts.*1 ->
    applied f = take k scripts.*1 -> ExecMax dialect src Up 0 f = (r, f') ->
    exists n, apply_scripts (take n (drop k scripts)) f = Ok f' /\
      match r with Ok c => c = Z.of_nat n /\ n = length (drop k scripts) | Er _ => True | Panic _ => False end;
  em_runs dialect src scripts k f f' :
    listed src = Ok scripts -> StronglySorted (fun a b => String.ltb a b = true) scripts.*1 ->
    applied f = take k scripts.*1 -> no_driver_errors -> apply_scripts (drop k scripts) f = Ok f' ->
    exists c, ExecMax dialect src Up 0 f = (Ok c, f');
}.

(** ** Opening a session *)

Section Open.
Context `{V : ScVals} {D : Ledgers} {Drv : Driver} {SM : SqlMigrate}.

(** The files by data source, and the sessions that are open. *)
Record Process := mkProcess { files : gmap string File; sessions : list string }.

(** [support/db]'s [Open] with the driver's answer; the driver creates a file that
    does not exist. *)
Class SqlOpen := { sql_open_error : string -> string -> Process -> option err }.
Context {SO : SqlOpen}.

Definition file_of (source : string) (p : Process) : File := default new_file (files p !! source).
Definition db_Open (driver source : string) : st Process string := fun p =>
  match sql_open_error driver source p with
  | Some e => (Er e, p)
  | None => (Ok source, mkProcess (<[source := file_of source p]> (files p)) (source :: sessions p))
  end.
Definition session_Close (source : string) : st Process unit :=
  modify (fun p => mkProcess (files p) (match list_find (eq source) (sessions p) with
                                        | Some (i, _) => delete i (sessions p)
                                        | None => sessions p
                                        end)).

(** A call on the file of a session. *)
Definition on_file {A} (session : string) (m : st File A) : st Process A := fun p =>
  let '(r, f) := m (file_of session p) in (r, mkProcess (<[session := f]> (files p)) (sessions p)).

Definition migration_source : AssetMigrationSource :=
  mkAssets embed_ReadFile
    (fun path => dirEntry ← embed_ReadDir path; Ok (fold_left (fun entries e => entries ++ [e]) dirEntry []))
    "sqlmigrations".
Definition runSQLMigrations (session dialect : string) : st Process unit :=
  _ ← on_file session (ExecMax dialect migration_source Up 0); mret tt.

Definition data_source (dbFilePath : string) : string :=
  ("file:" +:+ dbFilePath +:+ "?_journal_mode=WAL&_wal_autocheckpoint=0&_synchronous=NORMAL")%string.
Definition openSQLiteDB (dbFilePath : string) : st Process string :=
  session ← wrap_err (EWrap "open failed: %w" []) (db_Open "sqlite3" (data_source dbFilePath));
  r ← attempt (runSQLMigrations session "sqlite3");
  match r with
  | Er e => _ ← attempt (session_Close session); lift (Er (EWrap "could not run SQL migrations: %w" [] e))
  | _ => mret session
  end.

(** The session over the rows of the file, with an empty cache; the metrics it is
    wrapped in are those of the daemon's registry. *)
Definition OpenSQLiteDBWithPrometheusMetrics (dbFilePath : string) : st Process DB :=
  session ← openSQLiteDB dbFilePath;
  p ← get_st;
  mret (OpenSQLiteDB (content (file_of session p))).
End Open.
Arguments Process {V D}.
Arguments SqlOpen {V D}.

(** ** The queries of the program on the schema *)

(** An [INSERT] names the columns it fills, or gives a value for all of them in the
    order of the table; [in_nil] are the columns that can be given a nil slice. *)
Record insertion := mkInsertion {
  in_table : string;
  in_columns : option (list string);
  in_values : nat;
  in_nil : list string;
}.
Definition InsertLedger_query : insertion := mkInsertion ledgerCloseMetaTableName None 2 [].
Definition InsertTransactions_query : insertion :=
  mkInsertion "transactions" (Some ["hash"; "ledger_sequence"; "application_order"]%string) 3 [].
Definition InsertEvents_query : insertion :=
  mkInsertion "events" (Some ["id"; "contract_id"; "event_type"; "event_data"; "ledger_close_time";
    "transaction_hash"; "topic1"; "topic2"; "topic3"; "topic4"]%string) 10
    ["contract_id"; "topic1"; "topic2"; "topic3"; "topic4"]%string.
Definition setMetaBool_query : insertion := mkInsertion metaTableName None 2 [].

(** A [SELECT]: the columns it names, with their tables, in the result, the
    conditions and the order. *)
Definition selection : Type := list (string * string).
Definition getMetaValue_query : selection := [(metaTableName, "value"); (metaTableName, "key")]%string.
Definition GetLedger_query : selection := [(ledgerCloseMetaTableName, "meta"); (ledgerCloseMetaTableName, "sequence")]%string.
Definition getTransactionByHash_query : selection :=
  [("transactions", "application_order"); (ledgerCloseMetaTableName, "meta"); ("transactions", "ledger_sequence");
   (ledgerCloseMetaTableName, "sequence"); ("transactions", "hash")]%string.
Definition GetEvents_query (ntopics : nat) : selection :=
  List.map (pair "events"%string) (["id"; "event_data"; "transaction_hash"; "ledger_close_time"; "contract_id"; "event_type"]%string ++
    List.map (fun i => "topic" +:+ Itoa (Z.of_nat i + 1))%string (seq 0 ntopics)).

Definition insertion_fits (sch : gmap string (list column)) (q : insertion) : bool :=
  match sch !! in_table q with
  | None => false
  | Some cols =>
      let filled := default (col_name <$> cols) (in_columns q) in
      (length filled =? in_values q)%nat && bool_decide (NoDup filled) &&
      forallb (fun c => bool_decide (c ∈ col_name <$> cols)) filled &&
      forallb (fun c => negb (col_not_null c) || (bool_decide (col_name c ∈ filled) && negb (bool_decide (col_name c ∈ in_nil q)))) cols
  end.
Definition selection_fits (sch : gmap string (list column)) (q : selection) : bool :=
  forallb (fun '(t, c) => match sch !! t with
                          | Some cols => bool_decide (c ∈ col_name <$> cols)
                          | None => false
                          end) q.

(** ** The versions of a file *)

Section Versions.
Context `{V : ScVals} {D : Ledgers}.

(** What a statement does to the schema does not depend on the rows; to them it
    does this. *)
Definition stmt_content (s : statement) (t : Tables) : Tables :=
  match s with
  | CreateTable name _ | DropTable name => clear name t
  | CreateIndex _ _ _ => t
  | DeleteMetadata key => set_metadata (delete key) t
  end.
Definition stmt_entries (s : statement) (m : gmap string string) : gmap string string :=
  match s with
  | CreateTable name _ | DropTable name => clear_entries name m
  | _ => m
  end.
Definition shape (f : File) : File := mkFile (schema f) (indexes f) no_tables ∅ (applied f).
Definition with_rows (g : File) (t : Tables) (m : gmap string string) : File :=
  mkFile (schema g) (indexes g) t m (applied g).

(** Two files with the same tables, indexes and records. *)
Definition alike (f g : File) : Prop := schema f = schema g /\ indexes f = indexes g /\ applied f = applied g.

Lemma exec_statement_split s f f0 g : alike f f0 -> exec_statement s f0 = Ok g ->
  exec_statement s f = Ok (with_rows g (stmt_content s (content f)) (stmt_entries s (ledger_entries f))).
Proof.
  intros (Es & Ei & Ea). destruct s; cbn [exec_statement]; unfold taken; rewrite Es, Ei;
    repeat case_match; intros [= <-]; unfold with_rows; cbn; congruence.
Qed.

Lemma exec_statements_split ss f f0 g : alike f f0 -> exec_statements ss f0 = Ok g ->
  exec_statements ss f = Ok (with_rows g (fold_left (fun t s => stmt_content s t) ss (content f))
    (fold_left (fun m s => stmt_entries s m) ss (ledger_entries f))).
Proof.
  revert f f0. induction ss as [|s ss IH]; intros f f0 Ha; cbn.
  - intros [= <-]. destruct Ha as (Es & Ei & Ea), f. unfold with_rows. cbn in *. congruence.
  - intros (g1 & E1 & E)%go_bind_ok. rewrite (exec_statement_split s f f0 g1 Ha E1). cbn.
    apply (IH (with_rows g1 _ _) g1); done.
Qed.

(** The file after the first [k] scripts. *)
Definition schema_at (k : nat) : File :=
  match apply_scripts (take k sqlMigrations) new_file with Ok f => f | _ => new_file end.

Lemma apply_scripts_app l l' f : apply_scripts (l ++ l') f = (f' ← apply_scripts l f; apply_scripts l' f').
Proof. revert f. induction l as [|s l IH]; intros f; cbn; [done|]. destruct (apply_script s f); cbn; [apply IH|done..]. Qed.

(** Every script runs on the file the ones before it leave. *)
Lemma schema_at_next k s : sqlMigrations !! k = Some s -> apply_script s (schema_at k) = Ok (schema_at (S k)).
Proof.
  intros Hs. assert (forall j, (j <= 5)%nat -> apply_scripts (take j sqlMigrations) new_file = Ok (schema_at j)) as Hok.
  { intros j Hj. unfold schema_at. assert (is_ok (apply_scripts (take j sqlMigrations) new_file) = true) as Ht.
    { destruct j as [|[|[|[|[|[|j]]]]]]; [vm_compute; reflexivity..|lia]. }
    by destruct (apply_scripts _ _). }
  pose proof (lookup_lt_Some _ _ _ Hs) as Hk. cbn in Hk. pose proof (Hok (S k) Hk) as Hn.
  rewrite (take_S_r _ _ _ Hs), apply_scripts_app, Hok in Hn by lia. cbn in Hn. by destruct (apply_script s _).
Qed.

(** A file on which the first [k] scripts have run, whatever its tables hold. *)
Record at_version (k : nat) (f : File) : Prop := {
  av_bound : (k <= length sqlMigrations)%nat;
  av_alike : alike f (schema_at k);
  av_init : k = 0%nat -> ledger_close_meta (content f) = ∅ /\ metadata (content f) = ∅;
  av_transactions : (k < 2)%nat -> transactions (content f) = ∅;
  av_events : (k < 3)%nat -> events (content f) = ∅;
  av_entries : k = 0%nat \/ k = 5%nat -> ledger_entries f = ∅;
}.

(** The rows after the scripts from [k] to [m]: the fourth forgets the latest
    ledger older releases kept. *)
Definition upgraded (k m : nat) (t : Tables) : Tables :=
  if ((k <=? 3) && (3 <? m))%nat then set_metadata (delete "LatestLedgerSequence"%string) t else t.

Lemma apply_script_next k s f : at_version k f -> sqlMigrations !! k = Some s ->
  exists f', apply_script s f = Ok f' /\ at_version (S k) f' /\ content f' = upgraded k (S k) (content f).
Proof.
  intros [_ Ha Hinit Htx Hev Hent] Hs.
  pose proof (schema_at_next k s Hs) as Hnext. unfold apply_script in Hnext. apply go_bind_ok in Hnext as (g & Hg & [= Hgn]).
  unfold apply_script. rewrite (exec_statements_split s.2 f (schema_at k) g Ha Hg). cbn [mbind go_bind].
  eexists. split; [reflexivity|].
  assert (fold_left (fun t s => stmt_content s t) s.2 (content f) = upgraded k (S k) (content f)) as Ec.
  { destruct (content f) as [lm tx ev md]. cbn in Hinit, Htx, Hev.
    destruct k as [|[|[|[|[|k]]]]]; try discriminate Hs; injection Hs as <-; cbn.
    - by destruct (Hinit eq_refl) as [-> ->].
    - by rewrite Htx by lia.
    - by rewrite Hev by lia.
    - done.
    - done. }
  rewrite Ec. split; [|done]. constructor; cbn [record with_rows content ledger_entries].
  - exact (lookup_lt_Some _ _ _ Hs).
  - by rewrite <- Hgn.
  - lia.
  - intros Hk. unfold upgraded. case_match; cbn; apply Htx; lia.
  - intros Hk. unfold upgraded. case_match; cbn; apply Hev; lia.
  - intros [|[= ->]]; [lia|]. injection Hs as <-. done.
Qed.

Lemma upgraded_trans k m n t : (k <= m)%nat -> (m <= n)%nat -> upgraded m n (upgraded k m t) = upgraded k n t.
Proof.
  intros. unfold upgraded.
  destruct (Nat.leb_spec k 3), (Nat.ltb_spec 3 m), (Nat.leb_spec m 3), (Nat.ltb_spec 3 n); try lia; done.
Qed.
Lemma upgraded_same k t : upgraded k k t = t.
Proof. unfold upgraded. destruct (Nat.leb_spec k 3), (Nat.ltb_spec 3 k); try lia; done. Qed.

Lemma apply_scripts_next n : forall k f, at_version k f -> (n <= length sqlMigrations - k)%nat ->
  exists f', apply_scripts (take n (drop k sqlMigrations)) f = Ok f' /\ at_version (k + n) f' /\
    content f' = upgraded k (k + n) (content f).
Proof.
  induction n as [|n IH]; intros k f Hv Hn.
  - exists f. rewrite take_0, Nat.add_0_r, upgraded_same. done.
  - destruct (lookup_lt_is_Some_2 sqlMigrations k ltac:(lia)) as (s & Hs).
    rewrite (drop_S _ s) by done. cbn [take apply_scripts].
    destruct (apply_script_next k s f Hv Hs) as (f1 & -> & Hv1 & Ec). cbn [mbind go_bind].
    destruct (IH (S k) f1 Hv1 ltac:(lia)) as (f2 & -> & Hv2 & Ec2).
    exists f2. rewrite Nat.add_succ_comm in Hv2, Ec2. split; [done|]. split; [done|].
    rewrite Ec2, Ec. apply upgraded_trans; lia.
Qed.

Lemma at_version_applied k f : at_version k f -> applied f = take k sqlMigrations.*1.
Proof.
  intros [_ (_ & _ & ->) _ _ _ _]. destruct k as [|[|[|[|[|[|k]]]]]]; vm_compute; reflexivity.
Qed.

Lemma new_file_version : at_version 0 new_file.
Proof. constructor; cbn; try done; lia. Qed.

Lemma embedded_listed : listed migration_source = Ok sqlMigrations.
Proof. vm_compute. reflexivity. Qed.
Lemma embedded_sorted : StronglySorted (fun a b => String.ltb a b = true) sqlMigrations.*1.
Proof. repeat constructor. Qed.
End Versions.

(** ** Opening *)

Section Opening.
Context `{V : ScVals} {D : Ledgers} {Drv : Driver} {SM : SqlMigrate} {SML : SqlMigrateLaws SM} {SO : SqlOpen}.

Definition other_files (source : string) (p p' : Process) : Prop :=
  forall s, s <> source -> files p' !! s = files p !! s.

(** Whatever fails, the scripts that ran are the next ones. *)
Lemma runSQLMigrations_spec source dialect p k r p' : at_version k (file_of source p) ->
  runSQLMigrations source dialect p = (r, p') ->
  exists m, (k <= m)%nat /\ at_version m (file_of source p') /\
    content (file_of source p') = upgraded k m (content (file_of source p)) /\
    sessions p' = sessions p /\ other_files source p p' /\
    match r with Ok _ => m = length sqlMigrations | Er _ => True | Panic _ => False end.
Proof.
  intros Hv. unfold runSQLMigrations, on_file, mbind, st_bind.
  destruct (ExecMax dialect migration_source Up 0 (file_of source p)) as [r1 f1] eqn:E.
  destruct (em_transactions _ _ _ k _ _ _ embedded_listed embedded_sorted (at_version_applied k _ Hv) E) as (n & Hn & Hr).
  rewrite (take_min_length n) in Hn.
  destruct (apply_scripts_next (n `min` length (drop k sqlMigrations)) k _ Hv) as (f2 & Hf2 & Hv2 & Hc2).
  { rewrite length_drop. lia. }
  rewrite Hn in Hf2. injection Hf2 as <-. intros Hp.
  assert (p' = mkProcess (<[source := f1]> (files p)) (sessions p)) as -> by (by destruct r1; injection Hp).
  eexists. unfold file_of at 1 2. cbn [files sessions]. rewrite lookup_insert_eq. cbn.
  split_and!; [|exact Hv2|exact Hc2|done| |].
  - lia.
  - intros s Hs. cbn. by rewrite lookup_insert_ne.
  - destruct r1; injection Hp as <-; [|done|done]. destruct Hr as [_ ->].
    rewrite Nat.min_id, length_drop. pose proof (av_bound _ _ Hv). change 5%nat with (length sqlMigrations). lia.
Qed.

Lemma runSQLMigrations_runs path p k : at_version k (file_of (data_source path) p) -> no_driver_errors ->
  is_ok (runSQLMigrations (data_source path) "sqlite3" p).1 = true.
Proof.
  intros Hv Hd. pose proof (av_bound _ _ Hv) as Hb.
  destruct (apply_scripts_next (length sqlMigrations - k) k _ Hv ltac:(lia)) as (f' & Hf & _).
  rewrite <- length_drop, firstn_all in Hf.
  destruct (em_runs "sqlite3" _ _ k _ _ embedded_listed embedded_sorted (at_version_applied k _ Hv) Hd Hf) as (c & E).
  unfold runSQLMigrations, on_file, mbind, st_bind. by rewrite E.
Qed.

(** Opening the database, with any failure of the driver and of the migrations,
    on a file on which any number [k] of the embedded scripts have run.  With a
    session, the file has the schema of this release; the rows are those of the file
    (without the latest ledger that releases before the fourth script recorded), and
    one more session is open.  With an error no session is left open and the file is
    one that can be opened again: some of the next scripts have run, each completely,
    and no row was lost.  Without failures there is a session. *)
Theorem open_database path p k : at_version k (file_of (data_source path) p) ->
  let '(r, p') := OpenSQLiteDBWithPrometheusMetrics path p in
  let f := file_of (data_source path) p in
  let f' := file_of (data_source path) p' in
  other_files (data_source path) p p' /\
  (no_driver_errors -> sql_open_error "sqlite3" (data_source path) p = None -> is_ok r = true) /\
  match r with
  | Ok db => at_version (length sqlMigrations) f' /\ content f' = upgraded k (length sqlMigrations) (content f) /\
      db = OpenSQLiteDB (content f') /\ sessions p' = data_source path :: sessions p
  | Er _ => sessions p' = sessions p /\
      exists m, (k <= m)%nat /\ at_version m f' /\ content f' = upgraded k m (content f)
  | Panic _ => False
  end.
Proof.
  intros Hv. unfold OpenSQLiteDBWithPrometheusMetrics, openSQLiteDB, db_Open, wrap_err, mbind, st_bind.
  destruct (sql_open_error _ _ p) as [e|] eqn:Eo; cbn [on_err].
  { split; [done|]. split; [done|]. split; [done|]. exists k. by rewrite upgraded_same. }
  set (p1 := mkProcess (<[data_source path := file_of (data_source path) p]> (files p)) (data_source path :: sessions p)).
  assert (file_of (data_source path) p1 = file_of (data_source path) p) as Ef.
  { unfold file_of at 1. cbn. by rewrite lookup_insert_eq. }
  unfold attempt at 1. destruct (runSQLMigrations (data_source path) "sqlite3" p1) as [r p2] eqn:Er.
  rewrite <- Ef in Hv. pose proof (runSQLMigrations_runs path p1 k Hv) as Hrun. rewrite Er in Hrun.
  destruct (runSQLMigrations_spec _ _ _ k _ _ Hv Er) as (m & Hm & Hv2 & Hc & Hs & Ho & Hr). rewrite Ef in Hc.
  assert (other_files (data_source path) p p2) as Ho'.
  { intros s Hne. rewrite Ho by done. cbn. by rewrite lookup_insert_ne. }
  destruct r as [u|e|]; [|cbn|done].
  - subst m. cbn. rewrite Hs. split_and!; done.
  - unfold session_Close, modify, attempt, file_of in *. cbn. split; [done|]. split; [intros Hd; by specialize (Hrun Hd)|].
    rewrite Hs. cbn. rewrite decide_True by done. split; [done|]. exists m. done.
Qed.
End Opening.

(** Every column the program fills or reads is there, with the number of values it
    gives, and every column that must not be null gets one. *)
Lemma queries_fit `{V : ScVals} {D : Ledgers} f : at_version (length sqlMigrations) f ->
  forallb (insertion_fits (schema f)) [InsertLedger_query; InsertTransactions_query; InsertEvents_query; setMetaBool_query] = true /\
  forallb (selection_fits (schema f)) [getMetaValue_query; GetLedger_query; getTransactionByHash_query] = true /\
  forall n, (n <= 4)%nat -> selection_fits (schema f) (GetEvents_query n) = true.
Proof.
  intros [_ (-> & _ & _) _ _ _ _]. split_and!; [vm_compute; reflexivity..|].
  intros n Hn. destruct n as [|[|[|[|[|n]]]]]; [vm_compute; reflexivity..|lia].
Qed.

(** ** A migration runner *)

Section Sample.
Context `{V : ScVals} {D : Ledgers}.

Fixpoint run_pending (l : list script) (c : Z) (f : File) : go Z * File :=
  match l with
  | [] => (Ok c, f)
  | s :: l' => match apply_script s f with
               | Ok f' => run_pending l' (c + 1) f'
               | Er e => (Er e, f)
               | Panic m => (Er (EExt m), f)
               end
  end.
#[local] Instance sample_migrate : SqlMigrate := {|
  ExecMax _ src _ _ f := match listed src with
                         | Ok scripts => run_pending (filter (fun s => s.1 ∉ applied f) scripts) 0 f
                         | Er e => (Er e, f)
                         | Panic m => (Panic m, f)
                         end
|}.

Lemma compare_same (s : string) : String.compare s s = Eq.
Proof. induction s as [|a s IH]; [done|]. simpl. unfold Ascii.compare. by rewrite N.compare_refl. Qed.

Lemma sorted_names (l : list string) : StronglySorted (fun a b => String.ltb a b = true) l -> NoDup l.
Proof.
  induction 1 as [|x l _ IH Hx]; constructor; [|done]. intros Hin. rewrite Forall_forall in Hx.
  specialize (Hx x Hin). unfold String.ltb in Hx. by rewrite compare_same in Hx.
Qed.

Lemma pending_drop (scripts : list script) k : StronglySorted (fun a b => String.ltb a b = true) scripts.*1 ->
  filter (fun s => s.1 ∉ take k scripts.*1) scripts = drop k scripts.
Proof.
  intros Hn%sorted_names. rewrite <- (take_drop k scripts), fmap_app in Hn. apply NoDup_app in Hn as (_ & Hd & _).
  rewrite <- fmap_take. trans (filter (fun s => s.1 ∉ (take k scripts).*1) (take k scripts ++ drop k scripts)); [by rewrite take_drop|].
  apply filter_skip.
  - intros s Hs Hp. apply Hp. by apply list_elem_of_fmap_2.
  - intros s Hs Hin. apply (Hd _ Hin). by apply list_elem_of_fmap_2.
Qed.

Lemma run_pending_spec l : forall c f, exists n,
  apply_scripts (take n l) f = Ok (run_pending l c f).2 /\
  match (run_pending l c f).1 with Ok c' => c' = c + Z.of_nat n /\ n = length l | Er _ => True | Panic _ => False end.
Proof.
  induction l as [|s l IH]; intros c f; cbn [run_pending].
  - exists 0%nat. cbn. split; [done|]. split; [lia|done].
  - destruct (apply_script s f) as [f'| |] eqn:E; [|by exists 0%nat..].
    destruct (IH (c + 1) f') as (n & Hn & Hr). exists (S n). cbn [take apply_scripts]. rewrite E. cbn [mbind go_bind].
    split; [done|]. destruct (run_pending l (c + 1) f').1; [|done..]. destruct Hr as [-> ->]. split; [lia|done].
Qed.

Lemma run_pending_ok l : forall c f f', apply_scripts l f = Ok f' -> run_pending l c f = (Ok (c + zlen l), f').
Proof.
  induction l as [|s l IH]; intros c f f'; cbn [run_pending apply_scripts].
  - intros [= <-]. do 2 f_equal. unfold zlen. cbn. lia.
  - intros (f1 & -> & Hl)%go_bind_ok. rewrite (IH _ _ _ Hl). do 2 f_equal. unfold zlen. cbn. lia.
Qed.

Lemma sample_migrate_laws {Drv : Driver} : SqlMigrateLaws sample_migrate.
Proof.
  constructor.
  - intros dialect src scripts k f r f' Hl Hs Ha. cbn. rewrite Hl, Ha, pending_drop by done. intros E.
    destruct (run_pending_spec (drop k scripts) 0 f) as (n & Hn & Hr). rewrite E in Hn, Hr. exists n. split; [done|].
    cbn in Hr. destruct r; [|done..]. destruct Hr as [-> ->]. split; [lia|done].
  - intros dialect src scripts k f f' Hl Hs Ha _ Hf. cbn. rewrite Hl, Ha, pending_drop by done.
    rewrite (run_pending_ok _ _ _ _ Hf). by eexists.
Qed.
End Sample.
