(* ===== verification/Ingest.v ===== *)
(** * The ingestion service: [internal/ingest/service.go]

    Ledgers come from a backend one after the other; each is written in one
    database transaction, its fees go to the in-memory windows, and the
    transaction is committed, or rolled back on any error. *)

From S2P Require Import Prelude GoStd Externals Cursor BucketWindow LedgerMeta FeeWindow Store LedgerStore EventStore TxStore WriteTx.

(** [ingest/ledgerbackend] and [historyarchive]: fetching a ledger, preparing an
    unbounded range, and the archive's current ledger. *)
Class LedgerBackend `{V : ScVals} {D : Ledgers} := {
  backend_GetLedger : Z -> go LedgerCloseMeta;
  backend_PrepareRange : Z -> go unit;
  archive_GetRootHAS : go Z;
}.

(** Documented: the backend returns the ledger it is asked for. *)
Class LedgerBackendLaws `{V : ScVals} {D : Ledgers} (B : LedgerBackend) := {
  backend_sequence seq l : backend_GetLedger seq = Ok l -> LedgerSequence l = seq;
}.

Section Service.
Context `{V : ScVals} {D : Ledgers} {Drv : Driver} {T : Toid} {X : XdrConsts} {B : LedgerBackend}.
Context {W : Type} `{Q : BucketQueue (list Z) W}.

Definition maxRetries : Z := 5.
Definition errEmptyArchives : err :=
  ESentinel "cannot start ingestion without history archives, wait until first history archives are published".

(** The state the service changes: the database, the fee windows (their own
    database handle is not in a transaction) and the latest-ledger gauge. *)
Record Service := mkService {
  svc_db : DB;
  svc_feeWindows : FeeWindows unit W;
  svc_latestLedgerMetric : Z;
}.

Definition on_db {A} (m : st DB A) : st Service A := fun s =>
  let '(r, w) := m (svc_db s) in (r, mkService w (svc_feeWindows s) (svc_latestLedgerMetric s)).
Definition ingestFees (lcm : LedgerCloseMeta) : st Service unit := fun s =>
  let '(fw, r) := IngestFees (svc_feeWindows s) lcm in (r, mkService (svc_db s) fw (svc_latestLedgerMetric s)).
Definition set_metric (z : Z) (s : Service) : Service := mkService (svc_db s) (svc_feeWindows s) z.

Definition ingestLedgerCloseMeta (rw : readWriter) (ledgerCloseMeta : LedgerCloseMeta) : st Service unit :=
  _ ← on_db (InsertLedger ledgerCloseMeta);
  _ ← on_db (InsertTransactions (TransactionWriter rw) ledgerCloseMeta);
  _ ← on_db (InsertEvents (EventWriter rw) ledgerCloseMeta);
  ingestFees ledgerCloseMeta.

(** The deferred rollback runs whatever the result; its error is only logged. *)
Definition deferred_rollback (m : st Service unit) : st Service unit := fun s =>
  let '(r, s1) := m s in
  let '(_, s2) := on_db Rollback s1 in (r, s2).

Definition ingest (rw : readWriter) (sequence : Z) : st Service unit :=
  ledgerCloseMeta ← lift (backend_GetLedger sequence);
  _ ← on_db (NewTx rw);
  deferred_rollback
    (_ ← ingestLedgerCloseMeta rw ledgerCloseMeta;
     _ ← on_db (Commit rw ledgerCloseMeta);
     modify (set_metric sequence)).

Definition getNextLedgerSequence : st Service Z :=
  cur ← attempt (on_db rw_GetLatestLedgerSequence);
  nextLedgerSeq ← lift (match cur with
    | Ok curLedgerSeq => Ok (u32 (curLedgerSeq + 1))
    | Er e =>
        if errors_Is e "DB is empty" then
          current ← archive_GetRootHAS;
          if current =? 0 then Er errEmptyArchives else Ok current
        else Er e
    | Panic m => Panic m
    end);
  _ ← lift (backend_PrepareRange nextLedgerSeq);
  mret nextLedgerSeq.

(** The endless loop of [run], up to its [n]-th ledger. *)
Fixpoint ingest_from (rw : readWriter) (n : nat) (nextLedgerSeq : Z) : st Service unit :=
  match n with
  | O => mret tt
  | S n' => _ ← ingest rw nextLedgerSeq; ingest_from rw n' (u32 (nextLedgerSeq + 1))
  end.
Definition run (rw : readWriter) (n : nat) : st Service unit :=
  nextLedgerSeq ← getNextLedgerSequence; ingest_from rw n nextLedgerSeq.

(** [startService]: [run] only returns errors; each comes with whether the
    service's context was cancelled by then.  The backoff gives up after
    [maxRetries] retries since its last reset, or on cancellation. *)
Inductive service_end := StillRunning | Stopped | Fatal (e : err).
Fixpoint startService (tries : Z) (failures : list (err * bool)) : service_end :=
  match failures with
  | [] => StillRunning
  | (e, canceled) :: rest =>
      let tries := if errors_Is e "cannot start ingestion without history archives, wait until first history archives are published"
                   then 0 else tries in
      if canceled then Stopped
      else if maxRetries <=? tries then
        (if errors_Is e "context canceled" then Stopped else Fatal e)
      else startService (tries + 1) rest
  end.

(** ** Nothing of a transaction reaches the committed tables before its commit *)

(** The call keeps the transaction open and the shared state as it is. *)
Definition framed {A} (m : st DB A) : Prop := forall w t, sess_tx w = Some t ->
  exists t', (m w).2 = set_tx (Some t') w.

Lemma framed_lift {A} (x : go A) : framed (lift x).
Proof. intros w t Hs. exists t. simpl. by destruct w; simpl in *; subst. Qed.
Lemma framed_ret {A} (x : A) : framed (mret x).
Proof. apply (framed_lift (Ok x)). Qed.
Lemma framed_wrap {A} f (m : st DB A) : framed m -> framed (wrap_err f m).
Proof.
  intros H w t Hs. destruct (H w t Hs) as [t' Ht]. exists t'. unfold wrap_err. by destruct (m w).
Qed.
Lemma framed_bind {A C} (m : st DB A) (f : A -> st DB C) : framed m -> (forall a, framed (f a)) -> framed (m ≫= f).
Proof.
  intros Hm Hf w t Hs. destruct (Hm w t Hs) as [t1 H1]. unfold mbind, st_bind.
  destruct (m w) as [[a|e|p] s1]; simpl in *; subst s1.
  - destruct (Hf a (set_tx (Some t1) w) t1 eq_refl) as [t2 H2]. exists t2. by rewrite H2.
  - by exists t1.
  - by exists t1.
Qed.
Lemma framed_exec name f : framed (Exec name f).
Proof.
  intros w t Hs. unfold Exec. assert (set_tx (Some t) w = w) as Hw by (by destruct w; simpl in *; subst).
  destruct (drv_error _ _); [by exists t|]. destruct (f (view w)) as [t'| |]; [|by exists t|by exists t].
  exists t'. unfold set_view. by rewrite Hs.
Qed.
Lemma framed_if {A} (b : bool) (m1 m2 : st DB A) : framed m1 -> framed m2 -> framed (if b then m1 else m2).
Proof. by destruct b. Qed.

Lemma framed_reader_loop body fuel r : (forall tx, framed (body tx)) -> framed (reader_loop_st fuel body r).
Proof.
  intros Hb. revert r. induction fuel as [|n IH]; intros r; [apply (framed_lift (Panic _))|]. simpl.
  destruct (reader_Read r) as [[[tx|]|e|p] r']; [|apply framed_ret|apply (framed_lift (Er _))|apply (framed_lift (Panic _))].
  apply framed_bind; [done|intros _; apply IH].
Qed.
End Service.

#[export] Hint Resolve framed_lift framed_ret framed_wrap framed_bind framed_exec framed_if framed_reader_loop : go.

Section Atomicity.
Context `{V : ScVals} {D : Ledgers} {Drv : Driver} {T : Toid} {X : XdrConsts} {B : LedgerBackend}.
Context {W : Type} `{Q : BucketQueue (list Z) W}.

Lemma framed_InsertLedger lcm : framed (InsertLedger lcm).
Proof. apply framed_exec. Qed.
Lemma framed_InsertTransactions txn lcm : framed (InsertTransactions txn lcm).
Proof.
  unfold InsertTransactions. apply framed_if; [apply framed_lift|]. apply framed_if; [apply framed_ret|].
  apply framed_bind; [apply framed_wrap, framed_lift|]. intros r.
  apply framed_bind; [apply framed_lift|]. intros txs. apply framed_exec.
Qed.
Lemma framed_InsertEvents h lcm : framed (InsertEvents h lcm).
Proof.
  unfold InsertEvents. apply framed_if; [apply framed_lift|]. apply framed_if; [apply framed_ret|].
  apply framed_bind; [apply framed_wrap, framed_lift|]. intros r. apply framed_reader_loop.
  intros tx. unfold InsertEvents_tx. apply framed_if; [apply framed_ret|].
  apply framed_bind; [apply framed_lift|]. intros ae.
  destruct (transactionEventsIntoDiagnosticEvents ae); [apply framed_ret|].
  apply framed_bind; [apply framed_lift|]. intros rows. apply framed_exec.
Qed.
Lemma framed_trimLedgers a b : framed (trimLedgers a b).
Proof. apply framed_if; [apply framed_ret|apply framed_exec]. Qed.
Lemma framed_trimTransactions a b : framed (trimTransactions a b).
Proof. apply framed_if; [apply framed_ret|apply framed_exec]. Qed.
Lemma framed_trimEvents a b : framed (trimEvents a b).
Proof.
  apply framed_if; [apply framed_ret|]. apply framed_bind; [apply framed_lift|]. intros id. apply framed_exec.
Qed.

(** The same at the level of the service. *)
Definition svc_framed {A} (m : st (Service (W := W)) A) : Prop := forall s t, sess_tx (svc_db s) = Some t ->
  exists t', svc_db (m s).2 = set_tx (Some t') (svc_db s).

Lemma svc_framed_db {A} (m : st DB A) : framed m -> svc_framed (on_db m).
Proof.
  intros H s t Hs. destruct (H _ t Hs) as [t' Ht]. exists t'. unfold on_db. by destruct (m (svc_db s)).
Qed.
Lemma svc_framed_bind {A C} (m : st Service A) (f : A -> st Service C) :
  svc_framed m -> (forall a, svc_framed (f a)) -> svc_framed (m ≫= f).
Proof.
  intros Hm Hf s t Hs. destruct (Hm s t Hs) as [t1 H1]. unfold mbind, st_bind.
  destruct (m s) as [[a|e|p] s1]; simpl in *.
  - destruct (Hf a s1 t1) as [t2 H2]; [by rewrite H1|]. exists t2. by rewrite H2, H1.
  - by exists t1.
  - by exists t1.
Qed.
Lemma svc_framed_fees lcm : svc_framed (ingestFees lcm).
Proof.
  intros s t Hs. exists t. unfold ingestFees. destruct (IngestFees _ lcm). simpl.
  destruct (svc_db s); simpl in *; by subst.
Qed.

Lemma ingestLedgerCloseMeta_framed rw lcm : svc_framed (ingestLedgerCloseMeta rw lcm).
Proof.
  unfold ingestLedgerCloseMeta.
  apply svc_framed_bind; [apply svc_framed_db, framed_InsertLedger|]. intros _.
  apply svc_framed_bind; [apply svc_framed_db, framed_InsertTransactions|]. intros _.
  apply svc_framed_bind; [apply svc_framed_db, framed_InsertEvents|]. intros _. apply svc_framed_fees.
Qed.

(** Shared state: the committed tables and the cache. *)
Definition shared (w : DB) : Tables * Z * Z := (disk w, latestLedgerSeq w, latestLedgerCloseTime w).
Definition checkpoint_error (w : DB) (e : err) : Prop :=
  drv_error "PRAGMA wal_checkpoint(TRUNCATE)" (disk w) = Some e.

(** How a commit can end: nothing shared has changed, or the trimmed tables of the
    transaction are the committed ones and the cache names the ledger. *)
Lemma Commit_cases rw lcm w t r w' : sess_tx w = Some t -> Commit rw lcm w = (r, w') ->
  (shared w' = shared w /\ r <> Ok tt) \/
  ((exists w1, trim rw (LedgerSequence lcm) w = (Ok tt, w1) /\ sess_tx w1 = Some (disk w')) /\
   latestLedgerSeq w' = LedgerSequence lcm /\ latestLedgerCloseTime w' = LedgerCloseTime lcm /\
   sess_tx w' = None /\ (r = Ok tt \/ exists e, r = Er e /\ checkpoint_error w' e)).
Proof.
  intros Hs Hc. rewrite Commit_trim in Hc.
  assert (framed (trim rw (LedgerSequence lcm))) as Hf.
  { apply framed_bind; [apply framed_trimLedgers|]. intros _.
    apply framed_bind; [apply framed_trimTransactions|]. intros _. apply framed_trimEvents. }
  destruct (Hf w t Hs) as [t' Ht]. unfold mbind at 1, st_bind at 1 in Hc.
  destruct (trim rw (LedgerSequence lcm) w) as [[[]|e|p] w1]; simpl in Ht; subst w1; simplify_eq; [|by left..].
  unfold commitAndUpdateCache, session_Commit, modify, mbind, st_bind, postCommit in Hc. simpl in Hc.
  destruct (drv_error "COMMIT" t') as [e|]; simplify_eq; [by left|].
  simpl in Hc. destruct (drv_error "PRAGMA wal_checkpoint(TRUNCATE)" t') as [e|] eqn:E; simplify_eq; right; simpl;
    (split; [by eexists|]); split_and!; try done; [right; exists e; done | by left].
Qed.

Lemma Rollback_shared w : shared (Rollback w).2 = shared w /\ sess_tx (Rollback w).2 = None.
Proof.
  unfold Rollback, session_Rollback. destruct (sess_tx w) as [t|] eqn:E; [|by rewrite ?E].
  destruct (drv_error "ROLLBACK" t); done.
Qed.

(** The service with the write transaction of a ledger begun. *)
Definition begun (s : Service (W := W)) : Service :=
  mkService (set_tx (Some (disk (svc_db s))) (svc_db s)) (svc_feeWindows s) (svc_latestLedgerMetric s).

(** How ingesting a ledger can end: the ledger or the transaction was not to be had;
    or something failed before the commit or in it; or the commit succeeded. *)
Lemma ingest_cases rw sequence (s : Service (W := W)) r s' :
  sess_tx (svc_db s) = None -> ingest rw sequence s = (r, s') ->
  sess_tx (svc_db s') = None /\
  ((shared (svc_db s') = shared (svc_db s) /\ r <> Ok tt /\
    ((svc_feeWindows s' = svc_feeWindows s /\
      ((forall lcm, backend_GetLedger sequence <> Ok lcm) \/ drv_error "BEGIN" (disk (svc_db s)) <> None)) \/
     exists lcm, backend_GetLedger sequence = Ok lcm /\ svc_feeWindows s' = svc_feeWindows (ingestLedgerCloseMeta rw lcm (begun s)).2)) \/
   (exists lcm s1 w1, backend_GetLedger sequence = Ok lcm /\
      ingestLedgerCloseMeta rw lcm (begun s) = (Ok tt, s1) /\ svc_feeWindows s' = svc_feeWindows s1 /\
      trim rw (LedgerSequence lcm) (svc_db s1) = (Ok tt, w1) /\ sess_tx w1 = Some (disk (svc_db s')) /\
      latestLedgerSeq (svc_db s') = LedgerSequence lcm /\
      latestLedgerCloseTime (svc_db s') = LedgerCloseTime lcm /\
      (r = Ok tt \/ exists e, r = Er e /\ checkpoint_error (svc_db s') e))).
Proof.
  intros Hs. unfold ingest, mbind, st_bind, lift.
  destruct (backend_GetLedger sequence) as [lcm|e|p];
    [|intros [= <- <-]; (split; [done|]); left; (split; [done|]); (split; [done|]); left; (split; [done|]); by left..].
  unfold on_db at 1, NewTx, modify, mbind, st_bind, Begin. simpl.
  change (view (set_tx None (svc_db s))) with (disk (svc_db s)).
  destruct (drv_error "BEGIN" _) as [e|].
  { intros [= <- <-]. simpl. split; [done|]. left. split; [done|]. split; [done|]. left. split; [done|by right]. }
  set (s1 := mkService (set_tx _ _) _ _). change s1 with (begun s). clear s1. unfold deferred_rollback.
  destruct (ingestLedgerCloseMeta_framed rw lcm (begun s) (disk (svc_db s)) eq_refl) as [t Ht].
  destruct (ingestLedgerCloseMeta rw lcm (begun s)) as [[[]|e|p] s2] eqn:Ei; simpl in Ht.
  - unfold on_db. destruct (Commit rw lcm (svc_db s2)) as [r2 w2] eqn:Ec.
    assert (sess_tx (svc_db s2) = Some t) as Hs2 by (by rewrite Ht).
    pose proof (Commit_cases rw lcm (svc_db s2) t r2 w2 Hs2 Ec) as Hcase.
    pose proof (Rollback_shared w2) as [Hr1 Hr2].
    assert (shared (svc_db s2) = shared (svc_db s)) as Hsh by (by rewrite Ht).
    destruct r2 as [[]|e|p]; simpl; destruct (Rollback w2) as [rr w3]; simpl in *; intros [= <- <-]; simpl;
      (split; [done|]); unfold shared, checkpoint_error in *; destruct Hcase as [[H1 H2]|((w1 & Hw1 & Hw1') & H1 & H2 & H3 & H4)];
      try done; try (left; split; [congruence|]; split; [done|]; right; exists lcm; by rewrite Ei);
      right; exists lcm, s2, w1; (injection Hr1 as E1 E2 E3; rewrite E1, E2, E3; split_and!; [done..|]).
    + by left.
    + right. destruct H4 as [|(e' & [= <-] & He)]; [done|]. by exists e.
    + destruct H4 as [|(e' & ? & _)]; done.
  - unfold on_db. pose proof (Rollback_shared (svc_db s2)) as [Hr1 Hr2].
    destruct (Rollback (svc_db s2)) as [rr w3]. simpl in *. intros [= <- <-]. simpl.
    split; [done|]. left. split; [rewrite Hr1, Ht; done|]. split; [done|]. right. exists lcm. by rewrite Ei.
  - unfold on_db. pose proof (Rollback_shared (svc_db s2)) as [Hr1 Hr2].
    destruct (Rollback (svc_db s2)) as [rr w3]. simpl in *. intros [= <- <-]. simpl.
    split; [done|]. left. split; [rewrite Hr1, Ht; done|]. split; [done|]. right. exists lcm. by rewrite Ei.
Qed.

(** C10: Ingesting a ledger is all or nothing in the database, whatever the backend
    and the driver do: it ends with no transaction open; either it fails and the
    committed tables and the cache are untouched, or the committed tables are those
    of the whole transaction (the ledger, its transactions and events inserted, its
    fees taken, the tables trimmed) and the cache names its ledger.  In the second
    case it can still fail, with the checkpoint's error only. *)
Theorem ingest_atomic rw sequence (s : Service (W := W)) r s' :
  sess_tx (svc_db s) = None -> ingest rw sequence s = (r, s') ->
  sess_tx (svc_db s') = None /\
  ((shared (svc_db s') = shared (svc_db s) /\ r <> Ok tt) \/
   (exists lcm s1 w1, backend_GetLedger sequence = Ok lcm /\
      ingestLedgerCloseMeta rw lcm (begun s) = (Ok tt, s1) /\
      trim rw (LedgerSequence lcm) (svc_db s1) = (Ok tt, w1) /\ sess_tx w1 = Some (disk (svc_db s')) /\
      latestLedgerSeq (svc_db s') = LedgerSequence lcm /\
      latestLedgerCloseTime (svc_db s') = LedgerCloseTime lcm /\
      (r = Ok tt \/ exists e, r = Er e /\ checkpoint_error (svc_db s') e))).
Proof.
  intros Hs E. destruct (ingest_cases _ _ _ _ _ Hs E) as [Hn [(Hsh & Hr & _)|(lcm & s1 & w1 & H1 & H2 & _ & H)]]; (split; [done|]); [by left|].
  right. by exists lcm, s1, w1.
Qed.
End Atomicity.

(** ** A successful ingestion refines appending to the retained ledgers *)

Section Refinement.
Context `{V : ScVals} {D : Ledgers} {Drv : Driver} {T : Toid} {X : XdrConsts} {B : LedgerBackend}.
Context {W : Type} `{Q : BucketQueue (list Z) W}.
Context {passphrase : string} {L : LedgersLaws D passphrase} {TL : ToidLaws T} {BL : LedgerBackendLaws B}.

(** The service between two ledgers: the committed tables represent [ls], the
    cache is coherent, and the fee windows wait for ledger [next]. *)
Record service_ok (rw : readWriter) (s : Service (W := W)) (ls : list LedgerCloseMeta) (next : Z) : Prop := {
  so_rw : rw_passphrase rw = passphrase /\ networkPassPhrase (svc_feeWindows s) = passphrase;
  so_retention : 0 < historyRetentionWindow rw < 4294967296;
  so_idle : sess_tx (svc_db s) = None;
  so_rep : represents (disk (svc_db s)) ls;
  so_fine : Forall ledger_fine ls;
  so_consecutive : consecutive ls;
  so_cache : cache_ok (svc_db s);
  so_next : forall l, last ls = Some l -> next = LedgerSequence l + 1;
  so_classic : window_ready (ClassicFeeWindow (svc_feeWindows s)) next;
  so_soroban : window_ready (SorobanInclusionFeeWindow (svc_feeWindows s)) next;
}.

(** A ledger that can be ingested next. *)
Record ledger_next (s : Service (W := W)) (ls : list LedgerCloseMeta) (lcm : LedgerCloseMeta) : Prop := {
  ln_fine : ledger_fine lcm;
  ln_seq : 0 < LedgerSequence lcm < 2147483647;
  ln_keys : forall l h, l ∈ ls -> h ∈ keys_of l -> h ∉ keys_of lcm;
  ln_fees : Forall fees_sane (ledger_txs lcm);
  ln_fees_held : fees_held (svc_feeWindows s) + zlen (ledger_txs lcm) < 2 ^ 56;
}.

Lemma store_ledger_run rw lcm (s : Service (W := W)) t :
  store_ledger rw lcm (svc_db s) = (Ok tt, t) ->
  ingestLedgerCloseMeta rw lcm s = ingestFees lcm (mkService t (svc_feeWindows s) (svc_latestLedgerMetric s)).
Proof.
  unfold store_ledger, ingestLedgerCloseMeta, on_db, mbind, st_bind. simpl.
  destruct (InsertLedger lcm (svc_db s)) as [[]  w1]; [|done|done]. simpl.
  destruct (InsertTransactions _ lcm w1) as [[] w2]; [|done|done]. simpl. by intros ->.
Qed.

(** The next ledger is above the others and continues them. *)
Lemma consecutive_next ls lcm : consecutive ls ->
  (forall l, last ls = Some l -> LedgerSequence lcm = LedgerSequence l + 1) ->
  Forall (fun l => LedgerSequence l < LedgerSequence lcm) ls /\ consecutive (ls ++ [lcm]).
Proof.
  intros Hcons Hnext. split.
  - destruct (last ls) as [l|] eqn:E; [|by apply last_None in E as ->].
    specialize (Hnext _ eq_refl). rewrite last_lookup in E. apply Forall_lookup. intros i x Hx.
    apply lookup_lt_Some in Hx as Hi. pose proof (consecutive_nth ls i _ x l Hcons Hx E ltac:(lia)). lia.
  - intros i a b Ha Hb'. destruct (decide (S i < length ls)%nat).
    + rewrite lookup_app_l in Ha, Hb' by lia. by eapply Hcons.
    + apply lookup_lt_Some in Hb' as Hi. rewrite length_app in Hi. simpl in Hi.
      rewrite lookup_app_l in Ha by lia. rewrite lookup_app_r in Hb' by lia.
      replace (S i - length ls)%nat with 0%nat in Hb' by lia. injection Hb' as <-.
      apply Hnext. rewrite last_lookup, <- Ha. f_equal. lia.
Qed.

(** Lemma behind the refinement: one successful ingestion. *)
Lemma ingest_step rw s ls lcm seq : no_driver_errors -> service_ok rw s ls seq ->
  backend_GetLedger seq = Ok lcm -> ledger_next s ls lcm ->
  exists s', ingest rw seq s = (Ok tt, s') /\
    service_ok rw s' (lastn (Z.to_nat (historyRetentionWindow rw)) (ls ++ [lcm])) (seq + 1) /\
    svc_latestLedgerMetric s' = seq /\
    latestLedgerSeq (svc_db s') = seq /\ latestLedgerCloseTime (svc_db s') = LedgerCloseTime lcm /\
    fees_held (svc_feeWindows s') <= fees_held (svc_feeWindows s) + zlen (ledger_txs lcm) /\
    metadata (disk (svc_db s')) = metadata (disk (svc_db s)).
Proof.
  intros Hd [[Hrw Hpp] Hret Hidle Hrep Hfine Hcons Hcache Hnext Hcl Hso] Hb [Hlf Hseq Hkeys Hfees Hc].
  pose proof (backend_sequence _ _ Hb) as Eseq. subst seq.
  destruct (consecutive_next ls lcm Hcons Hnext) as [Hlt Hcons'].
  unfold ingest. unfold mbind at 1, st_bind at 1, lift at 1. rewrite Hb.
  set (w0 := set_tx (Some (disk (svc_db s))) (svc_db s)).
  unfold mbind at 1, st_bind at 1.
  assert (on_db (NewTx rw) s = (Ok tt, mkService w0 (svc_feeWindows s) (svc_latestLedgerMetric s))) as ->.
  { unfold on_db, NewTx, modify, mbind, st_bind, Begin. simpl. by rewrite Hd. }
  set (s1 := mkService w0 _ _).
  destruct (store_ledger_spec rw lcm w0 ls Hd Hrw) as (t' & Hst & Hrep' & Hmd'); [done..|].
  unfold deferred_rollback, mbind, st_bind. rewrite (store_ledger_run rw lcm s1 _ Hst).
  set (w1 := set_view t' w0).
  destruct (IngestFees_step (svc_feeWindows s1) lcm Hpp (proj1 Hlf) ltac:(lia) Hfees Hcl Hso Hc)
    as (fw' & Hfw & Hpp' & _ & Hcl' & Hso' & Hheld).
  unfold ingestFees. cbn [svc_feeWindows svc_db svc_latestLedgerMetric].
  change (svc_feeWindows s) with (svc_feeWindows s1). rewrite Hfw.
  unfold on_db at 1. cbn [svc_db svc_feeWindows svc_latestLedgerMetric].
  destruct (Commit_spec rw lcm w1 t' ls Hd) as (t2 & -> & Hrep2 & Hmd2);
    [done|done|apply Forall_app; split; [done|by constructor]|done|lia|lia|].
  unfold modify, on_db, Rollback, session_Rollback. simpl.
  eexists. split; [done|]. simpl. split_and!; try done; [|by rewrite Hmd2].
  set (ret := Z.to_nat (historyRetentionWindow rw)).
  assert (last (lastn ret (ls ++ [lcm])) = Some lcm) as Hlast by (apply last_lastn; lia).
  constructor; cbn [svc_db svc_feeWindows sess_tx disk]; try done.
  - apply Forall_drop, Forall_app. split; [done|]. by constructor.
  - by apply consecutive_drop.
  - right. exists lcm. cbn [disk latestLedgerSeq latestLedgerCloseTime]. split; [|done].
    by rewrite (rep_ledgers _ _ Hrep2).
  - intros l. rewrite Hlast. by intros [= <-].
Qed.

Lemma lastn_app {A} n (a b : list A) : lastn n (lastn n a ++ b) = lastn n (a ++ b).
Proof.
  unfold lastn. rewrite !length_app, length_drop.
  destruct (decide (length a <= n)%nat).
  - replace (length a - n)%nat with 0%nat by lia. rewrite drop_0. f_equal. lia.
  - rewrite <- (drop_app_le a b (length a - n)) by lia. rewrite drop_drop. f_equal. lia.
Qed.

(** The loop, by induction on the ledgers to come. *)
Lemma ingest_from_held rw lcms : forall s ls next,
  no_driver_errors -> service_ok rw s ls next -> 0 < next -> next + zlen lcms < 2147483647 ->
  (length ls <= Z.to_nat (historyRetentionWindow rw))%nat ->
  (forall i l, lcms !! i = Some l -> backend_GetLedger (next + Z.of_nat i) = Ok l) ->
  Forall (fun l => ledger_fine l /\ Forall fees_sane (ledger_txs l)) lcms ->
  NoDup (concat (keys_of <$> (ls ++ lcms))) ->
  fees_held (svc_feeWindows s) + zlen (concat (ledger_txs <$> lcms)) < 2 ^ 56 ->
  exists s', ingest_from rw (length lcms) next s = (Ok tt, s') /\
    service_ok rw s' (lastn (Z.to_nat (historyRetentionWindow rw)) (ls ++ lcms)) (next + zlen lcms) /\
    fees_held (svc_feeWindows s') <= fees_held (svc_feeWindows s) + zlen (concat (ledger_txs <$> lcms)) /\
    metadata (disk (svc_db s')) = metadata (disk (svc_db s)).
Proof.
  induction lcms as [|lcm lcms IH]; intros s ls next Hd Hok Hn Hmax Hlen Hb HF Hnd Hheld.
  { exists s. split; [done|]. rewrite app_nil_r. unfold lastn, zlen.
    replace (length ls - _)%nat with 0%nat by lia. rewrite drop_0. simpl. split_and!; [by rewrite Z.add_0_r|lia|done]. }
  inversion HF as [|? ? [Hfine Hsane] HF']; subst.
  unfold zlen in Hmax, Hheld. rewrite fmap_cons in Hheld. cbn [concat] in Hheld. rewrite length_app in Hheld.
  cbn [length] in Hmax.
  pose proof (Hb 0%nat lcm eq_refl) as Hb0. rewrite Z.add_0_r in Hb0.
  pose proof (backend_sequence _ _ Hb0) as Eseq.
  pose proof Hnd as Hnd0. rewrite fmap_app, concat_app, fmap_cons in Hnd. cbn [concat] in Hnd.
  assert (forall l h, l ∈ ls -> h ∈ keys_of l -> h ∉ keys_of lcm) as Hkeys.
  { intros l h Hl Hh Hh'. apply NoDup_app in Hnd as (_ & Hdis & _). apply (Hdis h).
    - apply elem_of_concat. exists (keys_of l). split; [done|]. by apply list_elem_of_fmap_2.
    - apply elem_of_app. by left. }
  destruct (ingest_step rw s ls lcm next Hd Hok Hb0) as (s1 & Hs1 & Hok1 & _ & _ & _ & Hheld1 & Hmd1).
  { constructor; [done|lia|done|done|unfold zlen; lia]. }
  cbn [length ingest_from]. unfold mbind, st_bind. rewrite Hs1.
  rewrite u32_small by (unfold is_u32; lia).
  destruct (IH s1 _ (next + 1) Hd Hok1) as (s2 & Hs2 & Hok2 & Hheld2 & Hmd2); [lia|unfold zlen; lia| | |done| | |].
  - unfold lastn. rewrite length_drop. lia.
  - intros i l Hi. rewrite <- (Hb (S i) l Hi). f_equal. lia.
  - replace (ls ++ lcm :: lcms) with ((ls ++ [lcm]) ++ lcms) in Hnd0 by (by rewrite <- app_assoc).
    unfold lastn. set (k := (length (ls ++ [lcm]) - _)%nat).
    rewrite <- (take_drop k (ls ++ [lcm])), <- app_assoc, fmap_app, concat_app in Hnd0.
    by apply NoDup_app in Hnd0 as (_ & _ & Hnd0).
  - unfold zlen in *. lia.
  - exists s2. split; [exact Hs2|]. rewrite fmap_cons. cbn [concat]. unfold zlen in *. rewrite length_app. cbn [length].
    split_and!; [|lia|congruence]. rewrite lastn_app, <- app_assoc in Hok2.
    replace (next + Z.of_nat (S (length lcms))) with (next + 1 + Z.of_nat (length lcms)) by lia. done.
Qed.
Lemma ingest_from_run rw lcms s ls next :
  no_driver_errors -> service_ok rw s ls next -> 0 < next -> next + zlen lcms < 2147483647 ->
  (length ls <= Z.to_nat (historyRetentionWindow rw))%nat ->
  (forall i l, lcms !! i = Some l -> backend_GetLedger (next + Z.of_nat i) = Ok l) ->
  Forall (fun l => ledger_fine l /\ Forall fees_sane (ledger_txs l)) lcms ->
  NoDup (concat (keys_of <$> (ls ++ lcms))) ->
  fees_held (svc_feeWindows s) + zlen (concat (ledger_txs <$> lcms)) < 2 ^ 56 ->
  exists s', ingest_from rw (length lcms) next s = (Ok tt, s') /\
    service_ok rw s' (lastn (Z.to_nat (historyRetentionWindow rw)) (ls ++ lcms)) (next + zlen lcms) /\
    metadata (disk (svc_db s')) = metadata (disk (svc_db s)).
Proof.
  intros. destruct (ingest_from_held rw lcms s ls next) as (s2 & Hrun & Hok & _ & Hmd); [done..|]. by exists s2.
Qed.

(** Where the service starts: after the last stored ledger, or at the archive's
    current one. *)
Lemma getNextLedgerSequence_run rw (s : Service (W := W)) ls next : no_driver_errors -> service_ok rw s ls next ->
  0 < next < 2147483647 -> (ls = [] -> archive_GetRootHAS = Ok next) -> backend_PrepareRange next = Ok tt ->
  exists s', getNextLedgerSequence s = (Ok next, s') /\ service_ok rw s' ls next /\ svc_feeWindows s' = svc_feeWindows s /\
    disk (svc_db s') = disk (svc_db s).
Proof.
  intros Hd [Hrw Hret Hidle Hrep Hfine Hcons Hcache Hnext Hcl Hso] Hn Harch Hprep.
  destruct (getLatestLedgerSequence_spec (svc_db s)) as (w' & Hlatest & Hdisk & Hsess & Hcache');
    [intros n; apply Hd|apply (rep_keyed _ _ Hrep)|done..|].
  rewrite (rep_ledgers _ _ Hrep) in Hlatest. exists (mkService w' (svc_feeWindows s) (svc_latestLedgerMetric s)).
  split_and!; [|constructor; cbn [svc_db svc_feeWindows]; by rewrite ?Hdisk|done|exact Hdisk].
  unfold getNextLedgerSequence, attempt, on_db, rw_GetLatestLedgerSequence, mbind, st_bind. rewrite Hlatest.
  destruct (last ls) as [l|] eqn:El.
  - pose proof (Hnext l eq_refl) as ->. cbn [lift fst snd]. rewrite u32_small by (unfold is_u32; lia). unfold lift.
    by rewrite Hprep.
  - apply last_None in El as Els. cbn [lift fst snd]. unfold lift. rewrite Harch by done.
    cbn -[Z.eqb]. destruct (Z.eqb_spec next 0); [lia|]. cbn. by rewrite Hprep.
Qed.

(** C2: The service refines appending to the list of retained ledgers.  From a
    database that represents [ls] it starts after the last of them, or at the
    archive's current ledger when there is none, and the next [n] ledgers of the
    backend leave one that represents the last [historyRetentionWindow] of them
    all: its ledgers, its transaction index and its event log, with a coherent
    cache and fee windows that are ready for the following ledger. *)
Theorem run_refines rw lcms s ls next :
  no_driver_errors -> service_ok rw s ls next -> 0 < next -> next + zlen lcms < 2147483647 ->
  (ls = [] -> archive_GetRootHAS = Ok next) -> backend_PrepareRange next = Ok tt ->
  (length ls <= Z.to_nat (historyRetentionWindow rw))%nat ->
  (forall i l, lcms !! i = Some l -> backend_GetLedger (next + Z.of_nat i) = Ok l) ->
  Forall (fun l => ledger_fine l /\ Forall fees_sane (ledger_txs l)) lcms ->
  NoDup (concat (keys_of <$> (ls ++ lcms))) ->
  fees_held (svc_feeWindows s) + zlen (concat (ledger_txs <$> lcms)) < 2 ^ 56 ->
  exists s', run rw (length lcms) s = (Ok tt, s') /\
    service_ok rw s' (lastn (Z.to_nat (historyRetentionWindow rw)) (ls ++ lcms)) (next + zlen lcms).
Proof.
  intros Hd Hok Hn Hmax Harch Hprep Hlen Hb HF Hnd Hheld.
  destruct (getNextLedgerSequence_run rw s ls next Hd Hok) as (s1 & H1 & Hok1 & Hfw & _); [unfold zlen in *; lia|done..|].
  unfold run, mbind, st_bind. rewrite H1.
  destruct (ingest_from_run rw lcms s1 ls next) as (s' & Hrun & Hok' & _); try done; [by rewrite Hfw|]. by exists s'.
Qed.
End Refinement.

(** ** A concrete service *)

#[export] Instance sample_backend : LedgerBackend (V := toy_scvals) (D := toy_ledgers) := {
  backend_GetLedger seq := Ok (sample_ledger seq);
  backend_PrepareRange _ := Ok tt;
  archive_GetRootHAS := Ok 7;
}.
#[export] Instance sample_backend_laws : LedgerBackendLaws sample_backend.
Proof. constructor. by intros seq l [= <-]. Qed.

Definition sample_service : @Service toy_scvals toy_ledgers (LedgerBucketWindow (list Z)) :=
  mkService (OpenSQLiteDB no_tables) (NewFeeWindows 10 10 "net" tt) 0.
Definition sample_rw : readWriter := mkReadWriter 2 "net".

Ltac sample_ledger_fine :=
  split; [split; [simpl; lia | intros [|[|?]] ? ?; simpl in *; simplify_eq; reflexivity]|];
  split; [apply (bool_decide_unpack _); vm_compute; exact I|];
  repeat constructor; simpl; try lia;
  (eexists _, _; split; [reflexivity|]; split; [vm_compute; discriminate|]; vm_compute; reflexivity).

Lemma sample_fine_7 : ledger_fine (passphrase := "net") (T := sep35) (sample_ledger 7).
Proof. sample_ledger_fine. Qed.
Lemma sample_fine_8 : ledger_fine (passphrase := "net") (T := sep35) (sample_ledger 8).
Proof. sample_ledger_fine. Qed.
Lemma sample_fine_9 : ledger_fine (passphrase := "net") (T := sep35) (sample_ledger 9).
Proof. sample_ledger_fine. Qed.

Lemma sample_service_ok next : 0 < next -> service_ok (passphrase := "net") (T := sep35) sample_rw sample_service [] next.
Proof.
  intros Hn. constructor; try done; try (simpl; lia).
  - apply represents_empty.
  - by left.
  - split; [apply NewFeeWindow_ok; lia|]. split; [done|]. simpl. lia.
  - split; [apply NewFeeWindow_ok; lia|]. split; [done|]. simpl. lia.
Qed.

Lemma sample_keys_distinct : NoDup (concat (keys_of (passphrase := "net") <$> [sample_ledger 7; sample_ledger 8; sample_ledger 9])).
Proof. apply (bool_decide_unpack _). vm_compute. exact I. Qed.

Lemma sample_sane seq : 0 < seq < 1000 -> Forall fees_sane (ledger_txs (passphrase := "net") (sample_ledger seq)).
Proof.
  intros Hs. assert (forall tx, 0 <= tx_FeeCharged tx < 1000000 -> tx_Meta tx = MetaOther 2 -> fees_sane tx) as H.
  { intros tx Hf Hm. unfold fees_sane, resource_fee. rewrite Hm.
    split_and!; [lia|lia|intros r Hr; discriminate|done]. }
  apply Forall_cons_2; [apply H; [simpl; lia|done]|].
  apply Forall_cons_2; [apply H; [simpl; lia|done]|apply Forall_nil_2].
Qed.

Lemma run_refines_witness : exists s',
  run sample_rw 3 sample_service = (Ok tt, s') /\
  service_ok (passphrase := "net") (T := sep35) sample_rw s' [sample_ledger 8; sample_ledger 9] 10.
Proof.
  apply (run_refines (passphrase := "net") sample_rw [sample_ledger 7; sample_ledger 8; sample_ledger 9]
           sample_service [] 7).
  - intros n t. reflexivity.
  - apply sample_service_ok. lia.
  - lia.
  - reflexivity.
  - intros _. reflexivity.
  - reflexivity.
  - simpl. lia.
  - intros [|[|[|i]]] l Hl; simpl in Hl; simplify_eq; reflexivity.
  - apply Forall_cons_2; [split; [apply sample_fine_7 | apply sample_sane; lia]|].
    apply Forall_cons_2; [split; [apply sample_fine_8 | apply sample_sane; lia]|].
    apply Forall_cons_2; [split; [apply sample_fine_9 | apply sample_sane; lia]|apply Forall_nil_2].
  - apply sample_keys_distinct.
  - vm_compute. reflexivity.
Defined.

(** A driver whose commits fail. *)
Definition failing_commit : Driver (V := toy_scvals) (D := toy_ledgers) :=
  {| drv_error name _ := if String.eqb name "COMMIT" then Some (EExt "disk I/O error") else None |}.

Lemma ingest_atomic_witness : exists s',
  ingest (Drv := failing_commit) sample_rw 7 sample_service = (Er (EExt "disk I/O error"), s') /\
  shared (svc_db s') = (no_tables, 0, 0).
Proof.
  destruct (ingest (Drv := failing_commit) sample_rw 7 sample_service) as [r s'] eqn:E.
  exists s'. destruct (ingest_atomic (Drv := failing_commit) sample_rw 7 sample_service r s' eq_refl E)
    as (_ & [[Hsh Hr]|(lcm & s1 & w1 & _ & _ & _ & _ & _ & _ & Hr)]).
  - assert (r = (ingest (Drv := failing_commit) sample_rw 7 sample_service).1) as -> by (by rewrite E).
    split; [f_equal; vm_compute; reflexivity | exact Hsh].
  - assert (r = (ingest (Drv := failing_commit) sample_rw 7 sample_service).1) as -> by (by rewrite E).
    exfalso. destruct Hr as [Hr|(e & Hr & He)].
    + vm_compute in Hr. discriminate Hr.
    + unfold checkpoint_error in He. discriminate He.
Defined.

(** ** Retrying a ledger whose fees were taken *)

(** What the classic window answers to a ledger it already holds. *)
Definition already_taken (meta : Z) : err :=
  EJoin [not_contiguous (meta + 1) meta; EExt "not in transaction"].

(** Lemma behind [fees_block_retry]: the windows refuse the same ledger twice. *)
Lemma fees_blocked `{V : ScVals} {D : Ledgers} {X : XdrConsts} {W} `{BucketQueue (list Z) W}
    (fw fw' : FeeWindows unit W) meta {passphrase} {L : LedgersLaws D passphrase} :
  networkPassPhrase fw = passphrase -> ledger_decodes meta -> Forall fees_sane (ledger_txs meta) ->
  window_ready (ClassicFeeWindow fw) (LedgerSequence meta) ->
  zlen (concat (BucketContent <$> bq_view (feesPerLedger (ClassicFeeWindow fw)))) + 2 * zlen (ledger_txs meta) < 2 ^ 56 ->
  IngestFees fw meta = (fw', Ok tt) ->
  IngestFees fw' meta = (fw', Er (already_taken (LedgerSequence meta))).
Proof.
  intros Hp Hd HF Hr Hlen. pose proof (lcm_seq meta Hd) as Hs.
  pose proof (length_omap_le classic_part (ledger_txs meta)) as Hom.
  rewrite (IngestFees_appends fw meta Hp Hd HF). cbv zeta.
  set (b := mkBucket _ _ (omap classic_part _)).
  destruct (window_ready_append (ClassicFeeWindow fw) b) as (c & -> & Hrc & Hvc);
    [done|unfold is_u32; simpl; lia|simpl; lia|unfold zlen in *; simpl; lia|].
  destruct (AppendLedgerFees (SorobanInclusionFeeWindow _) _) as [so|e|p]; [|discriminate|discriminate].
  intros [= <-]. rewrite (IngestFees_appends _ meta) by done. cbv zeta. cbn [ClassicFeeWindow]. fold b.
  destruct Hrc as (Hok & Hn & _).
  pose proof (view_append_fees (bq_cap (feesPerLedger (ClassicFeeWindow fw)))
    (bq_view (feesPerLedger (ClassicFeeWindow fw))) b) as H1.
  pose proof (view_append_fees (bq_cap (feesPerLedger c)) (bq_view (feesPerLedger c)) b) as H2.
  assert (next_seq (bq_view (feesPerLedger c)) = Some (LedgerSequence meta + 1)) as Hnext.
  { rewrite Hvc in *. destruct (view_append _ _ b) as [|h l] eqn:E; [|simpl in Hn |- *; by rewrite Hn].
    exfalso. unfold view_append in E. destruct (_ <? _)%nat; by apply app_nil in E as [_ ?]. }
  destruct (AppendLedgerFees_spec c b (proj1 Hok)) as [(q & Hq & Hne & ->)|([Hq|Hq] & _)].
  - unfold is_u32. simpl. lia.
  - rewrite Hvc in *. unfold zlen in *. cbn [BucketContent b] in *. lia.
  - rewrite Hnext in Hq. injection Hq as <-. by destruct (fw_db fw).
  - congruence.
  - rewrite Hnext in Hq. injection Hq as Hq. simpl in Hq. lia.
Qed.

Section Retries.
Context `{V : ScVals} {D : Ledgers} {T : Toid} {X : XdrConsts} {B : LedgerBackend}.
Context {W : Type} `{Q : BucketQueue (list Z) W}.

(** The same ledger ingested again and again, each time with what the driver does
    then: the results, and the service left. *)
Fixpoint attempts (rw : readWriter) (sequence : Z) (drivers : list Driver) (s : Service (W := W)) :
    list (go unit) * Service :=
  match drivers with
  | [] => ([], s)
  | d :: drivers' =>
      let '(r, s1) := ingest (Drv := d) rw sequence s in
      let '(rs, s2) := attempts rw sequence drivers' s1 in (r :: rs, s2)
  end.

Lemma ingestLedgerCloseMeta_fees (d : Driver) rw lcm (s s' : Service (W := W)) r :
  ingestLedgerCloseMeta rw lcm s = (r, s') ->
  (svc_feeWindows s' = svc_feeWindows s /\ r <> Ok tt) \/
  IngestFees (svc_feeWindows s) lcm = (svc_feeWindows s', r).
Proof.
  unfold ingestLedgerCloseMeta, on_db, mbind, st_bind.
  destruct (InsertLedger lcm (svc_db s)) as [[[]|e|p] w1]; [|intros [= <- <-]; by left..]. cbn [svc_db svc_feeWindows].
  destruct (InsertTransactions _ lcm w1) as [[[]|e|p] w2]; [|intros [= <- <-]; by left..]. cbn [svc_db svc_feeWindows].
  destruct (InsertEvents _ lcm w2) as [[[]|e|p] w3]; [|intros [= <- <-]; by left..].
  unfold ingestFees. cbn [svc_db svc_feeWindows]. destruct (IngestFees _ lcm). intros [= <- <-]. by right.
Qed.

(** Windows that refuse the ledger: no attempt changes anything, whatever the driver
    does, and one whose statements succeed fails with the windows' error. *)
Lemma ingest_blocked (d : Driver) rw sequence (s : Service (W := W)) meta e r s' :
  sess_tx (svc_db s) = None -> backend_GetLedger sequence = Ok meta ->
  IngestFees (svc_feeWindows s) meta = (svc_feeWindows s, Er e) ->
  ingest rw sequence s = (r, s') ->
  (r <> Ok tt /\ shared (svc_db s') = shared (svc_db s) /\ sess_tx (svc_db s') = None /\
   svc_feeWindows s' = svc_feeWindows s) /\
  (drv_error "BEGIN" (disk (svc_db s)) = None ->
   (store_ledger rw meta (svc_db (begun s))).1 = Ok tt -> r = Er e).
Proof.
  intros Hs Hb Hf E. split.
  - destruct (ingest_cases _ _ _ _ _ Hs E) as [Hn [(Hsh & Hr & Hw)|(lcm & s1 & w1 & H1 & H2 & _)]].
    + split_and!; try done. destruct Hw as [[Hw _]|(lcm & H1 & ->)]; [done|].
      rewrite Hb in H1. injection H1 as <-. destruct (ingestLedgerCloseMeta rw meta (begun s)) as [r1 s1] eqn:Ei. cbn [snd].
      destruct (ingestLedgerCloseMeta_fees d _ _ _ _ _ Ei) as [[-> _]|Hf']; [done|].
      cbn in Hf' |- *. rewrite Hf in Hf'. by injection Hf' as <- _.
    + rewrite Hb in H1. injection H1 as <-.
      destruct (ingestLedgerCloseMeta_fees d _ _ _ _ _ H2) as [[_ ?]|Hf']; [done|]. cbn in Hf'. congruence.
  - intros Hbegin Hst. destruct (store_ledger rw meta (svc_db (begun s))) as [r0 t] eqn:E0. simpl in Hst. subst r0.
    revert E. unfold ingest, mbind, st_bind, lift. rewrite Hb.
    unfold on_db at 1, NewTx, modify, mbind, st_bind, Begin. simpl.
    change (view (set_tx None (svc_db s))) with (disk (svc_db s)). rewrite Hbegin.
    set (s1 := mkService (set_tx _ _) _ _). change s1 with (begun s). clear s1. unfold deferred_rollback.
    rewrite (store_ledger_run rw meta (begun s) t E0). unfold ingestFees. cbn [svc_feeWindows begun]. rewrite Hf.
    destruct (on_db Rollback _) as [r1 s2]. by intros [= <- _].
Qed.

Lemma attempts_blocked rw sequence meta e drivers : forall (s : Service (W := W)) rs s',
  sess_tx (svc_db s) = None -> backend_GetLedger sequence = Ok meta ->
  IngestFees (svc_feeWindows s) meta = (svc_feeWindows s, Er e) ->
  attempts rw sequence drivers s = (rs, s') ->
  Forall (fun r => r <> Ok tt) rs /\ length rs = length drivers /\
  shared (svc_db s') = shared (svc_db s) /\ sess_tx (svc_db s') = None /\ svc_feeWindows s' = svc_feeWindows s.
Proof.
  induction drivers as [|d ds IH]; intros s rs s' Hs Hb Hf; simpl; [by intros [= <- <-]|].
  destruct (ingest (Drv := d) rw sequence s) as [r s1] eqn:E1. destruct (attempts rw sequence ds s1) as [rs1 s2] eqn:E2.
  intros [= <- <-]. destruct (ingest_blocked d rw sequence s meta e r s1 Hs Hb Hf E1) as [(Hr & Hsh & Hs1 & Hw) _].
  destruct (IH s1 rs1 s2) as (H1 & H2 & H3 & H4 & H5); [done|done|by rewrite Hw|done|].
  split_and!; [by constructor|simpl; by rewrite H2|by rewrite H3|done|by rewrite H5].
Qed.

(** C33: The fee windows are not rolled back: when an ingestion fails after the
    ledger's fees were taken (in the trims or in the commit, so nothing was
    stored), the service can never ingest that ledger again.  Every later attempt,
    whatever the driver does in each of them, fails and leaves the committed
    tables and the cache as they are; and once the driver has recovered, the
    error is the classic window's: the ledger is not contiguous to itself. *)
Theorem fees_block_retry {passphrase} {L : LedgersLaws D passphrase} (d0 : Driver) rw sequence meta
    (s s1 s2 : Service (W := W)) r drivers rs :
  sess_tx (svc_db s) = None -> networkPassPhrase (svc_feeWindows s) = passphrase ->
  backend_GetLedger sequence = Ok meta -> ledger_decodes meta -> Forall fees_sane (ledger_txs meta) ->
  window_ready (ClassicFeeWindow (svc_feeWindows s)) (LedgerSequence meta) ->
  zlen (concat (BucketContent <$> bq_view (feesPerLedger (ClassicFeeWindow (svc_feeWindows s)))))
    + 2 * zlen (ledger_txs meta) < 2 ^ 56 ->
  drv_error (Driver := d0) "BEGIN" (disk (svc_db s)) = None ->
  (ingestLedgerCloseMeta (Drv := d0) rw meta (begun s)).1 = Ok tt ->
  ingest (Drv := d0) rw sequence s = (r, s1) -> shared (svc_db s1) = shared (svc_db s) -> r <> Ok tt ->
  attempts rw sequence drivers s1 = (rs, s2) ->
  Forall (fun r => r <> Ok tt) rs /\ length rs = length drivers /\ shared (svc_db s2) = shared (svc_db s) /\
  (forall d : Driver, drv_error (Driver := d) "BEGIN" (disk (svc_db s2)) = None ->
    (store_ledger (Drv := d) rw meta (svc_db (begun s2))).1 = Ok tt ->
    (ingest (Drv := d) rw sequence s2).1 = Er (already_taken (LedgerSequence meta))).
Proof.
  intros Hs Hp Hb Hdec HF Hr Hlen Hbegin Hok E Hsh Hne Hat.
  destruct (ingestLedgerCloseMeta rw meta (begun s)) as [r1 s0] eqn:Ei. simpl in Hok. subst r1.
  destruct (ingestLedgerCloseMeta_fees d0 _ _ _ _ _ Ei) as [[_ ?]|Hfees]; [done|]. cbn [begun svc_feeWindows] in Hfees.
  apply (fees_blocked _ _ meta Hp Hdec HF Hr Hlen) in Hfees.
  assert (sess_tx (svc_db s1) = None /\ svc_feeWindows s1 = svc_feeWindows s0) as [Hs1 Hw].
  { destruct (ingest_cases _ _ _ _ _ Hs E) as [Hn [(_ & _ & Hw)|(lcm & s3 & w1 & H1 & H2 & Hw & _)]]; (split; [done|]).
    - destruct Hw as [[_ [Hw|Hw]]|(lcm & H1 & ->)]; [by destruct (Hw meta)|done|].
      rewrite Hb in H1. injection H1 as <-. by rewrite Ei.
    - rewrite Hb in H1. injection H1 as <-. rewrite Ei in H2. by injection H2 as <-. }
  destruct (attempts_blocked rw sequence meta (already_taken (LedgerSequence meta)) drivers s1 rs s2 Hs1 Hb) as (H1 & H2 & H3 & H4 & H5);
    [rewrite Hw; exact Hfees|done|].
  split_and!; [done|done|by rewrite H3|]. intros d Hd Hst. destruct (ingest (Drv := d) rw sequence s2) as [r2 s3] eqn:E2.
  apply (ingest_blocked d rw sequence s2 meta (already_taken (LedgerSequence meta)) r2 s3 H4 Hb) in E2 as [_ H]; [by apply H|].
  rewrite H5, Hw. exact Hfees.
Qed.
End Retries.

(** The disk is full during one commit; the driver recovers, fails and recovers again. *)
Lemma fees_block_retry_witness : exists s1 s2 rs,
  ingest (Drv := failing_commit) sample_rw 7 sample_service = (Er (EExt "disk I/O error"), s1) /\
  attempts sample_rw 7 [healthy; failing_commit; healthy] s1 = (rs, s2) /\
  Forall (fun r => r <> Ok tt) rs /\ shared (svc_db s2) = (no_tables, 0, 0) /\
  (ingest (Drv := healthy) sample_rw 7 s2).1 = Er (EJoin [not_contiguous 8 7; EExt "not in transaction"]).
Proof.
  destruct (ingest (Drv := failing_commit) sample_rw 7 sample_service) as [r s1] eqn:E.
  destruct (attempts sample_rw 7 [healthy; failing_commit; healthy] s1) as [rs s2] eqn:Ea.
  exists s1, s2, rs.
  assert (r = Er (EExt "disk I/O error")) as Hr.
  { assert (r = (ingest (Drv := failing_commit) sample_rw 7 sample_service).1) as -> by (by rewrite E).
    vm_compute. reflexivity. }
  assert (shared (svc_db s1) = shared (svc_db sample_service)) as Hsh.
  { assert (s1 = (ingest (Drv := failing_commit) sample_rw 7 sample_service).2) as -> by (by rewrite E).
    vm_compute. reflexivity. }
  destruct (fees_block_retry (passphrase := "net") failing_commit sample_rw 7 (sample_ledger 7)
    sample_service s1 s2 r [healthy; failing_commit; healthy] rs) as (H1 & _ & H3 & H4).
  - reflexivity.
  - reflexivity.
  - reflexivity.
  - apply sample_fine_7.
  - apply sample_sane. lia.
  - split; [apply NewFeeWindow_ok; lia|]. split; [reflexivity|simpl; lia].
  - vm_compute. reflexivity.
  - reflexivity.
  - vm_compute. reflexivity.
  - exact E.
  - exact Hsh.
  - rewrite Hr. discriminate.
  - exact Ea.
  - split; [by rewrite Hr|]. split; [exact Ea|]. split; [exact H1|]. split; [exact H3|].
    apply H4; [reflexivity|].
    assert (svc_db (begun s2) = svc_db (begun (attempts sample_rw 7 [healthy; failing_commit; healthy]
      (ingest (Drv := failing_commit) sample_rw 7 sample_service).2).2)) as -> by (by rewrite E; cbn [snd]; rewrite Ea).
    vm_compute. reflexivity.
Defined.
