(* ===== verification/Snapshots.v ===== *)
(** * Readers beside the writer: the shared cache of [internal/db]

    The ingestion service commits and updates the cache of the latest ledger under
    a read-write mutex; readers open transactions ([ledgerReader.NewTx]), ask for
    the range ([ledgerReader.GetLedgerRange]) and fill the cache
    ([getLatestLedgerSequence]) meanwhile.  One writer and any number of readers
    run interleaved, one operation of the mutex, of the cache or of the database at
    a time.  SQLite begins a transaction either with its snapshot or, deferred, by
    taking it at the first statement: which is a parameter. *)

From S2P Require Import Prelude GoStd Externals Cursor BucketWindow LedgerMeta Store LedgerStore EventStore TxStore WriteTx Ingest.

Section Snapshots.
Context `{V : ScVals} {D : Ledgers} {Drv : Driver} {T : Toid}.
Context (deferred : bool).

(** The committed tables and the cache (a session outside of a transaction), the
    mutex, and, for the theorems only, all the tables committed so far. *)
Record Shared := mkShared {
  sh_db : DB;
  sh_readers : Z;
  sh_writer : bool;
  sh_history : list Tables;
}.
Definition set_readers (z : Z) (sh : Shared) : Shared := mkShared (sh_db sh) z (sh_writer sh) (sh_history sh).
Definition set_writer (b : bool) (sh : Shared) : Shared := mkShared (sh_db sh) (sh_readers sh) b (sh_history sh).
Definition RLock (sh : Shared) : Shared := set_readers (sh_readers sh + 1) sh.
Definition RUnlock (sh : Shared) : Shared := set_readers (sh_readers sh - 1) sh.
Definition set_cacheSeq (z : Z) (sh : Shared) : Shared :=
  mkShared (mkDB (disk (sh_db sh)) z (latestLedgerCloseTime (sh_db sh)) None) (sh_readers sh) (sh_writer sh) (sh_history sh).
Definition set_cacheTime (z : Z) (sh : Shared) : Shared :=
  mkShared (mkDB (disk (sh_db sh)) (latestLedgerSeq (sh_db sh)) z None) (sh_readers sh) (sh_writer sh) (sh_history sh).
Definition commit (t : Tables) (sh : Shared) : Shared :=
  mkShared (mkDB t (latestLedgerSeq (sh_db sh)) (latestLedgerCloseTime (sh_db sh)) None) (sh_readers sh) (sh_writer sh)
    (sh_history sh ++ [t]).

(** ** The writer *)

(** The write transaction of a ledger up to its commit, on the session's copy. *)
Definition stage (rw : readWriter) (l : LedgerCloseMeta) : st DB unit :=
  _ ← NewTx rw;
  _ ← store_ledger rw l;
  trim rw (LedgerSequence l).

(** The writer has the ledgers [ls] to come; between [commitAndUpdateCache]'s
    operations it holds the mutex. *)
Inductive writing :=
  | WIdle (ls : list LedgerCloseMeta)
  | WReady (l : LedgerCloseMeta) (t : Tables) (ls : list LedgerCloseMeta)
  | WLocked (l : LedgerCloseMeta) (t : Tables) (ls : list LedgerCloseMeta)
  | WCommitted (l : LedgerCloseMeta) (ls : list LedgerCloseMeta)
  | WCached (l : LedgerCloseMeta) (ls : list LedgerCloseMeta)
  | WUnlocking (ls : list LedgerCloseMeta).

Inductive writer_step (rw : readWriter) (sh : Shared) : writing -> Shared -> writing -> Prop :=
  | w_stage l ls w t : stage rw l (sh_db sh) = (Ok tt, w) -> sess_tx w = Some t ->
      writer_step rw sh (WIdle (l :: ls)) sh (WReady l t ls)
  | w_Lock l t ls : sh_writer sh = false -> sh_readers sh = 0 ->
      writer_step rw sh (WReady l t ls) (set_writer true sh) (WLocked l t ls)
  | w_commit l t ls : (session_Commit (set_tx (Some t) (sh_db sh))).1 = Ok tt ->
      writer_step rw sh (WLocked l t ls) (commit t sh) (WCommitted l ls)
  | w_commit_fails l t ls e : (session_Commit (set_tx (Some t) (sh_db sh))).1 = Er e ->
      writer_step rw sh (WLocked l t ls) sh (WUnlocking (l :: ls))
  | w_seq l ls : writer_step rw sh (WCommitted l ls) (set_cacheSeq (LedgerSequence l) sh) (WCached l ls)
  | w_time l ls : writer_step rw sh (WCached l ls) (set_cacheTime (LedgerCloseTime l) sh) (WUnlocking ls)
  | w_Unlock ls : writer_step rw sh (WUnlocking ls) (set_writer false sh) (WIdle ls).

(** ** The readers *)

(** Where a reader is: in [NewTx] and then with an open transaction, whose
    snapshot may not be taken yet; in [GetLedgerRange], called for itself or to
    fill the cache; in [getLatestLedgerSequence]. *)
Inductive reader :=
  | NStart
  | NLocked
  | NFailed
  | NBegun (snapshot : option Tables)
  | NSeq (snapshot : option Tables) (seq : Z)
  | NCopied (snapshot : option Tables) (seq time : Z)
  | NOpen (snapshot : option Tables) (seq time : Z)
  | NEnd
  | GStart (fill : bool)
  | GLocked (fill : bool)
  | GSeq (fill : bool) (seq : Z)
  | GCopied (fill : bool) (seq time : Z)
  | GQuery (fill : bool) (seq time : Z)
  | GDone (r : go LedgerRange)
  | LStart
  | LLocked
  | LRead (seq : Z)
  | FReady (range : LedgerRange)
  | FLocked (range : LedgerRange)
  | FSeq (range : LedgerRange)
  | FUnlocking (range : LedgerRange)
  | LDone (r : go Z).

(** [getLedgerRangeWithCache] or [WithoutCache], by the copy of the cache. *)
Definition query_range (seq time : Z) (w : DB) : go LedgerRange :=
  ((if negb (seq =? 0) then getLedgerRangeWithCache seq time else getLedgerRangeWithoutCache) w).1.
Definition ranged (fill : bool) (r : go LedgerRange) : reader :=
  if fill then match r with Ok rng => FReady rng | Er e => LDone (Er e) | Panic p => LDone (Panic p) end else GDone r.

Inductive reader_step (sh : Shared) : reader -> Shared -> reader -> Prop :=
  | n_RLock : sh_writer sh = false -> reader_step sh NStart (RLock sh) NLocked
  | n_begin w : Begin (set_tx None (sh_db sh)) = (Ok tt, w) ->
      reader_step sh NLocked sh (NBegun (if deferred then None else sess_tx w))
  | n_begin_fails e w : Begin (set_tx None (sh_db sh)) = (Er e, w) -> reader_step sh NLocked sh NFailed
  | n_fail_RUnlock : reader_step sh NFailed (RUnlock sh) NEnd
  | n_seq s : reader_step sh (NBegun s) sh (NSeq s (latestLedgerSeq (sh_db sh)))
  | n_time s seq : reader_step sh (NSeq s seq) sh (NCopied s seq (latestLedgerCloseTime (sh_db sh)))
  | n_RUnlock s seq time : reader_step sh (NCopied s seq time) (RUnlock sh) (NOpen s seq time)
  | n_first_statement seq time : reader_step sh (NOpen None seq time) sh (NOpen (Some (disk (sh_db sh))) seq time)
  | n_done s seq time : reader_step sh (NOpen s seq time) sh NEnd
  | g_RLock fill : sh_writer sh = false -> reader_step sh (GStart fill) (RLock sh) (GLocked fill)
  | g_seq fill : reader_step sh (GLocked fill) sh (GSeq fill (latestLedgerSeq (sh_db sh)))
  | g_time fill seq : reader_step sh (GSeq fill seq) sh (GCopied fill seq (latestLedgerCloseTime (sh_db sh)))
  | g_RUnlock fill seq time : reader_step sh (GCopied fill seq time) (RUnlock sh) (GQuery fill seq time)
  | g_query fill seq time : reader_step sh (GQuery fill seq time) sh (ranged fill (query_range seq time (sh_db sh)))
  | l_RLock : sh_writer sh = false -> reader_step sh LStart (RLock sh) LLocked
  | l_seq : reader_step sh LLocked sh (LRead (latestLedgerSeq (sh_db sh)))
  | l_RUnlock seq : reader_step sh (LRead seq) (RUnlock sh) (if negb (seq =? 0) then LDone (Ok seq) else GStart true)
  | f_Lock rng : sh_writer sh = false -> sh_readers sh = 0 -> reader_step sh (FReady rng) (set_writer true sh) (FLocked rng)
  | f_seq rng : latestLedgerSeq (sh_db sh) = 0 ->
      reader_step sh (FLocked rng) (set_cacheSeq (Sequence (RLast rng)) sh) (FSeq rng)
  | f_keep rng : latestLedgerSeq (sh_db sh) <> 0 -> reader_step sh (FLocked rng) sh (FUnlocking rng)
  | f_time rng : reader_step sh (FSeq rng) (set_cacheTime (CloseTime (RLast rng)) sh) (FUnlocking rng)
  | f_Unlock rng : reader_step sh (FUnlocking rng) (set_writer false sh) (LDone (Ok (Sequence (RLast rng)))).

(** ** The system *)

Record system := mkSystem { shared : Shared; the_writer : writing; readers : list reader }.
Inductive step (rw : readWriter) : system -> system -> Prop :=
  | step_writer sh w rs sh' w' : writer_step rw sh w sh' w' -> step rw (mkSystem sh w rs) (mkSystem sh' w' rs)
  | step_reader k sh w rs r sh' r' : rs !! k = Some r -> reader_step sh r sh' r' ->
      step rw (mkSystem sh w rs) (mkSystem sh' w (<[k := r']> rs)).

(** A database nobody is using, the ledgers to come, and readers about to start. *)
Definition start (w : DB) (ls : list LedgerCloseMeta) (rs : list reader) : system :=
  mkSystem (mkShared (mkDB (disk w) (latestLedgerSeq w) (latestLedgerCloseTime w) None) 0 false [disk w]) (WIdle ls) rs.
Definition starting (r : reader) : bool := match r with NStart | GStart _ | LStart => true | _ => false end.

(** ** Alone, each does what its definition says *)

Definition reader_runs (sh : Shared) (r : reader) : Shared * reader -> Prop :=
  rtc (fun x y => reader_step x.1 x.2 y.1 y.2) (sh, r).
Lemma reader_then sh r sh' r' z : reader_step sh r sh' r' -> reader_runs sh' r' z -> reader_runs sh r z.
Proof. intros Hs Hr. by eapply rtc_l, Hr. Qed.
Lemma reader_ends sh r : reader_runs sh r (sh, r).
Proof. apply rtc_refl. Qed.

Lemma NewTx_alone sh tx : deferred = false -> sh_writer sh = false -> ledgerReader_NewTx (sh_db sh) = Ok tx ->
  exists t, sess_tx (ltx_db tx) = Some t /\
    reader_runs sh NStart (RUnlock (RLock sh), NOpen (Some t) (ltx_latestLedgerSeq tx) (ltx_latestLedgerCloseTime tx)).
Proof.
  intros Hdef Hw. unfold ledgerReader_NewTx. destruct (Begin _) as [[[]| |] w'] eqn:E; [|done|done]. cbn [fst snd on_err].
  intros [= <-]. cbn. assert (exists t, sess_tx w' = Some t) as [t Ht].
  { unfold Begin in E. destruct (sess_tx _); [done|]. destruct (drv_error _ _); [done|]. injection E as <-. by eexists. }
  exists t. split; [done|]. eapply reader_then; [by apply n_RLock|]. eapply reader_then; [by apply (n_begin (RLock sh) w')|].
  rewrite Hdef, Ht. eapply reader_then; [apply n_seq|]. eapply reader_then; [apply n_time|].
  eapply reader_then; [apply n_RUnlock|]. apply reader_ends.
Qed.

Lemma GetLedgerRange_alone sh : sh_writer sh = false ->
  reader_runs sh (GStart false) (RUnlock (RLock sh), GDone (GetLedgerRange (sh_db sh)).1).
Proof.
  intros Hw. eapply reader_then; [by apply g_RLock|]. eapply reader_then; [apply g_seq|]. eapply reader_then; [apply g_time|].
  eapply reader_then; [apply g_RUnlock|]. eapply reader_then; [apply g_query|]. cbn.
  assert (query_range (latestLedgerSeq (sh_db sh)) (latestLedgerCloseTime (sh_db sh)) (sh_db sh) = (GetLedgerRange (sh_db sh)).1) as ->;
    [|apply reader_ends]. done.
Qed.

(** The writer's steps after the transaction's statements are [commitAndUpdateCache]. *)
Lemma commit_alone rw sh l t ls w' : sh_writer sh = false -> sh_readers sh = 0 -> sess_tx (sh_db sh) = None ->
  commitAndUpdateCache (LedgerSequence l) (LedgerCloseTime l) (set_tx (Some t) (sh_db sh)) = (Ok tt, w') ->
  exists sh', rtc (fun x y => writer_step rw x.1 x.2 y.1 y.2) (sh, WReady l t ls) (sh', WIdle ls) /\
    sh_db sh' = w' /\ sh_writer sh' = false /\ sh_readers sh' = 0.
Proof.
  intros Hw Hr Hs Hc. assert ((session_Commit (set_tx (Some t) (sh_db sh))).1 = Ok tt /\
    w' = mkDB t (LedgerSequence l) (LedgerCloseTime l) None) as [Hok ->].
  { unfold commitAndUpdateCache, modify, mbind, st_bind, session_Commit in *. cbn [set_tx sess_tx] in *.
    destruct (drv_error _ _); [done|]. by injection Hc as <-. }
  eexists. split; [|shelve].
  eapply (rtc_l _ _ (_, _)); [by apply w_Lock|]. eapply (rtc_l _ _ (_, _)); [by apply w_commit|].
  eapply (rtc_l _ _ (_, _)); [apply w_seq|]. eapply (rtc_l _ _ (_, _)); [apply w_time|]. apply rtc_once. apply w_Unlock.
  Unshelve. done.
Qed.

(** ** The invariant *)

Context {passphrase : string} {L : LedgersLaws D passphrase} {TL : ToidLaws T}.

Definition writing_locked (w : writing) : bool :=
  match w with WLocked _ _ _ | WCommitted _ _ | WCached _ _ | WUnlocking _ => true | _ => false end.
(** The tables are newer than the cache. *)
Definition committing (w : writing) : bool := match w with WCommitted _ _ => true | _ => false end.
Definition holds_read (r : reader) : bool :=
  match r with
  | NLocked | NFailed | NBegun _ | NSeq _ _ | NCopied _ _ _ | GLocked _ | GSeq _ _ | GCopied _ _ _ | LLocked | LRead _ => true
  | _ => false
  end.
Definition holds_write (r : reader) : bool := match r with FLocked _ | FSeq _ | FUnlocking _ => true | _ => false end.

Definition is_latest (t : Tables) (i : LedgerInfo) : Prop := exists l, last (all_ledgers t) = Some l /\ info_of l = i.
Definition pair_ok (t : Tables) (seq time : Z) : Prop := seq = 0 \/ is_latest t (mkInfo seq time).
Definition latest_in (hist : list Tables) (i : LedgerInfo) : Prop := exists t, t ∈ hist /\ is_latest t i.

(** The oldest ledger of one state with the newest of another. *)
Definition range_between (t_last t_first : Tables) : go LedgerRange :=
  match head (all_ledgers t_first), last (all_ledgers t_last) with
  | Some a, Some b => Ok (mkRange (info_of a) (info_of b))
  | _, _ => Er ErrEmptyDB
  end.
Definition between (hist : list Tables) (r : go LedgerRange) : Prop :=
  exists i j ti tj, (i <= j)%nat /\ hist !! i = Some ti /\ hist !! j = Some tj /\ r = range_between ti tj.

Notation cseq sh := (latestLedgerSeq (sh_db sh)).
Notation ctime sh := (latestLedgerCloseTime (sh_db sh)).

Definition snapshot_now (sh : Shared) : option Tables := if deferred then None else Some (disk (sh_db sh)).
Definition reader_ok (sh : Shared) (w : writing) (r : reader) : Prop :=
  match r with
  | NBegun s => s = snapshot_now sh
  | NSeq s seq => s = snapshot_now sh /\ seq = cseq sh
  | NCopied s seq time => s = snapshot_now sh /\ seq = cseq sh /\ time = ctime sh
  | NOpen s seq time => (exists i t, sh_history sh !! i = Some t /\ pair_ok t seq time /\
        forall u, s = Some u -> exists j, (i <= j)%nat /\ sh_history sh !! j = Some u) /\
      (deferred = false -> exists t, s = Some t /\ pair_ok t seq time)
  | GSeq _ seq | LRead seq => seq = cseq sh
  | GCopied _ seq time => seq = cseq sh /\ time = ctime sh
  | GQuery _ seq time => (exists i t, sh_history sh !! i = Some t /\ pair_ok t seq time) /\ (seq <> 0 -> cseq sh <> 0)
  | GDone r => between (sh_history sh) r
  | FReady rng | FLocked rng => latest_in (sh_history sh) (RLast rng) /\
      (committing w = false -> cseq sh = 0 -> is_latest (disk (sh_db sh)) (RLast rng))
  | FSeq rng => latest_in (sh_history sh) (RLast rng) /\ is_latest (disk (sh_db sh)) (RLast rng) /\ cseq sh = Sequence (RLast rng)
  | FUnlocking rng => latest_in (sh_history sh) (RLast rng)
  | LDone (Ok seq) => exists time, latest_in (sh_history sh) (mkInfo seq time)
  | _ => True
  end.

(** The ledgers [ls] follow the stored ones [cur]. *)
Record follows (cur ls : list LedgerCloseMeta) : Prop := {
  fo_fine : Forall ledger_fine (cur ++ ls);
  fo_consecutive : consecutive (cur ++ ls);
  fo_keys : NoDup (concat (keys_of <$> (cur ++ ls)));
  fo_seq : Forall (fun l => 0 < LedgerSequence l < 2147483647) (cur ++ ls);
}.
Definition writer_ok (sh : Shared) (w : writing) : Prop :=
  match w with
  | WIdle ls | WUnlocking ls => exists cur, represents (disk (sh_db sh)) cur /\ follows cur ls
  | WReady l t ls | WLocked l t ls => (exists cur, represents (disk (sh_db sh)) cur /\ follows cur (l :: ls)) /\
      (exists cur, represents t cur /\ last cur = Some l /\ follows cur ls)
  | WCommitted l ls => exists cur, represents (disk (sh_db sh)) cur /\ last cur = Some l /\ follows cur ls
  | WCached l ls => (exists cur, represents (disk (sh_db sh)) cur /\ last cur = Some l /\ follows cur ls) /\ cseq sh = LedgerSequence l
  end.
(** Outside of the critical sections the cache names the newest ledger. *)
Definition cache_state (sh : Shared) (w : writing) (rs : list reader) : Prop :=
  match w with
  | WCommitted _ _ | WCached _ _ => True
  | _ => (exists rng, FSeq rng ∈ rs) \/ pair_ok (disk (sh_db sh)) (cseq sh) (ctime sh)
  end.

Record inv (s : system) : Prop := {
  i_readers : sh_readers (shared s) = countb holds_read (readers s);
  i_writer : Z.b2z (sh_writer (shared s)) = Z.b2z (writing_locked (the_writer s)) + countb holds_write (readers s);
  i_excl : sh_writer (shared s) = true -> sh_readers (shared s) = 0;
  i_idle : sess_tx (sh_db (shared s)) = None;
  i_last : last (sh_history (shared s)) = Some (disk (sh_db (shared s)));
  i_represents : Forall (fun t => exists ls, represents t ls) (sh_history (shared s));
  i_the_writer : writer_ok (shared s) (the_writer s);
  i_cache : cache_state (shared s) (the_writer s) (readers s);
  i_all r : r ∈ readers s -> reader_ok (shared s) (the_writer s) r;
}.

(** Readers without the mutex do not see what its holder changes. *)
Lemma unlocked_stable sh w sh' w' r : holds_read r = false -> holds_write r = false ->
  sh_history sh `prefix_of` sh_history sh' -> (cseq sh <> 0 -> cseq sh' <> 0) ->
  (committing w' = false -> cseq sh' = 0 -> committing w = false /\ cseq sh = 0 /\ disk (sh_db sh') = disk (sh_db sh)) ->
  reader_ok sh w r -> reader_ok sh' w' r.
Proof.
  intros Hr Hw Hh Hseq Hcom.
  assert (forall i, latest_in (sh_history sh) i -> latest_in (sh_history sh') i) as Hlat.
  { intros i (t & Ht & Hi). exists t. split; [|done]. destruct Hh as [k ->]. apply elem_of_app. by left. }
  destruct r; try done; cbn [reader_ok].
  - intros [(i & t & Hi & Hp & Hu) H2]. split; [|done]. exists i, t. split; [by eapply prefix_lookup_Some|]. split; [done|].
    intros u Hs. destruct (Hu u Hs) as (j & Hle & Hj). exists j. split; [done|by eapply prefix_lookup_Some].
  - intros [(i & t & Hi & Hp) H2]. split; [|tauto]. exists i, t. split; [|done]. by eapply prefix_lookup_Some.
  - intros (i & j & ti & tj & Hle & Hi & Hj & E). exists i, j, ti, tj. split_and!; try done; by eapply prefix_lookup_Some.
  - intros [H1 H2]. split; [by apply Hlat|]. intros Hc Hz. destruct (Hcom Hc Hz) as (E1 & E2 & ->). by apply H2.
  - destruct r as [seq| |]; [|done..]. intros [time H]. exists time. by apply Hlat.
Qed.

Lemma no_lock_holder s r : inv s -> sh_readers (shared s) = 0 -> r ∈ readers s -> holds_read r = false.
Proof.
  intros Hi H0 [k Hk]%list_elem_of_lookup. rewrite (i_readers _ Hi) in H0. destruct (holds_read r) eqn:E; [|done].
  pose proof (countb_lookup_pos _ _ _ _ Hk E). lia.
Qed.
Lemma sole_writer s r : inv s -> writing_locked (the_writer s) = true -> r ∈ readers s -> holds_write r = false /\ holds_read r = false.
Proof.
  intros Hi Hw Hr. pose proof (i_writer _ Hi) as E. rewrite Hw in E.
  pose proof (countb_range holds_write (readers s)).
  assert (sh_writer (shared s) = true) as Hsw by (destruct (sh_writer (shared s)); [done|simpl in E; lia]).
  split; [|apply (no_lock_holder s); [done|by apply (i_excl _ Hi)|done]].
  apply list_elem_of_lookup in Hr as [k Hk]. destruct (holds_write r) eqn:E2; [|done].
  pose proof (countb_lookup_pos _ _ _ _ Hk E2). rewrite Hsw in E. simpl in E. lia.
Qed.

(** ** Every step keeps it *)

Context (rw : readWriter).
Hypothesis driver_fine : no_driver_errors.
Hypothesis rw_same : rw_passphrase rw = passphrase.
Hypothesis rw_retention : 0 < historyRetentionWindow rw < 4294967296.

Lemma follows_app cur l ls : follows cur (l :: ls) -> follows (cur ++ [l]) ls.
Proof. intros [H1 H2 H3 H4]. rewrite cons_middle, (assoc_L (++)) in H1, H2, H3, H4. by constructor. Qed.
Lemma follows_drop k cur ls : follows cur ls -> (k <= length cur)%nat -> follows (drop k cur) ls.
Proof.
  intros [H1 H2 H3 H4] Hk. assert (drop k cur ++ ls = drop k (cur ++ ls)) as E by (by rewrite drop_app_le).
  constructor; rewrite E.
  - by apply Forall_drop.
  - by apply consecutive_drop.
  - rewrite <- (take_drop k (cur ++ ls)), fmap_app, concat_app in H3. by apply NoDup_app in H3 as (_ & _ & H3).
  - by apply Forall_drop.
Qed.

Lemma stage_spec l w cur ls : sess_tx w = None -> represents (disk w) cur -> follows cur (l :: ls) ->
  exists t, (exists w', stage rw l w = (Ok tt, w') /\ sess_tx w' = Some t) /\
    let cur' := lastn (Z.to_nat (historyRetentionWindow rw)) (cur ++ [l]) in
    represents t cur' /\ last cur' = Some l /\ follows cur' ls.
Proof.
  intros Hs Hrep Hf. pose proof (follows_app _ _ _ Hf) as Hf'. pose proof Hf' as [Hfine Hcons Hkeys Hseq].
  apply Forall_app in Hfine as [Hfine _], Hseq as [Hseq _]. assert (consecutive (cur ++ [l])) as Hc.
  { intros i a b Ha Hb. by apply (Hcons i); apply lookup_app_l_Some. }
  set (w0 := set_tx (Some (disk w)) w).
  destruct (store_ledger_spec rw l w0 cur driver_fine rw_same) as (t1 & Hst & Hrep1 & _).
  - done.
  - apply Forall_app in Hfine as [_ Hl]. by inversion Hl.
  - apply Forall_lookup. intros i a Ha. apply lookup_lt_Some in Ha as Hlt.
    rewrite (consecutive_nth _ i (length cur) a l Hc); [lia|by apply lookup_app_l_Some|by apply list_lookup_middle|lia].
  - intros a h Ha Hh Hl. rewrite !fmap_app, !concat_app in Hkeys. apply NoDup_app in Hkeys as (Hkeys & _ & _).
    apply NoDup_app in Hkeys as (_ & Hd & _). apply (Hd h).
    + apply elem_of_concat. exists (keys_of a). split; [done|]. by apply list_elem_of_fmap_2.
    + cbn. by rewrite app_nil_r.
  - destruct (trim_spec rw l (set_view t1 w0) t1 cur) as (t2 & Htrim & Hrep2 & _); [done..| |lia|].
    { apply Forall_app in Hseq as [_ Hl]. inversion Hl. lia. }
    exists t2. split.
    + eexists. split; [|shelve]. unfold stage, NewTx, modify, mbind, st_bind, Begin. cbn [set_tx sess_tx view].
      rewrite driver_fine. change (set_tx (Some (disk (set_tx None w))) (set_tx None w)) with w0. rewrite Hst. exact Htrim.
      Unshelve. done.
    + split; [exact Hrep2|]. split; [apply last_lastn; lia|]. unfold lastn. apply follows_drop; [done|lia].
Qed.

(** A move of a reader that changes the mutex at most. *)
Lemma local_inv sh w rs k r r' rd wr : inv (mkSystem sh w rs) -> rs !! k = Some r ->
  (forall rng, r <> FSeq rng) ->
  rd = sh_readers sh - Z.b2z (holds_read r) + Z.b2z (holds_read r') ->
  Z.b2z wr = Z.b2z (sh_writer sh) - Z.b2z (holds_write r) + Z.b2z (holds_write r') ->
  (wr = true -> rd = 0) -> reader_ok sh w r' ->
  inv (mkSystem (mkShared (sh_db sh) rd wr (sh_history sh)) w (<[k := r']> rs)).
Proof.
  intros [H1 H2 H3 H4 H5 H6 H7 H8 H9] Hk Hf Hrd Hwr Hex Hok. cbn [shared the_writer readers] in *.
  constructor; cbn [shared the_writer readers sh_db sh_readers sh_writer sh_history]; try done.
  - rewrite (countb_insert _ _ _ _ _ Hk). lia.
  - rewrite (countb_insert _ _ _ _ _ Hk). lia.
  - assert ((exists rng, FSeq rng ∈ rs) -> exists rng, FSeq rng ∈ <[k := r']> rs) as Hmove.
    { intros (rng & [j Hj]%list_elem_of_lookup). exists rng. apply (list_elem_of_lookup_2 _ j).
      rewrite list_lookup_insert_ne; [done|]. intros ->. rewrite Hk in Hj. injection Hj as ->. by destruct (Hf rng). }
    unfold cache_state in *. destruct w; try done; destruct H8 as [H8|H8]; auto.
  - intros x [-> |Hx]%elem_of_insert_or; [done|by apply H9].
Qed.

(** The cache is right for a reader that holds the mutex. *)
Lemma locked_pair s k r : inv s -> readers s !! k = Some r -> holds_read r = true ->
  pair_ok (disk (sh_db (shared s))) (cseq (shared s)) (ctime (shared s)).
Proof.
  intros Hi Hk Hr. pose proof (countb_lookup_pos _ _ _ _ Hk Hr) as Hpos. rewrite <- (i_readers _ Hi) in Hpos.
  assert (sh_writer (shared s) = false) as Hw.
  { destruct (sh_writer (shared s)) eqn:E; [|done]. pose proof (i_excl _ Hi E). lia. }
  pose proof (i_writer _ Hi) as E. rewrite Hw in E. pose proof (countb_range holds_write (readers s)).
  assert (writing_locked (the_writer s) = false /\ countb holds_write (readers s) = 0) as [Hwl Hcw]
    by (destruct (writing_locked (the_writer s)); simpl in E; split; (done || lia)).
  pose proof (i_cache _ Hi) as Hc. unfold cache_state in Hc.
  destruct (the_writer s); try done; destruct Hc as [(rng & [j Hj]%list_elem_of_lookup)|Hc]; try done;
    pose proof (countb_lookup_pos holds_write _ _ _ Hj eq_refl); lia.
Qed.

Lemma query_between hist w i t seq time : ledgers_keyed (disk w) -> sess_tx w = None -> last hist = Some (disk w) ->
  hist !! i = Some t -> pair_ok t seq time ->
  exists i' ti, hist !! i' = Some ti /\ (i' <= pred (length hist))%nat /\
    query_range seq time w = range_between ti (disk w) /\ (seq = 0 -> ti = disk w).
Proof.
  intros Hk Hs Hlast Hi Hp. assert (view w = disk w) as Hv by (unfold view; by rewrite Hs).
  assert (reads_fine w) as Hf by (intros n; apply driver_fine). unfold query_range.
  destruct (Z.eqb_spec seq 0) as [->|Hne]; cbn [negb].
  - exists (pred (length hist)), (disk w). split_and!; [by rewrite <- last_lookup|lia| |done].
    by rewrite getLedgerRangeWithoutCache_spec, Hv by (by rewrite ?Hv).
  - destruct Hp as [|(l & Hl & El)]; [done|]. exists i, t. split_and!; [done|apply lookup_lt_Some in Hi; lia| |done].
    rewrite getLedgerRangeWithCache_spec, Hv by (by rewrite ?Hv). unfold range_between. rewrite Hl, El.
    by destruct (head (all_ledgers (disk w))).
Qed.

Lemma last_in_history s : inv s -> disk (sh_db (shared s)) ∈ sh_history (shared s).
Proof. intros Hi. by apply last_Some_elem_of, (i_last _ Hi). Qed.
Lemma disk_keyed s : inv s -> ledgers_keyed (disk (sh_db (shared s))).
Proof.
  intros Hi. pose proof (i_represents _ Hi) as H. rewrite Forall_forall in H.
  destruct (H _ (last_in_history _ Hi)) as [ls Hrep]. apply Hrep.
Qed.

Lemma query_ok sh w rs k fill seq time : inv (mkSystem sh w rs) -> rs !! k = Some (GQuery fill seq time) ->
  reader_ok sh w (ranged fill (query_range seq time (sh_db sh))).
Proof.
  intros Hi Hk. destruct (i_all _ Hi _ (list_elem_of_lookup_2 _ _ _ Hk)) as [(i & t & Hit & Hp) Hc]. cbn [shared the_writer] in *.
  destruct (query_between (sh_history sh) (sh_db sh) i t seq time) as (i' & ti & Hi' & Hle & -> & H0); [apply (disk_keyed _ Hi)|
    apply (i_idle _ Hi)|apply (i_last _ Hi)|done..|].
  unfold ranged. destruct fill; cycle 1.
  - exists i', (pred (length (sh_history sh))), ti, (disk (sh_db sh)). split_and!; try done. rewrite <- last_lookup. apply (i_last _ Hi).
  - unfold range_between. destruct (head _) as [a|]; [|done]. destruct (last (all_ledgers ti)) as [b|] eqn:Eb; [|done].
    cbn [reader_ok RLast]. split; [exists ti; split; [by eapply list_elem_of_lookup_2|by exists b]|]. intros _ Hz.
    destruct (decide (seq = 0)) as [E|E]; [|by specialize (Hc E)]. rewrite (H0 E) in Eb. by exists b.
Qed.

Lemma reader_inv sh w rs k r sh' r' : inv (mkSystem sh w rs) -> rs !! k = Some r -> reader_step sh r sh' r' ->
  (forall rng, r <> FSeq rng) -> (forall rng, r' <> FSeq rng) -> inv (mkSystem sh' w (<[k := r']> rs)).
Proof.
  intros Hi Hk Hstep Hf Hf'. pose proof (i_all _ Hi _ (list_elem_of_lookup_2 _ _ _ Hk)) as Hok.
  pose proof (locked_pair _ _ _ Hi Hk) as Hpair. pose proof (last_in_history _ Hi) as Hin.
  pose proof (query_ok sh w rs k) as Hq. pose proof (i_excl _ Hi) as Hex. cbn [shared the_writer readers] in *.
  assert (holds_write r = true -> sh_writer sh = true) as Hw.
  { intros Hw. pose proof (countb_lookup_pos _ _ _ _ Hk Hw). pose proof (i_writer _ Hi) as E. cbn [shared the_writer readers] in E.
    destruct (sh_writer sh); [done|]. destruct (writing_locked w); simpl in E; lia. }
  assert (holds_read r = true -> sh_writer sh = false) as Hr.
  { intros Hr. pose proof (countb_lookup_pos _ _ _ _ Hk Hr) as Hpos. pose proof (i_readers _ Hi) as E. cbn [shared readers] in E.
    destruct (sh_writer sh); [specialize (Hex eq_refl); lia|done]. }
  destruct sh as [db rd wr hist]. cbn [shared the_writer readers sh_db sh_readers sh_writer sh_history] in *.
  unfold RLock, RUnlock, set_readers, set_writer in *.
  destruct Hstep; cbn [shared the_writer readers sh_db sh_readers sh_writer sh_history] in *;
    try (by destruct (Hf' rng)); try (by destruct (Hf rng));
    (eapply (local_inv (mkShared db rd wr hist)); [exact Hi|exact Hk|done|cbn [holds_read holds_write sh_readers sh_writer Z.b2z]; try lia..|]); try done;
    try (intros Ew; first [rewrite Hr in Ew by done|rewrite Ew in *]; done).
  - cbn. unfold snapshot_now. destruct deferred; [done|]. match goal with E : Begin _ = _ |- _ => unfold Begin in E; cbn in E;
      destruct (drv_error _ _); [done|by injection E as <-] end.
  - destruct Hok as [-> ->]. done.
  - destruct Hok as (-> & -> & ->). unfold snapshot_now. cbn [reader_ok sh_db sh_history].
    assert (hist !! pred (length hist) = Some (disk db)) as Hl by (rewrite <- last_lookup; apply (i_last _ Hi)). split.
    + exists (pred (length hist)), (disk db). split; [done|]. split; [by apply Hpair|]. intros u Hu.
      exists (pred (length hist)). split; [done|]. destruct deferred; [done|by injection Hu as <-].
    + intros ->. exists (disk db). split; [done|by apply Hpair].
  - destruct Hok as [(i & t & Hit & Hp & _) H]. split; [|intros E; by destruct (H E) as (? & ? & _)].
    exists i, t. split; [done|]. split; [done|]. intros u [= <-]. exists (pred (length hist)). apply lookup_lt_Some in Hit. cbn [sh_history] in Hit.
    split; [lia|]. rewrite <- last_lookup. apply (i_last _ Hi).
  - destruct Hok as [-> ->]. cbn [reader_ok sh_history sh_db]. split; [|done]. exists (pred (length hist)), (disk db).
    split; [rewrite <- last_lookup; apply (i_last _ Hi)|by apply Hpair].
  - destruct fill; [destruct (query_range _ _ _)|]; cbn; lia.
  - destruct fill; [destruct (query_range _ _ _)|]; cbn; lia.
  - by apply Hq.
  - destruct (seq =? 0); cbn; lia.
  - destruct (seq =? 0); cbn; lia.
  - cbn in Hok. subst seq. destruct (Z.eqb_spec (latestLedgerSeq db) 0) as [|Hne]; [done|].
    destruct (Hpair eq_refl) as [E|E]; [done|]. by exists (latestLedgerCloseTime db), (disk db).
  - match goal with E : wr = false |- _ => by rewrite E end.
  - apply Hok.
  - rewrite Hw by done. done.
  - destruct rng as [a [seq time]]. by exists time.
Qed.

(** Filling the cache: nobody else holds the mutex, and the writer is not between
    the commit and the cache. *)
Lemma filler_excludes s k r : inv s -> readers s !! k = Some r -> holds_write r = true ->
  sh_writer (shared s) = true /\ writing_locked (the_writer s) = false /\
  forall j x, readers s !! j = Some x -> j <> k -> holds_read x = false /\ holds_write x = false.
Proof.
  intros Hi Hk Hr. pose proof (countb_lookup_pos _ _ _ _ Hk Hr) as Hpos. pose proof (i_writer _ Hi) as E.
  assert (sh_writer (shared s) = true) as Hw by (destruct (sh_writer (shared s)); [done|destruct (writing_locked _); simpl in E; lia]).
  assert (writing_locked (the_writer s) = false) as Hwl by (rewrite Hw in E; destruct (writing_locked _); [simpl in E; lia|done]).
  split_and!; [done..|]. intros j x Hj Hne. split.
  - apply (no_lock_holder s); [done|by apply (i_excl _ Hi)|by eapply list_elem_of_lookup_2].
  - destruct (holds_write x) eqn:Ex; [|done]. rewrite Hw, Hwl in E. simpl in E.
    pose proof (countb_insert holds_write (readers s) k r NStart Hk) as Hins. rewrite Hr in Hins. simpl in Hins.
    assert (<[k := NStart]> (readers s) !! j = Some x) as Hj' by (by rewrite list_lookup_insert_ne).
    pose proof (countb_lookup_pos _ _ _ _ Hj' Ex). lia.
Qed.

(** A change of the cache by the filler that holds the mutex. *)
Lemma filled_inv sh w rs k r r' db' : inv (mkSystem sh w rs) -> rs !! k = Some r -> holds_write r = true -> holds_write r' = true ->
  disk db' = disk (sh_db sh) -> sess_tx db' = None ->
  (latestLedgerSeq (sh_db sh) <> 0 -> latestLedgerSeq db' <> 0) ->
  (latestLedgerSeq db' = 0 -> latestLedgerSeq (sh_db sh) = 0) ->
  (exists rng, r' = FSeq rng) \/ pair_ok (disk db') (latestLedgerSeq db') (latestLedgerCloseTime db') ->
  let sh' := mkShared db' (sh_readers sh) (sh_writer sh) (sh_history sh) in
  reader_ok sh' w r' -> inv (mkSystem sh' w (<[k := r']> rs)).
Proof.
  intros Hi Hk Hr Hr' Hdisk Hs H1 H2 Hc sh' Hok. subst sh'. destruct (filler_excludes _ k r Hi Hk Hr) as (Hw & Hwl & Hother).
  cbn [shared the_writer readers] in *.
  assert (holds_read r = false /\ holds_read r' = false) as [Hr1 Hr2] by (by destruct r, r').
  destruct Hi as [I1 I2 I3 I4 I5 I6 I7 I8 I9]. cbn [shared the_writer readers] in *.
  constructor; cbn [shared the_writer readers sh_db sh_readers sh_writer sh_history]; try done.
  - rewrite (countb_insert _ _ _ _ _ Hk), Hr1, Hr2. simpl. lia.
  - rewrite (countb_insert _ _ _ _ _ Hk), Hr, Hr'. simpl. lia.
  - by rewrite Hdisk.
  - unfold writer_ok in *. cbn [sh_db]. rewrite Hdisk. by destruct w.
  - assert ((exists rng, FSeq rng ∈ <[k := r']> rs) \/ pair_ok (disk db') (latestLedgerSeq db') (latestLedgerCloseTime db')) as H.
    { destruct Hc as [[rng ->]|Hc]; [left; exists rng|by right]. apply (list_elem_of_lookup_2 _ k), list_lookup_insert_eq.
      by eapply lookup_lt_Some. }
    unfold cache_state. cbn [sh_db]. by destruct w.
  - intros x [j Hj]%list_elem_of_lookup. apply list_lookup_insert_Some in Hj as [(<- & <- & _)|[Hne Hj]]; [done|].
    destruct (Hother j x Hj ltac:(done)) as [Hx1 Hx2].
    apply (unlocked_stable sh w); try done; [|by apply I9; eapply list_elem_of_lookup_2].
    cbn. intros Hcom Hz. split_and!; [done|by apply H2|done].
Qed.

Lemma ranged_shape fill r : forall rng, ranged fill r <> FSeq rng.
Proof. by destruct fill, r. Qed.
Lemma any_reader_inv sh w rs k r sh' r' : inv (mkSystem sh w rs) -> rs !! k = Some r -> reader_step sh r sh' r' ->
  inv (mkSystem sh' w (<[k := r']> rs)).
Proof.
  intros Hi Hk Hstep. pose proof (i_all _ Hi _ (list_elem_of_lookup_2 _ _ _ Hk)) as Hok. cbn [shared the_writer] in Hok.
  inversion Hstep; subst; try (eapply reader_inv; [exact Hi|exact Hk|exact Hstep|done|]; intros; first [done|apply ranged_shape|by destruct (negb _)]).
  - destruct Hok as [H1 H2]. destruct (filler_excludes _ k _ Hi Hk eq_refl) as (_ & Hwl & _). cbn [the_writer] in Hwl.
    eapply (filled_inv sh); [exact Hi|exact Hk|done..|by left; exists rng|].
    split_and!; [done| |done]. apply H2; [by destruct w|done].
  - destruct Hok as (H1 & H2 & H3). eapply (filled_inv sh); [exact Hi|exact Hk|done..|right; right|done].
    cbn. rewrite H3. by destruct (RLast rng).
Qed.

Lemma follows_last cur ls l : follows cur ls -> last cur = Some l -> 0 < LedgerSequence l < 2147483647.
Proof.
  intros Hf Hl. pose proof (fo_seq _ _ Hf) as H. rewrite Forall_forall in H. apply H, elem_of_app. left. by apply last_Some_elem_of.
Qed.
Lemma represents_latest t cur l : represents t cur -> last cur = Some l -> is_latest t (info_of l).
Proof. intros Hrep Hl. exists l. by rewrite (rep_ledgers _ _ Hrep). Qed.

(** A step of the writer inside of its critical section. *)
Lemma critical_inv sh w rs db' hist' w' : inv (mkSystem sh w rs) -> writing_locked w = true -> writing_locked w' = true ->
  sess_tx db' = None -> last hist' = Some (disk db') -> sh_history sh `prefix_of` hist' ->
  Forall (fun t => exists ls, represents t ls) hist' ->
  (latestLedgerSeq (sh_db sh) <> 0 -> latestLedgerSeq db' <> 0) -> (committing w' = false -> latestLedgerSeq db' <> 0) ->
  let sh' := mkShared db' (sh_readers sh) (sh_writer sh) hist' in
  writer_ok sh' w' -> cache_state sh' w' rs -> inv (mkSystem sh' w' rs).
Proof.
  intros Hi Hw Hw' Hs Hlast Hpre Hrep H1 H2 sh' Hok Hc. pose proof (fun r => sole_writer _ r Hi Hw) as Hsole.
  destruct Hi as [I1 I2 I3 I4 I5 I6 I7 I8 I9]. cbn [shared the_writer readers] in *.
  constructor; cbn [shared the_writer readers]; try done; cbn [sh' sh_db sh_readers sh_writer sh_history]; try done.
  - by rewrite Hw', <- Hw.
  - intros r Hr. destruct (Hsole r Hr) as [Hr1 Hr2]. apply (unlocked_stable sh w); try done; [|by apply I9].
    cbn. intros Hcom Hz. by destruct (H2 Hcom).
Qed.

Lemma writer_inv sh w rs sh' w' : inv (mkSystem sh w rs) -> writer_step rw sh w sh' w' -> inv (mkSystem sh' w' rs).
Proof.
  intros Hi Hstep. pose proof (i_the_writer _ Hi) as Hok. cbn [shared the_writer] in Hok.
  destruct Hstep as [l ls w0 t Hstage Hs|l t ls Hw0 Hr0|l t ls Hc|l t ls e Hc|l ls|l ls|ls]; cbn [writer_ok] in Hok.
  - destruct Hok as (cur & Hrep & Hf). destruct (stage_spec l (sh_db sh) cur ls) as (t' & (w' & Hst & Hs') & Hnew); [apply (i_idle _ Hi)|done..|].
    rewrite Hst in Hstage. injection Hstage as ->. rewrite Hs in Hs'. injection Hs' as <-.
    destruct Hi as [I1 I2 I3 I4 I5 I6 I7 I8 I9]. constructor; cbn [shared the_writer readers] in *; try done.
    split; [by exists cur|by eexists].
  - destruct Hi as [I1 I2 I3 I4 I5 I6 I7 I8 I9]. cbn [shared the_writer readers] in *. rewrite Hw0 in I2. simpl in I2.
    constructor; cbn [shared the_writer readers]; try done.
    simpl. lia.
  - destruct Hok as [_ (cur & Hrep & Hl & Hf)]. eapply (critical_inv sh _ _ (mkDB t _ _ None) (sh_history sh ++ [t])); try done.
    + by rewrite last_snoc.
    + by exists [t].
    + apply Forall_app. split; [apply (i_represents _ Hi)|]. apply Forall_singleton. by exists cur.
    + by exists cur.
  - unfold session_Commit in Hc. cbn in Hc. by rewrite driver_fine in Hc.
  - destruct Hok as (cur & Hrep & Hl & Hf). pose proof (follows_last _ _ _ Hf Hl).
    eapply (critical_inv sh _ _ (mkDB (disk (sh_db sh)) (LedgerSequence l) _ None) (sh_history sh)); try done;
      [apply (i_last _ Hi)|apply (i_represents _ Hi)|cbn; lia|cbn; lia|]. cbn. split; [by exists cur|done].
  - destruct Hok as [(cur & Hrep & Hl & Hf) Hseq]. pose proof (follows_last _ _ _ Hf Hl).
    eapply (critical_inv sh _ _ (mkDB (disk (sh_db sh)) (latestLedgerSeq (sh_db sh)) (LedgerCloseTime l) None) (sh_history sh)); try done;
      [apply (i_last _ Hi)|apply (i_represents _ Hi)|cbn; lia| |].
    + by exists cur.
    + right. right. cbn. rewrite Hseq. by eapply represents_latest.
  - destruct Hi as [I1 I2 I3 I4 I5 I6 I7 I8 I9]. cbn [shared the_writer readers] in *. pose proof (countb_range holds_write rs).
    assert (countb holds_write rs = 0) as E by (destruct (sh_writer sh); simpl in I2; lia).
    by constructor.
Qed.

Lemma stage_inv s s' : step rw s s' -> inv s -> inv s'.
Proof. intros [sh w rs sh' w' Hs|k sh w rs r sh' r' Hk Hs] Hi; [by eapply writer_inv|by eapply any_reader_inv]. Qed.

Lemma start_inv w cur ls rs : represents (disk w) cur -> follows cur ls -> cache_ok w ->
  Forall (fun r => starting r = true) rs -> inv (start w ls rs).
Proof.
  intros Hrep Hf Hc Hst. assert (forall p : reader -> bool, (forall r, starting r = true -> p r = false) -> countb p rs = 0) as Hz.
  { intros p Hp. apply countb_zero. by eapply Forall_impl. }
  constructor; cbn [start shared the_writer readers sh_readers sh_writer sh_db sh_history sess_tx last disk]; try done.
  - symmetry. apply Hz. by intros [].
  - rewrite Hz; [done|by intros []].
  - apply Forall_singleton. by exists cur.
  - by exists cur.
  - right. destruct Hc as [Hc|(l & Hl & E)]; [by left|right; by exists l].
  - intros r Hr. rewrite Forall_forall in Hst. specialize (Hst r Hr). by destruct r.
Qed.

(** ** Somebody can always go on *)

Definition ended (r : reader) : bool := match r with NEnd | GDone _ | LDone _ => true | _ => false end.

Lemma begin_fine w : exists w', Begin (set_tx None w) = (Ok tt, w').
Proof. unfold Begin. cbn. rewrite driver_fine. by eexists. Qed.
Lemma holder_goes_on sh r : holds_read r || holds_write r = true -> exists sh' r', reader_step sh r sh' r'.
Proof.
  destruct r; try done; intros _; try (by eexists _, _; constructor).
  - destruct (begin_fine (sh_db sh)) as [w' Hw]. eexists _, _. by eapply n_begin.
  - destruct (decide (latestLedgerSeq (sh_db sh) = 0)) as [E|E]; eexists _, _; [by apply f_seq|by apply f_keep].
Qed.
Lemma free_goes_on sh r : sh_writer sh = false -> sh_readers sh = 0 -> ended r = false -> exists sh' r', reader_step sh r sh' r'.
Proof.
  intros Hw Hr He. destruct (holds_read r || holds_write r) eqn:E; [by apply holder_goes_on|].
  destruct r; try done; eexists _, _; first [by apply n_done|by apply n_RLock|by apply g_RLock|apply g_query|by apply l_RLock|by apply f_Lock].
Qed.
Lemma critical_goes_on sh w : writing_locked w = true -> exists sh' w', writer_step rw sh w sh' w'.
Proof.
  destruct w; try done; intros _; eexists _, _; try (by constructor).
  apply w_commit. unfold session_Commit. cbn. by rewrite driver_fine.
Qed.

Lemma snapshots_progress s : inv s -> (the_writer s = WIdle [] /\ Forall (fun r => ended r = true) (readers s)) \/ exists s', step rw s s'.
Proof.
  intros Hi. assert (forall k r, readers s !! k = Some r -> (exists sh' r', reader_step (shared s) r sh' r') -> exists s', step rw s s') as Hgo.
  { intros k r Hk (sh' & r' & Hs). destruct s as [sh w rs]. eexists. by eapply step_reader. }
  destruct (writing_locked (the_writer s)) eqn:Hwl.
  { right. destruct s as [sh w rs]. destruct (critical_goes_on sh w Hwl) as (sh' & w' & Hs). eexists. by apply step_writer. }
  destruct (countb_find holds_write (readers s)) as [Hw|(k & r & Hk & Hr)].
  2: { right. apply (Hgo k r Hk), holder_goes_on. by rewrite Hr, orb_true_r. }
  destruct (countb_find holds_read (readers s)) as [Hrd|(k & r & Hk & Hr)].
  2: { right. apply (Hgo k r Hk), holder_goes_on. by rewrite Hr. }
  pose proof (i_writer _ Hi) as E. rewrite Hwl, Hw in E.
  assert (sh_writer (shared s) = false) as Hfree by (by destruct (sh_writer (shared s))).
  pose proof (i_readers _ Hi) as E0. rewrite Hrd in E0.
  destruct (countb_find (fun r => negb (ended r)) (readers s)) as [He|(k & r & Hk & Hr)].
  2: { right. apply (Hgo k r Hk), free_goes_on; [done..|by apply negb_true_iff]. }
  pose proof (i_the_writer _ Hi) as Hok. pose proof (i_idle _ Hi) as Hidle. destruct s as [sh w rs]. cbn [shared the_writer readers] in *.
  destruct w as [[|l ls]|l t ls| | | |]; try done.
  - left. split; [done|]. apply countb_zero in He. eapply Forall_impl; [exact He|]. intros r Hr. by apply negb_false_iff in Hr.
  - right. destruct Hok as (cur & Hrep & Hf). destruct (stage_spec l (sh_db sh) cur ls Hidle Hrep Hf) as (t & (w' & Hst & Hs) & _).
    eexists. apply step_writer. by eapply w_stage.
  - right. eexists. apply step_writer. by apply w_Lock.
Qed.

(** The range a transaction reports for the copy of the cache it took. *)
Lemma tx_range_between session snapshot t seq time : sess_tx session = Some snapshot -> ledgers_keyed snapshot -> pair_ok t seq time ->
  exists u, tx_GetLedgerRange (mkLedgerReaderTx session seq time) = range_between u snapshot /\ (u = snapshot \/ u = t).
Proof.
  intros Hs Hk Hp. assert (view session = snapshot) as Hv by (unfold view; by rewrite Hs).
  assert (reads_fine session) as Hf by (intros n; apply driver_fine).
  unfold tx_GetLedgerRange. cbn [ltx_latestLedgerSeq ltx_latestLedgerCloseTime ltx_db].
  destruct (Z.eqb_spec seq 0) as [->|Hne]; cbn [negb].
  - exists snapshot. split; [|by left]. by rewrite getLedgerRangeWithoutCache_spec, Hv by (by rewrite ?Hv).
  - destruct Hp as [|(l & Hl & El)]; [done|]. exists t. split; [|by right].
    rewrite getLedgerRangeWithCache_spec, Hv by (by rewrite ?Hv). unfold range_between. rewrite Hl, El.
    by destruct (head (all_ledgers snapshot)).
Qed.

(** C9: Whatever the interleaving of the ingestion service with any number of
    readers of the shared cache: a transaction of [NewTx] sees one committed state;
    the range it reports, like the one of [GetLedgerRange], has the newest ledger of
    a committed state and the oldest one of the same or a later state.  They are the
    same state, the one the transaction sees, if its snapshot is taken when it
    begins; a deferred BEGIN, the default of the driver, takes it at the first
    statement, and then only the weaker statement holds
    ([deferred_snapshot_inverted]).  A latest sequence is that of a committed state;
    whenever nobody holds the mutex for writing the cache is empty or names the
    newest stored ledger; and somebody can always go on. *)
Theorem readers_beside_writer w cur ls rs s : represents (disk w) cur -> follows cur ls -> cache_ok w ->
  Forall (fun r => starting r = true) rs -> rtc (step rw) (start w ls rs) s ->
  Forall (fun t => exists lcms, represents t lcms) (sh_history (shared s)) /\
  (forall snapshot seq time, NOpen (Some snapshot) seq time ∈ readers s ->
     snapshot ∈ sh_history (shared s) /\
     forall session, sess_tx session = Some snapshot ->
       let r := tx_GetLedgerRange (mkLedgerReaderTx session seq time) in
       between (sh_history (shared s)) r /\ (deferred = false -> r = range_of snapshot)) /\
  (forall r, GDone r ∈ readers s -> between (sh_history (shared s)) r) /\
  (forall seq, LDone (Ok seq) ∈ readers s -> exists time, latest_in (sh_history (shared s)) (mkInfo seq time)) /\
  (sh_writer (shared s) = false -> cache_ok (sh_db (shared s))) /\
  ((the_writer s = WIdle [] /\ Forall (fun r => ended r = true) (readers s)) \/ exists s', step rw s s').
Proof.
  intros Hrep Hf Hc Hst Hs. pose proof (start_inv w cur ls rs Hrep Hf Hc Hst) as H0.
  assert (inv s) as Hi by (induction Hs as [|x y z Hxy _ IH]; [done|by apply IH, (stage_inv x)]).
  split_and!; [apply Hi|..|by apply snapshots_progress].
  - intros snapshot seq time Hin. destruct (i_all _ Hi _ Hin) as [(i & t & Hit & Hp & Hu) H2].
    destruct (Hu _ eq_refl) as (j & Hle & Hj). pose proof (list_elem_of_lookup_2 _ _ _ Hj) as Hsnap. split; [done|].
    intros session Hses r. pose proof (i_represents _ Hi) as Hall. rewrite Forall_forall in Hall. destruct (Hall _ Hsnap) as [lcms Hrep'].
    split.
    + destruct (tx_range_between session snapshot t seq time) as (u & Hr & [-> | ->]); try done; [apply Hrep'|..].
      * exists j, j, snapshot, snapshot. split_and!; done.
      * exists i, j, t, snapshot. split_and!; done.
    + intros Hd. destruct (H2 Hd) as (u & [= <-] & Hp'). destruct (tx_range_between session snapshot snapshot seq time) as (u & Hr & Hu');
        try done; [apply Hrep'|]. subst r. rewrite Hr. by destruct Hu' as [-> | ->].
  - intros r Hin. apply (i_all _ Hi _ Hin).
  - intros seq Hin. apply (i_all _ Hi _ Hin).
  - intros Hw. pose proof (i_writer _ Hi) as E. rewrite Hw in E. pose proof (countb_range holds_write (readers s)).
    pose proof (i_cache _ Hi) as Hcs. unfold cache_state in Hcs.
    assert (writing_locked (the_writer s) = false /\ countb holds_write (readers s) = 0) as [Hwl Hz]
      by (destruct (writing_locked (the_writer s)); simpl in E; split; (done || lia)).
    assert (pair_ok (disk (sh_db (shared s))) (cseq (shared s)) (ctime (shared s))) as Hp.
    { destruct (the_writer s); try done; destruct Hcs as [(rng & [j Hj]%list_elem_of_lookup)|Hcs]; try done;
        pose proof (countb_lookup_pos holds_write _ _ _ Hj eq_refl); lia. }
    destruct Hp as [Hp|(l & Hl & E1)]; [by left|right; by exists l].
Qed.

(** A whole turn of the writer while nobody holds the mutex. *)
Lemma writer_turn sh l ls rs cur : sh_writer sh = false -> sh_readers sh = 0 -> sess_tx (sh_db sh) = None ->
  represents (disk (sh_db sh)) cur -> follows cur (l :: ls) ->
  let cur' := lastn (Z.to_nat (historyRetentionWindow rw)) (cur ++ [l]) in
  exists sh', rtc (step rw) (mkSystem sh (WIdle (l :: ls)) rs) (mkSystem sh' (WIdle ls) rs) /\
    sh_writer sh' = false /\ sh_readers sh' = 0 /\ sess_tx (sh_db sh') = None /\
    represents (disk (sh_db sh')) cur' /\ follows cur' ls /\
    latestLedgerSeq (sh_db sh') = LedgerSequence l /\ latestLedgerCloseTime (sh_db sh') = LedgerCloseTime l.
Proof.
  intros Hw Hr Hidle Hrep Hf. destruct (stage_spec l (sh_db sh) cur ls Hidle Hrep Hf) as (t & (w' & Hst & Hs) & Hrep' & _ & Hf').
  exists (set_writer false (set_cacheTime (LedgerCloseTime l) (set_cacheSeq (LedgerSequence l) (commit t (set_writer true sh))))).
  split; [|done].
  eapply rtc_l; [by eapply step_writer, w_stage|]. eapply rtc_l; [by apply step_writer, w_Lock|].
  eapply rtc_l; [apply step_writer, w_commit; unfold session_Commit; cbn; by rewrite driver_fine|].
  eapply rtc_l; [apply step_writer, w_seq|]. eapply rtc_l; [apply step_writer, w_time|]. apply rtc_once, step_writer, w_Unlock.
Qed.
End Snapshots.

(** ** A range that is no range *)

Section Runs.
Context (deferred : bool).
Notation ledgers := [sample_ledger 7; sample_ledger 8; sample_ledger 9].
Notation sample_step := (step (T := sep35) deferred sample_rw).

Lemma sample_follows : follows (passphrase := "net") (T := sep35) [] ledgers.
Proof.
  constructor.
  - repeat apply Forall_cons_2; [apply sample_fine_7|apply sample_fine_8|apply sample_fine_9|apply Forall_nil_2].
  - intros [|[|[|i]]] a b Ha Hb; simpl in *; simplify_eq; reflexivity.
  - apply sample_keys_distinct.
  - repeat apply Forall_cons_2; [vm_compute; split; reflexivity..|apply Forall_nil_2].
Qed.

(** Until ledger 7 is stored; ledgers 8 and 9 afterwards. *)
Lemma sample_first rs : exists sh, rtc sample_step (start (OpenSQLiteDB no_tables) ledgers rs) (mkSystem sh (WIdle [sample_ledger 8; sample_ledger 9]) rs) /\
  sh_writer sh = false /\ sh_readers sh = 0 /\ sess_tx (sh_db sh) = None /\
  represents (passphrase := "net") (disk (sh_db sh)) [sample_ledger 7] /\
  follows (passphrase := "net") (T := sep35) [sample_ledger 7] [sample_ledger 8; sample_ledger 9] /\
  latestLedgerSeq (sh_db sh) = 7 /\ latestLedgerCloseTime (sh_db sh) = 35.
Proof.
  exact (writer_turn deferred sample_rw ltac:(by intros ? ?) eq_refl ltac:(done)
    (mkShared (OpenSQLiteDB no_tables) 0 false [no_tables]) (sample_ledger 7) _ rs [] eq_refl eq_refl eq_refl
    represents_empty sample_follows).
Qed.
Lemma sample_rest sh rs : sh_writer sh = false -> sh_readers sh = 0 -> sess_tx (sh_db sh) = None ->
  represents (passphrase := "net") (disk (sh_db sh)) [sample_ledger 7] ->
  follows (passphrase := "net") (T := sep35) [sample_ledger 7] [sample_ledger 8; sample_ledger 9] ->
  exists sh', rtc sample_step (mkSystem sh (WIdle [sample_ledger 8; sample_ledger 9]) rs) (mkSystem sh' (WIdle []) rs) /\
    sess_tx (sh_db sh') = None /\ represents (passphrase := "net") (disk (sh_db sh')) [sample_ledger 8; sample_ledger 9].
Proof.
  intros Hw Hr Hs Hrep Hf.
  destruct (writer_turn deferred sample_rw ltac:(by intros ? ?) eq_refl ltac:(done) sh _ _ rs _ Hw Hr Hs Hrep Hf)
    as (sh1 & H1 & Hw1 & Hr1 & Hs1 & Hrep1 & Hf1 & _).
  destruct (writer_turn deferred sample_rw ltac:(by intros ? ?) eq_refl ltac:(done) sh1 _ _ rs _ Hw1 Hr1 Hs1 Hrep1 Hf1)
    as (sh2 & H2 & _ & _ & Hs2 & Hrep2 & _).
  exists sh2. split; [by etrans|]. split; [done|exact Hrep2].
Qed.

Lemma sample_turn sh w rs k r sh' r' z : rs !! k = Some r -> reader_step deferred sh r sh' r' ->
  rtc sample_step (mkSystem sh' w (<[k := r']> rs)) z -> rtc sample_step (mkSystem sh w rs) z.
Proof. intros Hk Hs. apply rtc_l. by eapply step_reader. Qed.

Definition inverted_range : LedgerRange := mkRange (mkInfo 8 40) (mkInfo 7 35).

(** [GetLedgerRange] between the cache and the query. *)
Lemma GetLedgerRange_inverted : exists s, rtc sample_step (start (OpenSQLiteDB no_tables) ledgers [GStart false]) s /\
  readers s = [GDone (Ok inverted_range)].
Proof.
  destruct (sample_first [GStart false]) as (sh & H1 & Hw & Hr & Hs & Hrep & Hf & Hseq & Htime).
  destruct (sample_rest (RUnlock (RLock sh)) [GQuery false 7 35]) as (sh' & H2 & Hs' & Hrep'); try done; [cbn; by rewrite Hr|].
  eexists. split.
  - etrans; [exact H1|]. eapply (sample_turn _ _ _ 0); [done|by apply g_RLock|]. eapply (sample_turn _ _ _ 0); [done|apply g_seq|].
    eapply (sample_turn _ _ _ 0); [done|apply g_time|]. eapply (sample_turn _ _ _ 0); [done|apply g_RUnlock|].
    cbn [list_insert sh_db RLock set_readers]. rewrite Hseq, Htime. etrans; [exact H2|].
    eapply (sample_turn _ _ _ 0); [done|apply g_query|]. apply rtc_refl.
  - cbn. unfold query_range, ranged. cbn [negb Z.eqb]. rewrite getLedgerRangeWithCache_spec; [|by intros n|].
    + unfold view. rewrite Hs'. cbn. by rewrite (rep_ledgers _ _ Hrep').
    + unfold view. rewrite Hs'. apply (rep_keyed _ _ Hrep').
Qed.

(** A transaction whose snapshot is taken at its first statement. *)
Lemma deferred_snapshot_inverted : deferred = true -> exists s snapshot,
  rtc sample_step (start (OpenSQLiteDB no_tables) ledgers [NStart]) s /\ readers s = [NOpen (Some snapshot) 7 35] /\
  forall session, sess_tx session = Some snapshot -> tx_GetLedgerRange (mkLedgerReaderTx session 7 35) = Ok inverted_range.
Proof.
  intros Hdef. assert (forall x : option (Tables (D := toy_ledgers)), (if deferred then None else x) = None) as Hnone by (by rewrite Hdef).
  destruct (sample_first [NStart]) as (sh & H1 & Hw & Hr & Hs & Hrep & Hf & Hseq & Htime).
  destruct (sample_rest (RUnlock (RLock sh)) [NOpen None 7 35]) as (sh' & H2 & Hs' & Hrep'); try done; [cbn; by rewrite Hr|].
  eexists _, _. split; [|split].
  - etrans; [exact H1|]. eapply (sample_turn _ _ _ 0); [done|by apply n_RLock|].
    eapply (sample_turn _ _ _ 0); [done|by eapply n_begin|]. rewrite Hnone.
    eapply (sample_turn _ _ _ 0); [done|apply n_seq|]. eapply (sample_turn _ _ _ 0); [done|apply n_time|].
    eapply (sample_turn _ _ _ 0); [done|apply n_RUnlock|].
    cbn [list_insert sh_db RLock set_readers]. rewrite Hseq, Htime. etrans; [exact H2|].
    eapply (sample_turn _ _ _ 0); [done|apply n_first_statement|]. apply rtc_refl.
  - done.
  - intros session Hses. assert (view session = disk (sh_db sh')) as Hv by (unfold view; by rewrite Hses).
    unfold tx_GetLedgerRange. cbn [ltx_latestLedgerSeq ltx_latestLedgerCloseTime ltx_db negb Z.eqb].
    rewrite getLedgerRangeWithCache_spec; [|by intros n|rewrite Hv; apply (rep_keyed _ _ Hrep')].
    rewrite Hv. by rewrite (rep_ledgers _ _ Hrep').
Qed.

End Runs.

Lemma readers_beside_writer_witness : exists s,
  rtc (step (T := sep35) true sample_rw) (start (OpenSQLiteDB no_tables) [sample_ledger 7; sample_ledger 8; sample_ledger 9] [GStart false]) s /\
  readers s = [GDone (Ok inverted_range)] /\
  between (sh_history (shared s)) (Ok inverted_range).
Proof.
  destruct (GetLedgerRange_inverted true) as (s & Hs & Hr). exists s. split; [exact Hs|]. split; [exact Hr|].
  refine (proj1 (proj2 (proj2 (readers_beside_writer (passphrase := "net") true sample_rw _ _ _ (OpenSQLiteDB no_tables) []
    [sample_ledger 7; sample_ledger 8; sample_ledger 9]
    [GStart false] s _ _ _ _ Hs))) _ _).
  - intros n t. reflexivity.
  - reflexivity.
  - split; reflexivity.
  - apply represents_empty.
  - apply sample_follows.
  - left. reflexivity.
  - constructor; [reflexivity|constructor].
  - rewrite Hr. left.
Defined.
