(* ===== verification/Migration.v ===== *)
(** * Data migrations: [internal/db/migration.go]

    A migration is the interface value of the source: a record of operations on
    the shared state.  [MultiMigration] runs several over the ledgers of a
    range in one database transaction; a guarded one is skipped once a flag in
    the metadata table is set. *)

From S2P Require Import Prelude GoStd Externals Protocol BucketWindow LedgerMeta FeeWindow Store LedgerStore EventStore TxStore.

(** [LedgerSeqRange] of package db: a closed interval. *)
Record SeqRange := mkSeqRange { First : Z; Last : Z }.

Definition IsLedgerIncluded (mlr : SeqRange) (ledgerSeq : Z) : bool :=
  (First mlr <=? ledgerSeq) && (ledgerSeq <=? Last mlr).
Definition Empty (mlr : SeqRange) : bool := (First mlr =? 0) && (Last mlr =? 0).
Definition Merge (mlr other : SeqRange) : SeqRange :=
  if Empty mlr then other
  else if Empty other then mlr
  else mkSeqRange (Z.min (First mlr) (First other)) (Z.max (Last mlr) (Last other)).

Section Migrations.
Context `{V : ScVals} {D : Ledgers} {Drv : Driver} {T : Toid} {X : XdrConsts}.
Context {W : Type} `{Q : BucketQueue (list Z) W}.

(** The shared state: the fee windows and the database handle they hold. *)
Definition State : Type := FeeWindows DB W.

Definition on_mdb {A} (m : st DB A) : st State A := fun s =>
  let '(r, w) := m (fw_db s) in
  (r, mkFeeWindows (SorobanInclusionFeeWindow s) (ClassicFeeWindow s) (networkPassPhrase s) w).

Record Migration := mkMigration {
  ApplicableRange : SeqRange;
  Apply : LedgerCloseMeta -> st State unit;
  MCommit : st State unit;
}.

(** ** [MultiMigration] *)

Definition MultiMigration : Type := list Migration.

Definition mm_Append (mm : MultiMigration) (m : Migration) : MultiMigration :=
  if negb (Empty (ApplicableRange m)) then mm ++ [m] else mm.

Definition mm_ApplicableRange (mm : MultiMigration) : SeqRange :=
  foldl (fun result m => Merge (ApplicableRange m) result) (mkSeqRange 0 0) mm.

Definition option_of (r : go unit) : option err := match r with Er e => Some e | _ => None end.

(** [errors.Join(err, localErr, mm.db.Rollback())] *)
Definition join_after (err : option err) (localErr : Prelude.err) : st State (option Prelude.err) :=
  rb ← attempt (on_mdb session_Rollback);
  mret (errors_Join [err; Some localErr; option_of rb]).

Fixpoint apply_loop (mm : MultiMigration) (meta : LedgerCloseMeta) (err : option err) : st State (option Prelude.err) :=
  match mm with
  | [] => mret err
  | m :: mm' =>
      if negb (IsLedgerIncluded (ApplicableRange m) (LedgerSequence meta)) then apply_loop mm' meta err
      else
        r ← attempt (Apply m meta);
        err ← match option_of r with Some e => join_after err e | None => mret err end;
        apply_loop mm' meta err
  end.
Definition mm_Apply (mm : MultiMigration) (meta : LedgerCloseMeta) : st State unit :=
  err ← apply_loop mm meta None; lift (check err).

Fixpoint commit_loop (mm : MultiMigration) (err : option err) : st State (option Prelude.err) :=
  match mm with
  | [] => mret err
  | m :: mm' =>
      r ← attempt (MCommit m);
      err ← match option_of r with Some e => join_after err e | None => mret err end;
      commit_loop mm' err
  end.
(** The errors of the loop are not returned. *)
Definition mm_Commit (mm : MultiMigration) : st State unit :=
  _ ← commit_loop mm None; on_mdb session_Commit.

(** ** Appliers: the tables and the fee windows *)

Record Applier := mkApplier { ap_range : SeqRange; ap_apply : LedgerCloseMeta -> st State unit }.

Definition transactionTableName : string := "transactions".

(** [newTransactionTableMigration(...).New(db)]: the table is truncated first. *)
Definition newTransactionTableMigration (passphrase : string) (r : SeqRange) : st State Applier :=
  _ ← wrap_err (EWrap "couldn't delete table %q: %w" [FS transactionTableName])
        (on_mdb (Exec "truncate transactions" (fun t => Ok (set_transactions (fun _ => ∅) t))));
  mret (mkApplier r (fun meta => on_mdb (InsertTransactions (mkTransactionHandler true passphrase) meta))).
Definition newEventTableMigration (passphrase : string) (r : SeqRange) : st State Applier :=
  mret (mkApplier r (fun meta => on_mdb (InsertEvents (mkEventHandler true passphrase) meta))).

(** [feeWindowMigration]: the windows themselves as a migration. *)
Definition IngestFees_st (meta : LedgerCloseMeta) : st State unit := fun s =>
  let '(s', r) := IngestFees s meta in (r, s').
Definition AsMigration (seqRange : SeqRange) : Migration :=
  mkMigration seqRange IngestFees_st (mret tt).

(** ** Guarded migrations *)

Definition guarded (metaKey : string) (alreadyMigrated : bool) (a : Applier) : Migration :=
  mkMigration
    (if alreadyMigrated then mkSeqRange 0 0 else ap_range a)
    (fun meta => if alreadyMigrated then mret tt else ap_apply a meta)
    (if alreadyMigrated then mret tt else on_mdb (setMetaBool metaKey true)).

Definition metaKey_of (uniqueMigrationName : string) : string :=
  "Migration" +:+ uniqueMigrationName +:+ "Done".

(** [None] is the nil migration of one already done. *)
Definition newGuardedDataMigration (uniqueMigrationName : string) (factory : st State Applier) :
    st State (option Migration) :=
  let metaKey := metaKey_of uniqueMigrationName in
  r ← attempt (on_mdb (getMetaBool metaKey));
  previouslyMigrated ← lift (match r with
    | Ok b => Ok b
    | Er e => if errors_Is e "DB is empty" then Ok false else Er e
    | Panic m => Panic m
    end);
  if (previouslyMigrated : bool) then mret None
  else applier ← factory; mret (Some (guarded metaKey previouslyMigrated applier)).

Definition transactionsMigrationName : string := "TransactionsTable".
Definition eventsMigrationName : string := "EventsTable".

(** The entries of the [currentMigrations] map. *)
Definition currentMigrations (name : string) : string -> SeqRange -> st State Applier :=
  if String.eqb name transactionsMigrationName then newTransactionTableMigration
  else newEventTableMigration.

Definition rollback_opt : st State (option err) :=
  rb ← attempt (on_mdb session_Rollback); mret (option_of rb).

(** The loop over the map: [order] is the iteration order Go picks. *)
Fixpoint build_loop (order : list string) (passphrase : string) (r : SeqRange) (ms : MultiMigration) :
    st State MultiMigration :=
  match order with
  | [] => mret ms
  | migrationName :: order' =>
      g ← attempt (newGuardedDataMigration migrationName (currentMigrations migrationName passphrase r));
      match g with
      | Er e =>
          rb ← rollback_opt;
          lift (Er (default e (errors_Join [Some e;
                 Some (EFmt "could not create guarded migration for %s" [FS migrationName]); rb])))
      | Panic m => lift (Panic m)
      | Ok None => build_loop order' passphrase r ms
      | Ok (Some guardedM) => build_loop order' passphrase r (ms ++ [guardedM])
      end
  end.

Definition BuildMigrations (order : list string) (passphrase : string) (r : SeqRange) : st State MultiMigration :=
  b ← attempt (on_mdb Begin);
  match b with
  | Er e => rb ← rollback_opt; lift (Er (default e (errors_Join [Some e; rb])))
  | Panic m => lift (Panic m)
  | Ok _ => build_loop order passphrase r []
  end.

Definition GetMigrationLedgerRange (retentionWindow : Z) : st DB SeqRange :=
  r ← attempt GetLatestLedgerSequence;
  latestLedger ← lift (match r with
    | Ok l => Ok l
    | Er e => if errors_Is e "DB is empty" then Ok 0
              else Er (EWrap "failed to get latest ledger sequence: %w" [] e)
    | Panic m => Panic m
    end);
  mret (mkSeqRange (if retentionWindow <? latestLedger then u32 (latestLedger - retentionWindow) else firstLedger)
          latestLedger).
(** ** Committing *)

Lemma guarded_commit_fails key a s e t : sess_tx (fw_db s) = Some t -> drv_error "replace metadata" t = Some e ->
  MCommit (guarded key false a) s = (Er e, s).
Proof.
  intros Hs Hd. unfold guarded. cbn. unfold on_mdb, setMetaBool, Exec, view. rewrite Hs. cbn. rewrite Hd.
  by destruct s as [? ? ? w].
Qed.

Lemma guarded_commit_alone key a s : sess_tx (fw_db s) = None -> drv_error "replace metadata" (disk (fw_db s)) = None ->
  MCommit (guarded key false a) s =
  (Ok tt, mkFeeWindows (SorobanInclusionFeeWindow s) (ClassicFeeWindow s) (networkPassPhrase s)
            (set_disk (set_metadata (<[key := "true"%string]>) (disk (fw_db s))) (fw_db s))).
Proof.
  intros Hs Hd. unfold guarded. cbn. unfold on_mdb, setMetaBool, Exec, view, set_view. rewrite Hs. cbn. rewrite Hd.
  destruct s as [? ? ? [? ? ? ?]]. cbn in *. by subst.
Qed.

(** C37: When the flag of the first of two guarded migrations cannot be written, the
    transaction is rolled back, yet the second one's flag is then stored outside
    of any transaction: it counts as done although its tables were rolled
    back, and the error returned is not the one that occurred. *)
Theorem mm_Commit_marks_rolled_back k1 k2 a1 a2 (s : State) t e :
  sess_tx (fw_db s) = Some t -> drv_error "replace metadata" t = Some e -> drv_error "ROLLBACK" t = None ->
  drv_error "replace metadata" (disk (fw_db s)) = None ->
  exists s', mm_Commit [guarded k1 false a1; guarded k2 false a2] s = (Er not_in_transaction, s') /\
    disk (fw_db s') = set_metadata (<[k2 := "true"%string]>) (disk (fw_db s)) /\ sess_tx (fw_db s') = None.
Proof.
  intros Hs He Hrb Hd. destruct s as [fs fc p [dk ls lt tx]]. cbn in Hs, Hd. subst tx.
  eexists. unfold mm_Commit. cbn [commit_loop]. unfold mbind, st_bind, attempt.
  rewrite (guarded_commit_fails _ _ _ e t) by done. cbn [option_of]. unfold join_after, mbind, st_bind, attempt, on_mdb, session_Rollback.
  cbn [fw_db sess_tx]. rewrite Hrb. cbn [option_of].
  unfold mret, st_ret. rewrite guarded_commit_alone by done. cbn. done.
Qed.
End Migrations.

(** ** A concrete run *)

(** A driver that has no room for a flag next to rows of the transactions table. *)
Definition full_driver : @Driver toy_scvals toy_ledgers :=
  {| drv_error name t := if String.eqb name "replace metadata" && negb (size (transactions t) =? 0)%nat
                         then Some (EExt "database or disk is full") else None |}.
Definition half_migrated : @State toy_scvals toy_ledgers (LedgerBucketWindow (list Z)) :=
  mkFeeWindows (NewFeeWindow 2) (NewFeeWindow 2) "net"
    (mkDB no_tables 0 0 (Some (set_transactions (<["hash"%string := mkTxRow 5 1]>) no_tables))).
Definition no_applier : Applier (W := LedgerBucketWindow (list Z)) := mkApplier (mkSeqRange 2 9) (fun _ => mret tt).
Lemma mm_Commit_marks_rolled_back_witness : exists s',
  mm_Commit (Drv := full_driver) [guarded (Drv := full_driver) "MigrationTransactionsTableDone" false no_applier;
                                  guarded (Drv := full_driver) "MigrationEventsTableDone" false no_applier] half_migrated =
    (Er not_in_transaction, s') /\
  disk (fw_db s') = set_metadata (<["MigrationEventsTableDone"%string := "true"%string]>) no_tables /\ sess_tx (fw_db s') = None.
Proof.
  apply (mm_Commit_marks_rolled_back (Drv := full_driver) "MigrationTransactionsTableDone" "MigrationEventsTableDone"
    no_applier no_applier half_migrated (set_transactions (<["hash"%string := mkTxRow 5 1]>) no_tables)
    (EExt "database or disk is full")); reflexivity.
Defined.
