(* ===== verification/Daemon.v ===== *)
(** * The daemon: [internal/daemon/daemon.go]

    What the daemon itself does to the state: the initialisation of the storage
    (data migrations and fee statistics over the ledgers already stored) and
    the shutdown of its components.  [logger.Fatal] ends the process: it is an
    error that nothing handles. *)

From S2P Require Import Prelude GoStd Externals Cursor Protocol BucketWindow LedgerMeta FeeWindow Store LedgerStore EventStore TxStore WriteTx Ingest Migration.

(** ** Shutdown *)

(** What each component's shutdown returns; the admin server and the data store
    may be absent. *)
Record components := mkComponents {
  server_Shutdown : option err;
  adminServer_Shutdown : option (option err);
  ingestService_Close : option err;
  core_Close : option err;
  db_Close : option err;
  dataStore_Close : option (option err);
}.

(** The daemon's own state: the components shut down so far, in order, the
    [done] channel, the [sync.Once] and the stored error. *)
Record Daemon := mkDaemon {
  shut : list string;
  done_closed : bool;
  closeOnce_done : bool;
  closeError : option err;
}.
Definition running_daemon : Daemon := mkDaemon [] false false None.

Definition close (c : components) (d : Daemon) : go Daemon :=
  let closeErrors := [server_Shutdown c] ++ option_list (adminServer_Shutdown c) ++
    [ingestService_Close c; core_Close c; db_Close c] ++ option_list (dataStore_Close c) in
  let order := ["server"] ++ (if adminServer_Shutdown c then ["adminServer"] else []) ++
    ["ingestService"; "core"; "jsonRPCHandler"; "db"; "preflightWorkerPool"] ++
    (if dataStore_Close c then ["dataStore"] else []) in
  if done_closed d then Panic "close of closed channel"
  else Ok (mkDaemon (shut d ++ order) true (closeOnce_done d) (errors_Join closeErrors)).

Definition Close (c : components) (d : Daemon) : go (Daemon * option err) :=
  d ← (if closeOnce_done d then Ok d
       else d' ← close c d; Ok (mkDaemon (shut d') (done_closed d') true (closeError d')));
  Ok (d, closeError d).

(** [Run] waits for what happens first: a server's [Serve] returns, a signal
    arrives, or the daemon was closed by another goroutine. *)
Inductive run_event := ServerReturned (e : err) | AdminReturned (e : err) | SignalReceived | DoneClosed (c : components).
Inductive run_result := Returned (d : Daemon) | ProcessExit (msg : string) | StillRunning (d : Daemon).

Fixpoint Run (c : components) (events : list run_event) (d : Daemon) : go run_result :=
  match events with
  | [] => Ok (StillRunning d)
  | ServerReturned e :: events' =>
      if errors_Is e "http.ErrServerClosed" then Run c events' d
      else Ok (ProcessExit "soroban JSON RPC server encountered fatal error")
  | AdminReturned _ :: events' => Run c events' d
  | SignalReceived :: _ => r ← Close c d; Ok (Returned r.1)
  | DoneClosed c' :: _ => r ← Close c' d; Ok (Returned r.1)
  end.

(** ** Initialisation of the storage *)

Record StorageConfig := mkStorageConfig {
  ClassicFeeStatsLedgerRetentionWindow : Z;
  SorobanFeeStatsLedgerRetentionWindow : Z;
  HistoryRetentionWindow : Z;
  NetworkPassphrase : string;
}.

Section Storage.
Context `{V : ScVals} {D : Ledgers} {Drv : Driver} {T : Toid} {X : XdrConsts}.

Notation Windows := (LedgerBucketWindow (list Z)).
Notation DState := (State (W := Windows)).

(** [logger.WithError(err).Fatal(msg)] ends the process; here it is the error of the
    call, under the messages of the calls around it. *)
Definition fatal {A} (msg : string) (m : st DState A) : st DState A := wrap_err (EWrap msg []) m.

Definition buildMigrations (cfg : StorageConfig) (order : list string) (retentionRange : SeqRange) :
    st DState MultiMigration :=
  let maxFeeRetentionWindow :=
    Z.max (ClassicFeeStatsLedgerRetentionWindow cfg) (SorobanFeeStatsLedgerRetentionWindow cfg) in
  _ ← lift (if HistoryRetentionWindow cfg <? maxFeeRetentionWindow
            then Er (EFmt "Fee stat analysis window (%d) cannot exceed history retention window (%d)."
                      [FZ maxFeeRetentionWindow; FZ (HistoryRetentionWindow cfg)])
            else Ok tt);
  dataMigrations ← fatal "could not build migrations" (BuildMigrations order (NetworkPassphrase cfg) retentionRange);
  feeStatsRange ← fatal "could not get ledger range for fee stats"
                    (on_mdb (GetMigrationLedgerRange maxFeeRetentionWindow));
  mret (mm_Append dataMigrations (AsMigration feeStatsRange)).

Definition new_fee_windows (cfg : StorageConfig) (db : DB) : DState :=
  NewFeeWindows (ClassicFeeStatsLedgerRetentionWindow cfg) (SorobanFeeStatsLedgerRetentionWindow cfg)
    (NetworkPassphrase cfg) db.

(** The initialisation after the windows are made: [order] is the order in which
    Go iterates over the map of migrations. *)
Definition initializeStorage (cfg : StorageConfig) (order : list string) : st DState unit :=
  retentionRange ← fatal "could not get ledger range for migration"
                     (on_mdb (GetMigrationLedgerRange (HistoryRetentionWindow cfg)));
  dataMigrations ← buildMigrations cfg order retentionRange;
  let ledgerSeqRange := mm_ApplicableRange dataMigrations in
  s ← get_st;
  _ ← fatal "Could not obtain txmeta cache from the database"
        (StreamLedgerRange (fw_db s) (First ledgerSeqRange) (Last ledgerSeqRange)
           (fun txMeta => fatal "could not apply migration for ledger" (mm_Apply dataMigrations txMeta)));
  fatal "Could not commit data migrations" (mm_Commit dataMigrations).

Definition mustInitializeStorage (cfg : StorageConfig) (order : list string) (db : DB) : go unit * DState :=
  initializeStorage cfg order (new_fee_windows cfg db).

(** ** The invariant of a migration run *)

Context {passphrase : string} {L : LedgersLaws D passphrase} {TL : ToidLaws T}.

(** The three parts of the state that migrations build. *)
Inductive kind := KTx | KEv | KFee.
#[local] Instance kind_eq_dec : EqDecision kind.
Proof. solve_decision. Defined.

Definition name_of (k : kind) : string :=
  match k with KTx => transactionsMigrationName | KEv => eventsMigrationName | KFee => "" end.

Definition mig (r feeRange : SeqRange) (k : kind) : Migration (W := Windows) :=
  match k with
  | KTx => guarded (metaKey_of transactionsMigrationName) false
             (mkApplier r (fun meta => on_mdb (InsertTransactions (mkTransactionHandler true passphrase) meta)))
  | KEv => guarded (metaKey_of eventsMigrationName) false
             (mkApplier r (fun meta => on_mdb (InsertEvents (mkEventHandler true passphrase) meta)))
  | KFee => AsMigration feeRange
  end.

(** The fee windows after the ledgers [l]: ready for the next. *)
Definition fees_inv (s : DState) (l : list LedgerCloseMeta) : Prop :=
  networkPassPhrase s = passphrase /\
  (forall next, 0 < next -> (forall x, last l = Some x -> next = LedgerSequence x + 1) ->
     window_ready (ClassicFeeWindow s) next /\ window_ready (SorobanInclusionFeeWindow s) next) /\
  fees_held s <= zlen (concat (ledger_txs <$> l)).

(** [f k] is the list of ledgers part [k] reflects, when it is known. *)
Record run_inv (w0 : DB) (lm : gmap Z LedgerCloseMeta) (md : gmap string string)
    (f : kind -> option (list LedgerCloseMeta)) (s : DState) (t : Tables) : Prop := {
  ri_db : fw_db s = set_tx (Some t) w0;
  ri_ledgers : ledger_close_meta t = lm;
  ri_meta : metadata t = md;
  ri_tx l : f KTx = Some l -> indexes_tx (transactions t) l;
  ri_ev l : f KEv = Some l -> indexes_events t l;
  ri_fee l : f KFee = Some l -> fees_inv s l;
}.

Definition upd (f : kind -> option (list LedgerCloseMeta)) (k : kind) (v : option (list LedgerCloseMeta)) :=
  fun k' => if decide (k = k') then v else f k'.

(** A ledger that can be added after [l]. *)
Record addable (l : list LedgerCloseMeta) (lcm : LedgerCloseMeta) : Prop := {
  ad_fine : ledger_fine lcm;
  ad_seq : 0 < LedgerSequence lcm < 2147483647;
  ad_last x : last l = Some x -> LedgerSequence lcm = LedgerSequence x + 1;
  ad_lt : Forall (fun x => LedgerSequence x < LedgerSequence lcm) l;
  ad_keys x h : x ∈ l -> h ∈ keys_of x -> h ∉ keys_of lcm;
  ad_fees : Forall fees_sane (ledger_txs lcm);
  ad_bound : zlen (concat (ledger_txs <$> (l ++ [lcm]))) < 2 ^ 56;
}.

Lemma on_mdb_run {A} (m : st DB A) (s : DState) r w : m (fw_db s) = (r, w) ->
  on_mdb m s = (r, mkFeeWindows (SorobanInclusionFeeWindow s) (ClassicFeeWindow s) (networkPassPhrase s) w).
Proof. intros H. unfold on_mdb. by rewrite H. Qed.

(** One migration applied to one ledger. *)
Lemma mig_step r fr k w0 lm md f s t l lcm : no_driver_errors -> run_inv w0 lm md f s t ->
  f k = Some l -> addable l lcm ->
  exists s' t', Apply (mig r fr k) lcm s = (Ok tt, s') /\
    run_inv w0 lm md (upd f k (Some (l ++ [lcm]))) s' t'.
Proof.
  intros Hd [Hdb Hlm Hmd Htx Hev Hfee] Hk [Hf Hseq Hlast Hlt Hkeys Hfees Hbound].
  assert (view (fw_db s) = t) as Hv by (by rewrite Hdb).
  destruct k; cbn [mig guarded Apply ap_apply].
  - destruct (index_tx_step lcm (fw_db s) l Hd Hf) as (m & Hrun & Hm); [rewrite Hv; by apply Htx|done|].
    rewrite (on_mdb_run _ _ _ _ Hrun), Hv. eexists _, _. split; [done|].
    constructor; cbn [fw_db]; [by rewrite Hdb|done|done| |done|done].
    intros l'. unfold upd. cbn. by intros [= <-].
  - destruct (index_events_step lcm (fw_db s) l Hd Hf) as (m & Hrun & Hm); [rewrite Hv; by apply Hev|done|].
    rewrite (on_mdb_run _ _ _ _ Hrun), Hv. rewrite Hv in Hm. eexists _, _. split; [done|].
    constructor; cbn [fw_db]; [by rewrite Hdb|done|done|done| |done].
    intros l'. unfold upd. cbn. by intros [= <-].
  - destruct (Hfee l Hk) as (Hp & Hready & Hheld).
    destruct (Hready (LedgerSequence lcm) ltac:(lia) Hlast) as [Hc Hs].
    rewrite fmap_app, concat_app in Hbound. unfold zlen in *. rewrite length_app in Hbound.
    cbn [fmap list_fmap concat] in Hbound. rewrite app_nil_r in Hbound.
    destruct (IngestFees_step s lcm Hp (proj1 Hf) Hseq Hfees Hc Hs) as (s' & Hrun & Hp' & Hdb' & Hc' & Hs' & Hheld');
      [unfold zlen; lia|].
    exists s', t. cbn [AsMigration Apply]. unfold IngestFees_st. rewrite Hrun. split; [done|].
    constructor; [by rewrite Hdb'|done|done|done|done|].
    intros l'. unfold upd. cbn. intros [= <-]. split; [done|]. split.
    + intros next Hn Hl. rewrite last_snoc in Hl. by rewrite (Hl lcm eq_refl).
    + rewrite fmap_app, concat_app. unfold zlen in *. rewrite length_app. cbn [fmap list_fmap concat].
      rewrite app_nil_r. lia.
Qed.

Lemma run_inv_ext w0 lm md f g s t : (forall k, f k = g k) -> run_inv w0 lm md f s t -> run_inv w0 lm md g s t.
Proof. intros E [? ? ? ? ? ?]. constructor; try done; intros l; rewrite <- E; auto. Qed.

Definition included r fr k (l : LedgerCloseMeta) : bool :=
  IsLedgerIncluded (ApplicableRange (mig r fr k)) (LedgerSequence l).

Definition migs r fr (ks : list kind) : MultiMigration (W := Windows) := List.map (mig r fr) ks.

(** All migrations of a run on one ledger: [MultiMigration.Apply]. *)
Definition after_ledger r fr (ks : list kind) lcm (f : kind -> option (list LedgerCloseMeta)) k :=
  if decide (k ∈ ks) then (if included r fr k lcm then (fun l => l ++ [lcm]) <$> f k else f k) else f k.

Lemma apply_loop_kinds r fr (ks : list kind) w0 lm md f s t lcm : no_driver_errors -> NoDup ks -> run_inv w0 lm md f s t ->
  (forall k, k ∈ ks -> included r fr k lcm = true -> exists l, f k = Some l /\ addable l lcm) ->
  exists s' t', apply_loop (migs r fr ks) lcm None s = (Ok None, s') /\
    run_inv w0 lm md (after_ledger r fr ks lcm f) s' t'.
Proof.
  intros Hd. revert f s t. induction ks as [|k ks IH]; intros f s t Hn Hinv Hadd.
  { exists s, t. split; [done|]. eapply run_inv_ext; [|exact Hinv]. intros k. unfold after_ledger.
    destruct (decide _) as [Hin|]; [by apply not_elem_of_nil in Hin|done]. }
  inversion Hn as [|? ? Hnin Hn']; subst. cbn [migs List.map apply_loop]. fold (migs r fr ks).
  fold (included r fr k lcm). destruct (included r fr k lcm) eqn:Ei; cbn [negb].
  - destruct (Hadd k ltac:(by left) Ei) as (l & Hk & Hal).
    destruct (mig_step r fr k w0 lm md f s t l lcm Hd Hinv Hk Hal) as (s1 & t1 & Hrun & Hinv1).
    unfold mbind, st_bind, attempt. rewrite Hrun. cbn [option_of mret st_ret].
    destruct (IH _ s1 t1 Hn' Hinv1) as (s2 & t2 & Hrun2 & Hinv2).
    { intros k' Hk' Ei'. unfold upd. rewrite decide_False by (intros ->; done). apply Hadd; [by right|done]. }
    exists s2, t2. split; [exact Hrun2|]. eapply run_inv_ext; [|exact Hinv2]. intros k'.
    unfold after_ledger, upd. destruct (decide (k' ∈ ks)) as [Hin|Hin].
    + rewrite (decide_True (P := k' ∈ k :: ks)) by (by right).
      rewrite (decide_False (P := k = k')) by (intros ->; done). done.
    + destruct (decide (k = k')) as [<-|Hne].
      * rewrite (decide_True (P := k ∈ k :: ks)) by (by left). by rewrite Ei, Hk.
      * rewrite (decide_False (P := k' ∈ k :: ks)); [done|]. intros [->|]%elem_of_cons; done.
  - destruct (IH f s t Hn' Hinv) as (s2 & t2 & Hrun2 & Hinv2).
    { intros k' Hk'. apply Hadd. by right. }
    exists s2, t2. split; [exact Hrun2|]. eapply run_inv_ext; [|exact Hinv2]. intros k'.
    unfold after_ledger. destruct (decide (k' ∈ ks)) as [Hin|Hin].
    + by rewrite (decide_True (P := k' ∈ k :: ks)) by (by right).
    + destruct (decide (k = k')) as [<-|Hne].
      * rewrite (decide_True (P := k ∈ k :: ks)) by (by left). by rewrite Ei.
      * rewrite (decide_False (P := k' ∈ k :: ks)); [done|]. intros [->|]%elem_of_cons; done.
Qed.

(** ** The stream of ledgers *)

(** Consecutive ledgers that can all be indexed. *)
Record batch_ok (ls : list LedgerCloseMeta) : Prop := {
  bo_fine : Forall ledger_fine ls;
  bo_seq : Forall (fun l => 2 <= LedgerSequence l < 2147483647) ls;
  bo_consecutive : consecutive ls;
  bo_keys : NoDup (concat (keys_of <$> ls));
  bo_fees : Forall (fun l => Forall fees_sane (ledger_txs l)) ls;
  bo_bound : zlen (concat (ledger_txs <$> ls)) < 2 ^ 56;
}.

Lemma length_concat_filter {A B} (g : A -> list B) (p : A -> bool) l :
  (length (concat (g <$> filter (fun x => p x = true) l)) <= length (concat (g <$> l)))%nat.
Proof.
  induction l as [|x l IH]; [done|]. rewrite filter_cons, fmap_cons. cbn [concat]. rewrite length_app.
  destruct (decide _); [rewrite fmap_cons; cbn [concat]; rewrite length_app|]; lia.
Qed.

(** The part of a prefix that an upward closed range includes can take the next
    ledger. *)
Lemma addable_filter (p : LedgerCloseMeta -> bool) pre lcm post :
  batch_ok (pre ++ lcm :: post) ->
  (forall x y, LedgerSequence x <= LedgerSequence y -> y ∈ pre -> p x = true -> p y = true) ->
  addable (filter (fun x => p x = true) pre) lcm.
Proof.
  intros [Hf Hs Hc Hk Hfe Hb] Hup.
  apply Forall_app in Hf as [_ Hf]. inversion Hf as [|? ? Hf1 _]; subst.
  apply Forall_app in Hs as [_ Hs]. inversion Hs as [|? ? Hs1 _]; subst.
  apply Forall_app in Hfe as [_ Hfe]. inversion Hfe as [|? ? Hfe1 _]; subst.
  assert (forall x, x ∈ pre -> LedgerSequence x < LedgerSequence lcm) as Hlt.
  { intros x [i Hi]%list_elem_of_lookup. apply lookup_lt_Some in Hi as Hi'.
    pose proof (consecutive_nth (pre ++ lcm :: post) i (length pre) x lcm Hc
      ltac:(by apply lookup_app_l_Some) ltac:(by apply list_lookup_middle) ltac:(lia)). lia. }
  constructor; [done|lia| | | |done|].
  - intros x Hx. destruct pre as [|z pre _] using rev_ind; [done|].
    rewrite filter_app in Hx. rewrite filter_cons in Hx. destruct (decide (p z = true)) as [Hz|Hz].
    + rewrite filter_nil, last_snoc in Hx. injection Hx as <-.
      apply (Hc (length pre)); [apply lookup_app_l_Some; by apply list_lookup_middle|].
      rewrite <- app_assoc. simpl. rewrite lookup_app_r by lia.
      by replace (S (length pre) - length pre)%nat with 1%nat by lia.
    + exfalso. rewrite filter_nil, app_nil_r in Hx. apply last_Some_elem_of in Hx.
      apply list_elem_of_filter in Hx as [Hpx Hin]. apply Hz, (Hup x z); [|set_solver|done].
      apply list_elem_of_lookup in Hin as [i Hi]. apply lookup_lt_Some in Hi as Hi'.
      pose proof (consecutive_nth ((pre ++ [z]) ++ lcm :: post) i (length pre) x z Hc
        ltac:(apply lookup_app_l_Some; by apply lookup_app_l_Some)
        ltac:(apply lookup_app_l_Some; by apply list_lookup_middle) ltac:(lia)). lia.
  - apply Forall_forall. intros x [_ Hx]%list_elem_of_filter. by apply Hlt.
  - intros x h [_ Hx]%list_elem_of_filter Hh Hh'.
    rewrite fmap_app, concat_app in Hk. apply NoDup_app in Hk as (_ & Hdis & _). apply (Hdis h).
    + apply elem_of_concat. exists (keys_of x). split; [done|]. by apply list_elem_of_fmap_2.
    + rewrite fmap_cons. cbn [concat]. apply elem_of_app. by left.
  - pose proof (length_concat_filter ledger_txs p pre). unfold zlen in *.
    rewrite fmap_app, concat_app, fmap_cons, !length_app in Hb. cbn [concat] in Hb. rewrite length_app in Hb.
    rewrite fmap_app, concat_app, length_app. cbn [fmap list_fmap concat]. rewrite app_nil_r. lia.
Qed.

Lemma stream_kinds r fr (ks : list kind) w0 lm md base rows : no_driver_errors -> NoDup ks -> batch_ok rows ->
  (forall k, k ∈ ks -> base k = Some []) ->
  (forall k x y, k ∈ ks -> LedgerSequence x <= LedgerSequence y -> y ∈ rows ->
     included r fr k x = true -> included r fr k y = true) ->
  forall s t pre rest, rows = pre ++ rest ->
  run_inv w0 lm md (fun k => if decide (k ∈ ks) then Some (filter (fun x => included r fr k x = true) pre) else base k) s t ->
  exists s' t', st_fold (fun txMeta _ => fatal "could not apply migration for ledger" (mm_Apply (migs r fr ks) txMeta))
      rest tt s = (Ok tt, s') /\
    run_inv w0 lm md (fun k => if decide (k ∈ ks) then Some (filter (fun x => included r fr k x = true) rows) else base k) s' t'.
Proof.
  intros Hd Hn Hbatch Hbase Hup s t pre rest. revert pre s t. induction rest as [|lcm rest IH]; intros pre s t Hr Hinv.
  { exists s, t. split; [done|]. rewrite app_nil_r in Hr. by subst. }
  assert (forall k, k ∈ ks -> addable (filter (fun x => included r fr k x = true) pre) lcm) as Hadd.
  { intros k Hk. apply (addable_filter _ pre lcm rest); [by rewrite <- Hr|].
    intros x y Hxy Hy. apply Hup; [done|done|]. rewrite Hr. set_solver. }
  destruct (apply_loop_kinds r fr ks w0 lm md _ s t lcm Hd Hn Hinv) as (s1 & t1 & Hrun & Hinv1).
  { intros k Hk Hi. rewrite decide_True by done. eauto. }
  destruct (IH (pre ++ [lcm]) s1 t1) as (s2 & t2 & Hrun2 & Hinv2).
  - by rewrite <- app_assoc.
  - eapply run_inv_ext; [|exact Hinv1]. intros k. unfold after_ledger.
    destruct (decide (k ∈ ks)) as [Hk|Hk]; [|done]. rewrite filter_app, filter_cons.
    destruct (included r fr k lcm) eqn:E.
    + rewrite decide_True by done. done.
    + rewrite decide_False by done. rewrite filter_nil, app_nil_r. done.
  - exists s2, t2. split; [|done]. cbn [st_fold]. unfold mbind, st_bind.
    unfold fatal at 1, wrap_err, mm_Apply, mbind, st_bind. rewrite Hrun. cbn [check lift on_err].
    exact Hrun2.
Qed.

(** ** Building and committing *)

Definition flag_key (k : kind) : string := metaKey_of (name_of k).
Definition flag_unset (md : gmap string string) (k : kind) : Prop := k = KFee \/ md !! flag_key k = None.
#[local] Instance flag_unset_dec md k : Decision (flag_unset md k).
Proof. unfold flag_unset. apply _. Defined.

Lemma build_one r fr k w0 lm md f s t : no_driver_errors -> k <> KFee -> run_inv w0 lm md f s t ->
  md !! flag_key k = None \/ md !! flag_key k = Some "true"%string ->
  exists s' t', newGuardedDataMigration (name_of k) (currentMigrations (name_of k) passphrase r) s =
      (Ok (if decide (flag_unset md k) then Some (mig r fr k) else None), s') /\
    run_inv w0 lm md (if decide (flag_unset md k) then (if decide (k = KTx) then upd f KTx (Some []) else f) else f) s' t'.
Proof.
  intros Hd Hk Hinv Hflag. pose proof Hinv as [Hdb Hlm Hmd Htx Hev Hfee].
  unfold newGuardedDataMigration, mbind at 1, st_bind at 1, attempt. fold (flag_key k).
  rewrite (on_mdb_run _ s _ _ (getMetaBool_spec (flag_key k) (fw_db s) (Hd _ _))).
  assert (mkFeeWindows (SorobanInclusionFeeWindow s) (ClassicFeeWindow s) (networkPassPhrase s) (fw_db s) = s) as ->
    by (by destruct s).
  assert (view (fw_db s) = t) as Hv by (by rewrite Hdb). rewrite Hv, Hmd.
  destruct Hflag as [Hf|Hf]; rewrite Hf.
  - destruct (decide (flag_unset md k)) as [_|Hn]; [|exfalso; apply Hn; by right]. destruct k; [| |done].
    + unfold mbind, st_bind, lift. simpl.
      change (currentMigrations transactionsMigrationName) with (newTransactionTableMigration (W := Windows)).
      unfold newTransactionTableMigration, mbind, st_bind, wrap_err, on_mdb, Exec.
      rewrite Hd. eexists _, _. split; [done|]. rewrite Hdb. simpl.
      constructor; [done|done|done| |exact Hev|exact Hfee].
      unfold upd. cbn. intros l [= <-] h r'. simpl. rewrite lookup_empty. split; [done|].
      intros (lcm & _ & _ & Hin & _). by apply not_elem_of_nil in Hin.
    + exists s, t. done.
  - destruct (decide (flag_unset md k)) as [[->|Hn]|_]; [done|congruence|]. by exists s, t.
Qed.

Definition built (md : gmap string string) (ls : list LedgerCloseMeta) (f : kind -> option (list LedgerCloseMeta))
    (ks : list kind) : kind -> option (list LedgerCloseMeta) :=
  fun k => if decide (k ∈ ks /\ k = KTx /\ flag_unset md k) then Some [] else f k.

Lemma build_loop_kinds r fr w0 lm md ls ks : no_driver_errors -> KFee ∉ ks ->
  (forall k, k ∈ ks -> md !! flag_key k = None \/ md !! flag_key k = Some "true"%string) ->
  forall f s t ms, run_inv w0 lm md f s t ->
  exists s' t', build_loop (name_of <$> ks) passphrase r ms s =
      (Ok (ms ++ migs r fr (filter (flag_unset md) ks)), s') /\
    run_inv w0 lm md (built md ls f ks) s' t'.
Proof.
  intros Hd. induction ks as [|k ks IH]; intros Hfee Hflags f s t ms Hinv.
  { exists s, t. simpl. rewrite app_nil_r. split; [done|]. eapply run_inv_ext; [|exact Hinv].
    intros k. unfold built. rewrite decide_False; [done|]. intros [Hin _]. by apply not_elem_of_nil in Hin. }
  destruct (build_one r fr k w0 lm md f s t Hd) as (s1 & t1 & Hrun & Hinv1);
    [by intros ->; apply Hfee; left|done|apply Hflags; by left|].
  rewrite fmap_cons. cbn [build_loop]. unfold mbind, st_bind, attempt. rewrite Hrun.
  rewrite filter_cons. destruct (decide (flag_unset md k)) as [Hu|Hu].
  - destruct (IH ltac:(intros ?; apply Hfee; by right) ltac:(intros k' Hk'; apply Hflags; by right) _ s1 t1
      (ms ++ [mig r fr k]) Hinv1) as (s2 & t2 & Hrun2 & Hinv2).
    exists s2, t2. split; [rewrite Hrun2; by rewrite <- app_assoc|]. eapply run_inv_ext; [|exact Hinv2].
    intros k'. unfold built, upd. destruct (decide (k' ∈ ks /\ k' = KTx /\ flag_unset md k')) as [(H1 & H2 & H3)|Hn].
    + rewrite decide_True; [done|]. split_and!; [by right|done|done].
    + destruct (decide (k = KTx)) as [->|Hne].
      * destruct (decide (KTx = k')) as [<-|]; [rewrite decide_True; [done|]; split_and!; [by left|done|done]|].
        rewrite decide_False; [done|]. intros (_ & -> & _). done.
      * rewrite decide_False; [done|]. intros ([->|H1]%elem_of_cons & H2 & H3); [done|]. by apply Hn.
  - destruct (IH ltac:(intros ?; apply Hfee; by right) ltac:(intros k' Hk'; apply Hflags; by right) _ s1 t1
      ms Hinv1) as (s2 & t2 & Hrun2 & Hinv2).
    exists s2, t2. split; [done|]. eapply run_inv_ext; [|exact Hinv2].
    intros k'. unfold built. destruct (decide (k' ∈ ks /\ k' = KTx /\ flag_unset md k')) as [(H1 & H2 & H3)|Hn].
    + rewrite decide_True; [done|]. split_and!; [by right|done|done].
    + rewrite decide_False; [done|]. intros ([->|H1]%elem_of_cons & H2 & H3); [done|]. by apply Hn.
Qed.

(** Committing sets the flags of the migrations that ran and publishes the
    transaction. *)
Definition flags_set (ks : list kind) (md : gmap string string) : gmap string string :=
  foldl (fun md k => if decide (k = KFee) then md else <[flag_key k := "true"%string]> md) md ks.

Lemma commit_loop_kinds r fr w0 lm ks : no_driver_errors -> forall md f s t, run_inv w0 lm md f s t ->
  exists s' t', commit_loop (migs r fr ks) None s = (Ok None, s') /\ run_inv w0 lm (flags_set ks md) f s' t'.
Proof.
  intros Hd. induction ks as [|k ks IH]; intros md f s t Hinv; [by exists s, t|].
  pose proof Hinv as [Hdb Hlm Hmd Htx Hev Hfee].
  cbn [migs List.map commit_loop]. fold (migs r fr ks). unfold mbind, st_bind, attempt.
  assert (exists s1 t1, MCommit (mig r fr k) s = (Ok tt, s1) /\
    run_inv w0 lm (if decide (k = KFee) then md else <[flag_key k := "true"%string]> md) f s1 t1) as (s1 & t1 & Hrun & Hinv1).
  { assert (view (fw_db s) = t) as Hv by (by rewrite Hdb).
    destruct k; cbn [mig guarded MCommit AsMigration];
      [unfold on_mdb, setMetaBool, Exec; rewrite Hd; eexists _, _; split; [done|]; rewrite Hv, Hdb..|by exists s, t];
      subst md; by constructor. }
  rewrite Hrun. cbn [option_of mret st_ret]. destruct (IH _ _ s1 t1 Hinv1) as (s2 & t2 & Hrun2 & Hinv2).
  by exists s2, t2.
Qed.

(** ** The ranges *)

Definition latest_of (ls : list LedgerCloseMeta) : Z := default 0 (LedgerSequence <$> last ls).
Definition range_for (ret : Z) (ls : list LedgerCloseMeta) : SeqRange :=
  mkSeqRange (if ret <? latest_of ls then latest_of ls - ret else 2) (latest_of ls).

Lemma migration_range_spec ret w ls : no_driver_errors -> ledgers_keyed (view w) ->
  all_ledgers (view w) = ls -> all_ledgers (disk w) = ls -> cache_ok w ->
  Forall (fun l => 2 <= LedgerSequence l < 2147483647) ls -> 0 < ret < 4294967296 ->
  exists w', GetMigrationLedgerRange ret w = (Ok (range_for ret ls), w') /\
    disk w' = disk w /\ sess_tx w' = sess_tx w /\ cache_ok w'.
Proof.
  intros Hd Hk Hv Hdisk Hc HF Hret. unfold GetMigrationLedgerRange, GetLatestLedgerSequence.
  destruct (getLatestLedgerSequence_view w (fun n => Hd n _) Hk ltac:(congruence) Hc) as (w' & Hrun & H1 & H2 & H3).
  unfold mbind, st_bind, attempt. rewrite Hrun, Hdisk. unfold range_for, latest_of.
  exists w'. destruct (last ls) as [l|] eqn:E; simpl; [|by destruct (Z.ltb_spec ret 0); [lia|]].
  split; [|done]. unfold mret, st_ret. do 3 f_equal.
  destruct (Z.ltb_spec ret (LedgerSequence l)); [|done]. apply u32_small.
  apply last_Some_elem_of in E. rewrite Forall_forall in HF. specialize (HF _ E). unfold is_u32. lia.
Qed.

Lemma hull_spec (ms : MultiMigration (W := Windows)) latest :
  Forall (fun m => Empty (ApplicableRange m) = false /\ Last (ApplicableRange m) = latest) ms ->
  forall acc, (Empty acc = true \/ Last acc = latest) ->
  let h := foldl (fun result m => Merge (ApplicableRange m) result) acc ms in
  (ms <> [] -> Last h = latest /\ Forall (fun m => First h <= First (ApplicableRange m)) ms) /\
  (Empty acc = false -> Last h = latest /\ First h <= First acc).
Proof.
  intros HF. induction HF as [|m ms [Hne Hlast] HF IH]; intros acc Hacc.
  { simpl. split; [done|]. intros He. destruct Hacc as [|]; [congruence|]. split; [done|lia]. }
  cbn [foldl]. assert (Last (Merge (ApplicableRange m) acc) = latest /\
    First (Merge (ApplicableRange m) acc) <= First (ApplicableRange m) /\
    (Empty acc = false -> First (Merge (ApplicableRange m) acc) <= First acc)) as (Hl & Hf1 & Hf2).
  { unfold Merge. rewrite Hne. destruct (Empty acc) eqn:E; [split_and!; [done|lia|done]|].
    destruct Hacc as [|Ha]; [done|]. simpl. split_and!; [lia|lia|lia]. }
  destruct (IH (Merge (ApplicableRange m) acc) (or_intror Hl)) as [IH1 IH2].
  assert (Empty (Merge (ApplicableRange m) acc) = false) as Hne'.
  { unfold Merge. rewrite Hne. destruct (Empty acc) eqn:E; [done|]. destruct Hacc as [|Ha]; [done|].
    unfold Empty in *. simpl. apply andb_false_iff. apply andb_false_iff in Hne, E.
    rewrite !Z.eqb_neq in *. destruct (decide (latest = 0)); [|right; lia]. left. lia. }
  destruct (IH2 Hne') as [H1 H2]. split.
  - intros _. split; [done|]. constructor; [lia|]. destruct ms as [|m' ms']; [constructor|]. by apply IH1.
  - intros He. split; [done|]. specialize (Hf2 He). lia.
Qed.

Lemma le_latest ls l : consecutive ls -> l ∈ ls ->
  latest_of ls - zlen ls < LedgerSequence l <= latest_of ls.
Proof.
  intros Hc [i Hi]%list_elem_of_lookup. unfold latest_of, zlen. apply lookup_lt_Some in Hi as Hlt.
  destruct (last ls) as [z|] eqn:E; [|apply last_None in E; by subst]. simpl.
  rewrite last_lookup in E.
  pose proof (consecutive_nth ls i _ l z Hc Hi E ltac:(lia)). lia.
Qed.

Lemma keep_from_drop lo ls : consecutive ls -> exists n, keep_from lo ls = drop n ls.
Proof.
  induction ls as [|x ls IH]; intros Hc; [by exists 0%nat|].
  unfold keep_from. rewrite filter_cons. destruct (decide (lo <= LedgerSequence x)) as [Hle|Hgt].
  - exists 0%nat. simpl. f_equal. apply filter_all. intros y [i Hi]%list_elem_of_lookup.
    pose proof (consecutive_nth (x :: ls) 0 (S i) x y Hc eq_refl Hi ltac:(lia)). lia.
  - destruct IH as [n Hn].
    + intros i a b Ha Hb. by apply (Hc (S i)).
    + exists (S n). simpl. exact Hn.
Qed.

Lemma batch_ok_drop n ls : batch_ok ls -> batch_ok (drop n ls).
Proof.
  intros [H1 H2 H3 H4 H5 H6]. constructor; [by apply Forall_drop|by apply Forall_drop|by apply consecutive_drop| |by apply Forall_drop|].
  - rewrite <- (take_drop n ls), fmap_app, concat_app in H4. by apply NoDup_app in H4 as (_ & _ & H4).
  - rewrite <- (take_drop n ls), fmap_app, concat_app in H6. unfold zlen in *. rewrite length_app in H6. lia.
Qed.

(** What the daemon needs of a database to start from. *)
Record storage_pre (cfg : StorageConfig) (w : DB) (ls : list LedgerCloseMeta) : Prop := {
  sp_passphrase : NetworkPassphrase cfg = passphrase;
  sp_windows : 0 < ClassicFeeStatsLedgerRetentionWindow cfg < 2147483648 /\
               0 < SorobanFeeStatsLedgerRetentionWindow cfg < 2147483648;
  sp_history : Z.max (ClassicFeeStatsLedgerRetentionWindow cfg) (SorobanFeeStatsLedgerRetentionWindow cfg)
                 <= HistoryRetentionWindow cfg < 4294967296;
  sp_idle : sess_tx w = None;
  sp_keyed : ledgers_keyed (disk w);
  sp_ledgers : all_ledgers (disk w) = ls;
  sp_length : zlen ls <= HistoryRetentionWindow cfg;
  sp_cache : cache_ok w;
  sp_batch : batch_ok ls;
  sp_tx : metadata (disk w) !! flag_key KTx = None \/
    (metadata (disk w) !! flag_key KTx = Some "true"%string /\ indexes_tx (transactions (disk w)) ls);
  sp_ev : (metadata (disk w) !! flag_key KEv = None /\ events (disk w) = ∅) \/
    (metadata (disk w) !! flag_key KEv = Some "true"%string /\ indexes_events (disk w) ls);
}.

Definition start_index (md : gmap string string) (ls : list LedgerCloseMeta) (k : kind) : option (list LedgerCloseMeta) :=
  match k with
  | KFee => Some []
  | KTx => if decide (flag_unset md KTx) then None else Some ls
  | KEv => if decide (flag_unset md KEv) then Some [] else Some ls
  end.

Lemma fees_inv_new cfg w ls : storage_pre cfg w ls -> fees_inv (new_fee_windows cfg w) [].
Proof.
  intros [Hp [Hc Hs] _ _ _ _ _ _ _ _ _]. split; [done|]. split; [|done].
  intros next Hn _. split; (split; [by apply NewFeeWindow_ok|]; split; [done|]; simpl; lia).
Qed.

Lemma run_inv_start cfg w ls w1 : storage_pre cfg w ls -> disk w1 = disk w ->
  forall s, s = mkFeeWindows (SorobanInclusionFeeWindow (new_fee_windows cfg w)) (ClassicFeeWindow (new_fee_windows cfg w))
         (networkPassPhrase (new_fee_windows cfg w)) (set_tx (Some (disk w)) w1) ->
  run_inv w1 (ledger_close_meta (disk w)) (metadata (disk w)) (start_index (metadata (disk w)) ls) s (disk w).
Proof.
  intros Hpre Hw1 s ->. pose proof Hpre as [_ _ _ _ _ _ _ _ _ Htx Hev]. constructor; try done.
  - intros l. cbn [start_index]. destruct (decide (flag_unset _ _)) as [|Hn]; [done|]. intros [= <-].
    destruct Htx as [Hf|[_ Hi]]; [|done]. exfalso. apply Hn. by right.
  - intros l. cbn [start_index]. destruct (decide (flag_unset _ _)) as [[|Hf]|Hn]; [done| |]; intros [= <-].
    + destruct Hev as [[_ He]|[Hf' _]]; [|congruence]. split; [constructor|]. by rewrite He.
    + destruct Hev as [[Hf _]|[_ Hi]]; [|done]. exfalso. apply Hn. by right.
  - intros l. cbn [start_index]. intros [= <-]. exact (fees_inv_new cfg w ls Hpre).
Qed.

Definition active (md : gmap string string) (ks0 : list kind) : list kind := filter (flag_unset md) ks0 ++ [KFee].

Lemma all_ledgers_lm t t' : ledger_close_meta t = ledger_close_meta t' -> all_ledgers t = all_ledgers t'.
Proof. intros H. by rewrite !all_ledgers_rows, H. Qed.

Lemma range_not_empty retention ls : 0 <= retention -> Empty (range_for retention ls) = false.
Proof.
  intros Hl. unfold Empty, range_for. simpl. destruct (Z.ltb_spec retention (latest_of ls)); [|done].
  apply andb_false_iff. left. apply Z.eqb_neq. lia.
Qed.

(** The indexes the active migrations build start empty, the others are complete. *)
Lemma active_built md ls ks0 k : ks0 ≡ₚ [KTx; KEv] ->
  (if decide (k ∈ active md ks0) then Some [] else Some ls) = built md ls (start_index md ls) ks0 k.
Proof.
  intros Hks0. unfold built, active. destruct k; cbn [start_index].
  - assert (KTx ∈ ks0) by (rewrite Hks0; set_solver). destruct (decide (flag_unset md KTx)) as [Hu|Hu].
    + rewrite decide_True by (apply elem_of_app; left; by apply list_elem_of_filter). by rewrite decide_True.
    + rewrite decide_False by (rewrite elem_of_app, list_elem_of_filter, list_elem_of_singleton; naive_solver).
      by rewrite decide_False by naive_solver.
  - assert (KEv ∈ ks0) by (rewrite Hks0; set_solver).
    rewrite (decide_False (P := KEv ∈ ks0 /\ _)) by naive_solver. destruct (decide (flag_unset md KEv)) as [Hu|Hu].
    + by rewrite decide_True by (apply elem_of_app; left; by apply list_elem_of_filter).
    + by rewrite decide_False by (rewrite elem_of_app, list_elem_of_filter, list_elem_of_singleton; naive_solver).
  - assert (KFee ∉ ks0) by (rewrite Hks0; set_solver).
    rewrite decide_True by (apply elem_of_app; right; by apply list_elem_of_singleton).
    by rewrite decide_False by naive_solver.
Qed.

(** After [buildMigrations], the parts to build are empty and the others are
    complete. *)
Lemma build_phase cfg ks0 w ls w1 : storage_pre cfg w ls -> no_driver_errors -> ks0 ≡ₚ [KTx; KEv] ->
  disk w1 = disk w -> sess_tx w1 = None -> cache_ok w1 ->
  let md := metadata (disk w) in
  let r := range_for (HistoryRetentionWindow cfg) ls in
  let fr := range_for (Z.max (ClassicFeeStatsLedgerRetentionWindow cfg) (SorobanFeeStatsLedgerRetentionWindow cfg)) ls in
  let s := mkFeeWindows (SorobanInclusionFeeWindow (new_fee_windows cfg w)) (ClassicFeeWindow (new_fee_windows cfg w))
             (networkPassPhrase (new_fee_windows cfg w)) w1 in
  exists s' t' w2, buildMigrations cfg (name_of <$> ks0) r s = (Ok (migs r fr (active md ks0)), s') /\
    run_inv w2 (ledger_close_meta (disk w)) md (fun k => if decide (k ∈ active md ks0) then Some [] else Some ls) s' t' /\
    disk w2 = disk w /\ cache_ok w2.
Proof.
  intros Hpre Hd Hks0 Hw1 Hs1 Hc1 md r fr s.
  pose proof Hpre as [Hp [Hwc Hws] Hh Hidle Hk Hl Hlen Hc [_ Hseq _ _ _ _] Htx Hev].
  assert (KFee ∉ ks0) as HnF by (rewrite Hks0; set_solver).
  assert (forall k, k ∈ ks0 -> md !! flag_key k = None \/ md !! flag_key k = Some "true"%string) as Hflags.
  { intros k Hk'. rewrite Hks0 in Hk'. apply elem_of_cons in Hk' as [->|Hk'].
    - destruct Htx as [|[? _]]; auto.
    - apply list_elem_of_singleton in Hk' as ->. destruct Hev as [[? _]|[? _]]; auto. }
  unfold buildMigrations, mbind at 1, st_bind at 1, lift.
  destruct (Z.ltb_spec (HistoryRetentionWindow cfg) (Z.max (ClassicFeeStatsLedgerRetentionWindow cfg)
    (SorobanFeeStatsLedgerRetentionWindow cfg))); [lia|].
  unfold mbind at 1, st_bind at 1, fatal at 1, wrap_err. unfold BuildMigrations, mbind at 1, st_bind at 1, attempt, on_mdb at 1.
  unfold s at 1. cbn [fw_db]. unfold Begin. rewrite Hs1, Hd. rewrite Hw1.
  destruct (build_loop_kinds r fr w1 (ledger_close_meta (disk w)) md ls ks0 Hd HnF Hflags (start_index md ls)
    (mkFeeWindows (SorobanInclusionFeeWindow s) (ClassicFeeWindow s) (networkPassPhrase s) (set_tx (Some (disk w)) w1)) (disk w) [])
    as (s2 & t2 & Hrun & Hinv); [by eapply run_inv_start|].
  rewrite Hp, Hrun. cbn [on_err].
  pose proof Hinv as [Hdb Hlm _ _ _ _].
  assert (all_ledgers t2 = ls) as Ht2 by (rewrite <- Hl; by apply all_ledgers_lm).
  destruct (migration_range_spec (Z.max (ClassicFeeStatsLedgerRetentionWindow cfg) (SorobanFeeStatsLedgerRetentionWindow cfg))
    (fw_db s2) ls Hd) as (w2 & Hrange & Hdk & Hst & Hck); rewrite ?Hdb; cbn [view sess_tx set_tx default disk]; try done.
  { intros k l. unfold id. rewrite Hlm. apply Hk. }
  { by rewrite Hw1. }
  { lia. }
  unfold mbind, st_bind, fatal, wrap_err. rewrite (on_mdb_run _ s2 _ _ Hrange). cbn [on_err].
  eexists _, t2, w2. split; [|split; [|rewrite Hdk, Hdb; by split]].
  - unfold mret, st_ret. do 2 f_equal. unfold mm_Append. cbn [AsMigration ApplicableRange]. fold fr.
    assert (Empty fr = false) as -> by (apply range_not_empty; lia).
    cbn [negb app]. unfold active, migs. by rewrite map_app.
  - destruct Hinv as [_ Hlm' Hmd' Htx' Hev' Hfee'].
    pose proof (fun k => active_built md ls ks0 k Hks0) as Heq.
    constructor; cbn [fw_db]; try done; try (intros l; rewrite Heq; auto).
    + destruct w2 as [d2 c2 e2 s2']; unfold set_tx. simpl in *. f_equal. rewrite Hst. by rewrite Hdb.
    + exact (Hfee' l).
Qed.

(** ** The result *)

Lemma first_range_le ret ls l : consecutive ls -> Forall (fun l => 2 <= LedgerSequence l < 2147483647) ls ->
  zlen ls <= ret -> l ∈ ls -> First (range_for ret ls) <= LedgerSequence l.
Proof.
  intros Hc HF Hlen Hl. pose proof (le_latest ls l Hc Hl). rewrite Forall_forall in HF. specialize (HF _ Hl).
  unfold range_for. simpl. destruct (Z.ltb_spec ret (latest_of ls)); lia.
Qed.

Lemma range_nonempty ret ls : 0 < ret -> Empty (range_for ret ls) = false.
Proof.
  intros H. unfold Empty, range_for. simpl. apply andb_false_iff. left. apply Z.eqb_neq.
  destruct (Z.ltb_spec ret (latest_of ls)); lia.
Qed.

Lemma mig_range r fr k : ApplicableRange (mig r fr k) = match k with KFee => fr | _ => r end.
Proof. by destruct k. Qed.

(** What a run makes of the ledgers [ls]: every table indexes all of them and the
    windows hold the ledgers of their range. *)
Record initialised (cfg : StorageConfig) (ls : list LedgerCloseMeta) (s : DState) : Prop := {
  in_tables : represents (disk (fw_db s)) ls;
  in_idle : sess_tx (fw_db s) = None;
  in_cache : cache_ok (fw_db s);
  in_tx_done : metadata (disk (fw_db s)) !! flag_key KTx = Some "true"%string;
  in_ev_done : metadata (disk (fw_db s)) !! flag_key KEv = Some "true"%string;
  in_fees : fees_inv s (filter (fun l => IsLedgerIncluded (range_for
      (Z.max (ClassicFeeStatsLedgerRetentionWindow cfg) (SorobanFeeStatsLedgerRetentionWindow cfg)) ls)
      (LedgerSequence l) = true) ls);
}.

Lemma filter_in_hull (h : SeqRange) (p : LedgerCloseMeta -> bool) (ls : list LedgerCloseMeta) :
  (forall l, l ∈ ls -> p l = true -> IsLedgerIncluded h (LedgerSequence l) = true) ->
  filter (fun l => p l = true) (filter (fun l => IsLedgerIncluded h (LedgerSequence l) = true) ls) =
  filter (fun l => p l = true) ls.
Proof.
  intros H. induction ls as [|x ls IH]; [done|]. specialize (IH ltac:(intros; apply H; [by right|done])).
  rewrite !(filter_cons _ x). destruct (decide (IsLedgerIncluded h (LedgerSequence x) = true)) as [Hi|Hi].
  - rewrite filter_cons. destruct (decide (p x = true)); by rewrite IH.
  - rewrite IH, decide_False; [done|]. intros Hp. apply Hi, H; [by left|done].
Qed.

Lemma hull_of_active cfg ls ks : ks <> [] ->
  0 < Z.max (ClassicFeeStatsLedgerRetentionWindow cfg) (SorobanFeeStatsLedgerRetentionWindow cfg)
    <= HistoryRetentionWindow cfg ->
  let r := range_for (HistoryRetentionWindow cfg) ls in
  let fr := range_for (Z.max (ClassicFeeStatsLedgerRetentionWindow cfg) (SorobanFeeStatsLedgerRetentionWindow cfg)) ls in
  let h := mm_ApplicableRange (migs r fr ks) in
  Last h = latest_of ls /\ forall k seq, k ∈ ks ->
    IsLedgerIncluded (ApplicableRange (mig r fr k)) seq = true -> IsLedgerIncluded h seq = true.
Proof.
  intros Hks Hw r fr h.
  destruct (hull_spec (migs r fr ks) (latest_of ls)) with (acc := mkSeqRange 0 0) as [H _].
  - apply Forall_forall. intros m Hm. unfold migs in Hm. apply list_elem_of_fmap in Hm as (k & -> & _).
    rewrite mig_range. destruct k; (split; [apply range_nonempty; lia|done]).
  - by left.
  - destruct H as [Hl Hf]; [by destruct ks|]. split; [exact Hl|]. intros k seq Hk Hi.
    rewrite Forall_forall in Hf. specialize (Hf (mig r fr k) ltac:(by apply list_elem_of_fmap_2)).
    fold (mm_ApplicableRange (migs r fr ks)) h in Hf, Hl. unfold IsLedgerIncluded in *.
    assert (Last (ApplicableRange (mig r fr k)) = latest_of ls) as Hl' by (rewrite mig_range; by destruct k). lia.
Qed.

Lemma active_NoDup md ks0 : ks0 ≡ₚ [KTx; KEv] -> NoDup (active md ks0).
Proof.
  intros Hp. unfold active. apply NoDup_app. split_and!.
  - apply NoDup_filter. rewrite Hp. repeat constructor; set_solver.
  - intros k [_ Hk]%list_elem_of_filter. rewrite Hp in Hk. set_solver.
  - apply NoDup_singleton.
Qed.
Lemma elem_of_active md ks0 k : ks0 ≡ₚ [KTx; KEv] -> (k ∈ active md ks0 <-> flag_unset md k).
Proof.
  intros Hp. unfold active. rewrite elem_of_app, list_elem_of_filter, Hp, list_elem_of_singleton.
  unfold flag_unset. destruct k; set_solver.
Qed.

Lemma flags_set_spec ks md k : k <> KFee ->
  flags_set ks md !! flag_key k = (if decide (k ∈ ks) then Some "true"%string else md !! flag_key k).
Proof.
  intros Hk. unfold flags_set. revert md. induction ks as [|k' ks IH]; intros md; [done|]. cbn [foldl]. rewrite IH.
  destruct (decide (k ∈ ks)) as [Hi|Hi].
  { by rewrite decide_True by (by right). }
  destruct (decide (k = k')) as [<-|Hne].
  - rewrite (decide_True (P := k ∈ k :: ks)) by (by left). rewrite decide_False by done. by rewrite lookup_insert_eq.
  - rewrite (decide_False (P := k ∈ k' :: ks)) by set_solver. destruct (decide (k' = KFee)); [done|].
    rewrite lookup_insert_ne; [done|]. destruct k, k'; done.
Qed.

Lemma stream_spec {S} w lo hi (f : LedgerCloseMeta -> st S unit) : no_driver_errors -> ledgers_keyed (view w) ->
  forall s, StreamLedgerRange w lo hi f s =
    st_fold (fun l _ => f l) (filter (fun l => IsLedgerIncluded (mkSeqRange lo hi) (LedgerSequence l) = true)
      (all_ledgers (view w))) tt s.
Proof.
  intros Hd Hk s. unfold StreamLedgerRange, stream, Select. rewrite Hd, ledger_rows_filter by done.
  unfold mbind, st_bind, lift. rewrite Hd. cbn [IsLedgerIncluded First Last].
  destruct (st_fold _ _ _ _) as [[[]| |] ?]; done.
Qed.

(** The ledgers streamed for the migrations that run. *)
Lemma streamed_rows cfg ls ks : ks <> [] -> batch_ok ls ->
  0 < Z.max (ClassicFeeStatsLedgerRetentionWindow cfg) (SorobanFeeStatsLedgerRetentionWindow cfg)
    <= HistoryRetentionWindow cfg ->
  let r := range_for (HistoryRetentionWindow cfg) ls in
  let fr := range_for (Z.max (ClassicFeeStatsLedgerRetentionWindow cfg) (SorobanFeeStatsLedgerRetentionWindow cfg)) ls in
  let h := mm_ApplicableRange (migs r fr ks) in
  let rows := filter (fun l => IsLedgerIncluded h (LedgerSequence l) = true) ls in
  batch_ok rows /\
  (forall k, k ∈ ks -> filter (fun x => included r fr k x = true) rows = filter (fun x => included r fr k x = true) ls) /\
  (forall k x y, k ∈ ks -> LedgerSequence x <= LedgerSequence y -> y ∈ rows ->
     included r fr k x = true -> included r fr k y = true).
Proof.
  intros Hks Hb Hw r fr h rows. destruct (hull_of_active cfg ls ks Hks Hw) as [Hl Hi].
  fold r fr h in Hl, Hi. pose proof Hb as [_ _ Hc _ _ _]. split_and!.
  - destruct (keep_from_drop (First h) ls Hc) as [n Hn]. replace rows with (drop n ls); [by apply batch_ok_drop|].
    rewrite <- Hn. unfold rows, keep_from. apply list_filter_iff_in. intros l Hin. unfold IsLedgerIncluded.
    pose proof (le_latest ls l Hc Hin). rewrite Hl. lia.
  - intros k Hk. apply filter_in_hull. intros l _. apply Hi; done.
  - intros k x y Hk Hxy [_ Hy]%list_elem_of_filter. unfold included, IsLedgerIncluded.
    assert (Last (ApplicableRange (mig r fr k)) = latest_of ls) as -> by (rewrite mig_range; by destruct k).
    pose proof (le_latest ls y Hc Hy). lia.
Qed.

(** The flags once all migrations have run. *)
Lemma flags_done cfg w ls ks0 k : storage_pre cfg w ls -> ks0 ≡ₚ [KTx; KEv] -> k <> KFee ->
  flags_set (active (metadata (disk w)) ks0) (metadata (disk w)) !! flag_key k = Some "true"%string.
Proof.
  intros [_ _ _ _ _ _ _ _ _ Htx Hev] Hp Hk. rewrite flags_set_spec by done.
  destruct (decide (k ∈ _)) as [|Hn]; [done|]. rewrite elem_of_active in Hn by done.
  destruct k; [| |done].
  - destruct Htx as [H|[H _]]; [exfalso; apply Hn; by right|done].
  - destruct Hev as [[H _]|[H _]]; [exfalso; apply Hn; by right|done].
Qed.

Lemma included_all cfg ls k : batch_ok ls -> zlen ls <= HistoryRetentionWindow cfg -> k <> KFee -> forall fr,
  filter (fun x => included (range_for (HistoryRetentionWindow cfg) ls) fr k x = true) ls = ls.
Proof.
  intros [_ Hseq Hcons _ _ _] Hlen Hk fr. apply filter_all. intros l Hl. unfold included. rewrite mig_range.
  pose proof (first_range_le _ ls l Hcons Hseq Hlen Hl) as H1. pose proof (le_latest ls l Hcons Hl) as H2.
  unfold IsLedgerIncluded. destruct k; [| |done]; unfold range_for in *; simpl in *; lia.
Qed.

(** Streaming the ledgers through the migrations and committing. *)
Lemma run_phase cfg ks0 w ls s2 t2 w2 : storage_pre cfg w ls -> no_driver_errors -> ks0 ≡ₚ [KTx; KEv] ->
  let md := metadata (disk w) in
  let r := range_for (HistoryRetentionWindow cfg) ls in
  let fr := range_for (Z.max (ClassicFeeStatsLedgerRetentionWindow cfg) (SorobanFeeStatsLedgerRetentionWindow cfg)) ls in
  let ks := active md ks0 in
  let h := mm_ApplicableRange (migs r fr ks) in
  run_inv w2 (ledger_close_meta (disk w)) md (fun k => if decide (k ∈ ks) then Some [] else Some ls) s2 t2 ->
  disk w2 = disk w -> cache_ok w2 ->
  exists s3 s4, StreamLedgerRange (fw_db s2) (First h) (Last h)
      (fun txMeta => fatal "could not apply migration for ledger" (mm_Apply (migs r fr ks) txMeta)) s2 = (Ok tt, s3) /\
    mm_Commit (migs r fr ks) s3 = (Ok tt, s4) /\ initialised cfg ls s4.
Proof.
  intros Hpre Hd Hks0 md r fr ks h Hinv Hdk Hck.
  pose proof Hpre as [_ [Hwc Hws] Hh _ Hk Hl Hlen _ Hb _ _].
  assert (ks <> []) as Hne by (unfold ks, active; by destruct (filter _ _)).
  destruct (streamed_rows cfg ls ks Hne Hb ltac:(lia)) as (Hbr & Hfil & Hup). fold r fr h in Hbr, Hfil, Hup.
  pose proof Hinv as [Hdb Hlm _ _ _ _].
  assert (view (fw_db s2) = t2) as Hv by (by rewrite Hdb).
  assert (ledgers_keyed t2) as Hk2 by (intros k l; rewrite Hlm; apply Hk).
  rewrite stream_spec by (rewrite ?Hv; done). rewrite Hv, (all_ledgers_lm t2 (disk w) Hlm), Hl.
  replace (mkSeqRange (First h) (Last h)) with h by (by destruct h).
  destruct (stream_kinds r fr ks w2 (ledger_close_meta (disk w)) md (fun k => if decide (k ∈ ks) then Some [] else Some ls)
    _ Hd (active_NoDup md ks0 Hks0) Hbr) with (s := s2) (t := t2) (pre := @nil LedgerCloseMeta)
    (rest := filter (fun l => IsLedgerIncluded h (LedgerSequence l) = true) ls) as (s3 & t3 & Hrun3 & Hinv3).
  { intros k Hin. by rewrite decide_True by done. }
  { exact Hup. }
  { done. }
  { eapply run_inv_ext; [|exact Hinv]. intros k. simpl. by destruct (decide (k ∈ ks)). }
  destruct (commit_loop_kinds r fr w2 (ledger_close_meta (disk w)) ks Hd md _ s3 t3 Hinv3) as (s4 & t4 & Hrun4 & [Hdb4 Hlm4 Hmd4 Htx4 Hev4 Hfee4]).
  exists s3. eexists. split; [exact Hrun3|]. split.
  { unfold mm_Commit, mbind, st_bind. rewrite Hrun4. unfold on_mdb, session_Commit. rewrite Hdb4. simpl.
    rewrite Hd. reflexivity. }
  assert (forall k, k <> KFee -> (if decide (k ∈ ks) then Some (filter (fun x => included r fr k x = true)
      (filter (fun l => IsLedgerIncluded h (LedgerSequence l) = true) ls))
      else if decide (k ∈ ks) then Some [] else Some ls) = Some ls) as Hall.
  { intros k Hkf. destruct (decide (k ∈ ks)) as [Hin|]; [|done]. rewrite (Hfil k Hin). f_equal.
    by apply included_all. }
  assert (all_ledgers t4 = ls) as Ht4 by (rewrite <- Hl; by apply all_ledgers_lm).
  constructor; simpl.
  - constructor; [intros k l; rewrite Hlm4; apply Hk|done|by apply Htx4, (Hall KTx)|by apply Hev4, (Hall KEv)].
  - done.
  - destruct Hck as [Hz|(l & Hla & Hi)]; [by left|]. right. exists l. simpl. rewrite Hdk, Hl in Hla. by rewrite Ht4.
  - rewrite Hmd4. by eapply flags_done.
  - rewrite Hmd4. by eapply flags_done.
  - assert (KFee ∈ ks) as Hin by (apply elem_of_active; [done|by left]).
    specialize (Hfee4 (filter (fun x => included r fr KFee x = true) ls)). apply Hfee4.
    rewrite decide_True by done. by rewrite (Hfil KFee Hin).
Qed.

Lemma order_kinds order : order ≡ₚ [transactionsMigrationName; eventsMigrationName] ->
  exists ks0, order = name_of <$> ks0 /\ ks0 ≡ₚ [KTx; KEv].
Proof.
  intros Ho. destruct (Permutation_map_inv name_of [KTx; KEv] Ho) as (ks0 & -> & Hp). by exists ks0.
Qed.

(** Starting on a database of consecutive ledgers always succeeds, whatever order
    Go iterates over the migrations in: what is not migrated yet is indexed, the
    flags are set in the same transaction, and the fee windows hold exactly the
    ledgers of their range. *)
Lemma initialise_ok cfg order w ls : no_driver_errors -> storage_pre cfg w ls ->
  order ≡ₚ [transactionsMigrationName; eventsMigrationName] ->
  exists s, mustInitializeStorage cfg order w = (Ok tt, s) /\ initialised cfg ls s.
Proof.
  intros Hd Hpre (ks0 & -> & Hks0)%order_kinds.
  pose proof Hpre as [_ _ Hh Hidle Hk Hl _ Hc [_ Hseq _ _ _ _] _ _]. pose proof (sp_windows _ _ _ Hpre).
  unfold mustInitializeStorage, initializeStorage, mbind, st_bind, fatal at 1, wrap_err.
  destruct (migration_range_spec (HistoryRetentionWindow cfg) w ls Hd) as (w1 & Hr1 & Hd1 & Hs1 & Hc1);
    try done; try (unfold view; rewrite Hidle; done); [lia|].
  rewrite (on_mdb_run _ (new_fee_windows cfg w) _ _ Hr1). cbn [on_err].
  destruct (build_phase cfg ks0 w ls w1 Hpre Hd Hks0 Hd1 ltac:(congruence) Hc1) as (s2 & t2 & w2 & Hbuild & Hinv2 & Hdk2 & Hck2).
  rewrite Hbuild. cbn [get_st].
  destruct (run_phase cfg ks0 w ls s2 t2 w2 Hpre Hd Hks0 Hinv2 Hdk2 Hck2) as (s3 & s4 & Hrun & Hcom & Hinit).
  exists s4. split; [|exact Hinit]. unfold fatal, wrap_err in Hrun |- *. rewrite Hrun. cbn [on_err]. by rewrite Hcom.
Qed.

End Storage.

Definition sample_cfg : StorageConfig := mkStorageConfig 10 20 40 "net".
(** A database with three ledgers and nothing indexed. *)
Definition sample_tables : @Tables toy_scvals toy_ledgers :=
  mkTables (list_to_map ((fun l => (LedgerSequence l, l)) <$> [sample_ledger 7; sample_ledger 8; sample_ledger 9])) ∅ ∅ ∅.
Definition sample_db : @DB toy_scvals toy_ledgers := OpenSQLiteDB sample_tables.

Lemma sample_ledgers_keyed : ledgers_keyed sample_tables.
Proof.
  intros k l H. unfold sample_tables in H. cbn [ledger_close_meta] in H.
  apply elem_of_list_to_map_2 in H.
  repeat (apply elem_of_cons in H as [[= -> ->]|H]; [reflexivity|]). by apply not_elem_of_nil in H.
Qed.

Lemma sample_batch : batch_ok (passphrase := "net") (T := sep35) [sample_ledger 7; sample_ledger 8; sample_ledger 9].
Proof.
  constructor.
  - repeat apply Forall_cons_2; [apply sample_fine_7|apply sample_fine_8|apply sample_fine_9|apply Forall_nil_2].
  - repeat apply Forall_cons_2; [simpl; lia..|apply Forall_nil_2].
  - intros [|[|[|i]]] a b Ha Hb; simpl in *; simplify_eq; reflexivity.
  - apply sample_keys_distinct.
  - apply Forall_cons_2; [apply (sample_sane 7); lia|]. apply Forall_cons_2; [apply (sample_sane 8); lia|].
    apply Forall_cons_2; [apply (sample_sane 9); lia|apply Forall_nil_2].
  - vm_compute. reflexivity.
Qed.

Lemma sample_storage_pre : storage_pre (passphrase := "net") (T := sep35) sample_cfg sample_db
  [sample_ledger 7; sample_ledger 8; sample_ledger 9].
Proof.
  constructor.
  - reflexivity.
  - simpl. lia.
  - simpl. lia.
  - reflexivity.
  - apply sample_ledgers_keyed.
  - vm_compute. reflexivity.
  - vm_compute. discriminate.
  - by left.
  - apply sample_batch.
  - by left.
  - left. split; reflexivity.
Qed.

(** The sample database with its tables built, for the endpoints. *)
Definition sample_indexed : @DB toy_scvals toy_ledgers :=
  fw_db (mustInitializeStorage sample_cfg [transactionsMigrationName; eventsMigrationName] sample_db).2.
Lemma sample_indexed_ok :
  represents (passphrase := "net") (disk sample_indexed) [sample_ledger 7; sample_ledger 8; sample_ledger 9] /\
  sess_tx sample_indexed = None /\ cache_ok sample_indexed.
Proof.
  destruct (initialise_ok (passphrase := "net") sample_cfg [transactionsMigrationName; eventsMigrationName] sample_db
    [sample_ledger 7; sample_ledger 8; sample_ledger 9]) as (s & Hrun & [H1 H2 H3 _ _ _]);
    [by intros n t|apply sample_storage_pre|done|].
  unfold sample_indexed. rewrite Hrun. cbn [snd]. exact (conj H1 (conj H2 H3)).
Qed.

(** ** Shutdown: properties *)

(** [Close] shuts every component down exactly once: however often it is
    called, the components are stopped on the first call only, never twice, and
    every later call returns the error of the first; the [done] channel is
    closed once, so no call panics. *)
Theorem Close_once c : exists d e,
  Close c running_daemon = Ok (d, e) /\
  NoDup (shut d) /\ done_closed d = true /\
  e = errors_Join ([server_Shutdown c] ++ option_list (adminServer_Shutdown c) ++
    [ingestService_Close c; core_Close c; db_Close c] ++ option_list (dataStore_Close c)) /\
  forall c', Close c' d = Ok (d, e).
Proof.
  unfold Close, close, running_daemon. cbn [closeOnce_done done_closed].
  eexists _, _. split; [reflexivity|]. cbn [shut done_closed closeError closeOnce_done].
  split_and!; try done.
  destruct (adminServer_Shutdown c), (dataStore_Close c); apply (bool_decide_unpack _); exact I.
Qed.

(** However [Run] ends, other than by the failure of the RPC server, every
    component was shut down exactly once. *)
Lemma Run_shuts_down c events r : Run c events running_daemon = Ok r ->
  match r with
  | Returned d => NoDup (shut d) /\ done_closed d = true /\ "ingestService"%string ∈ shut d /\ "db"%string ∈ shut d
  | ProcessExit _ => exists e, ServerReturned e ∈ events /\ errors_Is e "http.ErrServerClosed" = false
  | StillRunning d => d = running_daemon
  end.
Proof.
  assert (forall c, exists d e, Close c running_daemon = Ok (d, e) /\ NoDup (shut d) /\ done_closed d = true /\
    "ingestService"%string ∈ shut d /\ "db"%string ∈ shut d) as Hclose.
  { intros [sv [ad|] ig co db [ds|]]; eexists _, _; (split; [reflexivity|]); cbn [shut done_closed];
      split_and!; try done; apply (bool_decide_unpack _); exact I. }
  induction events as [|ev events IH]; cbn [Run]; [by intros [= <-]|].
  destruct ev as [e|e| |c'].
  - destruct (errors_Is e "http.ErrServerClosed") eqn:E.
    + intros H. specialize (IH H). destruct r; try done. destruct IH as (e' & Hin & He). exists e'. split; [by right|done].
    + intros [= <-]. exists e. split; [by left|done].
  - intros H. specialize (IH H). destruct r; try done. destruct IH as (e' & Hin & He). exists e'. split; [by right|done].
  - destruct (Hclose c) as (d & e & -> & Hd). by intros [= <-].
  - destruct (Hclose c') as (d & e & -> & Hd). by intros [= <-].
Qed.
