(* ===== verification/Convert.v ===== *)
(** * Conversions of responses: [internal/xdr2json], [methods/json.go], helpers

    The JSON form of XDR values comes from a C library ([xdr_to_json]); the Go
    code around it chooses the type name and reports its errors. *)

From S2P Require Import Prelude GoStd Externals LedgerMeta BucketWindow Store LedgerStore EventStore TxStore.

(** ** Outside code *)

(** [C.xdr_to_json]: the JSON text and the error text of a type and its bytes. *)
Class XdrToJson := { xdr_to_json : string -> string -> string * string }.

(** The error codes of [jrpc2]. *)
Class RpcCodes := { InvalidParams : Z; InvalidRequest : Z; InternalError : Z }.
#[export] Instance json_rpc : RpcCodes := {
  InvalidParams := -32602; InvalidRequest := -32600; InternalError := -32603;
}.

(** [&jrpc2.Error{Code: code, Message: err.Error()}] *)
Definition rpc {A} (code : Z) (m : go A) : go A := on_err (ERpc code) m.

(** The other accessors and encodings of a [LedgerCloseMeta]: its hash, the
    binary form of it and of its header, the protocol version, the union
    discriminant and the fields of its arms (ledger version and size of the
    live Soroban state). *)
Class LedgerXdr `{V : ScVals} (D : Ledgers) := {
  LedgerHash : LedgerCloseMeta -> string;
  lcm_MarshalBinary : LedgerCloseMeta -> go string;
  header_MarshalBinary : LedgerCloseMeta -> go string;
  lcm_ProtocolVersion : LedgerCloseMeta -> Z;
  lcm_V : LedgerCloseMeta -> Z;
  lcm_V1 : LedgerCloseMeta -> option (Z * Z);
  lcm_V2 : LedgerCloseMeta -> option (Z * Z);
}.

(** ** [xdr2json/conversion.go] *)

Section Convert.
Context {J : XdrToJson}.

Definition convertAnyBytes (xdrTypeName field : string) : go string :=
  let '(jsonStr, errStr) := xdr_to_json xdrTypeName field in
  if negb (String.eqb errStr "") then Er (ENew errStr) else Ok jsonStr.

Definition ConvertBytes (xdrTypeName field : string) : go string :=
  if (String.length field =? 0)%nat then Ok EmptyString else convertAnyBytes xdrTypeName field.

(** The value is given by its marshaler. *)
Definition ConvertInterface (xdrTypeName : string) (MarshalBinary : go string) : go string :=
  data ← on_err (EWrap "failed to serialize XDR type '%s'" [FS xdrTypeName]) MarshalBinary;
  convertAnyBytes xdrTypeName data.

(** ** [methods/json.go] *)

(** result, envelope and meta, in this order *)
Definition transactionToJSON (tx : Transaction) : go (string * string * string) :=
  result ← ConvertBytes "TransactionResult" (Result tx);
  envelope ← ConvertBytes "TransactionEnvelope" (Envelope tx);
  resultMeta ← ConvertBytes "TransactionMeta" (Meta tx);
  Ok (result, envelope, resultMeta).

Definition ledgerToJSON `{V : ScVals} {D : Ledgers} {X : LedgerXdr D} (meta : LedgerCloseMeta) : go (string * string) :=
  closeMetaJSON ← ConvertInterface "LedgerCloseMeta" (lcm_MarshalBinary meta);
  headerJSON ← ConvertInterface "LedgerHeaderHistoryEntry" (header_MarshalBinary meta);
  Ok (closeMetaJSON, headerJSON).

(** ** Slices, from [methods/simulate_transaction.go] *)

Definition base64EncodeSlice (l : list string) : list string := Base64Encode <$> l.
Definition jsonifySlice (xdrTypeName : string) (values : list string) : go (list string) :=
  mapM (ConvertBytes xdrTypeName) values.

(** An empty field has no JSON; otherwise the C library's answer decides. *)
Lemma ConvertBytes_ok t f j : ConvertBytes t f = Ok j <->
  (f = ""%string /\ j = ""%string) \/ (f <> ""%string /\ xdr_to_json t f = (j, ""%string)).
Proof.
  unfold ConvertBytes, convertAnyBytes. destruct f as [|c f]; simpl.
  - split; [intros [= <-]; auto|]. intros [[_ ->]|[? _]]; done.
  - destruct (xdr_to_json t (String c f)) as [js er]. destruct (String.eqb_spec er ""); simpl.
    + subst. split; [intros [= <-]; right; split; [discriminate|done]|]. intros [[? _]|[_ [= <-]]]; done.
    + split; [done|]. intros [[? _]|[_ [= _ Hn]]]; done.
Qed.
End Convert.

(** ** [methods/util.go] and the size of the live state *)

Section Versions.
Context `{V : ScVals} {D : Ledgers} {Drv : Driver} {X : LedgerXdr D}.

(** A nil arm of the union panics when its field is read. *)
Definition arm (o : option (Z * Z)) : go (Z * Z) :=
  match o with Some p => Ok p | None => Panic "nil pointer dereference" end.

Definition getProtocolVersion : st DB Z :=
  latestLedger ← GetLatestLedgerSequence;
  closeMeta ← GetLedger latestLedger;
  lift (match closeMeta with
        | None => Er (EFmt "missing meta for latest ledger (%d)" [FZ latestLedger])
        | Some closeMeta =>
            if lcm_V closeMeta =? 1 then p ← arm (lcm_V1 closeMeta); Ok (u32 p.1)
            else if lcm_V closeMeta =? 2 then p ← arm (lcm_V2 closeMeta); Ok (u32 p.1)
            else Er (EFmt "latest ledger (%d) meta has unexpected version (%d)"
                       [FZ latestLedger; FZ (lcm_V closeMeta)])
        end).

Definition getBucketListSizeAndProtocolVersion (latestLedger : Z) : st DB (Z * Z) :=
  closeMeta ← GetLedger latestLedger;
  lift (match closeMeta with
        | None => Er (EFmt "missing meta for latest ledger (%d)" [FZ latestLedger])
        | Some closeMeta =>
            if lcm_V closeMeta =? 1 then p ← arm (lcm_V1 closeMeta); Ok (u64 p.2, u32 p.1)
            else if lcm_V closeMeta =? 2 then p ← arm (lcm_V2 closeMeta); Ok (u64 p.2, u32 p.1)
            else Er (EFmt "latest ledger (%d) meta has unexpected verion (%d)"
                       [FZ latestLedger; FZ (lcm_V closeMeta)])
        end).
End Versions.

(** ** Instances for concrete runs *)

(** The JSON of a type and its bytes is their quotation. *)
#[export] Instance toy_json : XdrToJson := {
  xdr_to_json t f := (t +:+ ":" +:+ f, ""%string)%string;
}.
#[export] Instance toy_ledger_xdr : LedgerXdr toy_ledgers := {
  LedgerHash l := fmt_0d 32 (LedgerSequence l);
  lcm_MarshalBinary l := Ok ("L" +:+ Itoa (LedgerSequence l))%string;
  header_MarshalBinary l := Ok ("H" +:+ Itoa (LedgerSequence l))%string;
  lcm_ProtocolVersion _ := 23;
  lcm_V _ := 2;
  lcm_V1 _ := None;
  lcm_V2 _ := Some (23, 1000);
}.
