(* ===== verification/Handlers.v ===== *)
(** * The small endpoints: [methods/get_health.go], [get_fee_stats.go],
      [get_latest_ledger.go], [get_network.go], [get_version_info.go]

    Each reads the latest ledger, and the rest of its answer from the
    configuration, the fee windows or the clock. *)

From S2P Require Import Prelude GoStd GoTime Externals Protocol BucketWindow LedgerMeta FeeWindow Store LedgerStore EventStore TxStore WriteTx Ingest Migration Daemon Convert.

Record GetHealthResponse := mkHealth {
  hl_Status : string; hl_LatestLedger : Z; hl_OldestLedger : Z; hl_LedgerRetentionWindow : Z;
}.
Record GetFeeStatsResponse := mkFeeStats {
  fs_SorobanInclusionFee : FeeDistribution; fs_InclusionFee : FeeDistribution; fs_LatestLedger : Z;
}.
Record GetLatestLedgerResponse := mkLatest { la_Hash : string; la_ProtocolVersion : Z; la_Sequence : Z }.
Record GetNetworkResponse := mkNetwork { nw_FriendbotURL : string; nw_Passphrase : string; nw_ProtocolVersion : Z }.
Record GetVersionInfoResponse := mkVersionInfo {
  vi_Version : string; vi_CommitHash : string; vi_BuildTimestamp : string; vi_CaptiveCoreVersion : string; vi_ProtocolVersion : Z;
}.

Section Handlers.
Context `{V : ScVals} {D : Ledgers} {Drv : Driver} {R : RpcCodes} {X : LedgerXdr D}.

(** [now] is the clock in nanoseconds; the error is a [jrpc2.Error] value, not a
    pointer. *)
Definition getHealth (retentionWindow maxHealthyLedgerLatency now : Z) : st DB GetHealthResponse :=
  r ← attempt GetLedgerRange;
  lift (match r with
        | Panic p => Panic p
        | Er e => Er (ERpcValue InternalError (EFmt "data stores are not initialized: %s" [FE e]))
        | Ok ledgerRange =>
            if Sequence (RLast ledgerRange) <? 1
            then Er (ERpcValue InternalError (ENew "data stores are not initialized"))
            else
              let lastKnownLedgerLatency := time_Since now (CloseTime (RLast ledgerRange) * Second) in
              if maxHealthyLedgerLatency <? lastKnownLedgerLatency
              then Er (ERpcValue InternalError (EFmt "latency (%s) since last known ledger closed is too high (>%s)"
                     [FZ (Duration_Round lastKnownLedgerLatency Second); FZ maxHealthyLedgerLatency]))
              else Ok (mkHealth "healthy" (Sequence (RLast ledgerRange)) (Sequence (RFirst ledgerRange)) retentionWindow)
        end).

(** The wire type has the same fields under other names. *)
Definition convertFeeDistribution (distribution : FeeDistribution) : FeeDistribution :=
  mkFD (Max distribution) (Min distribution) (Mode distribution) (P10 distribution) (P20 distribution) (P30 distribution)
    (P40 distribution) (P50 distribution) (P60 distribution) (P70 distribution) (P80 distribution) (P90 distribution)
    (P95 distribution) (P99 distribution) (FeeCount distribution) (LedgerCount distribution).

(** A failure to read the range is not fatal: the latest ledger is then 0. *)
Definition getFeeStats {DBS W} (windows : FeeWindows DBS W) : st DB GetFeeStatsResponse :=
  r ← attempt GetLedgerRange;
  lift (match r with
        | Panic p => Panic p
        | _ => let ledgerRange := match r with Ok rng => rng | _ => zero_range end in
               Ok (mkFeeStats (convertFeeDistribution (GetFeeDistribution (SorobanInclusionFeeWindow windows)))
                     (convertFeeDistribution (GetFeeDistribution (ClassicFeeWindow windows))) (Sequence (RLast ledgerRange)))
        end).

Definition getLatestLedger : st DB GetLatestLedgerResponse :=
  latestSequence ← wrap_err (fun _ => ERpc InternalError (ENew "could not get latest ledger sequence")) GetLatestLedgerSequence;
  latestLedger ← wrap_err (fun _ => ERpc InternalError (ENew "could not get latest ledger")) (GetLedger latestSequence);
  lift (match latestLedger with
        | None => Er (ERpc InternalError (ENew "could not get latest ledger"))
        | Some l => Ok (mkLatest (HexEncode (LedgerHash l)) (lcm_ProtocolVersion l) latestSequence)
        end).

Definition getNetwork (networkPassphrase friendbotURL : string) : st DB GetNetworkResponse :=
  protocolVersion ← wrap_err (ERpc InternalError) getProtocolVersion;
  mret (mkNetwork friendbotURL networkPassphrase protocolVersion).

(** Without a protocol version the answer is given with version 0. *)
Definition getVersionInfo (version commitHash buildTimestamp captiveCoreVersion : string) : st DB GetVersionInfoResponse :=
  r ← attempt getProtocolVersion;
  lift (match r with
        | Panic p => Panic p
        | _ => Ok (mkVersionInfo version commitHash buildTimestamp captiveCoreVersion (match r with Ok v => v | _ => 0 end))
        end).

(** ** What the database determines *)

Record stored (w : DB) (first latest : LedgerCloseMeta) : Prop := {
  st_drv : no_driver_errors;
  st_keyed : ledgers_keyed (disk w);
  st_sess : sess_tx w = None;
  st_cache : cache_ok w;
  st_first : head (all_ledgers (disk w)) = Some first;
  st_latest : last (all_ledgers (disk w)) = Some latest;
}.

Lemma stored_range w first latest : stored w first latest ->
  GetLedgerRange w = (Ok (mkRange (info_of first) (info_of latest)), w).
Proof.
  intros [Hd Hk Hs Hc Hf Hl]. rewrite GetLedgerRange_spec by (done || (intros n; apply Hd)). unfold range_of. by rewrite Hf, Hl.
Qed.
Lemma stored_latest w first latest : stored w first latest ->
  exists w', getLatestLedgerSequence w = (Ok (LedgerSequence latest), w') /\ GetLedger (LedgerSequence latest) w' = (Ok (Some latest), w') /\
    disk w' = disk w /\ sess_tx w' = None.
Proof.
  intros [Hd Hk Hs Hc _ Hl]. destruct (getLatestLedgerSequence_spec w) as (w' & Hlatest & Hdisk & Hsess & _); [intros n; apply Hd|done..|].
  rewrite Hl in Hlatest. exists w'. split_and!; try done.
  assert (view w' = disk w) as Hv by (unfold view; by rewrite Hsess).
  unfold GetLedger. rewrite getLedgerFromDB_spec; [|intros n; apply Hd|by rewrite Hv]. rewrite Hv.
  assert (latest ∈ all_ledgers (disk w)) as Hin by (by apply last_Some_elem_of). apply elem_of_all_ledgers in Hin; [|done]. by rewrite Hin.
Qed.

(** What getHealth answers about the latest ledger. *)
Definition health_of (retention maxLatency now : Z) (first latest : LedgerCloseMeta) : go GetHealthResponse :=
  let latency := time_Since now (LedgerCloseTime latest * 1000000000) in
  if latency <=? maxLatency
  then Ok (mkHealth "healthy" (LedgerSequence latest) (LedgerSequence first) retention)
  else Er (ERpcValue InternalError (EFmt "latency (%s) since last known ledger closed is too high (>%s)"
             [FZ (Duration_Round latency 1000000000); FZ maxLatency])).

Lemma getHealth_stored retention maxLatency now w first latest : stored w first latest -> 1 <= LedgerSequence latest ->
  (getHealth retention maxLatency now w).1 = health_of retention maxLatency now first latest.
Proof.
  intros Hst Hs. unfold getHealth, mbind, st_bind, attempt. rewrite (stored_range _ _ _ Hst).
  cbn [lift fst snd RFirst RLast info_of Sequence CloseTime]. unfold lift, health_of. cbn [fst].
  destruct (Z.ltb_spec (LedgerSequence latest) 1); [lia|]. unfold Second, Nanosecond in *.
  destruct (Z.leb_spec (time_Since now (LedgerCloseTime latest * 1000000000)) maxLatency),
           (Z.ltb_spec maxLatency (time_Since now (LedgerCloseTime latest * 1000000000))); try lia; done.
Qed.

(** With ledgers stored, getHealth answers healthy with the first and last of
    them exactly when the last one closed no longer ago than the latency allowed,
    and an error otherwise; on an empty database it is an error that says so. *)
Theorem getHealth_spec retention maxLatency now w : no_driver_errors -> ledgers_keyed (disk w) -> sess_tx w = None -> cache_ok w ->
  Forall (fun l => 1 <= LedgerSequence l) (all_ledgers (disk w)) ->
  (getHealth retention maxLatency now w).1 =
    match head (all_ledgers (disk w)), last (all_ledgers (disk w)) with
    | Some first, Some latest => health_of retention maxLatency now first latest
    | _, _ => Er (ERpcValue InternalError (EFmt "data stores are not initialized: %s" [FE ErrEmptyDB]))
    end.
Proof.
  intros Hd Hk Hs Hc HF.
  destruct (head (all_ledgers (disk w))) as [first|] eqn:Ef, (last (all_ledgers (disk w))) as [latest|] eqn:El.
  2-4: unfold getHealth, mbind, st_bind, attempt; rewrite GetLedgerRange_spec by (done || (intros n; apply Hd));
    unfold range_of; by rewrite Ef, ?El.
  apply getHealth_stored; [done|]. rewrite Forall_forall in HF. apply HF. by apply last_Some_elem_of.
Qed.

(** getLatestLedger, getNetwork and getVersionInfo all describe the last ledger
    stored: its sequence and hash, and the protocol version of its header;
    getFeeStats names it next to the distributions of the two windows. *)
Theorem latest_ledger_reported {DBS W} first latest version size (windows : FeeWindows DBS W) passphrase url v c b core w :
  stored w first latest ->
  (lcm_V latest = 1 /\ lcm_V1 latest = Some (version, size)) \/ (lcm_V latest = 2 /\ lcm_V2 latest = Some (version, size)) ->
  (getLatestLedger w).1 = Ok (mkLatest (HexEncode (LedgerHash latest)) (lcm_ProtocolVersion latest) (LedgerSequence latest)) /\
  (getNetwork passphrase url w).1 = Ok (mkNetwork url passphrase (u32 version)) /\
  (getVersionInfo v c b core w).1 = Ok (mkVersionInfo v c b core (u32 version)) /\
  (getFeeStats windows w).1 = Ok (mkFeeStats (GetFeeDistribution (SorobanInclusionFeeWindow windows))
                                   (GetFeeDistribution (ClassicFeeWindow windows)) (LedgerSequence latest)).
Proof.
  intros Hst Hv. destruct (stored_latest _ _ _ Hst) as (w' & Hlatest & Hget & _).
  assert (getProtocolVersion w = (Ok (u32 version), w')) as Hpv.
  { unfold getProtocolVersion, GetLatestLedgerSequence, mbind, st_bind. rewrite Hlatest, Hget.
    destruct Hv as [[-> Hm]|[-> Hm]]; cbn; by rewrite Hm. }
  split_and!.
  - unfold getLatestLedger, GetLatestLedgerSequence, wrap_err, mbind, st_bind. rewrite Hlatest. cbn [on_err]. by rewrite Hget.
  - unfold getNetwork, wrap_err, mbind, st_bind. by rewrite Hpv.
  - unfold getVersionInfo, attempt, mbind, st_bind. by rewrite Hpv.
  - unfold getFeeStats, attempt, mbind, st_bind. rewrite (stored_range _ _ _ Hst). cbn.
    unfold convertFeeDistribution. by destruct (GetFeeDistribution (SorobanInclusionFeeWindow windows)), (GetFeeDistribution (ClassicFeeWindow windows)).
Qed.
End Handlers.

(** ** A concrete run *)

Lemma getHealth_spec_witness :
  (getHealth 100 (30 * Second) (60 * Second) sample_db).1 = Ok (mkHealth "healthy" 9 7 100).
Proof.
  pose proof (getHealth_spec 100 (30 * Second) (60 * Second) sample_db) as H. rewrite H.
  - vm_compute. reflexivity.
  - by intros n t.
  - apply sample_ledgers_keyed.
  - reflexivity.
  - by left.
  - apply (bool_decide_unpack _). vm_compute. exact I.
Defined.
Definition sample_windows : FeeWindows unit (LedgerBucketWindow (list Z)) :=
  mkFeeWindows (NewFeeWindow 2) (NewFeeWindow 2) "net" tt.
Lemma latest_ledger_reported_witness :
  (getLatestLedger sample_db).1 = Ok (mkLatest (HexEncode (LedgerHash (sample_ledger 9))) (lcm_ProtocolVersion (sample_ledger 9)) (LedgerSequence (sample_ledger 9))) /\
  (getNetwork "net" "" sample_db).1 = Ok (mkNetwork "" "net" (u32 23)) /\
  (getVersionInfo "0" "" "" "core" sample_db).1 = Ok (mkVersionInfo "0" "" "" "core" (u32 23)) /\
  (getFeeStats sample_windows sample_db).1 =
    Ok (mkFeeStats (GetFeeDistribution (SorobanInclusionFeeWindow sample_windows))
          (GetFeeDistribution (ClassicFeeWindow sample_windows)) (LedgerSequence (sample_ledger 9))).
Proof.
  apply (latest_ledger_reported (sample_ledger 7) (sample_ledger 9) 23 1000 sample_windows "net" "" "0" "" "" "core" sample_db).
  - constructor; [by intros n t|apply sample_ledgers_keyed|reflexivity|by left|vm_compute; reflexivity|vm_compute; reflexivity].
  - by right.
Defined.
