(* ===== verification/GetEvents.v ===== *)
(** * getEvents: [methods/get_events.go]

    The handler turns the filters of a request into a coarse condition on the
    indexed columns, scans the rows of the cursor range with it, checks every
    event against the filters and stops at the limit.  The theorems relate the
    response to the log of the events table: which events are returned, that
    the coarse condition loses nothing for uniform filters, and that pages
    continue where the previous one ended. *)

From S2P Require Import Prelude GoStd Externals Cursor Protocol Filters BucketWindow LedgerMeta Store LedgerStore EventStore TxStore WriteTx Ingest Migration Daemon Convert.

Definition LedgerScanLimit : Z := 10000.

Section Handler.
Context `{T : Toid} `{K : Strkey} `{V : ScVals} `{X : XdrConsts} {D : Ledgers} {Drv : Driver} {J : XdrToJson} {R : RpcCodes}.

(** ** The coarse condition *)

Fixpoint combineContractIDs_loop (ids : list string) (seen : gset string) (acc : list string) : go (list string) :=
  match ids with
  | [] => Ok acc
  | contractID :: ids' =>
      if decide (contractID ∈ seen) then combineContractIDs_loop ids' seen acc
      else match strkey_Decode contractID with
           | Ok id => combineContractIDs_loop ids' ({[contractID]} ∪ seen) (acc ++ [id])
           | Er _ => Er (EFmt "invalid contract ID: %v" [FS contractID])
           | Panic p => Panic p
           end
  end.
Definition combineContractIDs (filters : list EventFilter) : go (list string) :=
  combineContractIDs_loop (concat (ContractIDs <$> filters)) ∅ [].

(** The numbers of the event types asked for.  A type that is not in the table
    of types counts as 0, the zero value of the map. *)
Definition combineEventTypes (filters : list EventFilter) : list Z :=
  elements (list_to_set (C := gset Z)
    ((fun eventType => default 0 (GetEventTypeXDRFromEventType eventType)) <$>
       concat ((fun f => EventTypeSet_Keys (EventType f)) <$> filters))).

(** [encodedTopicsList[i] = append(encodedTopicsList[i], t)] *)
Definition append_topic (l : list (option (list string))) (i : nat) (t : string) : go (list (option (list string))) :=
  match l !! i with
  | Some c => Ok (<[i := Some (default [] c ++ [t])]> l)
  | None => Panic "index out of range"
  end.
Fixpoint combine_segments (i : nat) (segments : list SegmentFilter) (l : list (option (list string))) :
    go (list (option (list string))) :=
  match segments with
  | [] => Ok l
  | s :: segments' =>
      l' ← match Wildcard s, SegScVal s with
           | None, Some v =>
               encodedTopic ← on_err (EWrap "failed to marshal segment: %w" []) (ScVal_MarshalBinary v);
               append_topic l i encodedTopic
           | _, _ => Ok l
           end;
      combine_segments (S i) segments' l'
  end.
Fixpoint combineTopics_loop (filters : list EventFilter) (l : list (option (list string))) :
    go (list (option (list string))) :=
  match filters with
  | [] => Ok l
  | filter :: filters' =>
      match Topics filter with
      | [] => Ok []
      | topics =>
          l' ← go_fold (combine_segments 0) topics l;
          combineTopics_loop filters' l'
      end
  end.
Definition combineTopics (filters : list EventFilter) : go (list (option (list string))) :=
  combineTopics_loop filters (replicate (Z.to_nat MaxTopicCount) None).

(** ** The response *)

Record EventInfo := mkEventInfo {
  ei_EventType : string;
  ei_Ledger : Z;
  ei_LedgerClosedAt : string;
  ei_ContractID : string;
  ei_ID : string;
  ei_OpIndex : Z;
  ei_TxIndex : Z;
  ei_InSuccessfulContractCall : bool;
  ei_TransactionHash : string;
  ei_TopicXDR : list string;
  ei_TopicJSON : list string;
  ei_ValueXDR : string;
  ei_ValueJSON : string;
}.

Record GetEventsResponse := mkGetEventsResponse {
  er_Events : list EventInfo;
  er_Cursor : string;
  er_LatestLedger : Z;
  er_OldestLedger : Z;
  er_LatestLedgerCloseTime : Z;
  er_OldestLedgerCloseTime : Z;
}.

(** Topics and value, as base64 or as JSON. *)
Definition event_body (format : string) (topics : list ScVal) (data : ScVal) :
    go (list string * list string * string * string) :=
  if String.eqb format FormatJSON then
    ts ← mapM (fun t => ConvertInterface "ScVal" (ScVal_MarshalBinary t)) topics;
    v ← ConvertInterface "ScVal" (ScVal_MarshalBinary data);
    Ok ([], ts, ""%string, v)
  else
    ts ← mapM ScVal_MarshalBase64 topics;
    v ← ScVal_MarshalBase64 data;
    Ok (ts, [], v, ""%string).

(** [strkey.MustEncode] panics on an error. *)
Definition must_encode (contractId : option string) : go string :=
  match contractId with
  | None => Ok ""%string
  | Some id => match strkey_Encode id with Ok s => Ok s | _ => Panic "strkey" end
  end.

Definition eventInfoForEvent (event : DiagnosticEvent) (cursor : Cursor) (ledgerClosedAt txHash format : string) :
    go EventInfo :=
  match BodyV0 (Event_of event) with
  | None => Er (ENew "unknown event version")
  | Some (topics, data) =>
      match GetEventTypeFromEventTypeXDR (EventTypeXDR (Event_of event)) with
      | None => Er (EFmt "unknown XDR ContractEventType type: %d" [FZ (EventTypeXDR (Event_of event))])
      | Some eventType =>
          id ← Cursor_String cursor;
          body ← event_body format topics data;
          let '(topicXDR, topicJSON, valueXDR, valueJSON) := body in
          contractID ← must_encode (ContractId (Event_of event));
          Ok (mkEventInfo eventType (i32 (Ledger cursor)) ledgerClosedAt contractID id (Op cursor) (Tx cursor)
                (InSuccessfulContractCall event) txHash topicXDR topicJSON valueXDR valueJSON)
      end
  end.

Definition entry_info (format : string) (en : entry) : go EventInfo :=
  eventInfoForEvent (en_event en) (en_cursor en) (RFC3339_UTC (en_time en)) (HexEncode (en_hash en)) format.

(** ** The handler *)

Record eventsRPCHandler := mkEventsRPCHandler { maxLimit : Z; defaultLimit : Z }.

(** The first position to return and the number of events. *)
Definition events_start (request : GetEventsRequest) : Cursor :=
  match Pagination request with
  | Some p => match PCursor p with
              | Some c => mkCursor (Ledger c) (Tx c) (Op c) (u32 (Event c + 1))
              | None => mkCursor (StartLedger request) 0 0 0
              end
  | None => mkCursor (StartLedger request) 0 0 0
  end.
Definition events_limit (h : eventsRPCHandler) (request : GetEventsRequest) : Z :=
  match Pagination request with
  | Some p => if 0 <? PLimit p then PLimit p else defaultLimit h
  | None => defaultLimit h
  end.
Definition events_endLedger (request : GetEventsRequest) (ledgerRange : LedgerRange) : Z :=
  let endLedger := u32 (Ledger (events_start request) + LedgerScanLimit) in
  let endLedger := Z.min (u32 (Sequence (RLast ledgerRange) + 1)) endLedger in
  if negb (EndLedger request =? 0) then Z.min (EndLedger request) endLedger else endLedger.

(** The scan function: a panic of [Matches] stops everything. *)
Definition eventScanFunction (request : GetEventsRequest) (limit : Z) (en : entry) (found : go (list entry)) :
    bool * go (list entry) :=
  match found with
  | Ok found =>
      match Matches request (en_event en) with
      | Ok m => let found' := if (m : bool) then found ++ [en] else found in
                (zlen found' <? limit, Ok found')
      | Er e => (false, Er e)
      | Panic p => (false, Panic p)
      end
  | r => (false, r)
  end.

Definition events_cursor (endLedger limit : Z) (results : list EventInfo) : go string :=
  if zlen results =? limit then
    lastEvent ← go_index results (zlen results - 1); Ok (ei_ID lastEvent)
  else Cursor_String (mkCursor (u32 (endLedger - 1)) (Tx MaxCursor) (Op MaxCursor) (Event MaxCursor)).

(** What follows once the range of stored ledgers is known. *)
Definition getEvents_in (h : eventsRPCHandler) (request : GetEventsRequest) (ledgerRange : LedgerRange) (w : DB) :
    go GetEventsResponse :=
  let start := events_start request in
  let limit := events_limit h request in
  let endLedger := events_endLedger request ledgerRange in
  let cursorRange := mkCursorRange start (mkCursor endLedger 0 0 0) in
  if (Ledger start <? Sequence (RFirst ledgerRange)) || (Sequence (RLast ledgerRange) <? Ledger start) then
    Er (ERpc InvalidRequest (EFmt "startLedger must be within the ledger range: %d - %d"
          [FZ (Sequence (RFirst ledgerRange)); FZ (Sequence (RLast ledgerRange))]))
  else
    contractIDs ← rpc InvalidParams (combineContractIDs (Filters request));
    topics ← rpc InvalidParams (combineTopics (Filters request));
    let eventTypes := combineEventTypes (Filters request) in
    scanned ← rpc InvalidRequest
                (GetEvents w cursorRange contractIDs topics eventTypes (eventScanFunction request limit) (Ok []));
    found ← scanned;
    results ← on_err (EWrap "could not parse event" []) (mapM (entry_info (Format request)) found);
    cursor ← events_cursor endLedger limit results;
    Ok (mkGetEventsResponse results cursor
          (Sequence (RLast ledgerRange)) (Sequence (RFirst ledgerRange))
          (CloseTime (RLast ledgerRange)) (CloseTime (RFirst ledgerRange))).

Definition getEvents (h : eventsRPCHandler) (request : GetEventsRequest) : st DB GetEventsResponse :=
  _ ← lift (rpc InvalidParams (check (GetEventsRequest_Valid request (maxLimit h))));
  ledgerRange ← wrap_err (ERpc InternalError) GetLedgerRange;
  w ← get_st;
  lift (getEvents_in h request ledgerRange w).

(** ** What the combined conditions hold *)

Context {TL : ToidLaws T} {KL : StrkeyLaws K} {VL : ScValsLaws V} {XL : XdrConstsLaws X}.
Context {passphrase : string} {L : LedgersLaws D passphrase}.

Lemma column_in_elem v vs : column_in (Some v) vs = true <-> v ∈ vs.
Proof.
  unfold column_in. rewrite existsb_Exists, Exists_exists. split.
  - intros (x & Hx & ->%String.eqb_eq). done.
  - intros Hv. exists v. split; [done|]. by rewrite String.eqb_refl.
Qed.

Lemma combineContractIDs_loop_spec ids seen acc :
  Forall (fun s => is_ok (strkey_Decode s) = true) ids ->
  (forall s id, s ∈ seen -> strkey_Decode s = Ok id -> id ∈ acc) ->
  Forall (fun id => exists s, strkey_Encode id = Ok s) acc ->
  exists l, combineContractIDs_loop ids seen acc = Ok l /\ (exists l', l = acc ++ l') /\
    (forall s id, s ∈ ids -> strkey_Decode s = Ok id -> id ∈ l) /\
    Forall (fun id => exists s, strkey_Encode id = Ok s) l /\ (ids = [] -> l = acc).
Proof.
  intros HF. revert seen acc. induction HF as [|s ids Hs HF IH]; intros seen acc Hseen Hacc.
  { exists acc. split_and!; try done; [exists []; by rewrite app_nil_r|]. intros s id Hs. by apply not_elem_of_nil in Hs. }
  cbn [combineContractIDs_loop]. destruct (decide (s ∈ seen)) as [Hin|Hin].
  - destruct (IH seen acc Hseen Hacc) as (l & Hl & (l' & El) & Hall & Henc & _). exists l.
    split_and!; try done; [by exists l'|]. intros s' id [->|Hs']%elem_of_cons Hd; [|by eapply Hall].
    rewrite El, elem_of_app. left. by eapply Hseen.
  - destruct (strkey_Decode s) as [id| |] eqn:E; try done.
    destruct (IH ({[s]} ∪ seen) (acc ++ [id])) as (l & Hl & (l' & El) & Hall & Henc & _).
    + intros s' id' [->%elem_of_singleton|Hs']%elem_of_union Hd; rewrite elem_of_app.
      * right. rewrite E in Hd. injection Hd as ->. by left.
      * left. by eapply Hseen.
    + apply Forall_app. split; [done|]. constructor; [|done]. exists s. by apply strkey_enc_dec.
    + exists l. split_and!; try done; [exists (id :: l'); by rewrite El, <- app_assoc|].
      intros s' id' [->|Hs']%elem_of_cons Hd; [|by eapply Hall].
      rewrite E in Hd. injection Hd as <-. rewrite El, !elem_of_app. left. right. by left.
Qed.

Lemma combineContractIDs_spec fs : Forall (fun f => EventFilter_Valid f = None) fs ->
  exists l, combineContractIDs fs = Ok l /\
    Forall (fun id => exists s, strkey_Encode id = Ok s) l /\
    ((forall f, f ∈ fs -> ContractIDs f = []) -> l = []) /\
    forall f s id, f ∈ fs -> s ∈ ContractIDs f -> strkey_Decode s = Ok id -> id ∈ l.
Proof.
  intros HF. unfold combineContractIDs.
  destruct (combineContractIDs_loop_spec (concat (ContractIDs <$> fs)) ∅ []) as (l & Hl & _ & Hall & Henc & Hnil).
  - apply Forall_forall. intros s (ids & Hs & (f & -> & Hf)%list_elem_of_fmap)%elem_of_concat.
    rewrite Forall_forall in HF. destruct (EventFilter_Valid_inv _ (HF _ Hf)) as (_ & _ & _ & Hd & _).
    rewrite Forall_forall in Hd. by apply Hd.
  - intros s id Hs. by apply not_elem_of_empty in Hs.
  - constructor.
  - exists l. split_and!; [done|done| |].
    + intros He. apply Hnil. clear -He. induction fs as [|f fs IH]; [done|]. simpl.
      rewrite He by (by left). apply IH. intros g Hg. apply He. by right.
    + intros f s id Hf Hs. apply Hall. apply elem_of_concat. exists (ContractIDs f). split; [done|].
      by apply list_elem_of_fmap_2.
Qed.

Lemma combineEventTypes_spec fs : Forall (fun f => EventFilter_Valid f = None) fs ->
  ((forall f, f ∈ fs -> EventType f = ∅) -> combineEventTypes fs = []) /\
  forall f event, f ∈ fs -> EventType f <> ∅ -> types_accept (EventType f) event ->
    EventTypeXDR event ∈ combineEventTypes fs.
Proof.
  intros HF. unfold combineEventTypes. split.
  - intros He. assert (concat ((fun f => EventTypeSet_Keys (EventType f)) <$> fs) = []) as ->.
    { induction fs as [|f fs IH]; [done|]. simpl. rewrite (He f) by (by left).
      unfold EventTypeSet_Keys. rewrite elements_empty. inversion HF; subst. apply IH; [done|].
      intros g Hg. apply He. by right. }
    simpl. by rewrite elements_empty.
  - intros f event Hf Hne [?|Hin]; [done|]. apply elem_of_elements, elem_of_list_to_set.
    apply list_elem_of_fmap. exists (default ""%string (GetEventTypeFromEventTypeXDR (EventTypeXDR event))).
    split.
    + rewrite Forall_forall in HF. destruct (EventFilter_Valid_inv _ (HF _ Hf)) as (Ht & _).
      rewrite Forall_forall in Ht. specialize (Ht _ (proj2 (elem_of_elements _ _) Hin)).
      destruct (GetEventTypeFromEventTypeXDR (EventTypeXDR event)) as [s|] eqn:E; simpl in *.
      * apply event_type_tables in E. by rewrite E.
      * destruct Ht as [|[|]]; done.
    + apply elem_of_concat. exists (EventTypeSet_Keys (EventType f)). split; [by apply elem_of_elements|].
      by apply (list_elem_of_fmap_2 (fun f => EventTypeSet_Keys (EventType f))).
Qed.

(** Which encodings the combined topics hold at a position. *)
Definition concrete (t : list SegmentFilter) (i : nat) (b : string) : Prop :=
  exists s v, t !! i = Some s /\ Wildcard s = None /\ SegScVal s = Some v /\ ScVal_MarshalBinary v = Ok b.

(** The values of the filters can be encoded, as all decoded values can. *)
Definition filters_marshal (fs : list EventFilter) : Prop :=
  forall f t s v, f ∈ fs -> t ∈ Topics f -> s ∈ t -> SegScVal s = Some v -> exists b, ScVal_MarshalBinary v = Ok b.

Definition topics_include (l l' : list (option (list string))) : Prop :=
  length l' = length l /\ forall i vs b, l !! i = Some (Some vs) -> b ∈ vs ->
    exists vs', l' !! i = Some (Some vs') /\ b ∈ vs'.

Lemma topics_include_trans a b c : topics_include a b -> topics_include b c -> topics_include a c.
Proof.
  intros [L1 H1] [L2 H2]. split; [congruence|]. intros i vs x Hi Hx.
  destruct (H1 i vs x Hi Hx) as (vs' & Hi' & Hx'). by apply (H2 i vs').
Qed.

Lemma append_topic_spec l i b : (i < length l)%nat ->
  exists l', append_topic l i b = Ok l' /\ topics_include l l' /\
    exists vs, l' !! i = Some (Some vs) /\ b ∈ vs.
Proof.
  intros Hi. unfold append_topic. destruct (lookup_lt_is_Some_2 l i Hi) as [c Hc]. rewrite Hc.
  eexists. split; [done|]. split; [split; [by rewrite length_insert|]|].
  - intros j vs x Hj Hx. destruct (decide (i = j)) as [<-|Hne].
    + rewrite list_lookup_insert_eq by done. eexists. split; [done|].
      rewrite Hc in Hj. injection Hj as ->. simpl. apply elem_of_app. by left.
    + rewrite list_lookup_insert_ne by done. eauto.
  - rewrite list_lookup_insert_eq by done. eexists. split; [done|]. apply elem_of_app. right. by left.
Qed.

Lemma combine_segments_spec (t : list SegmentFilter) i l : (forall s v, s ∈ t -> SegScVal s = Some v -> exists b, ScVal_MarshalBinary v = Ok b) ->
  (forall j s, t !! j = Some s -> Wildcard s = None -> SegScVal s <> None -> (i + j < length l)%nat) ->
  exists l', combine_segments i t l = Ok l' /\ topics_include l l' /\
    ((forall j b, ~ concrete t j b) -> l' = l) /\
    forall j b, concrete t j b -> exists vs, l' !! (i + j)%nat = Some (Some vs) /\ b ∈ vs.
Proof.
  revert i l. induction t as [|s t IH]; intros i l Hm Hlen.
  { exists l. split_and!; try done; [split; [done|eauto]|]. intros j b (s & v & Hj & _). discriminate Hj. }
  cbn [combine_segments].
  assert (exists l1, (match Wildcard s, SegScVal s with
           | None, Some v => encodedTopic ← on_err (EWrap "failed to marshal segment: %w" []) (ScVal_MarshalBinary v);
                             append_topic l i encodedTopic
           | _, _ => Ok l end) = Ok l1 /\ topics_include l l1 /\
           ((forall b, ~ concrete (s :: t) 0 b) -> l1 = l) /\
           forall b, concrete (s :: t) 0 b -> exists vs, l1 !! i = Some (Some vs) /\ b ∈ vs) as (l1 & -> & Hinc & Hno & Hyes).
  { destruct (Wildcard s) eqn:Ew; [|destruct (SegScVal s) as [v|] eqn:Ev].
    - exists l. split_and!; [done|split; [done|eauto]|done|]. intros b (s' & v & [= <-] & H & _). congruence.
    - destruct (Hm s v ltac:(by left) Ev) as [b Hb]. rewrite Hb. cbn [on_err mbind go_bind].
      destruct (append_topic_spec l i b) as (l1 & -> & Hinc & Hin).
      { specialize (Hlen 0%nat s eq_refl Ew ltac:(congruence)). lia. }
      exists l1. split_and!; [done|done| |].
      + intros H. exfalso. apply (H b). exists s, v. done.
      + intros b' (s' & v' & [= <-] & _ & Hv' & Hb'). assert (b' = b) as -> by congruence. exact Hin.
    - exists l. split_and!; [done|split; [done|eauto]|done|]. intros b (s' & v & [= <-] & _ & H & _). congruence. }
  cbn [mbind go_bind]. destruct (IH (S i) l1) as (l2 & Hl2 & Hinc2 & Hno2 & Hyes2).
  { intros s' v Hs. apply Hm. by right. }
  { intros j s' Hj Hw Hv. destruct Hinc as [-> _]. specialize (Hlen (S j) s' Hj Hw Hv). lia. }
  exists l2. split_and!; [done|by eapply topics_include_trans| |].
  - intros H. rewrite Hno2; [apply Hno; intros b; apply H|]. intros j b Hc. by apply (H (S j) b).
  - intros [|j] b Hc.
    + destruct (Hyes b Hc) as (vs & Hi & Hb). rewrite Nat.add_0_r. by apply (proj2 Hinc2) with vs.
    + replace (i + S j)%nat with (S i + j)%nat by lia. by apply Hyes2.
Qed.

Lemma valid_concrete_bound t j s : TopicFilter_Valid t = None -> t !! j = Some s -> Wildcard s = None -> (j < 4)%nat.
Proof.
  intros (topics & _ & _ & H4 & Ht & _)%TopicFilter_Valid_shape Hj Hw.
  destruct Ht as [->|(last & -> & Hz)]; [apply lookup_lt_Some in Hj; lia|].
  apply is_zero_or_more_valid in Hz. apply lookup_snoc_Some in Hj as [[? _]|[_ <-]]; [lia|congruence].
Qed.

Lemma combine_topic_list_spec ts l : Forall (fun t => TopicFilter_Valid t = None) ts -> length l = 4%nat ->
  (forall t s v, t ∈ ts -> s ∈ t -> SegScVal s = Some v -> exists b, ScVal_MarshalBinary v = Ok b) ->
  exists l', go_fold (combine_segments 0) ts l = Ok l' /\ topics_include l l' /\
    ((forall t j b, t ∈ ts -> ~ concrete t j b) -> l' = l) /\
    forall t j b, t ∈ ts -> concrete t j b -> exists vs, l' !! j = Some (Some vs) /\ b ∈ vs.
Proof.
  intros HF. revert l. induction HF as [|t ts Ht HF IH]; intros l Hl Hm.
  { exists l. split_and!; try done; [split; [done|eauto]|]. intros t j b Hin. by apply not_elem_of_nil in Hin. }
  cbn [go_fold]. destruct (combine_segments_spec t 0 l) as (l1 & -> & Hinc & Hno & Hyes).
  { intros s v Hs. apply (Hm t); [by left|done]. }
  { intros j s Hj Hw _. rewrite Hl. simpl. by eapply valid_concrete_bound. }
  cbn [mbind go_bind]. destruct (IH l1) as (l2 & Hl2 & Hinc2 & Hno2 & Hyes2).
  { destruct Hinc as [-> _]. done. }
  { intros t' s v Ht'. apply Hm. by right. }
  exists l2. split_and!; [done|by eapply topics_include_trans| |].
  - intros H. rewrite Hno2; [apply Hno; intros j b; apply H; by left|]. intros t' j b Ht'. apply H. by right.
  - intros t' j b [->|Ht']%elem_of_cons Hc; [|by eapply Hyes2].
    destruct (Hyes j b Hc) as (vs & Hi & Hb). by apply (proj2 Hinc2) with vs.
Qed.

Definition no_topics : list (option (list string)) := replicate (Z.to_nat MaxTopicCount) None.

Lemma combineTopics_loop_spec fs l : Forall (fun f => EventFilter_Valid f = None) fs -> length l = 4%nat ->
  filters_marshal fs ->
  exists l', combineTopics_loop fs l = Ok l' /\
    ((exists f, f ∈ fs /\ Topics f = []) /\ l' = [] \/
     (forall f, f ∈ fs -> Topics f <> []) /\ topics_include l l' /\
     ((forall f t j b, f ∈ fs -> t ∈ Topics f -> ~ concrete t j b) -> l' = l) /\
     forall f t j b, f ∈ fs -> t ∈ Topics f -> concrete t j b -> exists vs, l' !! j = Some (Some vs) /\ b ∈ vs).
Proof.
  intros HF. revert l. induction HF as [|f fs Hf HF IH]; intros l Hl Hm.
  { exists l. split; [done|]. right. split_and!; try done; [intros f Hf; by apply not_elem_of_nil in Hf|split; [done|eauto]|].
    intros f t j b Hf. by apply not_elem_of_nil in Hf. }
  cbn [combineTopics_loop]. destruct (Topics f) as [|t0 ts] eqn:Et.
  { exists []. split; [done|]. left. split; [|done]. exists f. split; [by left|done]. }
  destruct (EventFilter_Valid_inv _ Hf) as (_ & _ & _ & _ & Hts). rewrite Et in Hts.
  destruct (combine_topic_list_spec (t0 :: ts) l Hts Hl) as (l1 & -> & Hinc & Hno & Hyes).
  { intros t s v Ht. apply (Hm f); [by left|by rewrite Et]. }
  cbn [mbind go_bind]. destruct (IH l1) as (l2 & Hl2 & Hcase).
  { destruct Hinc as [-> _]. done. }
  { intros g t s v Hg. apply Hm. by right. }
  exists l2. split; [done|]. destruct Hcase as [[(g & Hg & Hgt) ->]|(Hne & Hinc2 & Hno2 & Hyes2)].
  - left. split; [|done]. exists g. split; [by right|done].
  - right. split_and!.
    + intros g [->|Hg]%elem_of_cons; [by rewrite Et|by apply Hne].
    + by eapply topics_include_trans.
    + intros H. rewrite Hno2; [apply Hno|].
      * intros t j b Ht. apply (H f); [by left|by rewrite Et].
      * intros g t j b Hg. apply H. by right.
    + intros g t j b [->|Hg]%elem_of_cons Ht Hc; [|by eapply Hyes2].
      rewrite Et in Ht. destruct (Hyes t j b Ht Hc) as (vs & Hi & Hb). by apply (proj2 Hinc2) with vs.
Qed.

(** ** Uniform filters

    The handler combines the filters into a conjunction of three conditions on
    the columns.  That loses nothing when contract IDs and event types are each
    restricted by no filter or by all of them, and when some filter leaves the
    topics open, or no topic filter names a concrete segment, or every one does. *)
Record uniform (fs : list EventFilter) : Prop := {
  uni_contracts : (forall f, f ∈ fs -> ContractIDs f = []) \/ (forall f, f ∈ fs -> ContractIDs f <> []);
  uni_types : (forall f, f ∈ fs -> EventType f = ∅) \/ (forall f, f ∈ fs -> EventType f <> ∅);
  uni_topics : (exists f, f ∈ fs /\ Topics f = []) \/
    (forall f t, f ∈ fs -> t ∈ Topics f -> forall j b, ~ concrete t j b) \/
    (forall f t, f ∈ fs -> t ∈ Topics f -> exists j b, concrete t j b);
}.

(** The coarse condition of the query on an entry. *)
Definition coarse (contractIDs : list string) (topics : list (option (list string))) (eventTypes : list Z) (en : entry) : bool :=
  ((zlen contractIDs =? 0) || column_in (ContractId (Event_of (en_event en))) contractIDs) &&
  ((zlen eventTypes =? 0) || existsb (Z.eqb (EventTypeXDR (Event_of (en_event en)))) eventTypes) &&
  row_matches_topics topics (entry_topics en).

(** The columns of an entry: the encodings of its first topics. *)
Lemma entry_topics_lookup en topics data cols i v b :
  BodyV0 (Event_of (en_event en)) = Some (topics, data) -> encode_topics topics = Ok cols ->
  topics !! i = Some v -> (i < 4)%nat -> ScVal_MarshalBinary v = Ok b -> entry_topics en !! i = Some (Some b).
Proof.
  intros Hb Hc Hi H4 Hv. unfold entry_topics. rewrite Hb, Hc. unfold encode_topics in Hc.
  apply go_bind_ok in Hc as (segs & Hm & Hc). injection Hc as <-. apply go_mapM_ok in Hm.
  change (Z.to_nat MaxTopicCount) with 4%nat in *.
  assert (take 4 topics !! i = Some v) as Ht by (by rewrite lookup_take_lt).
  destruct (Forall2_lookup_l _ _ _ _ _ Hm Ht) as (b' & Hs & Hb'). rewrite Hv in Hb'. injection Hb' as <-.
  rewrite lookup_resize; [by rewrite list_lookup_fmap, Hs|lia|].
  rewrite length_fmap. by eapply lookup_lt_Some.
Qed.

Lemma accepts_concrete t topics j b : topic_accepts t topics -> concrete t j b ->
  exists v, topics !! j = Some v /\ ScVal_MarshalBinary v = Ok b.
Proof.
  intros Ha (s & v & Hj & Hw & Hv & Hb).
  assert (exists x, topics !! j = Some x /\ segment_accepts s x) as (x & Hx & Hsx).
  { destruct Ha as [(pre & lst & -> & Hz & front & rest & -> & HF)|[_ HF]].
    - apply is_zero_or_more_valid in Hz. apply lookup_snoc_Some in Hj as [[_ Hj]|[_ <-]]; [|congruence].
      destruct (Forall2_lookup_l _ _ _ _ _ HF Hj) as (x & Hx & Hsx). exists x. split; [|done].
      by apply lookup_app_l_Some.
    - destruct (Forall2_lookup_l _ _ _ _ _ HF Hj) as (x & Hx & Hsx). eauto. }
  exists x. split; [done|]. destruct Hsx as [?|[?|(w & Hw' & E)]]; [congruence..|].
  apply scval_equals_marshal in E. congruence.
Qed.

Lemma row_matches_topics_intro topics cols i vs b : topics !! i = Some (Some vs) -> b ∈ vs ->
  cols !! i = Some (Some b) -> row_matches_topics topics cols = true.
Proof.
  intros Hi Hb Hc. unfold row_matches_topics.
  assert ((i, vs) ∈ topic_conditions topics) as Hin.
  { unfold topic_conditions. apply list_elem_of_omap. exists (Some (i, vs)). split; [|done].
    apply elem_of_lookup_imap. exists i, (Some vs). done. }
  destruct (topic_conditions topics) as [|c cs] eqn:E; [done|]. apply existsb_Exists, Exists_exists.
  exists (i, vs). split; [done|]. cbn [fst snd]. rewrite Hc. simpl. by apply column_in_elem.
Qed.

(** For uniform filters the coarse condition admits every accepted event. *)
Lemma coarse_complete fs contractIDs topics en : Forall (fun f => EventFilter_Valid f = None) fs ->
  filters_marshal fs -> uniform fs ->
  combineContractIDs fs = Ok contractIDs -> combineTopics fs = Ok topics ->
  (exists kr, event_values en = Ok kr) ->
  request_accepts fs (Event_of (en_event en)) -> coarse contractIDs topics (combineEventTypes fs) en = true.
Proof.
  intros HF Hm [Hcu Htu Hpu] Hc Ht (kr & Hv) Hacc.
  destruct (combineContractIDs_spec fs HF) as (l & Hl & _ & Hnil & Hids). rewrite Hc in Hl. injection Hl as <-.
  destruct (combineEventTypes_spec fs HF) as [Hty0 Hty].
  destruct (combineTopics_loop_spec fs no_topics HF eq_refl Hm) as (l & Hl & Hcase).
  unfold combineTopics in Ht. fold no_topics in Ht. rewrite Ht in Hl. injection Hl as <-.
  destruct Hacc as [->|(f & Hf & (Hat & Hac & Hap))].
  { rewrite Hnil by (intros f Hf; by apply not_elem_of_nil in Hf). rewrite Hty0 by (intros f Hf; by apply not_elem_of_nil in Hf).
    injection Ht as <-. done. }
  unfold coarse. apply andb_true_iff. split; [apply andb_true_iff; split|].
  - destruct Hcu as [H|H]; [by rewrite Hnil|]. apply orb_true_iff. right.
    destruct Hac as [?|(id & s & -> & He & Hs)]; [by destruct (H f Hf)|]. apply column_in_elem.
    eapply Hids; [done|done|]. by apply strkey_dec_enc.
  - destruct Htu as [H|H]; [by rewrite Hty0|]. apply orb_true_iff. right. apply existsb_Exists, Exists_exists.
    exists (EventTypeXDR (Event_of (en_event en))). split; [|apply Z.eqb_refl]. eapply Hty; [done|by apply H|done].
  - destruct Hcase as [[_ ->]|(Hne & _ & Hno & Hyes)]; [done|].
    destruct Hap as [?|(tops & data & t & Hbody & Htin & Ha)]; [by destruct (Hne f Hf)|].
    destruct Hpu as [(g & Hg & Hgt)|[H|H]].
    + by destruct (Hne g Hg).
    + rewrite Hno by (intros g t' j b Hg Ht'; by eapply H). done.
    + destruct (H f t Hf Htin) as (j & b & Hcon). destruct (Hyes f t j b Hf Htin Hcon) as (vs & Hvs & Hb).
      destruct (accepts_concrete t tops j b Ha Hcon) as (v & Hv' & Hmv).
      destruct (event_values_row _ _ Hv) as (_ & _ & _ & _ & _ & (tp & d & Hb' & Henc)).
      rewrite Hbody in Hb'. injection Hb' as <- <-.
      apply (row_matches_topics_intro topics _ j vs b Hvs Hb).
      eapply entry_topics_lookup; [done|exact Henc|done| |done].
      rewrite Forall_forall in HF. destruct (EventFilter_Valid_inv _ (HF _ Hf)) as (_ & _ & _ & _ & Hval).
      rewrite Forall_forall in Hval. destruct Hcon as (s & w & Hj & Hw & _).
      eapply valid_concrete_bound; [by apply Hval|done|done].
Qed.

(** ** Filters that are not uniform

    An event the conjunction of the columns leaves out, although a filter may
    accept it: some filter restricts the column and no restriction of any filter
    holds of the event.  For topics it takes that every filter has some. *)
Inductive excluded (fs : list EventFilter) (en : entry) : Prop :=
  | excluded_contract g : g ∈ fs -> ContractIDs g <> [] ->
      (forall f s id, f ∈ fs -> s ∈ ContractIDs f -> strkey_Decode s = Ok id -> ContractId (Event_of (en_event en)) <> Some id) ->
      excluded fs en
  | excluded_type g : g ∈ fs -> EventType g <> ∅ ->
      (forall f, f ∈ fs -> EventType f <> ∅ -> ~ types_accept (EventType f) (Event_of (en_event en))) -> excluded fs en
  | excluded_topic g t j b : (forall f, f ∈ fs -> Topics f <> []) -> g ∈ fs -> t ∈ Topics g -> concrete t j b ->
      (forall f t j b, f ∈ fs -> t ∈ Topics f -> concrete t j b -> entry_topics en !! j <> Some (Some b)) ->
      excluded fs en.

(** The combined conditions hold nothing that is not a filter's. *)
Lemma combineContractIDs_loop_sound ids : forall seen acc l id, combineContractIDs_loop ids seen acc = Ok l -> id ∈ l ->
  id ∈ acc \/ exists s, s ∈ ids /\ strkey_Decode s = Ok id.
Proof.
  induction ids as [|s ids IH]; intros seen acc l id; cbn [combineContractIDs_loop]; [intros [= <-]; by left|].
  destruct (decide _); [|destruct (strkey_Decode s) as [x| |] eqn:E; [|done..]]; intros Hl Hid;
    destruct (IH _ _ _ _ Hl Hid) as [Hin|(s' & Hs' & Hd)]; try (right; exists s'; split; [by right|done]); [by left|].
  apply elem_of_app in Hin as [Hin|Hin]; [by left|]. apply list_elem_of_singleton in Hin as ->. right. exists s. split; [by left|done].
Qed.

Lemma combineEventTypes_sound fs event : Forall (fun f => EventFilter_Valid f = None) fs ->
  EventTypeXDR event ∈ combineEventTypes fs -> exists f, f ∈ fs /\ EventType f <> ∅ /\ types_accept (EventType f) event.
Proof.
  intros HF Hin. unfold combineEventTypes in Hin. apply elem_of_elements, elem_of_list_to_set, list_elem_of_fmap in Hin as (k & Ek & Hk).
  apply elem_of_concat in Hk as (ks & Hk & (f & -> & Hf)%list_elem_of_fmap).
  unfold EventTypeSet_Keys in Hk. apply elem_of_elements in Hk. exists f. split; [done|]. split; [set_solver|]. right.
  rewrite Forall_forall in HF. destruct (EventFilter_Valid_inv _ (HF _ Hf)) as (Ht & _). rewrite Forall_forall in Ht.
  specialize (Ht k (proj2 (elem_of_elements _ _) Hk)).
  destruct (GetEventTypeXDRFromEventType k) as [n|] eqn:E.
  - simpl in Ek. subst n. apply event_type_tables in E. by rewrite E.
  - exfalso. unfold GetEventTypeXDRFromEventType in E. by destruct Ht as [->|[->| ->]].
Qed.

(** [l'] holds at [j] what [l] holds, and encodings that [P] names. *)
Definition topics_from (P : nat -> string -> Prop) (l l' : list (option (list string))) : Prop :=
  forall j vs b, l' !! j = Some (Some vs) -> b ∈ vs -> (exists vs0, l !! j = Some (Some vs0) /\ b ∈ vs0) \/ P j b.
Lemma topics_from_refl P l : topics_from P l l.
Proof. intros j vs b Hj Hb. left. by exists vs. Qed.
Lemma topics_from_trans P l1 l2 l3 : topics_from P l1 l2 -> topics_from P l2 l3 -> topics_from P l1 l3.
Proof. intros H1 H2 j vs b Hj Hb. destruct (H2 j vs b Hj Hb) as [(vs' & Hj' & Hb')|]; [by eapply H1|by right]. Qed.

Lemma append_topic_from P l i t l' : append_topic l i t = Ok l' -> P i t -> topics_from P l l'.
Proof.
  unfold append_topic. destruct (l !! i) as [c|] eqn:Ec; [|done]. intros [= <-] HP j vs b.
  intros [(<- & [= <-] & _)|[_ Hj]]%list_lookup_insert_Some Hb; [|left; by exists vs].
  apply elem_of_app in Hb as [Hb|Hb]; [|apply list_elem_of_singleton in Hb as ->; by right].
  destruct c as [vs0|]; [left; by exists vs0|by apply not_elem_of_nil in Hb].
Qed.

Lemma combine_segments_from (P : nat -> string -> Prop) t : forall i l l', combine_segments i t l = Ok l' ->
  (forall j b, concrete t j b -> P (i + j)%nat b) -> topics_from P l l'.
Proof.
  induction t as [|s t IH]; intros i l l'; cbn [combine_segments]; [intros [= <-] _; apply topics_from_refl|].
  intros (l1 & H1 & Hl)%go_bind_ok HP. apply (topics_from_trans _ _ l1).
  - destruct (Wildcard s) eqn:Ew; [injection H1 as <-; apply topics_from_refl|].
    destruct (SegScVal s) as [v|] eqn:Ev; [|injection H1 as <-; apply topics_from_refl]. go_inv.
    eapply append_topic_from; [exact H1|]. rewrite <- (Nat.add_0_r i). apply HP. exists s, v. done.
  - eapply IH; [exact Hl|]. intros j b Hc. rewrite Nat.add_succ_comm. by apply (HP (S j)).
Qed.

Lemma combineTopics_from (P : nat -> string -> Prop) fs : forall l l', combineTopics_loop fs l = Ok l' ->
  (forall f t j b, f ∈ fs -> t ∈ Topics f -> concrete t j b -> P j b) -> topics_from P l l'.
Proof.
  induction fs as [|f fs IH]; intros l l'; cbn [combineTopics_loop]; [intros [= <-] _; apply topics_from_refl|].
  destruct (Topics f) as [|t0 ts] eqn:Et; [intros [= <-] _ j vs b Hj; done|]. intros (l1 & H1 & Hl)%go_bind_ok HP.
  apply (topics_from_trans _ _ l1); [|eapply IH; [exact Hl|]; intros g t j b Hg; apply HP; by right].
  assert (forall t j b, t ∈ t0 :: ts -> concrete t j b -> P j b) as HP'.
  { intros t j b Ht. apply (HP f); [by left|by rewrite Et]. }
  clear -H1 HP'. revert l H1. induction (t0 :: ts) as [|t ts' IH]; intros l; cbn [go_fold]; [intros [= <-]; apply topics_from_refl|].
  intros (l2 & H2 & Hl)%go_bind_ok. apply (topics_from_trans _ _ l2).
  - eapply combine_segments_from; [exact H2|]. intros j b. apply HP'. by left.
  - apply IH; [|done]. intros t' j b Ht'. apply HP'. by right.
Qed.

Lemma row_matches_topics_elim topics cols j0 vs0 : topics !! j0 = Some (Some vs0) -> row_matches_topics topics cols = true ->
  exists j vs b, topics !! j = Some (Some vs) /\ b ∈ vs /\ cols !! j = Some (Some b).
Proof.
  intros H0. unfold row_matches_topics. assert ((j0, vs0) ∈ topic_conditions topics) as Hin.
  { unfold topic_conditions. apply list_elem_of_omap. exists (Some (j0, vs0)). split; [|done].
    apply elem_of_lookup_imap. exists j0, (Some vs0). done. }
  destruct (topic_conditions topics) as [|c cs] eqn:E; [by apply not_elem_of_nil in Hin|]. rewrite <- E.
  intros ([j vs] & Hc & Hcol)%existsb_Exists%Exists_exists. unfold topic_conditions in Hc.
  apply list_elem_of_omap in Hc as (o & Ho & Eo). unfold id in Eo. subst o.
  apply elem_of_lookup_imap in Ho as (j' & [vs'|] & [= <- <-] & Hj); cbn [fst snd] in Hcol.
  destruct (cols !! j) as [[b|]|] eqn:Ec; try done. exists j, vs, b. split; [done|]. split; [by apply column_in_elem|done].
Qed.

(** What is excluded does not satisfy the coarse condition. *)
Lemma excluded_coarse fs contractIDs topics en : Forall (fun f => EventFilter_Valid f = None) fs -> filters_marshal fs ->
  combineContractIDs fs = Ok contractIDs -> combineTopics fs = Ok topics -> excluded fs en ->
  coarse contractIDs topics (combineEventTypes fs) en = false.
Proof.
  intros HF Hm Hc Ht Hex. apply not_true_iff_false. unfold coarse. rewrite !andb_true_iff, !orb_true_iff. intros [[Hcid Hty] Htop].
  destruct Hex as [g Hg Hne Hno|g Hg Hne Hno|g t j b Hall Hg Htg Hcon Hno].
  - destruct (combineContractIDs_spec fs HF) as (l & Hl & _ & _ & Hids). rewrite Hc in Hl. injection Hl as <-.
    destruct (ContractIDs g) as [|s ids] eqn:Eg; [done|]. rewrite Forall_forall in HF.
    destruct (EventFilter_Valid_inv _ (HF _ Hg)) as (_ & _ & _ & Hd & _). rewrite Eg in Hd. inversion Hd as [|? ? Hs _]; subst.
    destruct (strkey_Decode s) as [id| |] eqn:Es; try done.
    assert (id ∈ contractIDs) as Hin by (eapply Hids; [exact Hg|rewrite Eg; by left|done]).
    destruct Hcid as [Hz|Hcol]; [apply Z.eqb_eq in Hz; destruct contractIDs; [by apply not_elem_of_nil in Hin|unfold zlen in Hz; simpl in Hz; lia]|].
    destruct (ContractId _) as [x|] eqn:Ex; [|done]. apply column_in_elem in Hcol. unfold combineContractIDs in Hc.
    destruct (combineContractIDs_loop_sound _ _ _ _ _ Hc Hcol) as [Hx|(s' & (ids' & Hs' & (f & -> & Hf)%list_elem_of_fmap)%elem_of_concat & Hd')];
      [by apply not_elem_of_nil in Hx|]. by eapply Hno.
  - assert (EventTypeXDR (Event_of (en_event en)) ∈ combineEventTypes fs) as Hin.
    { destruct Hty as [Hz|Hty]; [exfalso|].
      - apply Z.eqb_eq in Hz. destruct (combineEventTypes fs) as [|z zs] eqn:E; [|unfold zlen in Hz; simpl in Hz; lia].
        unfold combineEventTypes in E. apply elements_empty_inv in E. destruct (set_choose_L (EventType g) Hne) as [k Hk].
        apply (not_elem_of_empty (C := gset Z) (default 0 (GetEventTypeXDRFromEventType k))). unfold_leibniz. rewrite <- E.
        apply elem_of_list_to_set, list_elem_of_fmap. exists k. split; [done|]. apply elem_of_concat. exists (EventTypeSet_Keys (EventType g)).
        split; [by apply elem_of_elements|]. by apply (list_elem_of_fmap_2 (fun f => EventTypeSet_Keys (EventType f))).
      - apply existsb_Exists, Exists_exists in Hty as (z & Hz & ->%Z.eqb_eq). done. }
    destruct (combineEventTypes_sound fs _ HF Hin) as (f & Hf & Hfne & Hacc). by eapply Hno.
  - destruct (combineTopics_loop_spec fs no_topics HF eq_refl Hm) as (l & Hl & Hcase).
    unfold combineTopics in Ht. fold no_topics in Ht. rewrite Ht in Hl. injection Hl as <-.
    destruct Hcase as [[(f & Hf & Hnil) _]|(_ & _ & _ & Hyes)]; [by destruct (Hall f Hf)|].
    destruct (Hyes g t j b Hg Htg Hcon) as (vs & Hvs & _).
    destruct (row_matches_topics_elim _ _ _ _ Hvs Htop) as (j' & vs' & b' & Hj' & Hb' & Hcol).
    destruct (combineTopics_from (fun j b => exists f t, f ∈ fs /\ t ∈ Topics f /\ concrete t j b) fs _ _ Ht) with (j := j') (vs := vs') (b := b')
      as [(vs0 & H0 & _)|(f & t' & Hf & Ht' & Hc')]; try done; [by eauto 6| |].
    + unfold no_topics in H0. apply lookup_replicate in H0 as [[=] _].
    + by eapply Hno.
Qed.

(** ** The scan collects the first accepted entries *)

Definition accepted (request : GetEventsRequest) (en : entry) : bool :=
  match Matches request (en_event en) with Ok b => b | _ => false end.

Lemma scan_page request limit es acc :
  Forall (fun en => exists b, Matches request (en_event en) = Ok b) es -> zlen acc < limit ->
  scan (eventScanFunction request limit) es (Ok acc) =
  Ok (acc ++ take (Z.to_nat (limit - zlen acc)) (filter (fun en => accepted request en = true) es)).
Proof.
  intros HF. revert acc. induction HF as [|en es [b Hb] HF IH]; intros acc Hlen.
  { simpl. by rewrite firstn_nil, app_nil_r. }
  assert (accepted request en = b) as Ha by (unfold accepted; by rewrite Hb).
  cbn [scan eventScanFunction]. rewrite Hb, filter_cons, Ha.
  assert (zlen (acc ++ [en]) = zlen acc + 1) as Hl by (unfold zlen; rewrite length_app; simpl; lia).
  destruct b; cbn [eventScanFunction].
  - rewrite decide_True by done. rewrite Hl. destruct (Z.ltb_spec (zlen acc + 1) limit).
    + rewrite IH by lia. rewrite Hl, <- app_assoc. do 2 f_equal.
      by replace (Z.to_nat (limit - zlen acc)) with (S (Z.to_nat (limit - (zlen acc + 1)))) by lia.
    + by replace (Z.to_nat (limit - zlen acc)) with 1%nat by lia.
  - rewrite decide_False by done. destruct (Z.ltb_spec (zlen acc) limit); [|lia]. by apply IH.
Qed.

Lemma topic_columns_bound topics : (length topics <= 4)%nat -> topic_columns_exist topics = true.
Proof.
  intros H. unfold topic_columns_exist. apply forallb_Forall, Forall_forall. intros [i vs] Hin.
  unfold topic_conditions in Hin. apply list_elem_of_omap in Hin as (o & Ho & Eo). unfold id in Eo. subst o.
  apply elem_of_lookup_imap in Ho as (j & c & E & Hj). destruct c; [|done]. injection E as -> ->. simpl.
  apply Nat.ltb_lt. apply lookup_lt_Some in Hj. lia.
Qed.

Lemma combineTopics_ok fs : Forall (fun f => EventFilter_Valid f = None) fs -> filters_marshal fs ->
  exists topics, combineTopics fs = Ok topics /\ topic_columns_exist topics = true.
Proof.
  intros HF Hm. destruct (combineTopics_loop_spec fs no_topics HF eq_refl Hm) as (l & Hl & Hcase).
  exists l. split; [done|]. apply topic_columns_bound.
  destruct Hcase as [[_ ->]|(_ & [-> _] & _)]; simpl; lia.
Qed.

(** ** The handler on a log of events *)

(** The events of [es] from [start] on, before ledger [endLedger], that the
    filters accept, in order. *)
Definition selection (es : list entry) (fs : list EventFilter) (start : Cursor) (endLedger : Z) (sel : list entry) : Prop :=
  StronglySorted cursor_lt sel /\
  forall en, en ∈ sel <-> en ∈ es /\ Cmp start (en_cursor en) <= 0 /\ Ledger (en_cursor en) < endLedger /\
    request_accepts fs (Event_of (en_event en)).

(** A request on a database whose events table holds the log [es]; [info] is the
    form of each event in the response. *)
Record events_pre (h : eventsRPCHandler) (request : GetEventsRequest) (w : DB) (es : list entry)
    (rng : LedgerRange) (info : entry -> EventInfo) : Prop := {
  ep_reads : forall n, drv_error n (view w) = None;
  ep_idle : sess_tx w = None;
  ep_keyed : ledgers_keyed (disk w);
  ep_cache : cache_ok w;
  ep_range : range_of (disk w) = Ok rng;
  ep_ledgers : 0 <= Sequence (RFirst rng) /\ Sequence (RLast rng) < 2147483647;
  ep_log : event_log (disk w) es;
  ep_events : Forall (fun en => event_ok (Event_of (en_event en))) es;
  ep_info : forall en, en ∈ es -> entry_info (Format request) en = Ok (info en);
  ep_valid : GetEventsRequest_Valid request (maxLimit h) = None;
  ep_marshal : filters_marshal (Filters request);
  ep_start : cursor_ok (events_start request);
  ep_within : Sequence (RFirst rng) <= Ledger (events_start request) <= Sequence (RLast rng);
  ep_end : 0 <= EndLedger request;
  ep_limit : 0 < events_limit h request;
}.

Lemma endLedger_bounds request rng : 0 <= Sequence (RFirst rng) /\ Sequence (RLast rng) < 2147483647 ->
  Sequence (RFirst rng) <= Ledger (events_start request) <= Sequence (RLast rng) -> 0 <= EndLedger request ->
  events_endLedger request rng =
    Z.min (if EndLedger request =? 0 then Sequence (RLast rng) + 1 else EndLedger request)
      (Z.min (Sequence (RLast rng) + 1) (Ledger (events_start request) + 10000)) /\
  1 <= events_endLedger request rng < 2147483648.
Proof.
  intros H1 H2 H3. unfold events_endLedger, LedgerScanLimit. rewrite !u32_small by (unfold is_u32; lia).
  destruct (Z.eqb_spec (EndLedger request) 0); cbn [negb]; lia.
Qed.

Lemma before_ledger en e : cursor_ok (en_cursor en) -> (Cmp (en_cursor en) (mkCursor e 0 0 0) <? 0) = (Ledger (en_cursor en) <? e).
Proof.
  intros [(H1 & H2 & H3) H4]. pose proof (Cmp_lt_iff (en_cursor en) (mkCursor e 0 0 0)) as H. simpl in H.
  unfold is_u32 in H4. zcases; try done; lia.
Qed.

(** The page of a request: the first entries of the range that the coarse
    condition and the filters admit. *)
Definition page_entries (request : GetEventsRequest) (rng : LedgerRange) (p : entry -> bool) (es : list entry) : list entry :=
  filter (fun en => accepted request en = true) (filter (fun en =>
    (Cmp (events_start request) (en_cursor en) <=? 0) && (Ledger (en_cursor en) <? events_endLedger request rng) && p en = true) es).

Lemma entry_info_id f en i : entry_info f en = Ok i -> Cursor_String (en_cursor en) = Ok (ei_ID i).
Proof.
  unfold entry_info, eventInfoForEvent. destruct (BodyV0 _) as [[topics data]|]; [|done].
  destruct (GetEventTypeFromEventTypeXDR _); [|done]. intros H. go_inv.
  destruct a0 as [[[? ?] ?] ?]. go_inv. done.
Qed.

(** The entries of a page are entries of the log. *)
Lemma page_sub request rng p es n en : en ∈ take n (page_entries request rng p es) -> en ∈ es.
Proof.
  intros (i & Hi & _)%elem_of_take. apply list_elem_of_lookup_2, list_elem_of_filter in Hi as [_ Hi].
  by apply list_elem_of_filter in Hi as [_ Hi].
Qed.

(** The cursor of a full page is its last entry's, that of another one the last
    position before [endLedger]. *)
Definition resume (endLedger limit : Z) (page : list entry) : Cursor :=
  match (if zlen page =? limit then last page else None) with
  | Some en => en_cursor en
  | None => mkCursor (endLedger - 1) TransactionMask OperationMask u32max
  end.

Lemma events_cursor_spec format info found endLedger limit : (forall en, en ∈ found -> entry_info format en = Ok (info en)) ->
  1 <= endLedger < 2147483648 -> 0 < limit ->
  exists cursor, events_cursor endLedger limit (info <$> found) = Ok cursor /\
    Cursor_String (resume endLedger limit found) = Ok cursor.
Proof.
  intros Hinfo Hend Hlim. unfold events_cursor, resume.
  assert (zlen (info <$> found) = zlen found) as -> by (unfold zlen; by rewrite length_fmap).
  destruct (Z.eqb_spec (zlen found) limit) as [E|E].
  - destruct (last found) as [en|] eqn:El; [|apply last_None in El; rewrite El in E; unfold zlen in E; simpl in E; lia].
    assert (go_index (info <$> found) (zlen found - 1) = Ok (info en)) as ->.
    { apply go_index_ok. split; [lia|]. rewrite list_lookup_fmap. rewrite last_lookup in El.
      replace (Z.to_nat (zlen found - 1)) with (Nat.pred (length found)) by (unfold zlen; lia). by rewrite El. }
    cbn [mbind go_bind]. eexists. split; [done|]. apply (entry_info_id format), Hinfo. by apply last_Some_elem_of.
  - rewrite u32_small by (unfold is_u32; lia). cbn [Tx Op Event MaxCursor].
    assert (cursor_ok (mkCursor (endLedger - 1) TransactionMask OperationMask u32max)) as Hmc.
    { split; simpl; [unfold toid_in_range; destruct toid_masks|unfold is_u32, u32max]; lia. }
    destruct (ParseCursor_String_ok _ Hmc) as (s & Hs & _). by exists s.
Qed.

Lemma getEvents_page h request w es rng info : events_pre h request w es rng info ->
  exists contractIDs topics,
    combineContractIDs (Filters request) = Ok contractIDs /\ combineTopics (Filters request) = Ok topics /\
    let found := take (Z.to_nat (events_limit h request))
      (page_entries request rng (coarse contractIDs topics (combineEventTypes (Filters request))) es) in
    exists cursor, getEvents h request w = (Ok (mkGetEventsResponse (info <$> found) cursor
        (Sequence (RLast rng)) (Sequence (RFirst rng)) (CloseTime (RLast rng)) (CloseTime (RFirst rng))), w) /\
      Cursor_String (resume (events_endLedger request rng) (events_limit h request) found) = Ok cursor.
Proof.
  intros [Hd Hidle Hk Hc Hrng Hled Hlog Hev Hinfo Hval Hm Hst Hin Hend Hlim].
  destruct (GetEventsRequest_Valid_filters _ _ Hval) as [_ HF].
  destruct (combineContractIDs_spec _ HF) as (cids & Hcids & Henc & _).
  destruct (combineTopics_ok _ HF Hm) as (topics & Htopics & Hcols).
  exists cids, topics. split; [done|]. split; [done|]. intros found.
  destruct (endLedger_bounds request rng Hled Hin Hend) as [_ Hbound].
  assert (view w = disk w) as Hv by (unfold view; by rewrite Hidle).
  assert (Forall (fun en => exists b, Matches request (en_event en) = Ok b) es) as HM.
  { eapply Forall_impl; [exact Hev|]. simpl. intros en Hok.
    destruct (Matches_spec request (maxLimit h) (en_event en) Hval Hok) as (b & Hb & _). eauto. }
  assert (cursor_ok (mkCursor (events_endLedger request rng) 0 0 0)) as Hendok.
  { split; simpl; [unfold toid_in_range; destruct toid_masks|unfold is_u32]; lia. }
  assert (scan (eventScanFunction request (events_limit h request))
    (filter (fun en => entry_selected (mkCursorRange (events_start request) (mkCursor (events_endLedger request rng) 0 0 0))
       cids topics (combineEventTypes (Filters request)) en = true) es) (Ok []) = Ok found) as Hscan.
  { rewrite scan_page; [|apply Forall_forall; intros en [_ Hen]%list_elem_of_filter; rewrite Forall_forall in HM; by apply HM|unfold zlen; simpl; lia]. simpl. subst found. unfold page_entries.
    replace (events_limit h request - zlen (@nil entry)) with (events_limit h request) by (unfold zlen; simpl; lia).
    do 3 f_equal. apply list_filter_iff_in. intros en Hen.
    destruct Hlog as [Hok _]. rewrite Forall_forall in Hok. destruct (Hok _ Hen) as [Hcok _].
    unfold entry_selected, coarse. cbn [Start End]. rewrite (before_ledger en) by done. rewrite !andb_true_iff. tauto. }
  assert (forall en, en ∈ found -> en ∈ es) as Hsub by (intros en; apply page_sub).
  assert (mapM (entry_info (Format request)) found = Ok (info <$> found)) as Hmap.
  { apply go_mapM_pure. intros en Hen. by apply Hinfo, Hsub. }
  destruct (events_cursor_spec (Format request) info found (events_endLedger request rng) (events_limit h request))
    as (cursor & Hcur & Hcs); [|lia|lia|].
  { intros en Hen. by apply Hinfo, Hsub. }
  exists cursor. split; [|done]. unfold getEvents, mbind, st_bind, lift. rewrite Hval. cbn [check rpc on_err].
  unfold wrap_err. rewrite (GetLedgerRange_spec w Hd Hk Hidle Hc), Hrng. cbn [on_err get_st].
  f_equal. unfold getEvents_in. destruct (Z.ltb_spec (Ledger (events_start request)) (Sequence (RFirst rng))); [lia|].
  destruct (Z.ltb_spec (Sequence (RLast rng)) (Ledger (events_start request))); [lia|]. cbn [orb].
  rewrite Hcids, Htopics. cbn [rpc on_err mbind go_bind].
  rewrite (GetEvents_spec w es); [|done|by rewrite Hv|done|done|done|done].
  rewrite Hscan. cbn [rpc on_err mbind go_bind]. rewrite Hmap. cbn [on_err mbind go_bind]. by rewrite Hcur.
Qed.

Lemma accepted_iff request m en : GetEventsRequest_Valid request m = None -> event_ok (Event_of (en_event en)) ->
  accepted request en = true <-> request_accepts (Filters request) (Event_of (en_event en)).
Proof.
  intros Hv He. destruct (Matches_spec request m (en_event en) Hv He) as (b & Hb & Hiff).
  unfold accepted. by rewrite Hb.
Qed.

(** For uniform filters the page's entries are the selection. *)
Lemma page_selection h request w es rng info cids topics : events_pre h request w es rng info ->
  uniform (Filters request) -> combineContractIDs (Filters request) = Ok cids -> combineTopics (Filters request) = Ok topics ->
  selection es (Filters request) (events_start request) (events_endLedger request rng)
    (page_entries request rng (coarse cids topics (combineEventTypes (Filters request))) es).
Proof.
  intros [Hd Hidle Hk Hc Hrng Hled Hlog Hev Hinfo Hval Hm Hst Hin Hend Hlim] Hu Hci Hto.
  destruct (GetEventsRequest_Valid_filters _ _ Hval) as [_ HF]. split.
  - apply StronglySorted_filter_any, StronglySorted_filter_any. by eapply event_log_sorted.
  - intros en. unfold page_entries. rewrite !list_elem_of_filter, !andb_true_iff, Z.leb_le, Z.ltb_lt.
    rewrite Forall_forall in Hev. split.
    + intros (Ha & (([Hs He] & _) & Hen)). split_and!; try done. by eapply accepted_iff; eauto.
    + intros (Hen & Hs & He & Ha). split; [by eapply accepted_iff; eauto|]. split_and!; try done.
      apply (coarse_complete (Filters request)); try done.
      destruct Hlog as [_ H2]. apply list_elem_of_lookup in Hen as [i Hi].
      destruct (Forall2_lookup_l _ _ _ _ _ H2 Hi) as (kr & _ & Hkr). eauto.
Qed.

Lemma cursor_lt_irrefl a : ~ cursor_lt a a.
Proof. unfold cursor_lt. rewrite Cmp_refl. lia. Qed.
Lemma cursor_lt_trans a b c : cursor_lt a b -> cursor_lt b c -> cursor_lt a c.
Proof. unfold cursor_lt. intros H1 H2. eapply Cmp_lt_le_trans; [exact H1|]. lia. Qed.

(** C7: With uniform filters, getEvents returns exactly the events the filters
    accept in the scanned range (from the start position, over at most 10000
    ledgers and up to the newest stored one), in order, up to the limit.  Its
    cursor is the last event's when the page is full, and the last position of the
    range otherwise; the response names the stored range of ledgers. *)
Theorem getEvents_complete h request w es rng info : events_pre h request w es rng info ->
  uniform (Filters request) ->
  exists sel cursor,
    selection es (Filters request) (events_start request) (events_endLedger request rng) sel /\
    let page := take (Z.to_nat (events_limit h request)) sel in
    Cursor_String (resume (events_endLedger request rng) (events_limit h request) page) = Ok cursor /\
    getEvents h request w = (Ok (mkGetEventsResponse (info <$> page) cursor
      (Sequence (RLast rng)) (Sequence (RFirst rng)) (CloseTime (RLast rng)) (CloseTime (RFirst rng))), w).
Proof.
  intros Hpre Hu. destruct (getEvents_page h request w es rng info Hpre) as (cids & topics & Hc & Ht & cursor & Hrun & Hcur).
  eexists _, cursor. split; [|by split; [exact Hcur|exact Hrun]]. by eapply page_selection.
Qed.

(** The request for the page after the cursor [c]. *)
Definition next_request (request : GetEventsRequest) (c : Cursor) (limit : Z) : GetEventsRequest :=
  mkGetEvents 0 (EndLedger request) (Filters request) (Some (mkPagination (Some c) limit)) (Format request).

(** The position after a page separates its entries from the later ones. *)
Lemma page_boundary h request es rng sel c x :
  selection es (Filters request) (events_start request) (events_endLedger request rng) sel ->
  let page := take (Z.to_nat (events_limit h request)) sel in
  Cursor_String c = Cursor_String (resume (events_endLedger request rng) (events_limit h request) page) ->
  0 < events_limit h request -> cursor_ok c -> 1 <= events_endLedger request rng < 2147483648 ->
  Forall (fun en => entry_ok en /\ Op (en_cursor en) < OperationMask /\ Event (en_cursor en) < u32max) es ->
  x ∈ es -> Cmp (events_start request) (en_cursor x) <= 0 -> request_accepts (Filters request) (Event_of (en_event x)) ->
  (x ∈ page <-> Cmp (en_cursor x) (events_start (next_request request c (events_limit h request))) < 0).
Proof.
  intros [Hs Hsel] page Hcur Hlim Hok He HF Hx Hsx Hax. unfold resume in Hcur.
  rewrite Forall_forall in HF. destruct (HF x Hx) as ((((HL & HT & HO) & HE) & _) & Hop & Hev).
  assert (Forall entry_ok sel) as Hselok.
  { apply Forall_forall. intros y Hy. apply Hsel in Hy as (Hy & _). by apply HF. }
  unfold events_start, next_request. cbn [Pagination PCursor].
  assert (forall d, cursor_ok d -> Cursor_String c = Cursor_String d -> c = d) as Hinj.
  { intros d Hd E. destruct (ParseCursor_String_ok _ Hok) as (s & Hs1 & Hp1).
    destruct (ParseCursor_String_ok _ Hd) as (s' & Hs2 & Hp2). congruence. }
  destruct (Z.eqb_spec (zlen page) (events_limit h request)) as [E|E].
  - destruct (last page) as [y|] eqn:El; [|apply last_None in El; rewrite El in E; unfold zlen in E; simpl in E; lia].
    assert (y ∈ sel) as Hy.
    { apply last_Some_elem_of in El. unfold page in El. apply elem_of_take in El as (i & Hi & _). by eapply list_elem_of_lookup_2. }
    pose proof Hy as Hy'. apply Hsel in Hy' as (Hyes & _ & Hye & _). destruct (HF y Hyes) as ((Hyc & _) & _ & Hyev).
    rewrite (Hinj (en_cursor y) Hyc Hcur). rewrite u32_small by (destruct Hyc as [_ Hu]; unfold is_u32, u32max in *; lia).
    assert (Cmp (en_cursor x) (mkCursor (Ledger (en_cursor y)) (Tx (en_cursor y)) (Op (en_cursor y)) (Event (en_cursor y) + 1)) < 0
      <-> ~ cursor_lt y x) as ->.
    { unfold cursor_lt. rewrite !Cmp_lt_iff. simpl. lia. }
    destruct (decide (Ledger (en_cursor x) < events_endLedger request rng)) as [Hl|Hl].
    + apply (sorted_take_iff cursor_lt sel); try done; [by apply Hsel|apply cursor_lt_irrefl|apply cursor_lt_trans].
    + split.
      * intros Hp. exfalso. unfold page in Hp. apply elem_of_take in Hp as (i & Hi & _).
        apply list_elem_of_lookup_2, Hsel in Hi as (_ & _ & Hi & _). by apply Hl.
      * intros Hn. exfalso. apply Hn. unfold cursor_lt. rewrite Cmp_lt_iff. lia.
  - assert (page = sel) as Hps.
    { unfold page. apply take_ge. unfold page, zlen in E. rewrite length_take in E. lia. }
    assert (cursor_ok (mkCursor (events_endLedger request rng - 1) TransactionMask OperationMask u32max)) as Hmc.
    { split; simpl; [unfold toid_in_range; destruct toid_masks|unfold is_u32, u32max]; lia. }
    rewrite (Hinj _ Hmc Hcur). cbn [Ledger Tx Op Event]. rewrite Cmp_lt_iff. cbn [Ledger Tx Op Event].
    rewrite Hps, Hsel. split; [intros (_ & _ & ? & _); lia|]. intros Hlt. split_and!; try done. lia.
Qed.

Lemma endLedger_mono request c n rng : 0 <= Sequence (RFirst rng) /\ Sequence (RLast rng) < 2147483647 -> 0 <= EndLedger request ->
  Sequence (RFirst rng) <= Ledger (events_start request) <= Sequence (RLast rng) ->
  Sequence (RFirst rng) <= Ledger c <= Sequence (RLast rng) ->
  Ledger (events_start request) <= Ledger c ->
  events_endLedger request rng <= events_endLedger (next_request request c n) rng.
Proof.
  intros H1 H2 H3 H4 H5. destruct (endLedger_bounds request rng H1 H3 H2) as [-> _].
  destruct (endLedger_bounds (next_request request c n) rng H1 H4 H2) as [-> _].
  cbn [next_request events_start Pagination PCursor EndLedger Ledger] in *. lia.
Qed.

(** The selection from the first start to the second end is the first page
    followed by the second selection. *)
Lemma pages_selection h request es rng sel sel2 c n :
  selection es (Filters request) (events_start request) (events_endLedger request rng) sel ->
  selection es (Filters request) (events_start (next_request request c n)) (events_endLedger (next_request request c n) rng) sel2 ->
  let page := take (Z.to_nat (events_limit h request)) sel in
  (forall x, x ∈ es -> Cmp (events_start request) (en_cursor x) <= 0 -> request_accepts (Filters request) (Event_of (en_event x)) ->
    (x ∈ page <-> Cmp (en_cursor x) (events_start (next_request request c n)) < 0)) ->
  Cmp (events_start request) (events_start (next_request request c n)) <= 0 ->
  events_endLedger request rng <= events_endLedger (next_request request c n) rng ->
  selection es (Filters request) (events_start request) (events_endLedger (next_request request c n) rng) (page ++ sel2).
Proof.
  intros [Hs1 Hsel1] [Hs2 Hsel2] page Hb Hst Hend.
  assert (forall x, x ∈ page -> x ∈ sel) as Hsub.
  { intros x Hx. unfold page in Hx. apply elem_of_take in Hx as (i & Hi & _). by eapply list_elem_of_lookup_2. }
  assert (forall x, x ∈ page -> Cmp (en_cursor x) (events_start (next_request request c n)) < 0) as Hbefore.
  { intros x Hx. pose proof (Hsub x Hx) as Hx'. apply Hsel1 in Hx' as (? & ? & ? & ?). by apply Hb. }
  split.
  - assert (StronglySorted cursor_lt page) as Hsp.
    { unfold page. rewrite <- (take_drop (Z.to_nat (events_limit h request)) sel) in Hs1. clear -Hs1.
      induction (take _ sel) as [|z k IH]; [constructor|]. inversion Hs1 as [|? ? Hk Hz]; subst.
      constructor; [by apply IH|]. by apply Forall_app in Hz as [Hz _]. }
    clear -Hsp Hs2 Hbefore Hsel2. induction Hsp as [|z k Hk IH Hz]; [done|]. simpl. constructor.
    + apply IH. intros x Hx. apply Hbefore. by right.
    + apply Forall_app. split; [done|]. apply Forall_forall. intros y Hy. apply Hsel2 in Hy as (_ & Hy & _).
      unfold cursor_lt. eapply Cmp_lt_le_trans; [|exact Hy]. apply Hbefore. by left.
  - intros x. rewrite elem_of_app, Hsel2. split.
    + intros [Hx|(Hx & Hc & Hl & Ha)].
      * apply Hsub, Hsel1 in Hx as (? & ? & ? & ?). split_and!; try done. lia.
      * split_and!; try done. by eapply Cmp_le_trans.
    + intros (Hx & Hc & Hl & Ha).
      destruct (Z.ltb_spec (Cmp (en_cursor x) (events_start (next_request request c n))) 0) as [Hlt|Hge].
      * left. by apply Hb.
      * right. split_and!; try done. apply Cmp_le_iff. lia.
Qed.

Lemma next_valid_no_end request c n m : GetEventsRequest_Valid (next_request request c n) m = None -> EndLedger request = 0.
Proof.
  unfold GetEventsRequest_Valid, next_request. cbn [Format Filters EndLedger StartLedger].
  destruct (IsValidFormat _); [done|]. unfold has_cursor. cbn [Pagination PCursor]. cbn beta iota zeta.
  destruct (Z.eqb_spec (EndLedger request) 0); [done|]. cbn. done.
Qed.

Lemma next_start_after h request es rng sel c n :
  selection es (Filters request) (events_start request) (events_endLedger request rng) sel ->
  let page := take (Z.to_nat (events_limit h request)) sel in
  Cursor_String c = Cursor_String (resume (events_endLedger request rng) (events_limit h request) page) ->
  0 < events_limit h request -> cursor_ok c -> cursor_ok (events_start request) ->
  Ledger (events_start request) < events_endLedger request rng < 2147483648 ->
  Forall (fun en => entry_ok en /\ Op (en_cursor en) < OperationMask /\ Event (en_cursor en) < u32max) es ->
  Op (events_start request) < OperationMask \/ Event (events_start request) = 0 ->
  Cmp (events_start request) (events_start (next_request request c n)) <= 0.
Proof.
  intros [Hs Hsel] page Hcur Hlim Hok Hst He HF Hop. unfold resume in Hcur. rewrite Forall_forall in HF.
  assert (forall d, cursor_ok d -> Cursor_String c = Cursor_String d -> c = d) as Hinj.
  { intros d Hd E. destruct (ParseCursor_String_ok _ Hok) as (s & Hs1 & Hp1).
    destruct (ParseCursor_String_ok _ Hd) as (s' & Hs2 & Hp2). congruence. }
  change (events_start (next_request request c n)) with (mkCursor (Ledger c) (Tx c) (Op c) (u32 (Event c + 1))).
  destruct (Z.eqb_spec (zlen page) (events_limit h request)) as [E|E].
  - destruct (last page) as [y|] eqn:El; [|apply last_None in El; rewrite El in E; unfold zlen in E; simpl in E; lia].
    assert (y ∈ sel) as Hy.
    { apply last_Some_elem_of in El. unfold page in El. apply elem_of_take in El as (i & Hi & _). by eapply list_elem_of_lookup_2. }
    apply Hsel in Hy as (Hyes & Hys & Hye & _). destruct (HF y Hyes) as ((Hyc & _) & _ & Hyev).
    rewrite (Hinj (en_cursor y) Hyc Hcur). destruct Hyc as [_ Hu]. unfold is_u32, u32max in *.
    rewrite u32_small by (unfold is_u32; lia). rewrite Cmp_le_iff, Cmp_lt_iff in *. simpl. lia.
  - destruct Hst as [(HL & HT & HO) HE]. unfold is_u32 in HE.
    assert (cursor_ok (mkCursor (events_endLedger request rng - 1) TransactionMask OperationMask u32max)) as Hmc.
    { split; simpl; [unfold toid_in_range; destruct toid_masks|unfold is_u32, u32max]; lia. }
    rewrite (Hinj _ Hmc Hcur). cbn [Ledger Tx Op Event]. change (u32 (u32max + 1)) with 0.
    rewrite Cmp_le_iff, Cmp_lt_iff. simpl. lia.
Qed.

(** The same request for another number of events. *)
Definition with_limit (request : GetEventsRequest) (limit : Z) : GetEventsRequest :=
  mkGetEvents (StartLedger request) (EndLedger request) (Filters request)
    (Some (mkPagination (p ← Pagination request; PCursor p) limit)) (Format request).
Lemma with_limit_start request limit : events_start (with_limit request limit) = events_start request.
Proof. unfold events_start. cbn. by destruct (Pagination request) as [[[c|] l]|]. Qed.

Lemma selection_unique es fs start endLedger sel sel' : selection es fs start endLedger sel ->
  selection es fs start endLedger sel' -> sel = sel'.
Proof.
  intros [Hs1 H1] [Hs2 H2].
  assert (forall l, StronglySorted cursor_lt l -> NoDup l) as Hnd.
  { intros l. induction 1 as [|x l _ IH Hx]; constructor; [|done]. intros Hin. rewrite Forall_forall in Hx. exact (cursor_lt_irrefl x (Hx x Hin)). }
  apply (StronglySorted_unique_strong cursor_lt); try done.
  - intros a b _ _ Ha Hb. destruct (cursor_lt_irrefl a). by eapply cursor_lt_trans.
  - apply NoDup_Permutation; [by apply Hnd..|]. intros x. by rewrite H1, H2.
Qed.

(** C8: Paging loses and repeats nothing.  With uniform filters, the events of a
    page followed by those of the page requested with the cursor it returned are
    the first ones of a single selection, from the first page's start to the end of
    the second one's window, whether the first page was full or ended at its own
    window.  When both windows end at the same ledger, a single request for as many
    events returns exactly the two pages. *)
Theorem getEvents_pages h request w es rng info c n resp1 resp2 :
  events_pre h request w es rng info -> events_pre h (next_request request c n) w es rng info ->
  uniform (Filters request) ->
  Forall (fun en => Op (en_cursor en) < OperationMask /\ Event (en_cursor en) < u32max) es ->
  Op (events_start request) < OperationMask \/ Event (events_start request) = 0 ->
  getEvents h request w = (Ok resp1, w) ->
  cursor_ok c -> Cursor_String c = Ok (er_Cursor resp1) ->
  getEvents h (next_request request c n) w = (Ok resp2, w) ->
  let limit2 := events_limit h (next_request request c n) in
  (exists sel,
    selection es (Filters request) (events_start request) (events_endLedger (next_request request c n) rng) sel /\
    er_Events resp1 ++ er_Events resp2 = info <$> take (length (er_Events resp1) + Z.to_nat limit2) sel) /\
  (events_endLedger (next_request request c n) rng = events_endLedger request rng ->
   let request' := with_limit request (zlen (er_Events resp1) + limit2) in
   events_pre h request' w es rng info ->
   exists resp, getEvents h request' w = (Ok resp, w) /\ er_Events resp = er_Events resp1 ++ er_Events resp2).
Proof.
  intros Hpre1 Hpre2 Hu HF Hop Hr1 Hc Hcur Hr2 limit2.
  destruct (getEvents_page h request w es rng info Hpre1) as (cids & topics & Hci & Hto & cursor & Hrun & Hcs).
  rewrite Hr1 in Hrun. injection Hrun as ->. cbn [er_Cursor er_Events] in *. rewrite <- Hcur in Hcs. symmetry in Hcs.
  pose proof (page_selection h request w es rng info cids topics Hpre1 Hu Hci Hto) as Hsel1.
  destruct (getEvents_page h (next_request request c n) w es rng info Hpre2) as (cids2 & topics2 & Hci2 & Hto2 & cursor2 & Hrun2 & _).
  pose proof (page_selection h _ w es rng info cids2 topics2 Hpre2 Hu Hci2 Hto2) as Hsel2.
  rewrite Hr2 in Hrun2. injection Hrun2 as ->. cbn [er_Events].
  pose proof Hpre1 as [_ _ _ _ _ Hled [Hlog _] _ _ _ _ Hst Hin Hend Hlim].
  pose proof Hpre2 as [_ _ _ _ _ _ _ _ _ Hval2 _ _ Hin2 _ Hlim2]. apply next_valid_no_end in Hval2.
  destruct (endLedger_bounds request rng Hled Hin Hend) as [Heq Hbound].
  assert (Ledger (events_start request) < events_endLedger request rng) as Hlt by (rewrite Heq, Hval2; simpl; lia).
  assert (Forall (fun en => entry_ok en /\ Op (en_cursor en) < OperationMask /\ Event (en_cursor en) < u32max) es) as HF'.
  { apply Forall_forall. intros en Hen. rewrite Forall_forall in Hlog, HF. split; [by apply Hlog|by apply HF]. }
  set (sel := page_entries request _ _ _) in *. set (sel2 := page_entries (next_request request c n) _ _ _) in *.
  pose proof (next_start_after h request es rng sel c n Hsel1 Hcs Hlim Hc Hst ltac:(lia) HF' Hop) as Hnext.
  assert (selection es (Filters request) (events_start request) (events_endLedger (next_request request c n) rng)
    (take (Z.to_nat (events_limit h request)) sel ++ sel2)) as Hsel.
  { eapply pages_selection; [exact Hsel1|exact Hsel2| |exact Hnext|].
    + intros x Hx Hsx Hax. exact (page_boundary h request es rng sel c x Hsel1 Hcs Hlim Hc Hbound HF' Hx Hsx Hax).
    + apply endLedger_mono; try done. apply Cmp_ledger_le in Hnext. exact Hnext. }
  assert ((info <$> take (Z.to_nat (events_limit h request)) sel) ++ (info <$> take (Z.to_nat limit2) sel2) =
    info <$> take (length (take (Z.to_nat (events_limit h request)) sel) + Z.to_nat limit2)
      (take (Z.to_nat (events_limit h request)) sel ++ sel2)) as Happ.
  { rewrite <- fmap_app. f_equal. by rewrite take_app_add. }
  split; [eexists; split; [exact Hsel|]; rewrite length_fmap; exact Happ|]. intros Hends Hpre3.
  set (request' := with_limit request _) in *.
  destruct (getEvents_page h request' w es rng info Hpre3) as (cids3 & topics3 & Hci3 & Hto3 & cursor3 & Hrun3 & _).
  eexists. split; [exact Hrun3|]. cbn [er_Events].
  pose proof (page_selection h _ w es rng info cids3 topics3 Hpre3 Hu Hci3 Hto3) as Hsel3.
  assert (events_endLedger request' rng = events_endLedger (next_request request c n) rng) as Eend.
  { rewrite Hends. unfold events_endLedger, request'. by rewrite with_limit_start. }
  set (sel3 := page_entries request' _ _ _) in *. rewrite Eend in Hsel3.
  change (Filters request') with (Filters request) in Hsel3. unfold request' in Hsel3. rewrite with_limit_start in Hsel3. fold request' in Hsel3.
  rewrite (selection_unique _ _ _ _ _ _ Hsel3 Hsel). etrans; [|symmetry; exact Happ]. f_equal. f_equal.
  unfold request', events_limit at 1. cbn [with_limit Pagination PLimit]. unfold zlen. rewrite length_fmap.
  fold limit2 in Hlim2. destruct (Z.ltb_spec 0 (Z.of_nat (length (take (Z.to_nat (events_limit h request)) sel)) + limit2)); lia.
Qed.

Lemma sorted_same_cursor es x y : StronglySorted cursor_lt es -> x ∈ es -> y ∈ es -> en_cursor x = en_cursor y -> x = y.
Proof.
  intros Hs Hx Hy E. assert (~ cursor_lt x y /\ ~ cursor_lt y x) as [H1 H2].
  { unfold cursor_lt. rewrite E. split; apply (cursor_lt_irrefl y). }
  induction Hs as [|z l _ IH Hz]; [by apply not_elem_of_nil in Hx|]. rewrite Forall_forall in Hz.
  apply elem_of_cons in Hx as [->|Hx], Hy as [->|Hy]; [done|by destruct H1; auto|by destruct H2; auto|by apply IH].
Qed.

(** C34: An event of the log that the conjunction of the columns excludes is in no
    page of the request, whatever its limit and start, although one of the filters
    may accept it; the filters are then not uniform.  So filters of which one
    restricts the contract IDs (or the event types, or a topic) and another does
    not lose the events that only the other accepts. *)
Theorem getEvents_drops_accepted_events h request w es rng info en : events_pre h request w es rng info ->
  en ∈ es -> excluded (Filters request) en ->
  (exists resp, getEvents h request w = (Ok resp, w) /\ ei_ID (info en) ∉ ei_ID <$> er_Events resp) /\
  (request_accepts (Filters request) (Event_of (en_event en)) -> ~ uniform (Filters request)).
Proof.
  intros Hpre Hen Hex. destruct (getEvents_page h request w es rng info Hpre) as (cids & topics & Hci & Hto & cursor & Hrun & _).
  pose proof Hpre as [_ _ _ _ _ _ Hlog _ Hinfo Hval Hm _ _ _ _]. destruct (GetEventsRequest_Valid_filters _ _ Hval) as [_ HF].
  pose proof (excluded_coarse _ cids topics en HF Hm Hci Hto Hex) as Hco. split.
  - eexists. split; [exact Hrun|]. cbn [er_Events]. rewrite <- list_fmap_compose. intros (x & Hid & Hx)%list_elem_of_fmap. cbn in Hid.
    pose proof (page_sub _ _ _ _ _ _ Hx) as Hxes. pose proof (proj1 Hlog) as Hok. rewrite Forall_forall in Hok.
    pose proof (entry_info_id _ _ _ (Hinfo en Hen)) as E1. pose proof (entry_info_id _ _ _ (Hinfo x Hxes)) as E2.
    destruct (ParseCursor_String_ok _ (proj1 (Hok en Hen))) as (s1 & Es1 & Ep1). destruct (ParseCursor_String_ok _ (proj1 (Hok x Hxes))) as (s2 & Es2 & Ep2).
    assert (x = en) as ->.
    { apply (sorted_same_cursor es); [by eapply event_log_sorted|done..|]. congruence. }
    apply elem_of_take in Hx as (i & Hi & _). apply list_elem_of_lookup_2 in Hi. unfold page_entries in Hi.
    rewrite !list_elem_of_filter, !andb_true_iff in Hi. destruct Hi as (_ & (_ & Hi) & _). congruence.
  - intros Hacc Hu. destruct Hlog as [_ H2]. apply list_elem_of_lookup in Hen as [i Hi].
    destruct (Forall2_lookup_l _ _ _ _ _ H2 Hi) as (kr & _ & Hkr).
    rewrite (coarse_complete (Filters request) cids topics en HF Hm Hu Hci Hto) in Hco; [done|by eauto|done].
Qed.
End Handler.

(** ** Concrete runs *)

Definition sample_handler : eventsRPCHandler := mkEventsRPCHandler 100 10.
Definition sample_log : list (@entry toy_scvals) :=
  concat (ledger_log (passphrase := "net") <$> [sample_ledger 7; sample_ledger 8; sample_ledger 9]).
Definition sample_range : LedgerRange := mkRange (mkInfo 7 35) (mkInfo 9 45).
Definition no_info : EventInfo := mkEventInfo "" 0 "" "" "" 0 0 false "" [] [] "" "".
Definition sample_info (en : @entry toy_scvals) : EventInfo :=
  match entry_info "" en with Ok i => i | _ => no_info end.

Definition segment (v : string) : @SegmentFilter toy_scvals := mkSegment None (Some v).
(** Events whose only topic is [v]. *)
Definition topic_filter (v : string) : @EventFilter toy_scvals := mkFilter ∅ [] [[segment v]].
Definition sample_request (fs : list (@EventFilter toy_scvals)) (limit : Z) : GetEventsRequest :=
  mkGetEvents 7 0 fs (Some (mkPagination None limit)) "".

Lemma sample_events_pre (request : @GetEventsRequest toy_scvals) :
  Format request = ""%string -> GetEventsRequest_Valid request 100 = None ->
  filters_marshal (Filters request) -> cursor_ok (T := sep35) (events_start request) ->
  7 <= Ledger (events_start request) <= 9 -> EndLedger request = 0 ->
  events_pre sample_handler request sample_indexed sample_log sample_range sample_info.
Proof.
  intros Hf Hv Hm Hs Hin He. destruct sample_indexed_ok as ([Hk Hl _ Hlog] & Hi & Hc). constructor.
  - intros n. reflexivity.
  - exact Hi.
  - exact Hk.
  - exact Hc.
  - unfold range_of. by rewrite Hl.
  - simpl. lia.
  - exact Hlog.
  - assert (forallb (fun en => match ContractId (Event_of (en_event en)) with None => true | _ => false end)
      sample_log = true) as Hall by (vm_compute; reflexivity).
    apply forallb_Forall in Hall. eapply Forall_impl; [exact Hall|]. cbn beta. intros en H. unfold event_ok.
    by destruct (ContractId _).
  - assert (forallb (fun en => is_ok (entry_info "" en)) sample_log = true) as Hall by (vm_compute; reflexivity).
    apply forallb_Forall in Hall. rewrite Hf. intros en Hen. rewrite Forall_forall in Hall. specialize (Hall en Hen).
    unfold sample_info. by destruct (entry_info "" en).
  - exact Hv.
  - exact Hm.
  - exact Hs.
  - exact Hin.
  - by rewrite He.
  - unfold events_limit, sample_handler. destruct (Pagination request) as [p|]; [|done].
    destruct (Z.ltb_spec 0 (PLimit p)); [done|]. done.
Qed.

Lemma sample_marshal fs : filters_marshal (V := toy_scvals) fs.
Proof. intros f t s v _ _ _ _. by exists v. Qed.

Lemma sample_uniform v : uniform [topic_filter v].
Proof.
  constructor.
  - left. intros f ->%list_elem_of_singleton. done.
  - left. intros f ->%list_elem_of_singleton. done.
  - right. right. intros f t ->%list_elem_of_singleton ->%list_elem_of_singleton.
    exists 0%nat, v, (segment v), v. done.
Qed.

Lemma getEvents_complete_witness : exists sel cursor,
  selection sample_log [topic_filter "transfer"] (mkCursor 7 0 0 0) 10 sel /\
  Cursor_String (resume 10 2 (take 2 sel)) = Ok cursor /\
  getEvents sample_handler (sample_request [topic_filter "transfer"] 2) sample_indexed =
    (Ok (mkGetEventsResponse (sample_info <$> take 2 sel) cursor 9 7 45 35), sample_indexed).
Proof.
  apply (getEvents_complete (passphrase := "net") sample_handler (sample_request [topic_filter "transfer"] 2)
           sample_indexed sample_log sample_range sample_info).
  - apply sample_events_pre; [reflexivity|vm_compute; reflexivity|apply sample_marshal| |simpl; lia|reflexivity].
    split; [split_and!; simpl; lia|split; simpl; lia].
  - apply sample_uniform.
Defined.

Definition sample_response (request : @GetEventsRequest toy_scvals) : GetEventsResponse :=
  match (getEvents sample_handler request sample_indexed).1 with
  | Ok r => r | _ => mkGetEventsResponse [] "" 0 0 0 0 end.
Lemma sample_response_ok (request : @GetEventsRequest toy_scvals) :
  events_pre sample_handler request sample_indexed sample_log sample_range sample_info ->
  getEvents sample_handler request sample_indexed = (Ok (sample_response request), sample_indexed).
Proof.
  intros Hpre. destruct (getEvents_page sample_handler request _ _ _ _ Hpre (passphrase := "net")) as (? & ? & ? & ? & c & R & _).
  unfold sample_response. by rewrite R.
Qed.

Lemma sample_from_start (request : @GetEventsRequest toy_scvals) : Format request = ""%string -> GetEventsRequest_Valid request 100 = None ->
  events_start request = mkCursor 7 0 0 0 \/ events_start request = mkCursor 8 1 0 1 -> EndLedger request = 0 ->
  events_pre sample_handler request sample_indexed sample_log sample_range sample_info.
Proof.
  intros Hf Hv Hs He. apply sample_events_pre; [done|done|apply sample_marshal|..|done];
    destruct Hs as [-> | ->]; repeat split; vm_compute; (discriminate || reflexivity).
Qed.

Lemma getEvents_pages_witness :
  let request := sample_request [topic_filter "transfer"] 2 in
  let request2 := next_request request (mkCursor 8 1 0 0) 2 in
  (exists sel, selection sample_log [topic_filter "transfer"] (mkCursor 7 0 0 0) 10 sel /\
    er_Events (sample_response request) ++ er_Events (sample_response request2) = sample_info <$> take 4 sel) /\
  exists resp, getEvents sample_handler (sample_request [topic_filter "transfer"] 4) sample_indexed = (Ok resp, sample_indexed) /\
    er_Events resp = er_Events (sample_response request) ++ er_Events (sample_response request2).
Proof.
  intros request request2.
  assert (events_pre sample_handler request sample_indexed sample_log sample_range sample_info) as Hpre1.
  { apply sample_from_start; [reflexivity|vm_compute; reflexivity|by left|reflexivity]. }
  assert (events_pre sample_handler request2 sample_indexed sample_log sample_range sample_info) as Hpre2.
  { apply sample_from_start; [reflexivity|vm_compute; reflexivity|by right|reflexivity]. }
  assert (length (er_Events (sample_response request)) = 2%nat) as Hlen by (vm_compute; reflexivity).
  destruct (getEvents_pages (passphrase := "net") sample_handler request sample_indexed sample_log sample_range
    sample_info (mkCursor 8 1 0 0) 2 (sample_response request) (sample_response request2)) as [(sel & Hsel & Happ) Hone].
  - exact Hpre1.
  - exact Hpre2.
  - apply sample_uniform.
  - apply (bool_decide_unpack _). vm_compute. exact I.
  - left. simpl. lia.
  - by apply sample_response_ok.
  - repeat split; vm_compute; (discriminate || reflexivity).
  - vm_compute. reflexivity.
  - by apply sample_response_ok.
  - split; [exists sel; split; [exact Hsel|]; rewrite Happ, Hlen; reflexivity|].
    unfold zlen in Hone. rewrite Hlen in Hone. apply Hone; [reflexivity|].
    apply sample_from_start; [reflexivity|vm_compute; reflexivity|by left|reflexivity].
Defined.

(** The second event of ledger 7, "mint", of no contract: a filter on contract
    events accepts it. *)
Definition sample_lost : @entry toy_scvals :=
  nth 1 sample_log (mkEntry (mkCursor 0 0 0 0) (mkDiagnosticEvent true (sample_event "" "")) 0 "").
Definition any_contract_event : @EventFilter toy_scvals := mkFilter {["contract"%string]} [] [[mkSegment (Some "*"%string) None]].
Definition some_contract : string := "C12345678901234567890123456789012".

Definition sample_topics : list (@EventFilter toy_scvals) := [topic_filter "transfer"; any_contract_event].
Definition sample_contracts : list (@EventFilter toy_scvals) := [mkFilter ∅ [some_contract] []; any_contract_event].

Lemma sample_topic_excluded : excluded sample_topics sample_lost.
Proof.
  apply (excluded_topic _ _ (topic_filter "transfer") [segment "transfer"] 0 "transfer").
  - intros f [-> |[-> |[]%not_elem_of_nil]%elem_of_cons]%elem_of_cons; discriminate.
  - left.
  - left.
  - exists (segment "transfer"), "transfer"%string. done.
  - intros f t j b [-> |[-> |[]%not_elem_of_nil]%elem_of_cons]%elem_of_cons ->%list_elem_of_singleton (s & v & Hj & Hw & Hv & Hb);
      destruct j as [|j]; try discriminate Hj; injection Hj as <-; [|discriminate Hw].
    injection Hv as <-. injection Hb as <-. vm_compute. discriminate.
Qed.
Lemma sample_contract_excluded : excluded sample_contracts sample_lost.
Proof. eapply excluded_contract; [left|discriminate|]. intros f s id _ _ _. vm_compute. discriminate. Qed.

(** It is lost when another filter asks for a topic, and when one asks for a
    contract. *)
Lemma getEvents_drops_accepted_events_witness :
  (Matches (sample_request sample_topics 10) (en_event sample_lost) = Ok true /\
   exists resp, getEvents sample_handler (sample_request sample_topics 10) sample_indexed = (Ok resp, sample_indexed) /\
     ei_ID (sample_info sample_lost) ∉ ei_ID <$> er_Events resp) /\
  (Matches (sample_request sample_contracts 10) (en_event sample_lost) = Ok true /\
   exists resp, getEvents sample_handler (sample_request sample_contracts 10) sample_indexed = (Ok resp, sample_indexed) /\
     ei_ID (sample_info sample_lost) ∉ ei_ID <$> er_Events resp).
Proof.
  assert (sample_lost ∈ sample_log) as Hin by (apply list_elem_of_lookup; exists 1%nat; vm_compute; reflexivity).
  split; (split; [vm_compute; reflexivity|]).
  - apply (getEvents_drops_accepted_events (passphrase := "net") sample_handler (sample_request sample_topics 10) sample_indexed sample_log sample_range
      sample_info sample_lost); [|exact Hin|apply sample_topic_excluded].
    apply sample_from_start; [reflexivity|vm_compute; reflexivity|by left|reflexivity].
  - apply (getEvents_drops_accepted_events (passphrase := "net") sample_handler (sample_request sample_contracts 10) sample_indexed sample_log sample_range
      sample_info sample_lost); [|exact Hin|apply sample_contract_excluded].
    apply sample_from_start; [reflexivity|vm_compute; reflexivity|by left|reflexivity].
Defined.
