(* ===== verification/GetTransactions.v ===== *)
(** * getTransaction and getTransactions: [methods/get_transaction.go],
      [methods/get_transactions.go]

    One looks a transaction up by its hash, the other pages through the
    transactions of the stored ledgers.  The abstract state of the second is the
    stream of all stored transactions from a position on; a page is a prefix of
    it and its cursor the position of its last transaction. *)

From S2P Require Import Prelude GoStd Externals Cursor Protocol BucketWindow LedgerMeta Store LedgerStore EventStore TxStore WriteTx Ingest Migration Daemon Convert.

(** ** Outside code: [toid.ID.String] *)
Class ToidText (T : Toid) := { toid_String : Z * Z * Z -> go string }.
(** Documented: the decimal form of [ToInt64]. *)
Class ToidTextLaws {T : Toid} (TT : ToidText T) := {
  toid_String_enc l t o z : toid_ToInt64 l t o = Some z -> toid_String (l, t, o) = Ok (Itoa z);
}.
#[export] Instance sep35_text : ToidText sep35 := {
  toid_String id := let '(l, t, o) := id in
    match toid_ToInt64 l t o with Some z => Ok (Itoa z) | None => Panic "toid: value out of range" end;
}.
#[export] Instance sep35_text_laws : ToidTextLaws sep35_text.
Proof. constructor. intros l t o z H. unfold toid_String, sep35_text. by rewrite H. Qed.

Definition TransactionStatusSuccess : string := "SUCCESS".
Definition TransactionStatusNotFound : string := "NOT_FOUND".
Definition TransactionStatusFailed : string := "FAILED".

(** [protocol.TransactionDetails] *)
Record TransactionDetails := mkDetails {
  td_Status : string;
  td_TransactionHash : string;
  td_ApplicationOrder : Z;
  td_FeeBump : bool;
  td_EnvelopeXDR : string;
  td_EnvelopeJSON : string;
  td_ResultXDR : string;
  td_ResultJSON : string;
  td_ResultMetaXDR : string;
  td_ResultMetaJSON : string;
  td_DiagnosticEventsXDR : list string;
  td_DiagnosticEventsJSON : list string;
  td_Ledger : Z;
}.
Record TransactionInfo := mkTransactionInfo { ti_Details : TransactionDetails; ti_LedgerCloseTime : Z }.

Record GetTransactionsResponse := mkGetTransactionsResponse {
  gt_Transactions : list TransactionInfo;
  gt_LatestLedger : Z;
  gt_LatestLedgerCloseTime : Z;
  gt_OldestLedger : Z;
  gt_OldestLedgerCloseTime : Z;
  gt_Cursor : string;
}.

Section Handlers.
Context `{V : ScVals} {D : Ledgers} {Drv : Driver} {T : Toid} {TT : ToidText T} {J : XdrToJson} {R : RpcCodes}.

Definition status_of (successful : bool) : string :=
  if successful then TransactionStatusSuccess else TransactionStatusFailed.

(** ** getTransactions *)

Record transactionsRPCHandler := mkTransactionsRPCHandler {
  th_maxLimit : Z; th_defaultLimit : Z; th_networkPassphrase : string;
}.

(** A [toid.ID]: ledger, transaction order, operation order. *)
Definition id : Type := Z * Z * Z.

Definition initializePagination (h : transactionsRPCHandler) (request : GetTransactionsRequest) : go (id * Z) :=
  let start := (i32 (GT_StartLedger request), 1, 1) in
  match GT_Pagination request with
  | None => Ok (start, th_defaultLimit h)
  | Some p =>
      let limit := if 0 <? LLimit p then LLimit p else th_defaultLimit h in
      if negb (String.eqb (LCursor p) "") then
        cursorInt ← rpc InvalidParams (ParseInt (LCursor p) 64);
        let '(l, t, o) := toid_Parse cursorInt in
        Ok ((l, i32 (t + 1), o), limit)
      else Ok (start, limit)
  end.

Definition fetchLedgerData (ledgerSeq : Z) (readTx : ledgerReaderTx) : go LedgerCloseMeta :=
  ledger ← rpc InternalError (tx_GetLedger readTx ledgerSeq);
  match ledger with
  | Some l => Ok l
  | None => Er (ERpc InvalidParams (EFmt "database does not contain metadata for ledger: %d" [FZ ledgerSeq]))
  end.

(** The form of a transaction in the response.  In the JSON format the envelope
    and the meta are assigned to each other's fields, as in the source. *)
Definition txInfo_of (tx : Transaction) (format : string) : go TransactionInfo :=
  if String.eqb format FormatJSON then
    parts ← rpc InternalError (transactionToJSON tx);
    let '(result, envelope, meta) := parts in
    diagEvents ← rpc InternalError (jsonifySlice "DiagnosticEvent" (Events tx));
    Ok (mkTransactionInfo (mkDetails (status_of (Successful tx)) (TransactionHash tx) (ApplicationOrder tx) (FeeBump tx)
          "" meta "" result "" envelope [] diagEvents (Sequence (TxLedger tx))) (CloseTime (TxLedger tx)))
  else
    Ok (mkTransactionInfo (mkDetails (status_of (Successful tx)) (TransactionHash tx) (ApplicationOrder tx) (FeeBump tx)
          (Base64Encode (Envelope tx)) "" (Base64Encode (Result tx)) "" (Base64Encode (Meta tx)) ""
          (base64EncodeSlice (Events tx)) [] (Sequence (TxLedger tx))) (CloseTime (TxLedger tx))).

Definition ingest_info (ledger : LedgerCloseMeta) (format : string) (ingestTx : LedgerTransaction) : go TransactionInfo :=
  tx ← rpc InternalError (ParseTransaction ledger ingestTx);
  txInfo_of tx format.

(** [for i := startTxIdx; i <= txCount; i++]: [n] iterations are left; the
    result is the cursor's transaction order, the list and whether the limit
    was reached. *)
Fixpoint process_loop (ledger : LedgerCloseMeta) (limit : Z) (format : string) (n : nat) (i order : Z)
    (reader : TxReader) (txns : list TransactionInfo) : go (Z * list TransactionInfo * bool) :=
  match n with
  | O => Ok (order, txns, false)
  | S n' =>
      let order := i32 i in
      match reader_Read reader with
      | (Er e, _) => Er (ERpc InvalidParams e)
      | (Panic p, _) => Panic p
      | (Ok None, _) => Ok (order, txns, false)
      | (Ok (Some ingestTx), reader') =>
          txInfo ← ingest_info ledger format ingestTx;
          let txns := txns ++ [txInfo] in
          if i64 limit <=? zlen txns then Ok (order, txns, true)
          else process_loop ledger limit format n' (i + 1) order reader' txns
      end
  end.

Definition processTransactionsInLedger (h : transactionsRPCHandler) (ledger : LedgerCloseMeta) (start : id)
    (txns : list TransactionInfo) (limit : Z) (format : string) : go (id * list TransactionInfo * bool) :=
  reader ← rpc InternalError (NewTxReader (th_networkPassphrase h) ledger);
  let '(startL, startT, _) := start in
  let ledgerSeq := LedgerSequence ledger in
  seek ← (if i32 ledgerSeq =? startL then
            match reader_Seek (startT - 1) reader with
            | (Er e, _) => Er (ERpc InternalError e)
            | (Panic p, _) => Panic p
            | (Ok _, reader') => Ok (startT, reader')
            end
          else Ok (1, reader));
  let '(startTxIdx, reader) := seek in
  r ← process_loop ledger limit format (Z.to_nat (CountTransactions ledger - startTxIdx + 1)) startTxIdx 0 reader txns;
  let '(order, txns, done) := r in
  Ok ((i32 ledgerSeq, order, 1), txns, done).

(** The ledger loop: [n] ledgers are left. *)
Fixpoint ledgers_loop (h : transactionsRPCHandler) (readTx : ledgerReaderTx) (start : id) (limit : Z) (format : string)
    (n : nat) (ledgerSeq : Z) (cursor : id) (txns : list TransactionInfo) : go (id * list TransactionInfo) :=
  match n with
  | O => Ok (cursor, txns)
  | S n' =>
      ledger ← fetchLedgerData (u32 ledgerSeq) readTx;
      r ← processTransactionsInLedger h ledger start txns limit format;
      let '(cursor, txns, done) := r in
      if (done : bool) then Ok (cursor, txns)
      else ledgers_loop h readTx start limit format n' (ledgerSeq + 1) cursor txns
  end.

Definition getTransactionsByLedgerSequence (h : transactionsRPCHandler) (request : GetTransactionsRequest) (w : DB) :
    go GetTransactionsResponse :=
  readTx ← rpc InternalError (ledgerReader_NewTx w);
  ledgerRange ← rpc InternalError (tx_GetLedgerRange readTx);
  _ ← rpc InvalidRequest (check (GetTransactionsRequest_IsValid request (th_maxLimit h) (ToLedgerSeqRange ledgerRange)));
  page ← initializePagination h request;
  let '(start, limit) := page in
  let last := i32 (Sequence (RLast ledgerRange)) in
  r ← ledgers_loop h readTx start limit (GT_Format request) (Z.to_nat (last - start.1.1 + 1)) start.1.1 (0, 0, 0) [];
  let '(cursor, txns) := r in
  cursorText ← toid_String cursor;
  Ok (mkGetTransactionsResponse txns (Sequence (RLast ledgerRange)) (CloseTime (RLast ledgerRange))
        (Sequence (RFirst ledgerRange)) (CloseTime (RFirst ledgerRange)) cursorText).

(** ** getTransaction *)

Record GetTransactionRequest := mkGetTransactionRequest { gtr_Hash : string; gtr_Format : string }.
Record GetTransactionResponse := mkGetTransactionResponse {
  gtx_LatestLedger : Z;
  gtx_LatestLedgerCloseTime : Z;
  gtx_OldestLedger : Z;
  gtx_OldestLedgerCloseTime : Z;
  gtx_Details : TransactionDetails;
  gtx_LedgerCloseTime : Z;
}.

Definition no_details (hash : string) : TransactionDetails :=
  mkDetails TransactionStatusNotFound hash 0 false "" "" "" "" "" "" [] [] 0.

(** Here every part goes to its own field; the hash is the request's. *)
Definition details_of (hash : string) (tx : Transaction) (format : string) : go TransactionDetails :=
  if String.eqb format FormatJSON then
    parts ← rpc InternalError (transactionToJSON tx);
    let '(result, envelope, meta) := parts in
    diagEvents ← rpc InternalError (jsonifySlice "DiagnosticEvent" (Events tx));
    Ok (mkDetails (status_of (Successful tx)) hash (ApplicationOrder tx) (FeeBump tx)
          "" envelope "" result "" meta [] diagEvents (Sequence (TxLedger tx)))
  else
    Ok (mkDetails (status_of (Successful tx)) hash (ApplicationOrder tx) (FeeBump tx)
          (Base64Encode (Envelope tx)) "" (Base64Encode (Result tx)) "" (Base64Encode (Meta tx)) ""
          (base64EncodeSlice (Events tx)) [] (Sequence (TxLedger tx))).

Definition parse_hash (hash : string) : go string :=
  if negb (Z.of_nat (String.length hash) / 2 =? 32)
  then Er (ERpc InvalidParams (EFmt "unexpected hash length (%d)" [FZ (Z.of_nat (String.length hash))]))
  else rpc InvalidParams (on_err (fun e => EFmt "incorrect hash: %v" [FE e]) (HexDecode hash)).

Definition handle_GetTransaction (txn : transactionHandler) (request : GetTransactionRequest) :
    st DB GetTransactionResponse :=
  _ ← lift (rpc InvalidParams (check (IsValidFormat (gtr_Format request))));
  txHash ← lift (parse_hash (gtr_Hash request));
  storeRange ← wrap_err (fun e => ERpc InternalError (EFmt "unable to get ledger range: %v" [FE e])) GetLedgerRange;
  w ← get_st;
  let respond := mkGetTransactionResponse (Sequence (RLast storeRange)) (CloseTime (RLast storeRange))
                   (Sequence (RFirst storeRange)) (CloseTime (RFirst storeRange)) in
  lift (match GetTransaction txn txHash w with
        | Panic p => Panic p
        | Er e => if errors_Is e "no transaction with this hash exists"
                  then Ok (respond (no_details (gtr_Hash request)) 0)
                  else Er (ERpc InternalError e)
        | Ok tx => d ← details_of (gtr_Hash request) tx (gtr_Format request); Ok (respond d (CloseTime (TxLedger tx)))
        end).

(** ** The stream of stored transactions *)

Context {passphrase : string} {L : LedgersLaws D passphrase} {TL : ToidLaws T} {TTL : ToidTextLaws TT}.

Notation stored_tx := (LedgerCloseMeta * LedgerTransaction)%type.

(** The stored transactions at or after a position. *)
Definition at_or_after (start : id) (x : stored_tx) : Prop :=
  start.1.1 < LedgerSequence x.1 \/ (LedgerSequence x.1 = start.1.1 /\ start.1.2 <= tx_Index x.2).
#[local] Instance at_or_after_dec start x : Decision (at_or_after start x).
Proof. unfold at_or_after. apply _. Defined.
Definition ledger_stream (l : LedgerCloseMeta) : list stored_tx := pair l <$> ledger_txs l.
Definition from (start : id) (ls : list LedgerCloseMeta) : list stored_tx :=
  filter (at_or_after start) (concat (ledger_stream <$> ls)).
Definition infos_of (format : string) (xs : list stored_tx) (infos : list TransactionInfo) : Prop :=
  Forall2 (fun x info => ingest_info x.1 format x.2 = Ok info) xs infos.

(** The cursor of a page that ends with the transaction [x]. *)
Definition position (x : stored_tx) : id := (LedgerSequence x.1, tx_Index x.2, 1).
(** The cursor of a page that the ledgers [ls] could not fill: the number of
    transactions of the last one, or 0 when none of them was looked at. *)
Definition end_position (start : id) (l : LedgerCloseMeta) : id :=
  (LedgerSequence l,
   (if (LedgerSequence l =? start.1.1) && (zlen (ledger_txs l) <? start.1.2) then 0 else zlen (ledger_txs l)), 1).
Definition page_cursor (start : id) (limit : Z) (xs : list stored_tx) (cursor : id) (ls : list LedgerCloseMeta) : id :=
  match xs !! Z.to_nat (limit - 1), last ls with
  | Some x, _ => position x
  | None, Some l => end_position start l
  | None, None => cursor
  end.

Definition readable (l : LedgerCloseMeta) : Prop :=
  ledger_decodes l /\ zlen (ledger_txs l) <= TransactionMask.

Lemma readable_index l i tx : readable l -> ledger_txs l !! i = Some tx ->
  tx_Index tx = Z.of_nat i + 1 /\ i32 (tx_Index tx) = tx_Index tx /\ 1 <= tx_Index tx <= TransactionMask.
Proof.
  intros [Hd Hm] Hi. pose proof (lcm_index _ _ _ Hd Hi) as E. apply lookup_lt_Some in Hi.
  unfold zlen in Hm. destruct toid_masks. split_and!; [done|apply i32_small; unfold is_i32; lia|lia|lia].
Qed.

Definition first_index (start : id) (l : LedgerCloseMeta) : nat :=
  if LedgerSequence l =? start.1.1 then Z.to_nat (start.1.2 - 1) else O.

Lemma from_one start l : readable l -> start.1.1 <= LedgerSequence l ->
  from start [l] = drop (first_index start l) (ledger_stream l).
Proof.
  intros Hl Hs. unfold from, first_index. simpl. rewrite app_nil_r. unfold ledger_stream.
  destruct (Z.eqb_spec (LedgerSequence l) start.1.1) as [He|He].
  - assert (forall txs k, (forall i tx, txs !! i = Some tx -> tx_Index tx = Z.of_nat (k + i) + 1) ->
      filter (at_or_after start) (pair l <$> txs) = drop (Z.to_nat (start.1.2 - 1) - k) (pair l <$> txs)) as H.
    { induction txs as [|tx txs IH]; intros k Hk; [cbn; by rewrite drop_nil|].
      pose proof (Hk O tx eq_refl) as H0. rewrite fmap_cons, filter_cons.
      rewrite (IH (S k)). 2:{ intros i tx' Hi. rewrite (Hk (S i) tx' Hi). lia. }
      unfold at_or_after. simpl. case_decide as Hd.
      - replace (Z.to_nat (start.1.2 - 1) - S k)%nat with O by lia.
        by replace (Z.to_nat (start.1.2 - 1) - k)%nat with O by lia.
      - by replace (Z.to_nat (start.1.2 - 1) - k)%nat with (S (Z.to_nat (start.1.2 - 1) - S k)) by lia. }
    rewrite (H _ O); [by rewrite Nat.sub_0_r|]. intros i tx Hi. by destruct (readable_index l i tx Hl Hi).
  - rewrite drop_0. induction (ledger_txs l) as [|tx txs IH]; [done|].
    rewrite fmap_cons, filter_cons_True, IH; [done|]. left. simpl. lia.
Qed.

Lemma from_cons start l ls : from start (l :: ls) = from start [l] ++ from start ls.
Proof. unfold from. simpl. by rewrite app_nil_r, filter_app. Qed.

(** ** One ledger *)

Lemma process_loop_spec l format limit infos : readable l -> 0 <= limit < 9223372036854775808 ->
  forall n k order r txns, reader_at l k r -> (k + n = length (ledger_txs l))%nat -> zlen txns < limit ->
  infos_of format (drop k (ledger_stream l)) infos ->
  process_loop l limit format n (Z.of_nat k + 1) order r txns =
  let room := Z.to_nat (limit - zlen txns) in
  if (room <=? n)%nat then Ok (Z.of_nat (k + room), txns ++ take room infos, true)
  else Ok (if (n =? 0)%nat then order else zlen (ledger_txs l), txns ++ infos, false).
Proof.
  intros Hl Hlim. revert infos. intros infos n. revert infos.
  assert (forall k tx, ledger_txs l !! k = Some tx -> i32 (Z.of_nat k + 1) = Z.of_nat k + 1) as Hi32.
  { intros k tx Hk. destruct (readable_index l k tx Hl Hk) as (Hi & H32 & _). by rewrite <- Hi. }
  assert (i64 limit = limit) as E64 by (apply i64_small; unfold is_i64; lia).
  induction n as [|n IH]; intros infos k order r txns Hr Hkn Hroom Hinf; cbn zeta.
  - assert (infos = []) as ->.
    { unfold ledger_stream in Hinf. rewrite drop_ge in Hinf by (rewrite length_fmap; lia). by inversion Hinf. }
    destruct (Nat.leb_spec (Z.to_nat (limit - zlen txns)) 0); [lia|]. simpl. by rewrite app_nil_r.
  - destruct (lookup_lt_is_Some_2 (ledger_txs l) k) as [tx Htx]; [lia|].
    assert (ledger_stream l !! k = Some (l, tx)) as Hst by (unfold ledger_stream; by rewrite list_lookup_fmap, Htx).
    rewrite (drop_S _ _ _ Hst) in Hinf. inversion Hinf as [|? info ? infos' Hinfo Hinf']; subst.
    cbn [process_loop]. destruct (reader_read _ _ _ _ Hr Htx) as (r' & -> & Hr').
    simpl in Hinfo. rewrite Hinfo. cbn [mbind go_bind]. rewrite (Hi32 _ _ Htx), E64.
    assert (zlen (txns ++ [info]) = zlen txns + 1) as Ez by (unfold zlen; rewrite length_app; simpl; lia).
    rewrite Ez. destruct (Z.leb_spec limit (zlen txns + 1)) as [Hfull|Hmore].
    + replace (Z.to_nat (limit - zlen txns)) with 1%nat by lia. simpl.
      do 3 f_equal. lia.
    + replace (Z.of_nat k + 1 + 1) with (Z.of_nat (S k) + 1) by lia.
      rewrite (IH infos' (S k)); [|done|lia|lia|done]. cbn zeta.
      replace (Z.to_nat (limit - zlen txns)) with (S (Z.to_nat (limit - zlen (txns ++ [info])))) by lia.
      cbn [Nat.leb take]. rewrite <- !(assoc_L app). cbn [app].
      destruct (Nat.leb_spec (Z.to_nat (limit - zlen (txns ++ [info]))) n).
      * do 3 f_equal. lia.
      * cbn [Nat.eqb]. destruct (Nat.eqb_spec n 0) as [->|]; [|done].
        do 3 f_equal. unfold zlen. lia.
Qed.

Lemma processTransactionsInLedger_spec h l start txns limit format infos : readable l ->
  th_networkPassphrase h = passphrase -> start.1.1 <= LedgerSequence l -> 1 <= start.1.2 ->
  0 <= limit < 9223372036854775808 -> zlen txns < limit -> infos_of format (from start [l]) infos ->
  processTransactionsInLedger h l start txns limit format =
  let room := Z.to_nat (limit - zlen txns) in
  if (room <=? length infos)%nat
  then Ok ((LedgerSequence l, Z.of_nat (first_index start l + room), 1), txns ++ take room infos, true)
  else Ok (end_position start l, txns ++ infos, false).
Proof.
  intros Hl Hh Hs Ht Hlim Hroom. rewrite from_one by done. intros Hinf. cbn zeta.
  pose proof Hl as [Hd _]. unfold processTransactionsInLedger. rewrite Hh.
  destruct (reader_open l Hd) as (r & -> & Hr). cbn [rpc on_err mbind go_bind].
  assert (i32 (LedgerSequence l) = LedgerSequence l) as ->.
  { apply i32_small. pose proof (lcm_seq _ Hd). unfold is_i32. lia. }
  pose proof (lcm_count _ Hd) as Hc. destruct start as [[sL sT] sO]. unfold first_index, end_position in *. cbn [fst snd] in *.
  assert (length infos = (length (ledger_txs l) - if (LedgerSequence l =? sL)%Z then Z.to_nat (sT - 1) else 0))%nat as Elen.
  { apply Forall2_length in Hinf. rewrite <- Hinf, length_drop. unfold ledger_stream. by rewrite length_fmap. }
  destruct (Z.eqb_spec (LedgerSequence l) sL) as [He|He].
  - destruct (decide (sT <= zlen (ledger_txs l))) as [Hin|Hout].
    + unfold zlen in Hin. destruct (reader_seek _ _ _ (Z.to_nat (sT - 1)) Hr) as (r' & Hseek & Hr'); [lia|].
      rewrite Z2Nat.id in Hseek by lia. rewrite Hseek. cbn [mbind go_bind].
      rewrite Hc. pose proof (process_loop_spec l format limit infos Hl Hlim
        (Z.to_nat (zlen (ledger_txs l) - sT + 1)) (Z.to_nat (sT - 1)) 0 r' txns Hr' ltac:(unfold zlen; lia) Hroom Hinf) as Hp.
      replace (Z.of_nat (Z.to_nat (sT - 1)) + 1) with sT in Hp by lia. rewrite Hp. cbn zeta.
      replace (Z.to_nat (zlen (ledger_txs l) - sT + 1)) with (length infos) by (unfold zlen; lia).
      destruct (Nat.leb_spec (Z.to_nat (limit - zlen txns)) (length infos)); [done|]. cbn [mbind go_bind].
      destruct (Nat.eqb_spec (length infos) 0) as [|_]; [unfold zlen in *; lia|].
      simpl. destruct (Z.ltb_spec (zlen (ledger_txs l)) sT); [unfold zlen in *; lia|done].
    + destruct (reader_seek_eof _ _ _ (sT - 1) Hr) as (r' & Hseek & _); [lia|].
      rewrite Hseek. cbn [mbind go_bind]. rewrite Hc.
      replace (Z.to_nat (zlen (ledger_txs l) - sT + 1)) with O by lia.
      assert (length infos = O) as E0 by (unfold zlen in *; lia). apply nil_length_inv in E0 as ->. simpl.
      destruct (Nat.leb_spec (Z.to_nat (limit - zlen txns)) 0); [lia|].
      destruct (Z.ltb_spec (zlen (ledger_txs l)) sT); [|lia]. by rewrite app_nil_r.
  - cbn [mbind go_bind]. rewrite Hc. pose proof (process_loop_spec l format limit infos Hl Hlim
      (Z.to_nat (zlen (ledger_txs l) - 1 + 1)) 0 0 r txns Hr ltac:(unfold zlen; lia) Hroom Hinf) as Hp.
    change (Z.of_nat 0 + 1) with 1 in Hp. rewrite Hp. cbn zeta.
    replace (Z.to_nat (zlen (ledger_txs l) - 1 + 1)) with (length infos) by (unfold zlen; lia).
    destruct (Nat.leb_spec (Z.to_nat (limit - zlen txns)) (length infos)); [done|]. cbn [mbind go_bind].
    simpl. destruct (Nat.eqb_spec (length infos) 0) as [E0|_]; [|done].
    unfold zlen. by replace (length (ledger_txs l)) with O by lia.
Qed.

Lemma page_cursor_last start limit l (infos : list TransactionInfo) : readable l -> start.1.1 <= LedgerSequence l ->
  length infos = length (from start [l]) -> 0 < limit -> (Z.to_nat limit <= length infos)%nat ->
  exists x, from start [l] !! Z.to_nat (limit - 1) = Some x /\
    position x = (LedgerSequence l, Z.of_nat (first_index start l + Z.to_nat limit), 1).
Proof.
  intros Hl Hs Hlen Hlim Hr. destruct (lookup_lt_is_Some_2 (from start [l]) (Z.to_nat (limit - 1))) as [x Hx]; [lia|].
  exists x. split; [done|]. rewrite from_one, lookup_drop in Hx by done. unfold ledger_stream in Hx.
  rewrite list_lookup_fmap in Hx. destruct (ledger_txs l !! _) as [tx|] eqn:E; [|done]. injection Hx as <-.
  destruct (readable_index _ _ _ Hl E) as (Hi & _). unfold position. cbn [fst snd]. rewrite Hi.
  do 2 f_equal. lia.
Qed.

Lemma ledgers_loop_spec h readTx start limit format :
  th_networkPassphrase h = passphrase -> 1 <= start.1.2 -> 0 <= limit < 9223372036854775808 ->
  forall ls seq cursor txns infos, Forall readable ls ->
  (forall i l, ls !! i = Some l -> LedgerSequence l = seq + Z.of_nat i) -> start.1.1 <= seq ->
  Forall (fun l => tx_GetLedger readTx (LedgerSequence l) = Ok (Some l)) ls ->
  zlen txns < limit -> infos_of format (from start ls) infos ->
  ledgers_loop h readTx start limit format (length ls) seq cursor txns =
  Ok (page_cursor start (limit - zlen txns) (from start ls) cursor ls,
      txns ++ take (Z.to_nat (limit - zlen txns)) infos).
Proof.
  intros Hh Ht Hlim ls. induction ls as [|l ls IH]; intros seq cursor txns infos Hls Hseq Hs Hget Hroom Hinf.
  { inversion Hinf; subst. cbn. by rewrite take_nil, app_nil_r. }
  apply Forall_cons in Hls as [Hl Hls], Hget as [Hgl Hget].
  rewrite from_cons in Hinf. apply Forall2_app_inv_l in Hinf as (i1 & i2 & H1 & H2 & ->).
  pose proof (Hseq O l eq_refl) as El. rewrite Z.add_0_r in El. subst seq.
  cbn [length ledgers_loop]. unfold fetchLedgerData. rewrite u32_small.
  2:{ destruct Hl as [Hd _]. pose proof (lcm_seq _ Hd). unfold is_u32. lia. }
  rewrite Hgl. cbn [rpc on_err mbind go_bind].
  rewrite (processTransactionsInLedger_spec h l start txns limit format i1) by done. cbn zeta.
  pose proof (Forall2_length _ _ _ H1) as Hlen. rewrite from_cons.
  destruct (Nat.leb_spec (Z.to_nat (limit - zlen txns)) (length i1)) as [Hfull|Hmore]; cbn [mbind go_bind].
  - destruct (page_cursor_last start (limit - zlen txns) l i1) as (x & Hx & Ex); [done..|lia|lia|].
    unfold page_cursor. rewrite (lookup_app_l_Some _ _ _ _ Hx), Ex, take_app_le by done. done.
  - assert (zlen (txns ++ i1) = zlen txns + zlen i1) as Ez by (unfold zlen; rewrite length_app; lia).
    rewrite (IH _ _ _ i2); [|done| |lia|done|rewrite Ez; unfold zlen in *; lia|done].
    2:{ intros i l' Hi. rewrite (Hseq (S i) l' Hi). lia. }
    rewrite Ez, take_app_ge, <- (assoc_L app) by lia.
    replace (Z.to_nat (limit - zlen txns) - length i1)%nat with (Z.to_nat (limit - (zlen txns + zlen i1))) by (unfold zlen; lia).
    do 2 f_equal. unfold page_cursor. rewrite lookup_app_r by lia.
    replace (Z.to_nat (limit - zlen txns - 1) - length (from start [l]))%nat
      with (Z.to_nat (limit - (zlen txns + zlen i1) - 1)) by (unfold zlen; lia).
    destruct (_ !! _); [done|]. rewrite last_cons. by destruct (last ls).
Qed.

(** ** The stream is sorted by position *)

Definition pos_lt (x y : stored_tx) : Prop :=
  LedgerSequence x.1 < LedgerSequence y.1 \/
  (LedgerSequence x.1 = LedgerSequence y.1 /\ tx_Index x.2 < tx_Index y.2).
#[local] Instance pos_lt_dec : RelDecision pos_lt.
Proof. intros x y. unfold pos_lt. apply _. Defined.

Lemma ledger_stream_sorted l : readable l -> StronglySorted pos_lt (ledger_stream l).
Proof.
  intros Hl. unfold ledger_stream.
  assert (forall txs k, (forall i tx, txs !! i = Some tx -> tx_Index tx = Z.of_nat (k + i) + 1) ->
    StronglySorted pos_lt (pair l <$> txs)) as H.
  { induction txs as [|tx txs IH]; intros k Hk; [constructor|]. rewrite fmap_cons. constructor.
    - apply (IH (S k)). intros i tx' Hi. rewrite (Hk (S i) tx' Hi). lia.
    - apply Forall_fmap, Forall_lookup. intros i tx' Hi. right. simpl. split; [done|].
      rewrite (Hk O tx eq_refl), (Hk (S i) tx' Hi). lia. }
  apply (H _ O). intros i tx Hi. by destruct (readable_index l i tx Hl Hi).
Qed.

Lemma stream_sorted ls : Forall readable ls -> StronglySorted seq_lt ls ->
  StronglySorted pos_lt (concat (ledger_stream <$> ls)).
Proof.
  intros Hr Hs. induction Hs as [|l ls Hs IH Hlt]; [constructor|]. apply Forall_cons in Hr as [Hl Hr]. simpl.
  apply StronglySorted_app_2; [|by apply ledger_stream_sorted|by apply IH].
  intros x y Hx Hy. left.
  apply list_elem_of_fmap in Hx as (tx & -> & _). apply elem_of_concat in Hy as (k & Hy & Hk).
  apply list_elem_of_fmap in Hk as (l' & -> & Hl'). apply list_elem_of_fmap in Hy as (tx' & -> & _).
  rewrite Forall_forall in Hlt. by apply Hlt.
Qed.

(** What follows a transaction is what a page ending with it leaves. *)
Definition after (c : id) : id := (c.1.1, c.1.2 + 1, c.2).

Lemma from_after start ls n x : Forall readable ls -> StronglySorted seq_lt ls ->
  from start ls !! n = Some x -> from (after (position x)) ls = drop (S n) (from start ls).
Proof.
  intros Hr Hs Hn. rewrite <- (sorted_filter_drop pos_lt (from start ls) n x); [|by apply StronglySorted_filter_any, stream_sorted|done|..].
  - unfold from. rewrite list_filter_filter. apply list_filter_iff_in. intros y Hy.
    assert (at_or_after start x) as Hx by (apply list_elem_of_lookup_2, list_elem_of_filter in Hn; apply Hn).
    unfold at_or_after, pos_lt, after, position in *. simpl in *. lia.
  - intros a [?|[? ?]]; lia.
  - intros a b [?|[? ?]] [?|[? ?]]; lia.
Qed.

(** ** The handler *)

Record transactions_pre (h : transactionsRPCHandler) (w : DB) (ls : list LedgerCloseMeta) (rng : LedgerRange) : Prop := {
  tp_driver : no_driver_errors;
  tp_passphrase : th_networkPassphrase h = passphrase;
  tp_keyed : ledgers_keyed (disk w);
  tp_ledgers : all_ledgers (disk w) = ls;
  tp_cache : cache_ok w;
  tp_readable : Forall readable ls;
  tp_consecutive : consecutive ls;
  tp_range : range_of (disk w) = Ok rng;
}.
(** A valid request: its page starts in a stored ledger. *)
Record request_pre (h : transactionsRPCHandler) (request : GetTransactionsRequest) (ls : list LedgerCloseMeta)
    (rng : LedgerRange) (start : id) (limit : Z) : Prop := {
  rp_valid : GetTransactionsRequest_IsValid request (th_maxLimit h) (ToLedgerSeqRange rng) = None;
  rp_page : initializePagination h request = Ok (start, limit);
  rp_ledger : exists l, l ∈ ls /\ LedgerSequence l = start.1.1;
  rp_order : 1 <= start.1.2;
  rp_limit : 0 < limit < 9223372036854775808;
}.

Lemma from_irrelevant start ls : Forall (fun l => LedgerSequence l < start.1.1) ls -> from start ls = [].
Proof.
  intros Hls. induction Hls as [|l ls Hl Hls IH]; [done|]. rewrite from_cons, IH, app_nil_r.
  unfold from. cbn. rewrite app_nil_r. unfold ledger_stream. clear -Hl.
  induction (ledger_txs l) as [|tx txs IH]; [done|].
  rewrite fmap_cons, filter_cons_False; [done|]. unfold at_or_after. simpl. lia.
Qed.

Lemma end_position_range start l : readable l -> exists z,
  toid_ToInt64 (end_position start l).1.1 (end_position start l).1.2 1 = Some z /\ 0 <= z < 9223372036854775808 /\
  toid_Parse z = end_position start l.
Proof.
  intros [Hd Hm]. pose proof (lcm_seq _ Hd). destruct toid_masks. unfold end_position. cbn [fst snd].
  set (n := if _ : bool then 0 else zlen (ledger_txs l)).
  assert (0 <= n <= TransactionMask) by (subst n; destruct (_ && _); unfold zlen in *; lia).
  destruct (toid_enc (LedgerSequence l) n 1) as (z & Hz & Hr); [unfold toid_in_range; lia|].
  exists z. split_and!; [done|lia|lia|]. apply toid_parse_enc; [unfold toid_in_range; lia|done].
Qed.
Lemma position_range ls x : Forall readable ls -> x ∈ concat (ledger_stream <$> ls) -> exists z,
  toid_ToInt64 (position x).1.1 (position x).1.2 1 = Some z /\ 0 <= z < 9223372036854775808 /\
  toid_Parse z = position x.
Proof.
  intros Hr Hx. apply elem_of_concat in Hx as (k & Hx & Hk).
  apply list_elem_of_fmap in Hk as (l & -> & Hl). apply list_elem_of_fmap in Hx as (tx & -> & Htx).
  rewrite Forall_forall in Hr. specialize (Hr l Hl). apply list_elem_of_lookup in Htx as [i Hi].
  destruct (readable_index l i tx Hr Hi) as (_ & _ & Hb). destruct Hr as [Hd _]. pose proof (lcm_seq _ Hd).
  destruct toid_masks. unfold position. cbn [fst snd].
  destruct (toid_enc (LedgerSequence l) (tx_Index tx) 1) as (z & Hz & Hz'); [unfold toid_in_range; lia|].
  exists z. split_and!; [done|lia|lia|]. apply toid_parse_enc; [unfold toid_in_range; lia|done].
Qed.

(** The cursor of a page, as it is written in the response. *)
Definition cursor_text (c : id) (s : string) : Prop :=
  exists z, toid_ToInt64 c.1.1 c.1.2 c.2 = Some z /\ 0 <= z < 9223372036854775808 /\ toid_Parse z = c /\ s = Itoa z.

(** The ledgers of a page, from the one it starts in. *)
Lemma from_drop start ls i l0 : consecutive ls -> ls !! i = Some l0 -> LedgerSequence l0 = start.1.1 ->
  from start ls = from start (drop i ls).
Proof.
  intros Hcons Hi El0. apply lookup_lt_Some in Hi as Hlt.
  rewrite <- (take_drop i ls) at 1. unfold from. rewrite fmap_app, concat_app, filter_app.
  fold (from start (take i ls)). rewrite from_irrelevant; [done|]. apply Forall_lookup. intros j l Hj.
  apply lookup_take_Some in Hj as [Hj Hji]. rewrite <- El0, (consecutive_nth ls j i l l0) by (done || lia). lia.
Qed.
Lemma page_cursor_drop start limit xs ls i l0 : ls !! i = Some l0 ->
  page_cursor start limit xs (0, 0, 0) (drop i ls) = page_cursor start limit xs (0, 0, 0) ls.
Proof.
  intros Hi. apply lookup_lt_Some in Hi. unfold page_cursor. assert (last (drop i ls) = last ls) as ->; [|done].
  rewrite !last_lookup, lookup_drop, length_drop. f_equal. lia.
Qed.

(** The cursor of a page has a text. *)
Lemma page_cursor_text start limit ls l' : Forall readable ls -> last ls = Some l' ->
  exists c, cursor_text (page_cursor start limit (from start ls) (0, 0, 0) ls) c.
Proof.
  intros Hread Hlast. unfold page_cursor. rewrite Hlast. destruct (from start ls !! _) as [x|] eqn:Ex.
  - destruct (position_range ls x Hread) as (z & H1 & H2 & H3).
    { apply list_elem_of_lookup_2, list_elem_of_filter in Ex as [_ Ex]. done. }
    exists (Itoa z), z. split_and!; [done|lia|lia|done|done].
  - assert (readable l') as Hl' by (apply last_Some_elem_of in Hlast; rewrite Forall_forall in Hread; by apply Hread).
    destruct (end_position_range start l' Hl') as (z & H1 & H2 & H3). exists (Itoa z), z. split_and!; [done|lia|lia|done|done].
Qed.

Lemma handler_page h request w ls rng start limit infos : transactions_pre h w ls rng ->
  request_pre h request ls rng start limit -> infos_of (GT_Format request) (from start ls) infos ->
  exists c, cursor_text (page_cursor start limit (from start ls) (0, 0, 0) ls) c /\
    getTransactionsByLedgerSequence h request w =
    Ok (mkGetTransactionsResponse (take (Z.to_nat limit) infos) (Sequence (RLast rng)) (CloseTime (RLast rng))
          (Sequence (RFirst rng)) (CloseTime (RFirst rng)) c).
Proof.
  intros [Hd Hp Hk Hls Hc Hread Hcons Hrng] [Hv Hpage (l0 & Hl0 & El0) Ho Hlim] Hinf.
  destruct (ledgerReader_NewTx_spec w Hd Hk Hc) as (rtx & Hnew & Hrange & Hget & _).
  apply list_elem_of_lookup in Hl0 as [i Hi].
  assert (exists l', last ls = Some l') as [l' Hlast].
  { destruct (last ls) eqn:E; [eauto|]. apply last_None in E. by rewrite E in Hi. }
  assert (Sequence (RLast rng) = LedgerSequence l') as Eseq.
  { unfold range_of in Hrng. rewrite Hls, Hlast in Hrng. destruct (head ls); [|done]. by injection Hrng as <-. }
  assert (LedgerSequence l' = start.1.1 + Z.of_nat (length ls - 1 - i)) as El'.
  { rewrite last_lookup in Hlast. replace (pred (length ls)) with (length ls - 1)%nat in Hlast by lia.
    apply lookup_lt_Some in Hi as Hlt. rewrite (consecutive_nth ls i (length ls - 1) l0 l') by (done || lia). lia. }
  assert (readable l') as Hl'.
  { apply last_Some_elem_of in Hlast. rewrite Forall_forall in Hread. by apply Hread. }
  apply lookup_lt_Some in Hi as Hlt.
  assert (length (drop i ls) = Z.to_nat (i32 (Sequence (RLast rng)) - start.1.1 + 1)) as Elen.
  { rewrite length_drop, i32_small, Eseq, El'; [lia|]. destruct Hl' as [Hdec _]. pose proof (lcm_seq _ Hdec).
    unfold is_i32. lia. }
  pose proof (from_drop start ls i l0 Hcons Hi El0) as Efrom.
  pose proof (page_cursor_drop start limit (from start ls) ls i l0 Hi) as Ecur.
  destruct (page_cursor_text start limit ls l' Hread Hlast) as [c Hcur].
  exists c. split; [done|]. unfold getTransactionsByLedgerSequence. rewrite Hnew. cbn [rpc on_err mbind go_bind].
  rewrite Hrange, Hrng. cbn [rpc on_err mbind go_bind]. rewrite Hv. cbn [check rpc on_err mbind go_bind].
  rewrite Hpage. cbn [mbind go_bind]. rewrite <- Elen.
  rewrite (ledgers_loop_spec h rtx start limit (GT_Format request)) with (infos := infos); try done; try lia.
  - cbn [mbind go_bind]. change (zlen []) with 0. rewrite Z.sub_0_r, <- Efrom, Ecur. cbn [app].
    destruct Hcur as (z & Hz & _ & _ & ->).
    destruct (page_cursor start limit (from start ls) (0, 0, 0) ls) as [[cl ct] co].
    by rewrite (toid_String_enc _ _ _ z Hz).
  - by apply Forall_drop.
  - intros j l Hj. rewrite lookup_drop in Hj. rewrite (consecutive_nth ls i (i + j) l0 l) by (done || lia). lia.
  - apply Forall_forall. intros l Hl. rewrite Hget. f_equal. apply elem_of_all_ledgers; [done|]. rewrite Hls.
    apply list_elem_of_lookup in Hl as [j Hj]. rewrite lookup_drop in Hj. by eapply list_elem_of_lookup_2.
  - unfold zlen. simpl. lia.
  - by rewrite <- Efrom.
Qed.

(** A page that starts in a ledger no longer stored is refused. *)
Lemma handler_page_missing h request w ls rng start limit l' : transactions_pre h w ls rng ->
  GetTransactionsRequest_IsValid request (th_maxLimit h) (ToLedgerSeqRange rng) = None ->
  initializePagination h request = Ok (start, limit) -> last ls = Some l' ->
  0 <= start.1.1 <= LedgerSequence l' -> (forall l, l ∈ ls -> LedgerSequence l <> start.1.1) ->
  getTransactionsByLedgerSequence h request w =
    Er (ERpc InvalidParams (EFmt "database does not contain metadata for ledger: %d" [FZ start.1.1])).
Proof.
  intros [Hd Hp Hk Hls Hc Hread Hcons Hrng] Hv Hpage Hlast Hs Hno.
  destruct (ledgerReader_NewTx_spec w Hd Hk Hc) as (rtx & Hnew & Hrange & Hget & _).
  assert (Sequence (RLast rng) = LedgerSequence l') as Eseq.
  { unfold range_of in Hrng. rewrite Hls, Hlast in Hrng. destruct (head ls); [|done]. by injection Hrng as <-. }
  assert (0 <= LedgerSequence l' < 2147483648) as Hl'.
  { apply last_Some_elem_of in Hlast. rewrite Forall_forall in Hread. destruct (Hread l' Hlast) as [Hdec _]. by apply lcm_seq. }
  unfold getTransactionsByLedgerSequence. rewrite Hnew. cbn [rpc on_err mbind go_bind].
  rewrite Hrange, Hrng. cbn [rpc on_err mbind go_bind]. rewrite Hv. cbn [check rpc on_err mbind go_bind].
  rewrite Hpage. cbn [mbind go_bind]. rewrite Eseq, i32_small by (unfold is_i32; lia).
  replace (Z.to_nat (LedgerSequence l' - start.1.1 + 1)) with (S (Z.to_nat (LedgerSequence l' - start.1.1))) by lia.
  cbn [ledgers_loop]. unfold fetchLedgerData. rewrite u32_small by (unfold is_u32; lia). rewrite Hget.
  destruct (ledger_close_meta (disk w) !! start.1.1) as [l|] eqn:E; [|done].
  exfalso. pose proof (Hk _ _ E) as El. apply (Hno l); [|done]. rewrite <- Hls. apply elem_of_all_ledgers; [done|]. by rewrite El.
Qed.

(** ** Following cursors *)

Definition next_request (request : GetTransactionsRequest) (cursor : string) (limit : Z) : GetTransactionsRequest :=
  mkGTR 0 (Some (mkLPO cursor limit)) (GT_Format request).

(** It is valid whatever is stored by then. *)
Lemma next_request_valid h request limit c s rng : IsValidFormat (GT_Format request) = None ->
  0 < limit < 9223372036854775808 -> limit <= th_maxLimit h -> cursor_text c s -> 0 <= c.1.2 <= TransactionMask ->
  GetTransactionsRequest_IsValid (next_request request s limit) (th_maxLimit h) rng = None /\
  initializePagination h (next_request request s limit) = Ok (after c, limit).
Proof.
  intros Hf Hlim Hmax (z & _ & Hz & Hparse & ->) Hc.
  assert (ParseInt (Itoa z) 64 = Ok z) as Hi by (apply ParseInt_Itoa; lia).
  assert (Itoa z <> ""%string) as Hne by (intros E; rewrite E in Hi; discriminate).
  split.
  - apply errors_Join_None. unfold next_request. cbn [GT_StartLedger GT_Pagination GT_Format].
    constructor; [|by constructor]. apply ValidatePagination_None. simpl. done.
  - unfold initializePagination, next_request. cbn [GT_StartLedger GT_Pagination GT_Format LCursor LLimit].
    destruct (Z.ltb_spec 0 limit); [|lia]. destruct (String.eqb_spec (Itoa z) ""); [done|]. cbn [negb].
    rewrite Hi. cbn [rpc on_err mbind go_bind]. rewrite Hparse. destruct c as [[cl ct] co]. unfold after. cbn [fst snd] in *.
    rewrite i32_small; [done|]. destruct toid_masks. unfold is_i32. lia.
Qed.
Lemma valid_format request max rng : GetTransactionsRequest_IsValid request max rng = None -> IsValidFormat (GT_Format request) = None.
Proof. intros Hv%errors_Join_None. inversion Hv as [|? ? _ Hf]. by inversion Hf. Qed.

Lemma next_request_pre h request ls rng start limit c s : request_pre h request ls rng start limit ->
  limit <= th_maxLimit h -> cursor_text c s -> (exists l, l ∈ ls /\ LedgerSequence l = c.1.1) ->
  0 <= c.1.2 <= TransactionMask ->
  request_pre h (next_request request s limit) ls rng (after c) limit.
Proof.
  intros [Hv%valid_format _ _ _ Hlim] Hmax Hcur Hl Hc.
  destruct (next_request_valid h request limit c s (ToLedgerSeqRange rng) Hv Hlim Hmax Hcur Hc) as [Hv' Hp].
  constructor; try done. unfold after. simpl. lia.
Qed.

(** The pages a client collects in [n] requests, each with the last cursor. *)
Fixpoint follow (h : transactionsRPCHandler) (request : GetTransactionsRequest) (limit : Z) (w : DB) (n : nat) :
    go (list TransactionInfo) :=
  match n with
  | O => Ok []
  | S n' =>
      r ← getTransactionsByLedgerSequence h request w;
      rest ← follow h (next_request request (gt_Cursor r) limit) limit w n';
      Ok (gt_Transactions r ++ rest)
  end.

Lemma from_readable start ls x : Forall readable ls -> x ∈ from start ls ->
  (exists l, l ∈ ls /\ LedgerSequence l = (position x).1.1) /\ 0 <= (position x).1.2 <= TransactionMask.
Proof.
  intros Hr Hx. apply list_elem_of_filter in Hx as [_ Hx]. apply elem_of_concat in Hx as (k & Hx & Hk).
  apply list_elem_of_fmap in Hk as (l & -> & Hl). apply list_elem_of_fmap in Hx as (tx & -> & Htx).
  split; [by exists l|]. apply list_elem_of_lookup in Htx as [i Hi]. rewrite Forall_forall in Hr.
  destruct (readable_index l i tx (Hr l Hl) Hi) as (_ & _ & Hb). simpl. lia.
Qed.

(** A client that follows the cursors of getTransactions page by page receives
    the stored transactions from its start position in ledger and application
    order, none twice and none missing, as long as its pages are full: [n] pages
    are the first [n * limit] transactions of the stream. *)
Theorem getTransactions_follow h request w ls rng start limit infos n : transactions_pre h w ls rng ->
  request_pre h request ls rng start limit -> limit <= th_maxLimit h ->
  infos_of (GT_Format request) (from start ls) infos ->
  (n * Z.to_nat limit <= length infos)%nat ->
  follow h request limit w n = Ok (take (n * Z.to_nat limit) infos).
Proof.
  intros Hpre. revert request start infos. induction n as [|n IH]; intros request start infos Hreq Hmax Hinf Hn; [done|].
  destruct (handler_page h request w ls rng start limit infos Hpre Hreq Hinf) as (c & Hc & Hrun).
  pose proof (rp_limit _ _ _ _ _ _ Hreq) as Hlim.
  cbn [follow]. rewrite Hrun. cbn [mbind go_bind gt_Cursor gt_Transactions].
  pose proof (Forall2_length _ _ _ Hinf) as Hlen.
  destruct (lookup_lt_is_Some_2 (from start ls) (Z.to_nat (limit - 1))) as [x Hx]; [lia|].
  unfold page_cursor in Hc. rewrite Hx in Hc.
  pose proof (tp_readable _ _ _ _ Hpre) as Hread.
  destruct (from_readable start ls x Hread) as [Hxl Hxo]; [by eapply list_elem_of_lookup_2|].
  pose proof (next_request_pre h request ls rng start limit (position x) c Hreq Hmax Hc Hxl Hxo) as Hnext.
  assert (from (after (position x)) ls = drop (Z.to_nat limit) (from start ls)) as Efrom.
  { replace (Z.to_nat limit) with (S (Z.to_nat (limit - 1))) by lia. apply from_after; [done| |done].
    rewrite <- (tp_ledgers _ _ _ _ Hpre). by apply ledger_rows_sorted, (tp_keyed _ _ _ _ Hpre). }
  rewrite (IH _ (after (position x)) (drop (Z.to_nat limit) infos)); [|done|done| |rewrite length_drop; lia].
  2:{ rewrite Efrom. by apply Forall2_drop. }
  cbn [mbind go_bind]. rewrite take_take_drop. done.
Qed.

(** C35: A client that has read everything and polls again is sent back: when its
    cursor is at the last transaction of the latest ledger the response is
    empty, and with the cursor of that response the next request returns the
    transactions of the latest ledger a second time. *)
Theorem getTransactions_poll_repeats h request w ls rng start limit l infos : transactions_pre h w ls rng ->
  request_pre h request ls rng start limit -> limit <= th_maxLimit h ->
  last ls = Some l -> start.1 = (LedgerSequence l, zlen (ledger_txs l) + 1) ->
  infos_of (GT_Format request) (ledger_stream l) infos ->
  exists r r', getTransactionsByLedgerSequence h request w = Ok r /\ gt_Transactions r = [] /\
    getTransactionsByLedgerSequence h (next_request request (gt_Cursor r) limit) w = Ok r' /\
    gt_Transactions r' = take (Z.to_nat limit) infos.
Proof.
  intros Hpre Hreq Hmax Hlast Hst Hinf. destruct start as [[sL sT] sO]. cbn [fst] in Hst. injection Hst as -> ->.
  pose proof (tp_readable _ _ _ _ Hpre) as Hread. pose proof (tp_consecutive _ _ _ _ Hpre) as Hcons.
  pose proof (last_Some_elem_of _ _ Hlast) as Hl.
  assert (readable l) as Hlr by (rewrite Forall_forall in Hread; by apply Hread).
  apply last_Some in Hlast as [ls' ->].
  assert (forall sT sO, from (LedgerSequence l, sT, sO) (ls' ++ [l]) = drop (Z.to_nat (sT - 1)) (ledger_stream l)) as Hfrom.
  { intros sT' sO'. unfold from at 1. rewrite fmap_app, concat_app, filter_app.
    fold (from (LedgerSequence l, sT', sO') ls'). fold (from (LedgerSequence l, sT', sO') [l]).
    rewrite from_irrelevant.
    - rewrite from_one; [|done|simpl; lia]. unfold first_index. cbn [fst snd]. by rewrite Z.eqb_refl.
    - apply Forall_lookup. intros i l' Hi. cbn [fst]. apply lookup_lt_Some in Hi as Hlt.
      rewrite (consecutive_nth _ i (length ls') l' l Hcons); [lia| | |lia]; [by apply lookup_app_l_Some|by apply list_lookup_middle]. }
  assert (length (ledger_stream l) = length (ledger_txs l)) as Elen by (unfold ledger_stream; by rewrite length_fmap).
  destruct (handler_page h request w _ rng _ limit [] Hpre Hreq) as (c & Hc & Hrun).
  { rewrite Hfrom, drop_ge; [constructor|]. unfold zlen. lia. }
  rewrite Hfrom, drop_ge in Hc by (unfold zlen; lia). unfold page_cursor in Hc. rewrite lookup_nil, last_snoc in Hc.
  unfold end_position in Hc. cbn [fst snd] in Hc. rewrite Z.eqb_refl in Hc.
  destruct (Z.ltb_spec (zlen (ledger_txs l)) (zlen (ledger_txs l) + 1)); [|lia]. cbn [andb] in Hc.
  assert (request_pre h (next_request request c limit) (ls' ++ [l]) rng (LedgerSequence l, 0 + 1, 1) limit) as Hnext.
  { apply (next_request_pre h request _ rng _ limit (LedgerSequence l, 0, 1) c Hreq Hmax Hc).
    - by exists l.
    - cbn [fst snd]. destruct toid_masks. lia. }
  destruct (handler_page h (next_request request c limit) w _ rng _ limit infos Hpre Hnext) as (c' & _ & Hrun').
  { by rewrite Hfrom. }
  eexists _, _. split; [exact Hrun|]. split; [cbn; by rewrite take_nil|]. cbn [gt_Cursor].
  split; [exact Hrun'|done].
Qed.

(** ** getTransaction: properties *)

Lemma getTransactionByHash_found txn t ls w lcm tx h : no_driver_errors -> th_passphrase txn = passphrase ->
  view w = t -> represents t ls -> ledger_decodes lcm -> lcm ∈ ls -> tx ∈ ledger_txs lcm -> h ∈ tx_keys tx ->
  getTransactionByHash txn h w = Ok (lcm, tx).
Proof.
  intros Hd Hp Hv Hrep Hdec Hl Htx Hh. apply list_elem_of_lookup in Htx as [j Hj].
  assert (transactions t !! h = Some (mkTxRow (LedgerSequence lcm) (Z.of_nat j + 1))) as Hrow.
  { apply (rep_tx _ _ Hrep). by exists lcm, j, tx. }
  unfold getTransactionByHash, Select. rewrite Hd, Hv. cbn [fst on_err mbind go_bind].
  unfold transaction_rows. rewrite Hrow. cbn [txr_ledger_sequence txr_application_order].
  rewrite (represents_keyed_member _ _ _ Hrep Hl), Hp.
  destruct (reader_open lcm Hdec) as (rd & -> & Hat). cbn [on_err mbind go_bind].
  replace (Z.of_nat j + 1 - 1) with (Z.of_nat j) by lia.
  destruct (reader_seek lcm 0 rd j Hat) as (rd' & -> & Hat'); [by eapply lookup_lt_Some|].
  by destruct (reader_read lcm j rd' tx Hat' Hj) as (rd'' & -> & _).
Qed.

Lemma getTransactionByHash_missing txn t ls w h : no_driver_errors -> view w = t -> represents t ls ->
  (forall lcm tx, lcm ∈ ls -> tx ∈ ledger_txs lcm -> h ∉ tx_keys tx) ->
  getTransactionByHash txn h w = Er ErrNoTransaction.
Proof.
  intros Hd Hv Hrep Hno. unfold getTransactionByHash, Select. rewrite Hd, Hv. cbn [fst on_err mbind go_bind].
  unfold transaction_rows. destruct (transactions t !! h) as [r|] eqn:E; [|done].
  apply (rep_tx _ _ Hrep) in E as (lcm & j & tx & Hl & Hj & Hh & _). exfalso.
  apply (Hno lcm tx); [done|by eapply list_elem_of_lookup_2|done].
Qed.

Lemma details_of_spec hash lcm tx parsed format d : ParseTransaction lcm tx = Ok parsed ->
  details_of hash parsed format = Ok d ->
  td_Status d = status_of (tx_Successful tx) /\ td_TransactionHash d = hash /\
  td_Ledger d = LedgerSequence lcm /\ td_ApplicationOrder d = i32 (tx_Index tx) /\
  td_FeeBump d = tx_IsFeeBump tx /\ CloseTime (TxLedger parsed) = LedgerCloseTime lcm.
Proof.
  unfold ParseTransaction. intros Hp Hd.
  destruct (tx_ResultBytes tx), (tx_MetaBytes tx), (tx_EnvelopeBytes tx), (tx_Events tx); try done; simpl in Hp.
  destruct (marshal_events _ _); [|done|done]. simpl in Hp. injection Hp as <-. revert Hd. unfold details_of.
  destruct (String.eqb format FormatJSON).
  - destruct (rpc InternalError (transactionToJSON _)) as [[[p1 p2] p3]| |]; [|done|done]. cbn [mbind go_bind].
    destruct (rpc InternalError (jsonifySlice _ _)); [|done|done]. by intros [= <-].
  - by intros [= <-].
Qed.

(** What the handler does with the looked up transaction. *)
Lemma handle_run txn request w ls rng hash r : no_driver_errors -> represents (disk w) ls -> sess_tx w = None -> cache_ok w ->
  range_of (disk w) = Ok rng -> IsValidFormat (gtr_Format request) = None -> parse_hash (gtr_Hash request) = Ok hash ->
  GetTransaction txn hash w = r ->
  let respond := mkGetTransactionResponse (Sequence (RLast rng)) (CloseTime (RLast rng))
                   (Sequence (RFirst rng)) (CloseTime (RFirst rng)) in
  handle_GetTransaction txn request w =
    (match r with
     | Panic p => Panic p
     | Er e => if errors_Is e "no transaction with this hash exists"
               then Ok (respond (no_details (gtr_Hash request)) 0) else Er (ERpc InternalError e)
     | Ok tx => d ← details_of (gtr_Hash request) tx (gtr_Format request); Ok (respond d (CloseTime (TxLedger tx)))
     end, w).
Proof.
  intros Hd Hrep Hs Hc Hrng Hf Hh Hr respond. unfold handle_GetTransaction. rewrite Hf, Hh. unfold mbind at 1 2 3, st_bind.
  cbn [check rpc on_err lift]. unfold wrap_err.
  rewrite GetLedgerRange_spec by (first [done | apply (rep_keyed _ _ Hrep) | by intros n]).
  rewrite Hrng, <- Hr. reflexivity.
Qed.

Lemma handle_found txn request w ls rng hash lcm tx parsed d : no_driver_errors -> th_passphrase txn = passphrase ->
  represents (disk w) ls -> sess_tx w = None -> cache_ok w -> ledger_decodes lcm ->
  range_of (disk w) = Ok rng -> IsValidFormat (gtr_Format request) = None -> parse_hash (gtr_Hash request) = Ok hash ->
  lcm ∈ ls -> tx ∈ ledger_txs lcm -> hash ∈ tx_keys tx ->
  ParseTransaction lcm tx = Ok parsed -> details_of (gtr_Hash request) parsed (gtr_Format request) = Ok d ->
  handle_GetTransaction txn request w =
    (Ok (mkGetTransactionResponse (Sequence (RLast rng)) (CloseTime (RLast rng)) (Sequence (RFirst rng))
           (CloseTime (RFirst rng)) d (LedgerCloseTime lcm)), w).
Proof.
  intros Hd Hp Hrep Hs Hc Hdec Hrng Hf Hh Hl Htx Hkey Hparse Hdet.
  rewrite (handle_run txn request w ls rng hash (Ok parsed)); try done.
  - destruct (details_of_spec _ _ _ _ _ _ Hparse Hdet) as (_ & _ & _ & _ & _ & H6). rewrite Hdet. cbn. by rewrite H6.
  - unfold GetTransaction. assert (view w = disk w) as Hv by (unfold view; by rewrite Hs).
    by rewrite (getTransactionByHash_found txn (disk w) ls w lcm tx hash).
Qed.

Lemma handle_missing txn request w ls rng hash : no_driver_errors ->
  represents (disk w) ls -> sess_tx w = None -> cache_ok w ->
  range_of (disk w) = Ok rng -> IsValidFormat (gtr_Format request) = None -> parse_hash (gtr_Hash request) = Ok hash ->
  (forall lcm tx, lcm ∈ ls -> tx ∈ ledger_txs lcm -> hash ∉ tx_keys tx) ->
  handle_GetTransaction txn request w =
    (Ok (mkGetTransactionResponse (Sequence (RLast rng)) (CloseTime (RLast rng)) (Sequence (RFirst rng))
           (CloseTime (RFirst rng)) (no_details (gtr_Hash request)) 0), w).
Proof.
  intros Hd Hrep Hs Hc Hrng Hf Hh Hno. rewrite (handle_run txn request w ls rng hash (Er ErrNoTransaction)); try done.
  unfold GetTransaction. assert (view w = disk w) as Hv by (unfold view; by rewrite Hs).
  by rewrite (getTransactionByHash_missing txn (disk w) ls).
Qed.

(** C16: getTransaction answers for the hash of a stored transaction (of either
    hash of a fee bump) with that transaction's status, ledger, order and parts,
    and for any other hash of the right length with NOT_FOUND, always with the
    stored range of ledgers. *)
Theorem handle_GetTransaction_lookup txn request w ls rng hash : no_driver_errors -> th_passphrase txn = passphrase ->
  represents (disk w) ls -> sess_tx w = None -> cache_ok w -> Forall ledger_decodes ls ->
  range_of (disk w) = Ok rng -> IsValidFormat (gtr_Format request) = None -> parse_hash (gtr_Hash request) = Ok hash ->
  let respond := mkGetTransactionResponse (Sequence (RLast rng)) (CloseTime (RLast rng))
                   (Sequence (RFirst rng)) (CloseTime (RFirst rng)) in
  (forall lcm tx parsed d, lcm ∈ ls -> tx ∈ ledger_txs lcm -> hash ∈ tx_keys tx ->
     ParseTransaction lcm tx = Ok parsed -> details_of (gtr_Hash request) parsed (gtr_Format request) = Ok d ->
     handle_GetTransaction txn request w = (Ok (respond d (LedgerCloseTime lcm)), w) /\
     td_Status d = status_of (tx_Successful tx) /\ td_Ledger d = LedgerSequence lcm /\
     td_ApplicationOrder d = i32 (tx_Index tx) /\ td_FeeBump d = tx_IsFeeBump tx) /\
  ((forall lcm tx, lcm ∈ ls -> tx ∈ ledger_txs lcm -> hash ∉ tx_keys tx) ->
     handle_GetTransaction txn request w = (Ok (respond (no_details (gtr_Hash request)) 0), w)).
Proof.
  intros Hd Hp Hrep Hs Hc Hdec Hrng Hf Hh respond. rewrite Forall_forall in Hdec. split.
  - intros lcm tx parsed d Hl Htx Hkey Hparse Hdet.
    destruct (details_of_spec _ _ _ _ _ _ Hparse Hdet) as (H1 & _ & H3 & H4 & H5 & _).
    split; [eapply handle_found; eauto|done].
  - by eapply handle_missing.
Qed.
End Handlers.

(** ** Concrete runs *)

Definition sample_txs_handler : transactionsRPCHandler := mkTransactionsRPCHandler 10 10 "net".
Definition sample_txs_range : LedgerRange := mkRange (mkInfo 7 35) (mkInfo 9 45).
Definition sample_txs_request (start limit : Z) : GetTransactionsRequest := mkGTR start (Some (mkLPO "" limit)) "".
Fixpoint sample_infos (xs : list (LedgerCloseMeta (Ledgers := toy_ledgers) * @LedgerTransaction toy_scvals)) : list TransactionInfo :=
  match xs with
  | [] => []
  | x :: xs' => match ingest_info x.1 "" x.2 with Ok i => i :: sample_infos xs' | _ => sample_infos xs' end
  end.

Lemma sample_infos_ok xs : forallb (fun x => is_ok (ingest_info x.1 "" x.2)) xs = true ->
  infos_of "" xs (sample_infos xs).
Proof.
  induction xs as [|x xs IH]; cbn [forallb]; [constructor|]. intros [H1 H2]%andb_true_iff. cbn [sample_infos].
  destruct (ingest_info x.1 "" x.2) as [i| |] eqn:E; [|discriminate H1|discriminate H1].
  constructor; [exact E|by apply IH].
Qed.

Lemma sample_transactions_pre : transactions_pre (passphrase := "net") (T := sep35) sample_txs_handler sample_db
  [sample_ledger 7; sample_ledger 8; sample_ledger 9] sample_txs_range.
Proof.
  constructor.
  - by intros n t.
  - reflexivity.
  - apply sample_ledgers_keyed.
  - vm_compute. reflexivity.
  - by left.
  - repeat apply Forall_cons_2; [split; [apply sample_fine_7|]|split; [apply sample_fine_8|]|split; [apply sample_fine_9|]|apply Forall_nil_2];
      vm_compute; discriminate.
  - apply (bo_consecutive _ sample_batch).
  - vm_compute. reflexivity.
Qed.

Lemma getTransactions_follow_witness :
  follow sample_txs_handler (sample_txs_request 7 2) 2 sample_db 2 =
  Ok (take 4 (sample_infos (from (passphrase := "net") (7, 1, 1) [sample_ledger 7; sample_ledger 8; sample_ledger 9]))).
Proof.
  apply (getTransactions_follow (passphrase := "net") _ _ _ _ sample_txs_range (7, 1, 1) 2 _ 2 sample_transactions_pre).
  - constructor; [reflexivity|reflexivity|exists (sample_ledger 7); split; [by left|reflexivity]|simpl; lia|lia].
  - simpl. lia.
  - apply sample_infos_ok. vm_compute. reflexivity.
  - vm_compute. lia.
Defined.

Lemma getTransactions_poll_repeats_witness : exists r r',
  getTransactionsByLedgerSequence sample_txs_handler (mkGTR 0 (Some (mkLPO "38654713857" 5)) "") sample_db = Ok r /\
  gt_Transactions r = [] /\
  getTransactionsByLedgerSequence sample_txs_handler
    (next_request (mkGTR 0 (Some (mkLPO "38654713857" 5)) "") (gt_Cursor r) 5) sample_db = Ok r' /\
  gt_Transactions r' = take 5 (sample_infos (ledger_stream (passphrase := "net") (sample_ledger 9))).
Proof.
  apply (getTransactions_poll_repeats (passphrase := "net") _ _ _ _ sample_txs_range (9, 3, 1) 5 (sample_ledger 9) _ sample_transactions_pre).
  - constructor; [reflexivity|reflexivity| |simpl; lia|lia].
    exists (sample_ledger 9). split; [by right; right; left|reflexivity].
  - simpl. lia.
  - reflexivity.
  - reflexivity.
  - apply sample_infos_ok. vm_compute. reflexivity.
Defined.

Definition sample_hash_request : GetTransactionRequest := mkGetTransactionRequest (HexEncode (sample_hash 82)) "".
Definition sample_parsed : Transaction :=
  mkTransaction (HexEncode (sample_hash 82)) "r" "m" "e"
    (match ParseTransaction (sample_ledger 8) (sample_tx 2 82 300 "mint") with Ok t => Events t | _ => [] end)
    false 2 true (mkInfo 8 40).
Definition sample_details : TransactionDetails :=
  match details_of (HexEncode (sample_hash 82)) sample_parsed "" with Ok d => d | _ => no_details "" end.

Lemma handle_GetTransaction_lookup_witness :
  handle_GetTransaction (mkTransactionHandler true "net") sample_hash_request sample_indexed =
    (Ok (mkGetTransactionResponse 9 45 7 35 sample_details 40), sample_indexed) /\
  td_Status sample_details = TransactionStatusSuccess /\ td_Ledger sample_details = 8.
Proof.
  destruct sample_indexed_ok as (Hrep & Hs & Hc).
  destruct (handle_GetTransaction_lookup (passphrase := "net") (mkTransactionHandler true "net") sample_hash_request
    sample_indexed [sample_ledger 7; sample_ledger 8; sample_ledger 9] sample_txs_range (sample_hash 82)) as [H _].
  - intros n t. reflexivity.
  - reflexivity.
  - exact Hrep.
  - exact Hs.
  - exact Hc.
  - repeat apply Forall_cons_2; [apply sample_fine_7|apply sample_fine_8|apply sample_fine_9|apply Forall_nil_2].
  - unfold range_of. rewrite (rep_ledgers _ _ Hrep). vm_compute. reflexivity.
  - reflexivity.
  - vm_compute. reflexivity.
  - destruct (H (sample_ledger 8) (sample_tx 2 82 300 "mint") sample_parsed sample_details) as (Hrun & Hst & Hl & _ & _).
    + right. left.
    + right. left.
    + vm_compute. left.
    + vm_compute. reflexivity.
    + vm_compute. reflexivity.
    + split; [exact Hrun|]. split; [exact Hst|exact Hl].
Defined.
