(* ===== verification/Mocks.v ===== *)
(** * Mocks: the in-memory store the handlers are tested with, [db/mocks.go]

    A double of the transaction and ledger readers that keeps what it is given in
    maps.  Where it answers like the database is what makes a test against it a
    test of the server; where it does not is stated too. *)

From S2P Require Import Prelude GoStd Externals Cursor Protocol BucketWindow LedgerMeta Store LedgerStore EventStore TxStore WriteTx Ingest Migration Daemon Convert GetTransactions.

Section Mocks.
Context `{V : ScVals} {D : Ledgers} {Drv : Driver}.

(** The ledger range is zero until a ledger is inserted; the pointers to metas
    are to copies nobody changes, so they are values. *)
Record MockTransactionHandler := mkMock {
  passphrase : string;
  ledgerRange : LedgerRange;
  txs : gmap string LedgerTransaction;
  txHashToMeta : gmap string LedgerCloseMeta;
  ledgerSeqToMeta : gmap Z LedgerCloseMeta;
}.
Definition NewMockTransactionStore (passphrase : string) : MockTransactionHandler := mkMock passphrase zero_range ∅ ∅ ∅.

(** One transaction of the loop. *)
Definition add_mock_tx (lcm : LedgerCloseMeta) (tx : LedgerTransaction) : st MockTransactionHandler unit := modify (fun txn =>
  let h := HexEncode (tx_Hash tx) in
  mkMock (passphrase txn) (ledgerRange txn) (<[h := tx]> (txs txn)) (<[h := lcm]> (txHashToMeta txn)) (ledgerSeqToMeta txn)).

(** The range is extended to the ledger's sequence. *)
Definition extend_range (lcm : LedgerCloseMeta) (r : LedgerRange) : LedgerRange :=
  let lcmSeq := LedgerSequence lcm in
  let first := if (lcmSeq <? Sequence (RFirst r)) || (Sequence (RFirst r) =? 0) then mkInfo lcmSeq (LedgerCloseTime lcm)
               else RFirst r in
  let last := if Sequence (RLast r) <? lcmSeq then mkInfo lcmSeq (LedgerCloseTime lcm) else RLast r in
  mkRange first last.

Definition InsertTransactions (lcm : LedgerCloseMeta) : st MockTransactionHandler unit :=
  _ ← modify (fun txn => mkMock (passphrase txn) (ledgerRange txn) (txs txn) (txHashToMeta txn)
                           (<[LedgerSequence lcm := lcm]> (ledgerSeqToMeta txn)));
  txn ← get_st;
  reader ← lift (NewTxReader (passphrase txn) lcm);
  _ ← reader_loop_st (read_fuel lcm) (add_mock_tx lcm) reader;
  modify (fun txn => mkMock (passphrase txn) (extend_range lcm (ledgerRange txn)) (txs txn) (txHashToMeta txn) (ledgerSeqToMeta txn)).

(** [*txn.txHashToMeta[hash.HexString()]]: a nil pointer if the maps disagree. *)
Definition GetTransaction (hash : string) (txn : MockTransactionHandler) : go Transaction :=
  match txs txn !! HexEncode hash with
  | None => Er ErrNoTransaction
  | Some tx =>
      match txHashToMeta txn !! HexEncode hash with
      | None => Panic "invalid memory address or nil pointer dereference"
      | Some lcm => ParseTransaction lcm tx
      end
  end.

(** ** The reader of ledgers *)

Definition GetLedger (sequence : Z) (txn : MockTransactionHandler) : go (option LedgerCloseMeta) :=
  Ok (ledgerSeqToMeta txn !! sequence).
Definition GetLedgerRange (txn : MockTransactionHandler) : go LedgerRange := Ok (ledgerRange txn).
(** The rest is stubbed. *)
Definition StreamAllLedgers {S} (f : LedgerCloseMeta -> st S unit) : st S unit := mret tt.
Definition StreamLedgerRange {S} (startLedger endLedger : Z) (f : LedgerCloseMeta -> st S unit) : st S unit := mret tt.
Definition GetLatestLedgerSequence : go Z := Ok 0.
Definition NewTx : go unit := Er (ENew "mock NewTx error").

(** ** Agreement with the database *)

Context {pass : string} {L : LedgersLaws D pass}.

(** The double holds the transactions of these ledgers by their outer hashes. *)
Record holds (txn : MockTransactionHandler) (ls : list LedgerCloseMeta) : Prop := {
  h_pass : passphrase txn = pass;
  h_tx h tx : txs txn !! HexEncode h = Some tx <-> exists lcm, lcm ∈ ls /\ tx ∈ ledger_txs lcm /\ tx_Hash tx = h;
  h_meta h lcm : txHashToMeta txn !! HexEncode h = Some lcm <-> exists tx, lcm ∈ ls /\ tx ∈ ledger_txs lcm /\ tx_Hash tx = h;
  h_seq s lcm : ledgerSeqToMeta txn !! s = Some lcm <-> lcm ∈ ls /\ LedgerSequence lcm = s;
  h_range : ledgerRange txn = match head ls, last ls with
                              | Some a, Some b => mkRange (info_of a) (info_of b)
                              | _, _ => zero_range
                              end;
}.

#[export] Instance HexEncode_inj : Inj (=) (=) HexEncode.
Proof. intros a b E. pose proof (HexDecode_Encode a) as Ha. rewrite E, HexDecode_Encode in Ha. congruence. Qed.

(** The loop over the transactions of a ledger. *)
Definition add_all (lcm : LedgerCloseMeta) (l : list LedgerTransaction) (txn : MockTransactionHandler) : MockTransactionHandler :=
  mkMock (passphrase txn) (ledgerRange txn)
    (foldl (fun m tx => <[HexEncode (tx_Hash tx) := tx]> m) (txs txn) l)
    (foldl (fun m tx => <[HexEncode (tx_Hash tx) := lcm]> m) (txHashToMeta txn) l) (ledgerSeqToMeta txn).
Lemma add_mock_txs lcm l txn : st_iter (add_mock_tx lcm) l txn = (Ok tt, add_all lcm l txn).
Proof.
  revert txn. induction l as [|tx l IH]; intros txn; [by destruct txn|].
  change (st_iter (add_mock_tx lcm) (tx :: l) txn) with (st_iter (add_mock_tx lcm) l (add_all lcm [tx] txn)). by rewrite IH.
Qed.

(** Inserting keys that are new and distinct. *)
Lemma foldl_insert_new {A B} (key : A -> string) (val : A -> B) l (m : gmap string B) k v :
  NoDup (key <$> l) -> (forall x, x ∈ l -> m !! key x = None) ->
  foldl (fun m x => <[key x := val x]> m) m l !! k = Some v <->
  m !! k = Some v \/ exists x, x ∈ l /\ key x = k /\ val x = v.
Proof.
  revert m. induction l as [|x l IH]; intros m Hn Hm.
  - cbn. split; [by left|]. intros [?|(y & Hy & _)]; [done|by apply not_elem_of_nil in Hy].
  - apply NoDup_cons in Hn as [Hx Hn]. cbn [foldl]. rewrite IH; [|done|].
    + rewrite lookup_insert_Some. specialize (Hm x) as Hmx. set_solver.
    + intros y Hy. rewrite lookup_insert_ne; [apply Hm; by right|]. intros E. apply Hx. rewrite E. by apply list_elem_of_fmap_2.
Qed.

Lemma outer_in_keys tx : tx_Hash tx ∈ tx_keys tx.
Proof. unfold tx_keys. apply elem_of_app. right. by left. Qed.
Lemma outer_keys_NoDup lcm : NoDup (keys_of lcm) -> NoDup ((fun tx => HexEncode (tx_Hash tx)) <$> ledger_txs lcm).
Proof.
  intros Hn. assert ((fun tx => HexEncode (tx_Hash tx)) <$> ledger_txs lcm = HexEncode <$> (tx_Hash <$> ledger_txs lcm)) as ->
    by (by rewrite <- list_fmap_compose).
  apply NoDup_fmap_2; [apply _|]. unfold keys_of in Hn.
  induction (ledger_txs lcm) as [|tx l IH]; [constructor|]. rewrite fmap_cons in *. cbn [concat] in Hn.
  apply NoDup_app in Hn as (_ & Hd & Hn). constructor; [|by apply IH]. intros (y & E & Hy)%list_elem_of_fmap.
  apply (Hd (tx_Hash tx) (outer_in_keys tx)), elem_of_concat. exists (tx_keys y). rewrite E.
  split; [apply outer_in_keys|by apply list_elem_of_fmap_2].
Qed.

Definition after (ls : list LedgerCloseMeta) (lcm : LedgerCloseMeta) : Prop :=
  forall l, l ∈ ls -> 0 < LedgerSequence l < LedgerSequence lcm /\ forall h, h ∈ keys_of l -> h ∉ keys_of lcm.

Lemma extend_range_holds ls lcm : after ls lcm -> 0 < LedgerSequence lcm ->
  extend_range lcm (match head ls, last ls with Some a, Some b => mkRange (info_of a) (info_of b) | _, _ => zero_range end) =
  match head (ls ++ [lcm]), last (ls ++ [lcm]) with Some a, Some b => mkRange (info_of a) (info_of b) | _, _ => zero_range end.
Proof.
  intros Ha Hp. rewrite last_snoc. destruct ls as [|a ls].
  - unfold extend_range. cbn. rewrite orb_true_r. destruct (Z.ltb_spec 0 (LedgerSequence lcm)); [done|lia].
  - destruct (last_is_Some (a :: ls)) as [_ Hl]. destruct (Hl ltac:(done)) as [b Hb]. rewrite Hb. cbn [head app].
    destruct (Ha a ltac:(by left)) as [Ha1 _]. destruct (Ha b ltac:(by apply last_Some_elem_of)) as [Hb1 _].
    unfold extend_range. cbn.
    destruct (Z.ltb_spec (LedgerSequence lcm) (LedgerSequence a)); [lia|].
    destruct (Z.eqb_spec (LedgerSequence a) 0); [lia|]. destruct (Z.ltb_spec (LedgerSequence b) (LedgerSequence lcm)); [done|lia].
Qed.

Lemma InsertTransactions_holds txn ls lcm : holds txn ls -> ledger_fine lcm -> after ls lcm -> 0 < LedgerSequence lcm ->
  exists txn', InsertTransactions lcm txn = (Ok tt, txn') /\ holds txn' (ls ++ [lcm]).
Proof.
  intros [Hpass Htx Hmeta Hseq Hrange] (Hdec & Hnd & _) Ha Hp. unfold InsertTransactions, modify, get_st, mbind, st_bind. cbn [passphrase].
  destruct (reader_open lcm Hdec) as (r & Hr & Hat). rewrite Hpass, Hr. unfold lift.
  rewrite (read_all_iter _ _ _ _ Hdec Hat), add_mock_txs. eexists. split; [reflexivity|].
  assert (forall tx, tx ∈ ledger_txs lcm -> txs txn !! HexEncode (tx_Hash tx) = None /\ txHashToMeta txn !! HexEncode (tx_Hash tx) = None) as Hnew.
  { intros tx Hin. assert (forall l, l ∈ ls -> forall y, y ∈ ledger_txs l -> tx_Hash y <> tx_Hash tx) as Hno.
    { intros l Hl y Hy E. destruct (Ha l Hl) as [_ Hk]. apply (Hk (tx_Hash tx)).
      - apply list_elem_of_lookup in Hy as [j Hj]. apply elem_of_keys. exists j, y. rewrite <- E. split; [done|apply outer_in_keys].
      - apply list_elem_of_lookup in Hin as [j Hj]. apply elem_of_keys. exists j, tx. split; [done|apply outer_in_keys]. }
    split.
    - destruct (txs txn !! _) as [y|] eqn:E; [|done]. apply Htx in E as (l & Hl & Hy & E). by destruct (Hno l Hl y Hy).
    - destruct (txHashToMeta txn !! _) as [l|] eqn:E; [|done]. apply Hmeta in E as (y & Hl & Hy & E). by destruct (Hno l Hl y Hy). }
  pose proof (outer_keys_NoDup lcm Hnd) as Hkeys.
  constructor; cbn [passphrase txs txHashToMeta ledgerSeqToMeta ledgerRange add_all].
  - done.
  - intros h tx. rewrite (foldl_insert_new _ (fun tx => tx)) by (done || (intros; by apply Hnew)). rewrite Htx. split.
    + intros [(l & Hl & H)|(y & Hy & E%(inj HexEncode) & ->)]; [exists l|exists lcm]; set_solver.
    + intros (l & [Hl| ->%list_elem_of_singleton]%elem_of_app & Hin & <-); [left; by exists l|right; by exists tx].
  - intros h l. rewrite (foldl_insert_new _ (fun _ => lcm)) by (done || (intros; by apply Hnew)). rewrite Hmeta. split.
    + intros [(y & Hl & H)|(y & Hy & E%(inj HexEncode) & <-)]; exists y; set_solver.
    + intros (y & [Hl| ->%list_elem_of_singleton]%elem_of_app & Hin & <-); [left; by exists y|right; by exists y].
  - intros s l. rewrite lookup_insert_Some, Hseq, elem_of_app, list_elem_of_singleton. split.
    + intros [[<- <-]|[Hne [Hl <-]]]; [by split; [right|]|by split; [left|]].
    + intros [[Hl| ->] <-]; [|by left]. right. destruct (Ha l Hl) as [? _]. split; [lia|done].
  - rewrite Hrange. by apply extend_range_holds.
Qed.

(** The double after these ledgers. *)
Definition mock_of (ls : list LedgerCloseMeta) : go unit * MockTransactionHandler :=
  st_iter InsertTransactions ls (NewMockTransactionStore pass).

Lemma new_mock_holds : holds (NewMockTransactionStore pass) [].
Proof.
  constructor; try done; intros; cbn; rewrite lookup_empty; (split; [done|]);
    first [intros (? & H & _) | intros [H _]]; try (by apply not_elem_of_nil in H); by destruct H.
Qed.

Lemma insert_all_holds ls done txn : holds txn done -> Forall ledger_fine ls -> Forall (fun l => 0 < LedgerSequence l) ls ->
  (forall ls1 lcm ls2, ls = ls1 ++ lcm :: ls2 -> after (done ++ ls1) lcm) ->
  exists txn', st_iter InsertTransactions ls txn = (Ok tt, txn') /\ holds txn' (done ++ ls).
Proof.
  revert done txn. induction ls as [|lcm ls IH]; intros done txn Hh Hf Hp Ha.
  - exists txn. by rewrite app_nil_r.
  - apply Forall_cons in Hf as [Hf1 Hf], Hp as [Hp1 Hp].
    destruct (InsertTransactions_holds txn done lcm Hh Hf1) as (txn1 & Hrun & Hh1).
    { rewrite <- (app_nil_r done). by apply (Ha [] lcm ls). }
    { done. }
    destruct (IH (done ++ [lcm]) txn1 Hh1 Hf Hp) as (txn2 & Hrun2 & Hh2).
    { intros ls1 lcm' ls2 ->. rewrite <- app_assoc. by apply (Ha (lcm :: ls1) lcm' ls2). }
    exists txn2. split; [|by rewrite <- app_assoc in Hh2].
    cbn [st_iter]. unfold mbind, st_bind. by rewrite Hrun.
Qed.

(** Ledgers in a database have increasing sequences and share no hash. *)
Lemma represents_after t ls ls1 lcm ls2 : represents t ls -> Forall (fun l => 0 < LedgerSequence l) ls ->
  ls = ls1 ++ lcm :: ls2 -> after ls1 lcm.
Proof.
  intros Hrep Hp E l Hl. pose proof (represents_sorted _ _ Hrep) as Hs. rewrite E in Hs.
  assert (l ∈ ls /\ lcm ∈ ls) as [Hl' Hlcm] by (rewrite E; set_solver).
  assert (LedgerSequence l < LedgerSequence lcm) as Hlt.
  { apply StronglySorted_app in Hs as (Hs & _ & _). apply (Hs l lcm Hl). by left. }
  rewrite Forall_forall in Hp. split; [split; [by apply Hp|done]|]. intros h (i & a & Ha & Hka)%elem_of_keys (j & b & Hb & Hkb)%elem_of_keys.
  pose proof (proj2 (rep_tx _ _ Hrep h _) (ex_intro _ l (ex_intro _ i (ex_intro _ a (conj Hl' (conj Ha (conj Hka eq_refl))))))) as E1.
  pose proof (proj2 (rep_tx _ _ Hrep h _) (ex_intro _ lcm (ex_intro _ j (ex_intro _ b (conj Hlcm (conj Hb (conj Hkb eq_refl))))))) as E2.
  rewrite E1 in E2. injection E2. lia.
Qed.

Lemma mock_of_holds t ls : represents t ls -> Forall ledger_fine ls -> Forall (fun l => 0 < LedgerSequence l) ls ->
  exists m, mock_of ls = (Ok tt, m) /\ holds m ls.
Proof.
  intros Hrep Hf Hp. apply (insert_all_holds ls []); [apply new_mock_holds|done|done|].
  intros ls1 lcm ls2 E. by apply (represents_after t ls ls1 lcm ls2).
Qed.

Lemma holds_GetTransaction_Some m ls h lcm tx : holds m ls -> lcm ∈ ls -> tx ∈ ledger_txs lcm -> tx_Hash tx = h ->
  GetTransaction h m = ParseTransaction lcm tx.
Proof.
  intros Hm Hl Htx Hh. unfold GetTransaction.
  rewrite (proj2 (h_tx _ _ Hm h tx)) by (by exists lcm).
  rewrite (proj2 (h_meta _ _ Hm h lcm)) by (by exists tx). done.
Qed.
Lemma holds_GetTransaction_None m ls h : holds m ls ->
  (forall lcm tx, lcm ∈ ls -> tx ∈ ledger_txs lcm -> tx_Hash tx <> h) -> GetTransaction h m = Er ErrNoTransaction.
Proof.
  intros Hm Hno. unfold GetTransaction. destruct (txs m !! _) as [tx|] eqn:E; [|done].
  apply (h_tx _ _ Hm) in E as (lcm & Hl & Htx & E). by destruct (Hno lcm tx Hl Htx).
Qed.

(** The inner hash of a fee bump is no outer hash of a ledger of the database. *)
Lemma inner_not_outer t ls lcm tx : represents t ls -> Forall ledger_fine ls -> Forall (fun l => 0 < LedgerSequence l) ls ->
  lcm ∈ ls -> tx ∈ ledger_txs lcm -> tx_IsFeeBump tx = true ->
  forall lcm' tx', lcm' ∈ ls -> tx' ∈ ledger_txs lcm' -> tx_Hash tx' <> tx_InnerHash tx.
Proof.
  intros Hrep Hf Hp Hl Htx Hb lcm' tx' Hl' Htx' E.
  assert (tx_keys tx = [tx_InnerHash tx; tx_Hash tx]) as Ek by (unfold tx_keys; by rewrite Hb).
  rewrite Forall_forall in Hf. destruct (Hf lcm Hl) as (_ & Hnd & _).
  apply list_elem_of_lookup in Htx as [i Hi], Htx' as [j Hj].
  assert (transactions t !! tx_InnerHash tx = Some (mkTxRow (LedgerSequence lcm) (Z.of_nat i + 1))) as E1.
  { apply (rep_tx _ _ Hrep). exists lcm, i, tx. rewrite Ek. repeat split; try done. by left. }
  assert (transactions t !! tx_InnerHash tx = Some (mkTxRow (LedgerSequence lcm') (Z.of_nat j + 1))) as E2.
  { apply (rep_tx _ _ Hrep). exists lcm', j, tx'. rewrite <- E. repeat split; try done. apply outer_in_keys. }
  rewrite E1 in E2. injection E2 as Es Eij.
  assert (i = j) as <- by lia.
  assert (lcm' = lcm) as ->.
  { pose proof (represents_keyed_member _ _ _ Hrep Hl) as A. pose proof (represents_keyed_member _ _ _ Hrep Hl') as B.
    rewrite <- Es in B. congruence. }
  rewrite Hi in Hj. injection Hj as <-.
  unfold keys_of in Hnd. apply list_elem_of_lookup_2 in Hi. apply list_elem_of_split in Hi as (a & b & Eab).
  rewrite Eab, fmap_app, fmap_cons, concat_app in Hnd. cbn [concat] in Hnd. rewrite Ek, E in Hnd.
  apply NoDup_app in Hnd as (_ & _ & Hnd). apply NoDup_cons in Hnd as [Hn _]. apply Hn. by left.
Qed.

(** The store the handlers are tested with answers as the database: after the
    ledgers of a database are inserted, a transaction is found by its outer hash,
    or missed, as in the database, and the ledgers and (unless there are none)
    the range are the same.  By the inner hash of a fee bump, which the database
    indexes too, the double finds nothing, and on no ledgers it has a range of
    zeros where the database fails. *)
Theorem mock_store_agrees txn ls w : no_driver_errors -> th_passphrase txn = pass ->
  represents (disk w) ls -> sess_tx w = None -> cache_ok w ->
  Forall ledger_fine ls -> Forall (fun l => 0 < LedgerSequence l) ls ->
  exists m, mock_of ls = (Ok tt, m) /\
    (forall h, (forall lcm tx, lcm ∈ ls -> tx ∈ ledger_txs lcm -> tx_IsFeeBump tx = true -> tx_InnerHash tx <> h) ->
       GetTransaction h m = TxStore.GetTransaction txn h w) /\
    (forall lcm tx, lcm ∈ ls -> tx ∈ ledger_txs lcm -> tx_IsFeeBump tx = true ->
       GetTransaction (tx_InnerHash tx) m = Er ErrNoTransaction /\
       TxStore.GetTransaction txn (tx_InnerHash tx) w = ParseTransaction lcm tx) /\
    (forall k, LedgerStore.GetLedger k w = (GetLedger k m, w)) /\
    (ls <> [] -> LedgerStore.GetLedgerRange w = (GetLedgerRange m, w)) /\
    (ls = [] -> GetLedgerRange m = Ok zero_range /\ LedgerStore.GetLedgerRange w = (Er ErrEmptyDB, w)).
Proof.
  intros Hd Hpass Hrep Hs Hc Hf Hp. destruct (mock_of_holds _ _ Hrep Hf Hp) as (m & Hm & Hh).
  assert (view w = disk w) as Hv by (unfold view; by rewrite Hs).
  assert (forall lcm tx h, lcm ∈ ls -> tx ∈ ledger_txs lcm -> h ∈ tx_keys tx ->
            TxStore.GetTransaction txn h w = ParseTransaction lcm tx) as Hfound.
  { intros lcm tx h Hl Htx Hk. unfold TxStore.GetTransaction. rewrite Forall_forall in Hf. destruct (Hf lcm Hl) as (Hdec & _).
    by rewrite (getTransactionByHash_found txn (disk w) ls w lcm tx h). }
  exists m. split; [done|]. split_and!.
  - intros h Hno. destruct (txs m !! HexEncode h) as [tx|] eqn:E.
    + apply (h_tx _ _ Hh) in E as (lcm & Hl & Htx & E). rewrite (holds_GetTransaction_Some m ls h lcm tx) by done.
      symmetry. apply Hfound; [done|done|]. rewrite <- E. apply outer_in_keys.
    + unfold GetTransaction. rewrite E. unfold TxStore.GetTransaction.
      rewrite (getTransactionByHash_missing txn (disk w) ls w h); [done..|].
      intros lcm tx Hl Htx Hk. unfold tx_keys in Hk. apply elem_of_app in Hk as [Hk|Hk%list_elem_of_singleton].
      * destruct (tx_IsFeeBump tx) eqn:Hb; [|by apply not_elem_of_nil in Hk]. apply list_elem_of_singleton in Hk.
        by apply (Hno lcm tx).
      * rewrite (proj2 (h_tx _ _ Hh h tx)) in E; [done|by exists lcm].
  - intros lcm tx Hl Htx Hb. split.
    + apply (holds_GetTransaction_None m ls); [done|]. by apply (inner_not_outer (disk w) ls lcm).
    + apply Hfound; [done|done|]. unfold tx_keys. rewrite Hb. by left.
  - intros k. unfold LedgerStore.GetLedger, GetLedger. rewrite getLedgerFromDB_spec.
    + rewrite Hv. do 2 f_equal. apply option_eq. intros l. rewrite (h_seq _ _ Hh). split.
      * intros E. pose proof (rep_keyed _ _ Hrep _ _ E) as <-. split; [|done].
        rewrite <- (rep_ledgers _ _ Hrep). by apply elem_of_all_ledgers; [apply Hrep|].
      * intros [Hl <-]. by apply (represents_keyed_member _ ls).
    + intros n. apply Hd.
    + rewrite Hv. apply Hrep.
  - intros Hne. rewrite GetLedgerRange_spec; [|by intros n|apply Hrep|done|done].
    unfold range_of, GetLedgerRange. rewrite (rep_ledgers _ _ Hrep), (h_range _ _ Hh).
    destruct ls as [|a ls]; [done|]. destruct (last_is_Some (a :: ls)) as [_ Hl]. by destruct (Hl ltac:(done)) as [b ->].
  - intros ->. rewrite GetLedgerRange_spec; [|by intros n|apply Hrep|done|done].
    unfold range_of, GetLedgerRange. by rewrite (rep_ledgers _ _ Hrep), (h_range _ _ Hh).
Qed.
End Mocks.

(** The double of three ledgers, asked for a transaction of the second and for an
    unknown one. *)
Lemma mock_store_agrees_witness : exists m,
  mock_of (pass := "net") [sample_ledger 7; sample_ledger 8; sample_ledger 9] = (Ok tt, m) /\
  GetTransaction (sample_hash 82) m = Ok sample_parsed /\
  GetTransaction (sample_hash 99) m = Er ErrNoTransaction /\
  GetLedgerRange m = Ok sample_txs_range.
Proof.
  destruct sample_indexed_ok as (Hrep & Hs & Hc).
  destruct (mock_store_agrees (pass := "net") (mkTransactionHandler true "net")
    [sample_ledger 7; sample_ledger 8; sample_ledger 9] sample_indexed) as (m & Hm & Htx & _ & _ & Hr & _).
  - intros n t. reflexivity.
  - reflexivity.
  - exact Hrep.
  - exact Hs.
  - exact Hc.
  - repeat apply Forall_cons_2; [apply sample_fine_7|apply sample_fine_8|apply sample_fine_9|apply Forall_nil_2].
  - repeat apply Forall_cons_2; [vm_compute; reflexivity..|apply Forall_nil_2].
  - exists m. split; [exact Hm|].
    assert (m = (mock_of (pass := "net") [sample_ledger 7; sample_ledger 8; sample_ledger 9]).2) as -> by (rewrite Hm; reflexivity).
    split_and!; vm_compute; reflexivity.
Defined.
