(* ===== verification/GetLedgers.v ===== *)
(** * getLedgers and the remote ledger store: [methods/get_ledgers.go],
      [rpcdatastore/ledger_reader.go]

    The endpoint pages through ledgers that are in the database or, below its
    oldest ledger, in a remote data store.  The data store is used through the
    interface [LedgerReader]; the page theorems are proved against its contract
    [reader_ok], which the buffered reader of [rpcdatastore] satisfies. *)

From S2P Require Import Prelude GoStd Externals Cursor Protocol BucketWindow LedgerMeta Store LedgerStore EventStore TxStore WriteTx Ingest Migration Daemon Convert.

(** ** [rpcdatastore.LedgerReader] *)

Record LedgerReader `{V : ScVals} {D : Ledgers} := mkLedgerReader {
  rd_GetLedgers : Z -> Z -> go (list LedgerCloseMeta);
  rd_GetAvailableLedgerRange : go LedgerSeqRange;
}.

(** ** Outside code: the buffered storage backend of stellar/go *)
Class BufferedBackend `{V : ScVals} (D : Ledgers) := {
  backend : Type;
  NewBufferedBackend : go backend;
  bb_PrepareRange : Z -> Z -> backend -> go backend;
  bb_GetLedger : Z -> backend -> go (LedgerCloseMeta * backend);
}.
(** Documented: once a bounded range is prepared its ledgers are returned, in
    order, by their sequences. *)
Class BufferedBackendLaws `{V : ScVals} {D : Ledgers} (B : BufferedBackend D) := {
  archived : Z -> LedgerCloseMeta;
  archived_seq s : is_u32 s -> LedgerSequence (archived s) = s;
  bb_ready : Z -> Z -> backend -> Prop;
  bb_new : exists b, NewBufferedBackend = Ok b /\
    forall x y, 2 <= x <= y -> is_u32 y -> exists b', bb_PrepareRange x y b = Ok b' /\ bb_ready x y b';
  bb_get x y b : bb_ready x y b -> x <= y -> exists b', bb_GetLedger x b = Ok (archived x, b') /\ bb_ready (x + 1) y b';
}.

Section DataStore.
Context `{V : ScVals} {D : Ledgers} {B : BufferedBackend D}.

(** [for sequence := From; sequence <= To; sequence++] on 32-bit integers. *)
Fixpoint fetch_loop (fuel : nat) (sequence last : Z) (b : backend) : go (list LedgerCloseMeta) :=
  match fuel with
  | O => Panic "out of fuel"
  | S fuel' =>
      if sequence <=? last then
        r ← bb_GetLedger sequence b;
        rest ← fetch_loop fuel' (u32 (sequence + 1)) last r.2;
        Ok (r.1 :: rest)
      else Ok []
  end.

Definition GetLedgers (start endd : Z) : go (list LedgerCloseMeta) :=
  bufferedBackend ← on_err (EWrap "failed to create buffered storage backend: %w" []) NewBufferedBackend;
  b ← bb_PrepareRange start endd bufferedBackend;
  fetch_loop (S (Z.to_nat (endd - start + 1))) start endd b.

Definition GetAvailableLedgerRange : go LedgerSeqRange := Ok (mkLSR 2 0).

Definition NewLedgerReader : LedgerReader := mkLedgerReader _ _ GetLedgers GetAvailableLedgerRange.
End DataStore.

(** ** The endpoint *)

(** [protocol.LedgerInfo] *)
Record LedgerInfoEntry := mkLedgerInfoEntry {
  li_Hash : string;
  li_Sequence : Z;
  li_LedgerCloseTime : Z;
  li_LedgerHeader : string;
  li_LedgerHeaderJSON : string;
  li_LedgerMetadata : string;
  li_LedgerMetadataJSON : string;
}.
Record GetLedgersResponse := mkGetLedgersResponse {
  gl_Ledgers : list LedgerInfoEntry;
  gl_LatestLedger : Z;
  gl_LatestLedgerCloseTime : Z;
  gl_OldestLedger : Z;
  gl_OldestLedgerCloseTime : Z;
  gl_Cursor : string;
}.

Section Handler.
Context `{V : ScVals} {D : Ledgers} {Drv : Driver} {J : XdrToJson} {R : RpcCodes} {X : LedgerXdr D}.

Record ledgersHandler := mkLedgersHandler {
  lh_maxLimit : Z; lh_defaultLimit : Z; datastoreLedgerReader : option LedgerReader;
}.

Definition parseCursor (cursor : string) (ledgerRange : LedgerSeqRange) : go Z :=
  cursorInt ← ParseUint cursor 32;
  let start := u32 (u32 cursorInt + 1) in
  if negb (IsLedgerWithinRange start ledgerRange)
  then Er (EFmt "cursor must be between the oldest ledger: %d and the latest ledger: %d for this rpc instance"
             [FZ (FirstLedger ledgerRange); FZ (LastLedger ledgerRange)])
  else Ok start.

Definition initializePagination (h : ledgersHandler) (request : GetLedgersRequest) (ledgerRange : LedgerSeqRange) :
    go (Z * Z) :=
  match GL_Pagination request with
  | None => Ok (GL_StartLedger request, lh_defaultLimit h)
  | Some p =>
      start ← (if negb (String.eqb (LCursor p) "") then parseCursor (LCursor p) ledgerRange
               else Ok (GL_StartLedger request));
      Ok (start, if LLimit p <=? 0 then lh_defaultLimit h else LLimit p)
  end.

Definition parseLedgerInfo (ledger : LedgerCloseMeta) (format : string) : go LedgerInfoEntry :=
  let info := mkLedgerInfoEntry (HexEncode (LedgerHash ledger)) (LedgerSequence ledger) (LedgerCloseTime ledger) in
  if String.eqb format FormatJSON then
    parts ← ledgerToJSON ledger;
    Ok (info "" parts.2 "" parts.1)
  else
    closeMetaB ← on_err (EWrap "error marshaling ledger close meta: %w" []) (lcm_MarshalBinary ledger);
    headerB ← on_err (EWrap "error marshaling ledger header: %w" []) (header_MarshalBinary ledger);
    Ok (info (Base64Encode headerB) "" (Base64Encode closeMetaB) "").

Definition fetchFromLocalDB (readTx : ledgerReaderTx) (start endd : Z) : go (list LedgerCloseMeta) :=
  rpc InternalError (on_err (fun e => EFmt "error fetching ledgers from db: %v" [FE e]) (BatchGetLedgers readTx start endd)).
Definition fetchFromDatastore (h : ledgersHandler) (start endd : Z) : go (list LedgerCloseMeta) :=
  match datastoreLedgerReader h with
  | None => Er (ERpc InvalidParams (ENew "datastore ledger reader not configured"))
  | Some r => rpc InternalError (on_err (fun e => EFmt "error fetching ledgers from datastore: %v" [FE e])
                (rd_GetLedgers r start endd))
  end.

(** The conversion loop stops at [limit] results. *)
Fixpoint convert_loop (limit : Z) (format : string) (ledgers : list LedgerCloseMeta) (result : list LedgerInfoEntry) :
    go (list LedgerInfoEntry) :=
  match ledgers with
  | [] => Ok result
  | ledger :: ledgers' =>
      if limit <=? zlen result then Ok result
      else
        info ← rpc InternalError (on_err (fun e => EFmt "error processing ledger %d: %v" [FZ (LedgerSequence ledger); FE e])
                 (parseLedgerInfo ledger format));
        convert_loop limit format ledgers' (result ++ [info])
  end.

Definition fetchLedgers (h : ledgersHandler) (start endd : Z) (format : string) (readTx : ledgerReaderTx)
    (localLedgerRange : LedgerSeqRange) : go (list LedgerInfoEntry) :=
  let limit := u32 (u32 (endd - start) + 1) in
  ledgers ← (if FirstLedger localLedgerRange <=? start then fetchFromLocalDB readTx start endd
             else if endd <? FirstLedger localLedgerRange then fetchFromDatastore h start endd
             else
               dataStoreLedgers ← fetchFromDatastore h start (u32 (FirstLedger localLedgerRange - 1));
               localLedgers ← fetchFromLocalDB readTx (FirstLedger localLedgerRange) endd;
               Ok (dataStoreLedgers ++ localLedgers));
  convert_loop limit format ledgers [].

(** The range of the database, extended by that of the data store when it answers. *)
Definition availableLedgerRange (h : ledgersHandler) (local : LedgerSeqRange) : go LedgerSeqRange :=
  match datastoreLedgerReader h with
  | None => Ok local
  | Some r => match rd_GetAvailableLedgerRange r with
              | Ok dsRange => Ok (mkLSR (Z.min (FirstLedger dsRange) (FirstLedger local)) (LastLedger local))
              | Er _ => Ok local
              | Panic p => Panic p
              end
  end.

Definition getLedgers (h : ledgersHandler) (request : GetLedgersRequest) (w : DB) : go GetLedgersResponse :=
  readTx ← rpc InternalError (ledgerReader_NewTx w);
  ledgerRange ← rpc InternalError (tx_GetLedgerRange readTx);
  let local := ToLedgerSeqRange ledgerRange in
  available ← availableLedgerRange h local;
  _ ← rpc InvalidRequest (check (GetLedgersRequest_Validate request (lh_maxLimit h) available));
  page ← rpc InvalidParams (initializePagination h request available);
  let '(start, limit) := page in
  let endd := u32 (u32 (start + u32 limit) - 1) in
  ledgers ← fetchLedgers h start endd (GL_Format request) readTx local;
  last ← go_index ledgers (zlen ledgers - 1);
  Ok (mkGetLedgersResponse ledgers (Sequence (RLast ledgerRange)) (CloseTime (RLast ledgerRange))
        (Sequence (RFirst ledgerRange)) (CloseTime (RFirst ledgerRange)) (Itoa (li_Sequence last))).

(** ** The contract of a data store *)

Record reader_ok (r : LedgerReader) (first : Z) (archive : Z -> LedgerCloseMeta) : Prop := {
  ro_range : exists l, rd_GetAvailableLedgerRange r = Ok (mkLSR first l);
  ro_get a b : first <= a <= b -> b < u32max -> rd_GetLedgers r a b = Ok (archive <$> seqZ a (b - a + 1));
  ro_seq s : is_u32 s -> LedgerSequence (archive s) = s;
}.

(** ** What a page holds *)

Record ledgers_pre (h : ledgersHandler) (w : DB) (ls : list LedgerCloseMeta) (rng : LedgerRange)
    (first : Z) (archive : Z -> LedgerCloseMeta) : Prop := {
  lp_driver : no_driver_errors;
  lp_keyed : ledgers_keyed (disk w);
  lp_ledgers : all_ledgers (disk w) = ls;
  lp_cache : cache_ok w;
  lp_consecutive : consecutive ls;
  lp_range : range_of (disk w) = Ok rng;
  lp_bounds : 0 < Sequence (RFirst rng) /\ Sequence (RLast rng) < u32max;
  lp_store : match datastoreLedgerReader h with
             | Some r => reader_ok r first archive /\ 0 < first
             | None => first = Sequence (RFirst rng)
             end;
}.

(** The ledger of a sequence: the remote store's below the oldest stored one. *)
Definition ledger_at (w : DB) (rng : LedgerRange) (archive : Z -> LedgerCloseMeta) (s : Z) : LedgerCloseMeta :=
  if s <? Sequence (RFirst rng) then archive s else default (archive s) (ledger_close_meta (disk w) !! s).

Section Page.
Context (h : ledgersHandler) (w : DB) (ls : list LedgerCloseMeta) (rng : LedgerRange) (first : Z).
Context (archive : Z -> LedgerCloseMeta) (Hpre : ledgers_pre h w ls rng first archive).

Notation oldest := (Sequence (RFirst rng)).
Notation latest := (Sequence (RLast rng)).

Lemma range_ends : exists l0 ln, ls !! 0%nat = Some l0 /\ ls !! (length ls - 1)%nat = Some ln /\
  LedgerSequence l0 = oldest /\ LedgerSequence ln = latest /\ latest = oldest + Z.of_nat (length ls - 1).
Proof.
  destruct Hpre as [_ _ Hls _ Hcons Hrng _ _]. unfold range_of in Hrng. rewrite Hls in Hrng.
  destruct ls as [|l0 ls']; [done|]. cbn [head] in Hrng. destruct (last (l0 :: ls')) as [ln|] eqn:E; [|done].
  injection Hrng as <-. rewrite last_lookup in E. replace (pred (length (l0 :: ls'))) with (length (l0 :: ls') - 1)%nat in E by lia.
  exists l0, ln. split_and!; [done..|].
  pose proof (consecutive_nth _ 0 (length (l0 :: ls') - 1) l0 ln Hcons eq_refl E ltac:(lia)) as El.
  cbn [RFirst RLast Sequence info_of]. lia.
Qed.

Lemma stored_at s : oldest <= s <= latest ->
  exists l, l ∈ ls /\ LedgerSequence l = s /\ ledger_close_meta (disk w) !! s = Some l.
Proof.
  intros Hs. destruct range_ends as (l0 & ln & H0 & Hn & E0 & En & El). apply lookup_lt_Some in H0 as Hlen.
  destruct (lookup_lt_is_Some_2 ls (Z.to_nat (s - oldest))) as [l Hl]; [lia|].
  exists l. pose proof Hpre as [_ Hk Hls _ Hcons _ _ _].
  assert (LedgerSequence l = s) as E by (rewrite (consecutive_nth _ 0 _ l0 l Hcons H0 Hl) by lia; lia).
  apply list_elem_of_lookup_2 in Hl as Hin. split_and!; [done..|]. rewrite <- Hls in Hin.
  apply elem_of_all_ledgers in Hin; [|done]. by rewrite E in Hin.
Qed.

Lemma ledger_at_local s : oldest <= s <= latest ->
  ledger_at w rng archive s ∈ ls /\ LedgerSequence (ledger_at w rng archive s) = s.
Proof.
  intros Hs. destruct (stored_at s Hs) as (l & Hin & E & Hl). unfold ledger_at.
  destruct (Z.ltb_spec s oldest); [lia|]. by rewrite Hl.
Qed.

Lemma seqZ_sorted (f : Z -> LedgerCloseMeta) a n : (forall s, a <= s < a + n -> LedgerSequence (f s) = s) ->
  StronglySorted seq_lt (f <$> seqZ a n).
Proof.
  intros Hf. destruct (decide (n <= 0)) as [Hn|Hn]; [rewrite seqZ_nil by lia; constructor|].
  revert a Hf. assert (0 <= n) as Hn' by lia. clear Hn. pattern n. apply natlike_ind; [|clear n Hn'|done].
  - intros a _. constructor.
  - intros n Hn IH a Hf. rewrite seqZ_cons by lia. rewrite Z.pred_succ. cbn. constructor.
    + apply (IH (Z.succ a)). intros s Hs. apply Hf. lia.
    + apply Forall_forall. intros l (s & -> & Hs)%list_elem_of_fmap. apply elem_of_seqZ in Hs.
      unfold seq_lt. rewrite (Hf a), (Hf s); lia.
Qed.

(** A batch read from the database. *)
Lemma batch_local a b : oldest <= a <= latest -> a <= b ->
  filter (fun l => a <= LedgerSequence l <= b) ls =
  ledger_at w rng archive <$> seqZ a (Z.min b latest - a + 1).
Proof.
  intros Ha Hb. pose proof Hpre as [_ Hk Hls _ Hcons _ _ _]. apply seq_lt_unique.
  - apply StronglySorted_filter_any. rewrite <- Hls. by apply ledger_rows_sorted.
  - apply seqZ_sorted. intros s Hs. apply ledger_at_local. lia.
  - intros l. rewrite list_elem_of_filter, list_elem_of_fmap. split.
    + intros [Hl Hin]. exists (LedgerSequence l).
      destruct range_ends as (l0 & ln & H0 & Hn & E0 & En & El).
      apply list_elem_of_lookup in Hin as [i Hi]. apply lookup_lt_Some in Hi as Hlt.
      pose proof (consecutive_nth _ 0 i l0 l Hcons H0 Hi ltac:(lia)) as Es.
      assert (oldest <= LedgerSequence l <= latest) as Hr by lia.
      destruct (stored_at _ Hr) as (l' & Hin' & _ & Hl').
      assert (l = l') as <-.
      { apply list_elem_of_lookup_2 in Hi. rewrite <- Hls in Hi. apply elem_of_all_ledgers in Hi; [|done]. congruence. }
      split; [|apply elem_of_seqZ; lia]. unfold ledger_at. destruct (Z.ltb_spec (LedgerSequence l) oldest); [lia|].
      by rewrite Hl'.
    + intros (s & -> & Hs). apply elem_of_seqZ in Hs. destruct (ledger_at_local s) as [Hin E]; [lia|].
      rewrite E. split; [lia|done].
Qed.

Lemma available_spec : availableLedgerRange h (ToLedgerSeqRange rng) = Ok (mkLSR (Z.min first oldest) latest).
Proof.
  unfold availableLedgerRange. pose proof (lp_store _ _ _ _ _ _ Hpre) as Hst.
  destruct (datastoreLedgerReader h) as [r|].
  - destruct Hst as [[[l ->] _ _] _]. done.
  - rewrite Hst, Z.min_id. done.
Qed.

(** The entries of the ledgers [start], ..., [start + n - 1]. *)
Definition entries_of (format : string) (start n : Z) (infos : list LedgerInfoEntry) : Prop :=
  Forall2 (fun s info => parseLedgerInfo (ledger_at w rng archive s) format = Ok info) (seqZ start n) infos.

Lemma convert_loop_spec limit format l infos : Forall2 (fun x info => parseLedgerInfo x format = Ok info) l infos ->
  forall result, zlen result + zlen l <= limit -> convert_loop limit format l result = Ok (result ++ infos).
Proof.
  induction 1 as [|x info l infos Hx _ IH]; intros result Hlen; [cbn; by rewrite app_nil_r|].
  unfold zlen in Hlen. cbn [length] in Hlen. cbn [convert_loop].
  destruct (Z.leb_spec limit (zlen result)); [unfold zlen in *; lia|]. rewrite Hx. cbn [rpc on_err mbind go_bind].
  rewrite IH, <- (assoc_L app); [done|]. unfold zlen. rewrite length_app. simpl. lia.
Qed.

Lemma ledger_at_remote a n : a + n <= oldest -> ledger_at w rng archive <$> seqZ a n = archive <$> seqZ a n.
Proof.
  intros Hn. apply list_fmap_ext. intros i s Hs. unfold ledger_at.
  apply lookup_seqZ in Hs as [-> Hs]. destruct (Z.ltb_spec (a + Z.of_nat i) oldest); [done|lia].
Qed.

Lemma fetchLedgers_spec rtx start limit format infos :
  (forall a b, a <= b -> BatchGetLedgers rtx a b =
     Ok (filter (fun l => a <= LedgerSequence l <= b) (all_ledgers (disk w)))) ->
  Z.min first oldest <= start <= latest -> 0 < limit -> start + limit - 1 < u32max ->
  entries_of format start (Z.min limit (latest - start + 1)) infos ->
  fetchLedgers h start (start + limit - 1) format rtx (ToLedgerSeqRange rng) = Ok infos.
Proof.
  intros Hbatch Hs Hl He Hinf. pose proof Hpre as [_ _ Hls _ _ _ [Hb1 Hb2] Hst]. unfold u32max in *.
  assert (0 < start) as Hpos by (destruct (datastoreLedgerReader h); lia).
  destruct range_ends as (_ & _ & _ & _ & _ & _ & Hlatest).
  unfold fetchLedgers. cbn [FirstLedger ToLedgerSeqRange].
  rewrite (u32_small (start + limit - 1 - start)), (u32_small (start + limit - 1 - start + 1)) by (unfold is_u32; lia).
  assert (forall l, l = ledger_at w rng archive <$> seqZ start (Z.min limit (latest - start + 1)) ->
    (ledgers ← Ok l; convert_loop (start + limit - 1 - start + 1) format ledgers []) = Ok infos) as Hconv.
  { intros l ->. cbn [mbind go_bind]. rewrite (convert_loop_spec _ _ _ infos); [done| |].
    - unfold entries_of in Hinf. by apply Forall2_fmap_l.
    - unfold zlen. rewrite length_fmap, length_seqZ. simpl. lia. }
  rewrite Hls in Hbatch. destruct (Z.leb_spec oldest start) as [Hloc|Hrem].
  - unfold fetchFromLocalDB. rewrite Hbatch by lia. cbn [rpc on_err]. apply Hconv. rewrite batch_local by lia.
    do 2 f_equal. lia.
  - unfold fetchFromDatastore. destruct (datastoreLedgerReader h) as [r|] eqn:Er; [|lia].
    destruct Hst as [[_ Hget _] _]. destruct (Z.ltb_spec (start + limit - 1) oldest) as [Hall|Hpart].
    + rewrite Hget by (unfold u32max; lia). cbn [rpc on_err]. apply Hconv. rewrite ledger_at_remote by lia.
      do 2 f_equal. lia.
    + rewrite u32_small by (unfold is_u32; lia). rewrite Hget by (unfold u32max; lia). cbn [rpc on_err mbind go_bind].
      unfold fetchFromLocalDB. rewrite Hbatch by lia. cbn [rpc on_err mbind go_bind]. apply Hconv.
      rewrite batch_local by lia. replace (Z.min limit (latest - start + 1)) with
        ((oldest - 1 - start + 1) + (Z.min (start + limit - 1) latest - oldest + 1)) by lia.
      rewrite (seqZ_app start (oldest - 1 - start + 1)), fmap_app, (ledger_at_remote start (oldest - 1 - start + 1)) by lia. do 3 f_equal. lia.
Qed.

Lemma parseLedgerInfo_sequence l format info : parseLedgerInfo l format = Ok info ->
  li_Sequence info = LedgerSequence l.
Proof.
  unfold parseLedgerInfo. destruct (String.eqb format FormatJSON).
  - destruct (ledgerToJSON l) as [p| |]; [|done|done]. by intros [= <-].
  - destruct (on_err _ (lcm_MarshalBinary l)); [|done|done]. cbn [mbind go_bind].
    destruct (on_err _ (header_MarshalBinary l)); [|done|done]. by intros [= <-].
Qed.

Lemma ledger_at_seq s : Z.min first oldest <= s <= latest -> LedgerSequence (ledger_at w rng archive s) = s.
Proof.
  intros Hs. destruct (decide (oldest <= s)); [by destruct (ledger_at_local s ltac:(lia))|].
  unfold ledger_at. destruct (Z.ltb_spec s oldest); [|lia].
  pose proof Hpre as [_ _ _ _ _ _ [Hb1 Hb2] Hst]. destruct (datastoreLedgerReader h); [|lia].
  destruct Hst as [[_ _ Hseq] ?]. apply Hseq. unfold is_u32, u32max in *. lia.
Qed.

Lemma getLedgers_run request start limit infos :
  GetLedgersRequest_Validate request (lh_maxLimit h) (mkLSR (Z.min first oldest) latest) = None ->
  initializePagination h request (mkLSR (Z.min first oldest) latest) = Ok (start, limit) ->
  Z.min first oldest <= start <= latest -> 0 < limit -> start + limit - 1 < u32max ->
  entries_of (GL_Format request) start (Z.min limit (latest - start + 1)) infos ->
  getLedgers h request w = Ok (mkGetLedgersResponse infos latest (CloseTime (RLast rng)) oldest (CloseTime (RFirst rng))
    (Itoa (start + Z.min limit (latest - start + 1) - 1))).
Proof.
  intros Hv Hpage Hs Hl He Hinf. pose proof Hpre as [Hd Hk Hls Hc _ Hrng [Hb1 Hb2] Hst].
  assert (0 < start) as Hpos by (destruct (datastoreLedgerReader h); lia).
  destruct (ledgerReader_NewTx_spec w Hd Hk Hc) as (rtx & Hnew & Hrange & _ & Hbatch & _).
  unfold getLedgers. rewrite Hnew. cbn [rpc on_err mbind go_bind]. rewrite Hrange, Hrng. cbn [rpc on_err mbind go_bind].
  rewrite available_spec. cbn [mbind go_bind]. rewrite Hv. cbn [check rpc on_err mbind go_bind].
  rewrite Hpage. cbn [rpc on_err mbind go_bind]. unfold u32max in *.
  rewrite (u32_small limit), (u32_small (start + limit)), u32_small by (unfold is_u32; lia).
  rewrite (fetchLedgers_spec rtx start limit _ infos) by done. cbn [mbind go_bind].
  set (n := Z.min limit (latest - start + 1)) in *.
  pose proof (Forall2_length _ _ _ Hinf) as Hlen. rewrite length_seqZ in Hlen.
  destruct (lookup_lt_is_Some_2 infos (Z.to_nat (n - 1))) as [info Hi]; [lia|].
  assert (go_index infos (zlen infos - 1) = Ok info) as ->.
  { replace (zlen infos - 1) with (n - 1) by (unfold zlen; lia). unfold go_index. destruct (Z.ltb_spec (n - 1) 0); [lia|]. by rewrite Hi. }
  cbn [mbind go_bind]. do 3 f_equal.
  destruct (Forall2_lookup_r _ _ _ _ _ Hinf Hi) as (s & Hsq & Hp).
  rewrite (parseLedgerInfo_sequence _ _ _ Hp). apply lookup_seqZ in Hsq as [-> _].
  rewrite ledger_at_seq by lia. lia.
Qed.

(** C17: A page of getLedgers is the ledgers from its start, as many as the limit
    and the latest ledger allow, each in the form [parseLedgerInfo] gives, taken
    from the database where it has them and from the data store below; its cursor
    is the last sequence, the next request continues right after it, and fails
    with InvalidParams once the latest ledger was returned. *)
Theorem getLedgers_page request start limit infos :
  GetLedgersRequest_Validate request (lh_maxLimit h) (mkLSR (Z.min first oldest) latest) = None ->
  initializePagination h request (mkLSR (Z.min first oldest) latest) = Ok (start, limit) ->
  Z.min first oldest <= start <= latest -> 0 < limit <= lh_maxLimit h -> start + limit - 1 < u32max ->
  let n := Z.min limit (latest - start + 1) in
  entries_of (GL_Format request) start n infos ->
  exists r, getLedgers h request w = Ok r /\ gl_Ledgers r = infos /\ zlen infos = n /\
    gl_LatestLedger r = latest /\ gl_OldestLedger r = oldest /\
    let next := mkGLR 0 (Some (mkLPO (gl_Cursor r) limit)) (GL_Format request) in
    if start + n - 1 <? latest
    then initializePagination h next (mkLSR (Z.min first oldest) latest) = Ok (start + n, limit)
    else exists e, getLedgers h next w = Er (ERpc InvalidParams e).
Proof.
  intros Hv Hpage Hs Hl He n Hinf. pose proof (getLedgers_run request start limit infos Hv Hpage Hs ltac:(lia) He Hinf) as Hrun.
  fold n in Hrun. eexists. split; [exact Hrun|]. cbn [gl_Ledgers gl_LatestLedger gl_OldestLedger gl_Cursor].
  pose proof (Forall2_length _ _ _ Hinf) as Hlen. rewrite length_seqZ in Hlen.
  split_and!; [done|unfold zlen; lia|done|done|].
  pose proof Hpre as [Hd Hk Hls Hc _ Hrng [Hb1 Hb2] Hst]. unfold u32max in *.
  assert (0 < start) as Hpos by (destruct (datastoreLedgerReader h); lia).
  assert (ParseUint (Itoa (start + n - 1)) 32 = Ok (start + n - 1)) as Hparse by (apply ParseUint_Itoa; lia).
  assert (Itoa (start + n - 1) <> ""%string) as Hne by (intros E; rewrite E in Hparse; discriminate).
  set (next := mkGLR _ _ _). set (avail := mkLSR _ _) in *.
  assert (forall r, parseCursor (Itoa (start + n - 1)) avail = r ->
    initializePagination h next avail = s ← r; Ok (s, limit)) as Hinit.
  { intros r <-. unfold initializePagination, next. cbn [GL_Pagination LCursor LLimit GL_StartLedger].
    destruct (String.eqb_spec (Itoa (start + n - 1)) ""); [done|]. cbn [negb].
    destruct (Z.leb_spec limit 0); [lia|done]. }
  assert (parseCursor (Itoa (start + n - 1)) avail =
    if IsLedgerWithinRange (start + n) avail then Ok (start + n)
    else Er (EFmt "cursor must be between the oldest ledger: %d and the latest ledger: %d for this rpc instance"
             [FZ (FirstLedger avail); FZ (LastLedger avail)])) as Hcur.
  { unfold parseCursor. rewrite Hparse. cbn [mbind go_bind].
    rewrite (u32_small (start + n - 1)), u32_small by (unfold is_u32; lia).
    replace (start + n - 1 + 1) with (start + n) by lia. by destruct (IsLedgerWithinRange _ _). }
  destruct (Z.ltb_spec (start + n - 1) latest) as [Hmore|Hend].
  - rewrite (Hinit _ Hcur). assert (IsLedgerWithinRange (start + n) avail = true) as ->; [|done].
    apply IsLedgerWithinRange_iff. unfold avail. cbn [FirstLedger LastLedger]. lia.
  - assert (IsLedgerWithinRange (start + n) avail = false) as Hout.
    { apply not_true_iff_false. rewrite IsLedgerWithinRange_iff. unfold avail. cbn [FirstLedger LastLedger]. lia. }
    rewrite Hout in Hcur. eexists. destruct (ledgerReader_NewTx_spec w Hd Hk Hc) as (rtx & Hnew & Hrange & _).
    unfold getLedgers. rewrite Hnew. cbn [rpc on_err mbind go_bind]. rewrite Hrange, Hrng. cbn [rpc on_err mbind go_bind].
    rewrite available_spec. cbn [mbind go_bind]. fold avail.
    assert (GetLedgersRequest_Validate next (lh_maxLimit h) avail = None) as ->.
    { apply errors_Join_None in Hv. inversion Hv as [|? ? _ Hf]; subst.
      apply errors_Join_None. constructor; [|exact Hf]. apply ValidatePagination_None. simpl. split_and!; [done..|lia]. }
    cbn [check rpc on_err mbind go_bind]. rewrite (Hinit _ Hcur). reflexivity.
Qed.
End Page.
End Handler.

(** ** The reader of [rpcdatastore] meets the contract *)

Section Buffered.
Context `{V : ScVals} {D : Ledgers} {B : BufferedBackend D} {BL : BufferedBackendLaws B}.

Lemma fetch_loop_spec fuel a b bk : bb_ready a b bk -> a <= b + 1 -> is_u32 a -> b < u32max ->
  (Z.to_nat (b - a + 1) < fuel)%nat -> fetch_loop fuel a b bk = Ok (archived <$> seqZ a (b - a + 1)).
Proof.
  revert a bk. induction fuel as [|fuel IH]; intros a bk Hr Ha Hu Hb Hf; [lia|]. cbn [fetch_loop].
  destruct (Z.leb_spec a b) as [Hle|Hgt].
  - destruct (bb_get a b bk Hr Hle) as (bk' & -> & Hr'). cbn [mbind go_bind snd fst].
    unfold u32max in *. rewrite u32_small by (unfold is_u32 in *; lia).
    rewrite (IH (a + 1) bk') by (unfold is_u32 in *; done || lia). cbn [mbind go_bind].
    rewrite (seqZ_cons a) by lia. cbn. by replace (Z.pred (b - a + 1)) with (b - (a + 1) + 1) by lia.
  - by rewrite seqZ_nil by lia.
Qed.

(** The reader returns the archived ledgers of a range, in order, and fetches
    terminate on every range below the largest 32-bit integer. *)
Lemma rpcdatastore_ok : reader_ok NewLedgerReader 2 archived.
Proof.
  constructor.
  - by exists 0.
  - intros a b Hab Hb. cbn [NewLedgerReader rd_GetLedgers]. unfold GetLedgers.
    destruct bb_new as (bk & -> & Hprep). cbn [on_err mbind go_bind].
    destruct (Hprep a b) as (bk' & -> & Hr); [lia|unfold is_u32, u32max in *; lia|]. cbn [mbind go_bind].
    apply fetch_loop_spec; [done|lia|unfold is_u32, u32max in *; lia|done|lia].
  - apply archived_seq.
Qed.
End Buffered.

(** ** A concrete run: the page 5, 6, 7 of a database that starts at 7 *)

#[export] Instance toy_backend : BufferedBackend toy_ledgers := {
  backend := unit;
  NewBufferedBackend := Ok tt;
  bb_PrepareRange _ _ b := Ok b;
  bb_GetLedger s b := Ok (sample_ledger s, b);
}.
#[export] Instance toy_backend_laws : BufferedBackendLaws toy_backend.
Proof.
  apply (Build_BufferedBackendLaws _ _ toy_backend sample_ledger (fun s _ => eq_refl) (fun _ _ _ => True)).
  - exists tt. split; [done|]. intros x y _ _. by exists tt.
  - intros x y b _ _. by exists b.
Defined.

Definition sample_ledgers_handler : ledgersHandler := mkLedgersHandler 10 10 (Some NewLedgerReader).
Definition sample_ledgers_range : LedgerRange := mkRange (mkInfo 7 35) (mkInfo 9 45).

Lemma sample_ledgers_pre : ledgers_pre sample_ledgers_handler sample_db
  [sample_ledger 7; sample_ledger 8; sample_ledger 9] sample_ledgers_range 2 sample_ledger.
Proof.
  constructor.
  - by intros n t.
  - apply sample_ledgers_keyed.
  - vm_compute. reflexivity.
  - by left.
  - apply (bo_consecutive _ sample_batch).
  - vm_compute. reflexivity.
  - unfold u32max. simpl. lia.
  - split; [exact (rpcdatastore_ok (BL := toy_backend_laws))|lia].
Qed.

Definition sample_entry (s : Z) : LedgerInfoEntry :=
  match parseLedgerInfo (sample_ledger s) "" with Ok i => i | _ => mkLedgerInfoEntry "" 0 0 "" "" "" "" end.

Lemma getLedgers_page_witness : exists r,
  getLedgers sample_ledgers_handler (mkGLR 5 (Some (mkLPO "" 3)) "") sample_db = Ok r /\
  gl_Ledgers r = sample_entry <$> [5; 6; 7].
Proof.
  destruct (getLedgers_page _ _ _ _ _ _ sample_ledgers_pre (mkGLR 5 (Some (mkLPO "" 3)) "") 5 3 (sample_entry <$> [5; 6; 7]))
    as (r & Hrun & Hl & _).
  - reflexivity.
  - reflexivity.
  - simpl. lia.
  - simpl. lia.
  - unfold u32max. lia.
  - unfold entries_of. repeat constructor; vm_compute; reflexivity.
  - exists r. split; [exact Hrun|exact Hl].
Defined.
