(* ===== verification/LedgerEntries.v ===== *)
(** * getLedgerEntries: [ledgerentries/main.go], [methods/get_ledger_entries.go]

    Ledger entries are read from Core at the latest ledger the database holds;
    the endpoint answers with the entries found, in the order of the request. *)

From S2P Require Import Prelude GoStd Externals Protocol BucketWindow LedgerMeta Store LedgerStore EventStore TxStore WriteTx Ingest Migration Daemon Convert.

(** ** Outside code: ledger keys and entries of [xdr], Core's client *)

Class LedgerEntryXdr := {
  LedgerKey : Type;
  key_UnmarshalBase64 : string -> go LedgerKey;
  key_MarshalBase64 : LedgerKey -> go string;
  key_MarshalBinary : LedgerKey -> go string;
  key_Type : LedgerKey -> Z;
  key_text : LedgerKey -> string;
  LedgerEntryTypeTtl : Z;
  LedgerEntry : Type;
  entry_UnmarshalBase64 : string -> go LedgerEntry;
  entry_Data_MarshalBase64 : LedgerEntry -> go string;
  entry_Data_MarshalBinary : LedgerEntry -> go string;
  entry_LastModifiedLedgerSeq : LedgerEntry -> Z;
  entry_text : LedgerEntry -> string;
}.

(** [stellarcore.LedgerEntryResponse]: an entry's text, state and time to live. *)
Class CoreStates := {
  entry_state : Type;
  entry_state_eq_dec :: EqDecision entry_state;
  LedgerEntryStateNotFound : entry_state;
  LedgerEntryStateArchived : entry_state;
}.
Record CoreEntry {H : CoreStates} := mkCoreEntry { ce_Entry : string; ce_State : entry_state; ce_LiveUntilLedgerSeq : Z }.
Arguments mkCoreEntry {H} _ _ _.
Class CoreClient `{E : LedgerEntryXdr} `{S : CoreStates} := {
  core_GetLedgerEntries : Z -> list LedgerKey -> go (list CoreEntry);
}.

Section LedgerEntries.
Context `{V : ScVals} {D : Ledgers} {Drv : Driver} {J : XdrToJson} {R : RpcCodes}.
Context {E : LedgerEntryXdr} {CS : CoreStates} {C : CoreClient}.

(** ** [ledgerentries.LedgerEntryGetter] *)

Record LedgerKeyAndEntry := mkKeyAndEntry {
  ke_Key : LedgerKey; ke_Entry : LedgerEntry; ke_LiveUntilLedgerSeq : option Z;
}.

(** The loop over Core's answer: [i] is the position in it. *)
Fixpoint entries_loop (keys : list LedgerKey) (i : Z) (es : list CoreEntry) : go (list LedgerKeyAndEntry) :=
  match es with
  | [] => Ok []
  | entry :: es' =>
      if decide (ce_State entry = LedgerEntryStateNotFound) then entries_loop keys (i + 1) es'
      else
        xdrEntry ← on_err (EWrap "could not decode ledger entry: %w" []) (entry_UnmarshalBase64 (ce_Entry entry));
        key ← go_index keys i;
        let ttl := if negb (ce_LiveUntilLedgerSeq entry =? 0) || bool_decide (ce_State entry = LedgerEntryStateArchived)
                   then Some (ce_LiveUntilLedgerSeq entry) else None in
        result ← entries_loop keys (i + 1) es';
        Ok (mkKeyAndEntry key xdrEntry ttl :: result)
  end.

(** [coreLedgerEntryGetter.GetLedgerEntries]; ledger 0 stands for the latest. *)
Definition GetLedgerEntries (at_ledger : Z) (keys : list LedgerKey) : st DB (list LedgerKeyAndEntry * Z) :=
  atLedger ← (if at_ledger =? 0
              then wrap_err (EWrap "could not get latest ledger: %w" []) GetLatestLedgerSequence
              else mret at_ledger);
  resp ← lift (on_err (EWrap "could not query captive core: %w" []) (core_GetLedgerEntries atLedger keys));
  result ← lift (entries_loop keys 0 resp);
  mret (result, atLedger).
Definition NewLedgerEntryGetter : list LedgerKey -> st DB (list LedgerKeyAndEntry * Z) := GetLedgerEntries 0.
Definition NewLedgerEntryAtGetter (atLedger : Z) : list LedgerKey -> st DB (list LedgerKeyAndEntry * Z) :=
  GetLedgerEntries atLedger.

(** ** The endpoint *)

Definition ErrLedgerTTLEntriesCannotBeQueriedDirectly : string := "ledger ttl entries cannot be queried directly".
Definition getLedgerEntriesMaxKeys : Z := 200.

Record GetLedgerEntriesRequest := mkGLER { gler_Keys : list string; gler_Format : string }.
Record LedgerEntryResult := mkLedgerEntryResult {
  ler_KeyXDR : string;
  ler_KeyJSON : string;
  ler_DataXDR : string;
  ler_DataJSON : string;
  ler_LastModifiedLedger : Z;
  ler_LiveUntilLedgerSeq : option Z;
}.
Record GetLedgerEntriesResponse := mkGetLedgerEntriesResponse { gle_Entries : list LedgerEntryResult; gle_LatestLedger : Z }.

Fixpoint decode_keys (i : Z) (keys : list string) : go (list LedgerKey) :=
  match keys with
  | [] => Ok []
  | requestKey :: keys' =>
      match key_UnmarshalBase64 requestKey with
      | Panic p => Panic p
      | Er _ => Er (ERpc InvalidParams (EFmt "cannot unmarshal key value %s at index %d" [FS requestKey; FZ i]))
      | Ok ledgerKey =>
          if key_Type ledgerKey =? LedgerEntryTypeTtl
          then Er (ERpc InvalidParams (ENew ErrLedgerTTLEntriesCannotBeQueriedDirectly))
          else rest ← decode_keys (i + 1) keys'; Ok (ledgerKey :: rest)
      end
  end.

(** [requestKeyToOrder]: a key's last position. *)
Fixpoint requestKeyToOrder (i : Z) (keys : list string) (m : gmap string Z) : gmap string Z :=
  match keys with
  | [] => m
  | key :: keys' => requestKeyToOrder (i + 1) keys' (<[key := i]> m)
  end.

Fixpoint orderings (m : gmap string Z) (keyEntries : list LedgerKeyAndEntry) : go (list (Z * LedgerKeyAndEntry)) :=
  match keyEntries with
  | [] => Ok []
  | keyEntry :: keyEntries' =>
      b64Key ← key_MarshalBase64 (ke_Key keyEntry);
      order ← match m !! b64Key with
              | Some order => Ok order
              | None => Er (EFmt "mismatching key in result: %s" [FS b64Key])
              end;
      rest ← orderings m keyEntries';
      Ok ((order, keyEntry) :: rest)
  end.

(** [keyEntriesAndOrdering]: the order [sort.Sort] sorts by.  It leaves the order
    of entries with one position, that is of one key, open. *)
Definition order_le (a b : Z * LedgerKeyAndEntry) : Prop := a.1 <= b.1.
#[local] Instance order_le_dec : RelDecision order_le.
Proof. intros a b. unfold order_le. apply _. Defined.

Definition sortKeysAndEntriesAccordingToRequest (b64RequestKeys : list string) (keyEntries : list LedgerKeyAndEntry) :
    go (list LedgerKeyAndEntry) :=
  ordering ← orderings (requestKeyToOrder 0 b64RequestKeys ∅) keyEntries;
  Ok (merge_sort order_le ordering).*2.

Definition ledgerKeyEntryToResult (keyEntry : LedgerKeyAndEntry) (format : string) : go LedgerEntryResult :=
  let done keyXDR keyJSON dataXDR dataJSON := Ok (mkLedgerEntryResult keyXDR keyJSON dataXDR dataJSON
    (u32 (entry_LastModifiedLedgerSeq (ke_Entry keyEntry))) (ke_LiveUntilLedgerSeq keyEntry)) in
  if String.eqb format FormatJSON then
    keyJs ← ConvertInterface "LedgerKey" (key_MarshalBinary (ke_Key keyEntry));
    entryJs ← ConvertInterface "LedgerEntryData" (entry_Data_MarshalBinary (ke_Entry keyEntry));
    done "" keyJs "" entryJs
  else
    keyXDR ← on_err (EWrap "could not serialize ledger key %v: %w" [FS (key_text (ke_Key keyEntry))])
               (key_MarshalBase64 (ke_Key keyEntry));
    entryXDR ← on_err (EWrap "could not serialize ledger entry %v: %w" [FS (entry_text (ke_Entry keyEntry))])
                 (entry_Data_MarshalBase64 (ke_Entry keyEntry));
    done keyXDR "" entryXDR "".

Definition handle_getLedgerEntries (request : GetLedgerEntriesRequest) : st DB GetLedgerEntriesResponse :=
  _ ← lift (rpc InvalidParams (check (IsValidFormat (gler_Format request))));
  if getLedgerEntriesMaxKeys <? zlen (gler_Keys request) then
    lift (Er (ERpc InvalidParams (EFmt "key count (%d) exceeds maximum supported (%d)"
      [FZ (zlen (gler_Keys request)); FZ getLedgerEntriesMaxKeys])))
  else
    ledgerKeys ← lift (decode_keys 0 (gler_Keys request));
    found ← wrap_err (ERpc InternalError) (NewLedgerEntryGetter ledgerKeys);
    let '(ledgerKeysAndEntries, latestLedger) := found in
    sorted ← lift (rpc InternalError (sortKeysAndEntriesAccordingToRequest (gler_Keys request) ledgerKeysAndEntries));
    ledgerEntryResults ← lift (rpc InternalError (mapM (fun ke => ledgerKeyEntryToResult ke (gler_Format request)) sorted));
    mret (mkGetLedgerEntriesResponse ledgerEntryResults latestLedger).

(** ** The order of the answer *)

Lemma requestKeyToOrder_out keys t i m : t ∉ keys -> requestKeyToOrder i keys m !! t = m !! t.
Proof.
  revert i m. induction keys as [|k keys IH]; intros i m Ht; [done|]. apply not_elem_of_cons in Ht as [Hne Ht].
  cbn [requestKeyToOrder]. rewrite IH by done. by rewrite lookup_insert_ne.
Qed.
Lemma requestKeyToOrder_at keys t (j : nat) i m : NoDup keys -> keys !! j = Some t ->
  requestKeyToOrder i keys m !! t = Some (i + Z.of_nat j).
Proof.
  intros Hnd. revert j i m. induction Hnd as [|k keys Hk Hnd IH]; intros j i m Hj; [done|].
  cbn [requestKeyToOrder]. destruct j as [|j]; simpl in Hj.
  - injection Hj as ->. rewrite requestKeyToOrder_out, lookup_insert_eq by done. f_equal. lia.
  - rewrite (IH j) by done. f_equal. lia.
Qed.

Definition order_lt (a b : Z * LedgerKeyAndEntry) : Prop := a.1 < b.1.

(** Sorting what is in order already changes nothing. *)
Lemma merge_sort_ordered l : StronglySorted order_lt l -> merge_sort order_le l = l.
Proof.
  intros Hs. assert (forall x y, x ∈ l -> y ∈ l -> x.1 = y.1 -> x = y) as Hinj.
  { induction Hs as [|z l Hs IH Hz]; intros x y Hx Hy Exy; [by apply not_elem_of_nil in Hx|].
    rewrite Forall_forall in Hz. unfold order_lt in Hz.
    apply elem_of_cons in Hx as [->|Hx], Hy as [->|Hy]; [done|specialize (Hz _ Hy); lia|specialize (Hz _ Hx); lia|by apply IH]. }
  pose proof (merge_sort_Permutation order_le l) as Hp.
  assert (Transitive order_le) as Htr by (intros x y z; unfold order_le; lia).
  assert (Total order_le) as Htot by (intros x y; unfold order_le; lia).
  apply (StronglySorted_unique_strong order_le); [|by apply StronglySorted_merge_sort| |exact Hp].
  - intros x y Hx Hy H1 H2. rewrite Hp in Hx. apply Hinj; [done..|]. unfold order_le in *. lia.
  - clear Hinj Hp. induction Hs as [|z l Hs IH Hz]; constructor; [done|].
    eapply Forall_impl; [exact Hz|]. intros x. unfold order_lt, order_le. lia.
Qed.

(** What one key is answered with. *)
Definition answers (format : string) (k : LedgerKey) (e : CoreEntry) (o : option LedgerEntryResult) : Prop :=
  if decide (ce_State e = LedgerEntryStateNotFound) then o = None
  else exists x r, entry_UnmarshalBase64 (ce_Entry e) = Ok x /\ o = Some r /\
    ledgerKeyEntryToResult (mkKeyAndEntry k x
      (if negb (ce_LiveUntilLedgerSeq e =? 0) || bool_decide (ce_State e = LedgerEntryStateArchived)
       then Some (ce_LiveUntilLedgerSeq e) else None)) format = Ok r.

Lemma entries_spec format (texts : list string) (ks : list LedgerKey) (m : gmap string Z) : (forall j t, texts !! j = Some t -> m !! t = Some (Z.of_nat j)) ->
  forall (es : list CoreEntry) (i : nat) (outcomes : list (option LedgerEntryResult)), length outcomes = length es ->
  (forall j e, es !! j = Some e -> exists k t o, ks !! (i + j)%nat = Some k /\ texts !! (i + j)%nat = Some t /\
     key_MarshalBase64 k = Ok t /\ outcomes !! j = Some o /\ answers format k e o) ->
  exists kes ord, entries_loop ks (Z.of_nat i) es = Ok kes /\ orderings m kes = Ok ord /\ ord.*2 = kes /\
    StronglySorted order_lt ord /\ Forall (fun x => Z.of_nat i <= x.1) ord /\
    mapM (fun ke => ledgerKeyEntryToResult ke format) kes = Ok (omap id outcomes).
Proof.
  intros Hm es. induction es as [|e es IH]; intros i outcomes Hlen Hes.
  { destruct outcomes; [|done]. exists [], []. split_and!; try done; constructor. }
  destruct outcomes as [|o outcomes]; [done|]. injection Hlen as Hlen.
  destruct (Hes O e eq_refl) as (k & t & o' & Hk & Ht & Hkt & Ho & Ha). injection Ho as <-. rewrite Nat.add_0_r in Hk, Ht.
  destruct (IH (S i) outcomes Hlen) as (kes & ord & Hloop & Hord & Hkes & Hsort & Hge & Hres).
  { intros j e' Hj. destruct (Hes (S j) e' Hj) as (k' & t' & o'' & H). rewrite Nat.add_succ_r in H. by exists k', t', o''. }
  replace (Z.of_nat (S i)) with (Z.of_nat i + 1) in * by lia.
  cbn [entries_loop]. unfold answers in Ha. destruct (decide (ce_State e = LedgerEntryStateNotFound)) as [Hnf|Hf].
  - subst o. exists kes, ord. split_and!; try done. eapply Forall_impl; [exact Hge|]. simpl. lia.
  - destruct Ha as (x & r & Hx & -> & Hr). rewrite Hx. cbn [on_err mbind go_bind].
    rewrite (go_index_nat _ _ _ Hk). cbn [mbind go_bind]. rewrite Hloop. cbn [mbind go_bind].
    set (ke := mkKeyAndEntry k x _) in *. exists (ke :: kes), ((Z.of_nat i, ke) :: ord). split_and!.
    + done.
    + cbn [orderings ke_Key ke]. rewrite Hkt. cbn [mbind go_bind]. rewrite (Hm _ _ Ht). cbn [mbind go_bind]. by rewrite Hord.
    + cbn. by rewrite Hkes.
    + constructor; [done|]. eapply Forall_impl; [exact Hge|]. unfold order_lt. simpl. lia.
    + constructor; [simpl; lia|]. eapply Forall_impl; [exact Hge|]. simpl. lia.
    + cbn. rewrite Hr. cbn. by rewrite Hres.
Qed.

Lemma decode_keys_spec keys ks i :
  Forall2 (fun t k => key_UnmarshalBase64 t = Ok k /\ key_MarshalBase64 k = Ok t /\ key_Type k <> LedgerEntryTypeTtl) keys ks ->
  decode_keys i keys = Ok ks.
Proof.
  intros H. revert i. induction H as [|t k keys ks (Hu & _ & Ht) _ IH]; intros i; [done|]. cbn [decode_keys].
  rewrite Hu. destruct (Z.eqb_spec (key_Type k) LedgerEntryTypeTtl); [done|]. by rewrite IH.
Qed.

(** C21: getLedgerEntries answers a request for distinct keys with exactly the
    entries Core found at the latest stored ledger, in the order of the request,
    each with its own key, data and time to live (0 for archived ones), and names
    that ledger. *)
Theorem getLedgerEntries_found request ks es outcomes l w : no_driver_errors -> ledgers_keyed (disk w) ->
  sess_tx w = None -> cache_ok w -> last (all_ledgers (disk w)) = Some l ->
  IsValidFormat (gler_Format request) = None -> zlen (gler_Keys request) <= getLedgerEntriesMaxKeys ->
  NoDup (gler_Keys request) ->
  Forall2 (fun t k => key_UnmarshalBase64 t = Ok k /\ key_MarshalBase64 k = Ok t /\ key_Type k <> LedgerEntryTypeTtl)
    (gler_Keys request) ks ->
  core_GetLedgerEntries (LedgerSequence l) ks = Ok es -> length es = length ks ->
  Forall2 (fun ke o => answers (gler_Format request) ke.1 ke.2 o) (zip ks es) outcomes ->
  exists w', handle_getLedgerEntries request w =
    (Ok (mkGetLedgerEntriesResponse (omap id outcomes) (LedgerSequence l)), w') /\ disk w' = disk w /\ sess_tx w' = None.
Proof.
  intros Hd Hk Hs Hc Hl Hf Hmax Hnd Hks Hcore Hlen Hout.
  destruct (getLatestLedgerSequence_spec w) as (w' & Hlatest & Hdisk & Hsess & _); [by intros n|done..|].
  rewrite Hl in Hlatest. exists w'. split; [|done].
  pose proof (Forall2_length _ _ _ Hout) as Hlo. rewrite length_zip_with in Hlo.
  destruct (entries_spec (gler_Format request) (gler_Keys request) ks (requestKeyToOrder 0 (gler_Keys request) ∅)) with
    (es := es) (i := O) (outcomes := outcomes) as (kes & ord & Hloop & Hord & <- & Hsort & _ & Hres).
  { intros j t Hj. by rewrite (requestKeyToOrder_at _ _ j). }
  { lia. }
  { intros j e Hj. simpl. apply lookup_lt_Some in Hj as Hlt.
    destruct (lookup_lt_is_Some_2 ks j) as [k Hkj]; [lia|]. destruct (lookup_lt_is_Some_2 outcomes j) as [o Ho]; [lia|].
    destruct (Forall2_lookup_r _ _ _ _ _ Hks Hkj) as (t & Ht & _ & Hkt & _).
    exists k, t, o. split_and!; [done..|]. assert (zip ks es !! j = Some (k, e)) as Hz by (by rewrite lookup_zip_with, Hkj; simpl; rewrite Hj).
    destruct (Forall2_lookup_l _ _ _ _ _ Hout Hz) as (o' & Ho' & Ha). rewrite Ho in Ho'. by injection Ho' as <-. }
  unfold handle_getLedgerEntries. rewrite Hf. unfold mbind at 1, st_bind at 1. cbn [check rpc on_err lift].
  destruct (Z.ltb_spec getLedgerEntriesMaxKeys (zlen (gler_Keys request))); [lia|].
  rewrite (decode_keys_spec _ ks) by done. unfold mbind at 1, st_bind at 1. cbn [lift].
  assert (NewLedgerEntryGetter ks w = (Ok (ord.*2, LedgerSequence l), w')) as Hget.
  { unfold NewLedgerEntryGetter, GetLedgerEntries. cbn [Z.eqb]. unfold wrap_err, GetLatestLedgerSequence, mbind, st_bind.
    rewrite Hlatest. cbn [on_err]. unfold lift. rewrite Hcore. cbn [on_err]. change 0 with (Z.of_nat O). by rewrite Hloop. }
  unfold wrap_err. unfold mbind at 1, st_bind at 1. rewrite Hget. cbn [on_err].
  assert (sortKeysAndEntriesAccordingToRequest (gler_Keys request) ord.*2 = Ok ord.*2) as Hsorted.
  { unfold sortKeysAndEntriesAccordingToRequest. rewrite Hord. cbn [mbind go_bind]. by rewrite merge_sort_ordered. }
  rewrite Hsorted. unfold mbind at 1, st_bind at 1. cbn [rpc on_err lift].
  unfold mbind at 1, st_bind at 1. rewrite Hres. reflexivity.
Qed.
End LedgerEntries.

(** ** A concrete run *)

#[export] Instance toy_entries : LedgerEntryXdr := {
  LedgerKey := string;
  key_UnmarshalBase64 s := Ok s;
  key_MarshalBase64 k := Ok k;
  key_MarshalBinary k := Ok k;
  key_Type k := if String.eqb k "ttl" then 9 else 6;
  key_text k := k;
  LedgerEntryTypeTtl := 9;
  LedgerEntry := string;
  entry_UnmarshalBase64 s := Ok s;
  entry_Data_MarshalBase64 e := Ok e;
  entry_Data_MarshalBinary e := Ok e;
  entry_LastModifiedLedgerSeq _ := 5;
  entry_text e := e;
}.
#[export] Instance toy_states : CoreStates := {
  entry_state := nat; LedgerEntryStateNotFound := 0%nat; LedgerEntryStateArchived := 1%nat;
}.
Definition toy_answer (k : string) : CoreEntry (H := toy_states) :=
  if String.eqb k "gone" then mkCoreEntry "" 0%nat 0
  else if String.eqb k "old" then mkCoreEntry "e:old" 1%nat 0
  else mkCoreEntry ("e:" +:+ k) 2%nat 20.
#[export] Instance toy_core : CoreClient (E := toy_entries) (S := toy_states) := {
  core_GetLedgerEntries _ keys := Ok (toy_answer <$> keys);
}.

Lemma getLedgerEntries_found_witness : exists w',
  handle_getLedgerEntries (mkGLER ["b"; "gone"; "a"; "old"] "") sample_db =
    (Ok (mkGetLedgerEntriesResponse
           [mkLedgerEntryResult "b" "" "e:b" "" 5 (Some 20); mkLedgerEntryResult "a" "" "e:a" "" 5 (Some 20);
            mkLedgerEntryResult "old" "" "e:old" "" 5 (Some 0)] 9), w') /\
  disk w' = disk sample_db /\ sess_tx w' = None.
Proof.
  apply (getLedgerEntries_found (E := toy_entries) (CS := toy_states) (mkGLER ["b"; "gone"; "a"; "old"] "") ["b"; "gone"; "a"; "old"]%string
    (toy_answer <$> ["b"; "gone"; "a"; "old"]%string)
    [Some (mkLedgerEntryResult "b" "" "e:b" "" 5 (Some 20)); None; Some (mkLedgerEntryResult "a" "" "e:a" "" 5 (Some 20));
     Some (mkLedgerEntryResult "old" "" "e:old" "" 5 (Some 0))] (sample_ledger 9) sample_db).
  - by intros n t.
  - apply sample_ledgers_keyed.
  - reflexivity.
  - by left.
  - vm_compute. reflexivity.
  - reflexivity.
  - vm_compute. discriminate.
  - apply (bool_decide_unpack _). vm_compute. exact I.
  - repeat constructor; simpl; discriminate.
  - reflexivity.
  - reflexivity.
  - repeat constructor; (reflexivity || (eexists _, _; split_and!; reflexivity)).
Defined.
