(* ===== verification/Submit.v ===== *)
(** * sendTransaction: [methods/send_transaction.go], [daemon/metrics.go]

    A transaction is checked, submitted to Core once through the daemon's counting
    client, and Core's answer turned into the response.  The submissions and the
    observations made of them are the endpoint's effect. *)

From S2P Require Import Prelude GoStd Externals Protocol BucketWindow LedgerMeta Store LedgerStore EventStore TxStore WriteTx Ingest Migration Daemon Convert.

(** ** Outside code: Core's client, envelopes, results *)

(** [proto.TXResponse] *)
Record TXResponse := mkTXResponse {
  tx_Exception : string; tx_Error : string; tx_Status : string; tx_DiagnosticEvents : string;
}.
Class TxSubmission `{V : ScVals} := {
  TransactionEnvelope : Type;
  envelope_UnmarshalBase64 : string -> go TransactionEnvelope;
  Operations : TransactionEnvelope -> list string;
  HashTransactionInEnvelope : TransactionEnvelope -> string -> go string;
  SubmitTransaction : string -> go TXResponse;
  IsException : TXResponse -> bool;
  TXStatusError : string;
  TXStatusPending : string;
  TXStatusDuplicate : string;
  TXStatusTryAgainLater : string;
  TransactionResult : Type;
  result_UnmarshalBase64 : string -> go TransactionResult;
  result_MarshalBinary : TransactionResult -> go string;
  events_UnmarshalBase64 : string -> go (list DiagnosticEvent);
  DiagnosticEventsToSlice : string -> go (list string);
}.
(** The statuses are distinct constants. *)
Class TxSubmissionLaws `{V : ScVals} (S : TxSubmission) := {
  statuses_distinct : NoDup [TXStatusError; TXStatusPending; TXStatusDuplicate; TXStatusTryAgainLater];
}.

Record SendTransactionRequest := mkSendTransactionRequest { st_Transaction : string; st_Format : string }.
Record SendTransactionResponse := mkSendTransactionResponse {
  sr_ErrorResultXDR : string;
  sr_ErrorResultJSON : string;
  sr_DiagnosticEventsXDR : list string;
  sr_DiagnosticEventsJSON : list string;
  sr_Status : string;
  sr_Hash : string;
  sr_LatestLedger : Z;
  sr_LatestLedgerCloseTime : Z;
}.

Section Send.
Context `{V : ScVals} {D : Ledgers} {Drv : Driver} {J : XdrToJson} {R : RpcCodes} {S : TxSubmission}.

(** The client of Core: what was sent to it, and the observations of its two
    metrics by their [status] label, durations left out. *)
Record CoreClientWithMetrics := mkCoreClient {
  sent : list string;
  submitMetric : list string;
  opCountMetric : list (string * Z);
}.

Definition submission_status (r : go TXResponse) : string :=
  match r with
  | Ok response => if IsException response then "exception" else tx_Status response
  | _ => "request_error"
  end.
Definition submit (envelopeBase64 : string) : st CoreClientWithMetrics TXResponse := fun c =>
  match envelope_UnmarshalBase64 envelopeBase64 with
  | Ok envelope =>
      let sent' := sent c ++ [envelopeBase64] in
      match SubmitTransaction envelopeBase64 with
      | Panic p => (Panic p, mkCoreClient sent' (submitMetric c) (opCountMetric c))
      | r =>
          let status := submission_status r in
          (r, mkCoreClient sent' (submitMetric c ++ [status]) (opCountMetric c ++ [(status, zlen (Operations envelope))]))
      end
  | Er e => (Er e, c)
  | Panic p => (Panic p, c)
  end.

(** The events of an error response, in the JSON format. *)
Fixpoint jsonify_events (i : Z) (events : list DiagnosticEvent) : go (list string) :=
  match events with
  | [] => Ok []
  | event :: events' =>
      js ← rpc InternalError (on_err (EWrap "couldn't decode event #%d: %v" [FZ (i + 1)])
             (ConvertInterface "DiagnosticEvent" (event_MarshalBinary event)));
      rest ← jsonify_events (i + 1) events';
      Ok (js :: rest)
  end.

Definition error_response (format : string) (resp : TXResponse) (txHash : string) (latest : LedgerInfo) :
    go SendTransactionResponse :=
  let respond xdr json events eventsJson := mkSendTransactionResponse xdr json events eventsJson
    (tx_Status resp) txHash (Sequence latest) (CloseTime latest) in
  if String.eqb format FormatJSON then
    errResult ← rpc InternalError (on_err (EWrap "couldn't decode error: %v" []) (result_UnmarshalBase64 (tx_Error resp)));
    js ← rpc InternalError (on_err (EWrap "couldn't serialize error: %v" [])
           (ConvertInterface "TransactionResult" (result_MarshalBinary errResult)));
    diagEvents ← rpc InternalError (on_err (EWrap "couldn't decode events: %v" [])
                   (events_UnmarshalBase64 (tx_DiagnosticEvents resp)));
    eventsJson ← jsonify_events 0 diagEvents;
    Ok (respond "" js [] eventsJson)
  else
    match DiagnosticEventsToSlice (tx_DiagnosticEvents resp) with
    | Ok events => Ok (respond (tx_Error resp) "" events [])
    | Er _ => Er (ERpc InternalError (ENew "could not decode diagnostic events"))
    | Panic p => Panic p
    end.

(** The outcome of a submission, from Core's answer. *)
Definition interpret (format : string) (resp : TXResponse) (txHash : string) (latest : LedgerInfo) :
    go SendTransactionResponse :=
  if IsException resp then Er (ERpc InternalError (ENew "received exception from stellar-core"))
  else if String.eqb (tx_Status resp) TXStatusError then error_response format resp txHash latest
  else if String.eqb (tx_Status resp) TXStatusPending || String.eqb (tx_Status resp) TXStatusDuplicate
          || String.eqb (tx_Status resp) TXStatusTryAgainLater
  then Ok (mkSendTransactionResponse "" "" [] [] (tx_Status resp) txHash (Sequence latest) (CloseTime latest))
  else Er (ERpc InternalError (ENew "invalid status from stellar-core")).

(** Replacing an error by an [InvalidParams] one with a fixed message. *)
Definition invalid {A} (msg : string) (m : go A) : go A :=
  match m with Er _ => Er (ERpc InvalidParams (ENew msg)) | r => r end.

Definition sendTransaction (passphrase : string) (w : DB) (request : SendTransactionRequest) :
    st CoreClientWithMetrics SendTransactionResponse :=
  _ ← lift (rpc InvalidParams (check (IsValidFormat (st_Format request))));
  envelope ← lift (invalid "invalid_xdr" (envelope_UnmarshalBase64 (st_Transaction request)));
  hash ← lift (invalid "invalid_hash" (HashTransactionInEnvelope envelope passphrase));
  let txHash := HexEncode hash in
  latestLedgerInfo ← lift (match (GetLedgerRange w).1 with
                           | Ok ledgerInfo => Ok (RLast ledgerInfo)
                           | Er _ => Ok zero_info
                           | Panic p => Panic p
                           end);
  resp ← (fun c => match submit (st_Transaction request) c with
                      | (Er _, c') => (Er (ERpc InternalError (ENew "could not submit transaction to stellar-core")), c')
                      | r => r
                      end);
  lift (interpret (st_Format request) resp txHash latestLedgerInfo).

(** ** Properties *)

(** The answers that reach the client without an error. *)
Definition accepted_status (s : string) : Prop :=
  s = TXStatusError \/ s = TXStatusPending \/ s = TXStatusDuplicate \/ s = TXStatusTryAgainLater.

Lemma interpret_ok format resp txHash latest r : interpret format resp txHash latest = Ok r ->
  accepted_status (tx_Status resp) /\ IsException resp = false /\ sr_Status r = tx_Status resp /\ sr_Hash r = txHash /\
  sr_LatestLedger r = Sequence latest /\
  (tx_Status resp <> TXStatusError -> sr_ErrorResultXDR r = ""%string /\ sr_ErrorResultJSON r = ""%string /\
     sr_DiagnosticEventsXDR r = [] /\ sr_DiagnosticEventsJSON r = []) /\
  (tx_Status resp = TXStatusError -> format <> FormatJSON -> sr_ErrorResultXDR r = tx_Error resp /\
     DiagnosticEventsToSlice (tx_DiagnosticEvents resp) = Ok (sr_DiagnosticEventsXDR r)).
Proof.
  unfold interpret, accepted_status. destruct (IsException resp); [done|].
  destruct (String.eqb_spec (tx_Status resp) TXStatusError) as [He|He].
  - unfold error_response. destruct (String.eqb_spec format FormatJSON) as [Hf|Hf].
    + destruct (rpc InternalError (on_err _ (result_UnmarshalBase64 _))); [|done|done]. cbn [mbind go_bind].
      destruct (rpc InternalError (on_err _ (ConvertInterface _ _))); [|done|done]. cbn [mbind go_bind].
      destruct (rpc InternalError (on_err _ (events_UnmarshalBase64 _))); [|done|done]. cbn [mbind go_bind].
      destruct (jsonify_events 0 _); [|done|done]. cbn [mbind go_bind]. intros [= <-]. naive_solver.
    + destruct (DiagnosticEventsToSlice _); [|done|done]. intros [= <-]. naive_solver.
  - destruct (String.eqb_spec (tx_Status resp) TXStatusPending), (String.eqb_spec (tx_Status resp) TXStatusDuplicate),
      (String.eqb_spec (tx_Status resp) TXStatusTryAgainLater); cbn [orb]; try done; intros [= <-]; naive_solver.
Qed.

(** C20: sendTransaction submits a transaction to Core exactly once, and only when
    its envelope decodes and hashes, and counts the submission once, with Core's
    verdict and the number of its operations; nothing is submitted or counted for
    an invalid request.
    A response without error carries Core's own status (one of the four known
    ones), the hash of the envelope and the latest stored ledger (zero when there
    is none), and the error parts only for the status ERROR. *)
Theorem sendTransaction_once passphrase w request c r c' :
  sendTransaction passphrase w request c = (r, c') -> no_panic (GetLedgerRange w).1 ->
  (forall p, r <> Panic p) ->
  ((exists envelope hash, envelope_UnmarshalBase64 (st_Transaction request) = Ok envelope /\
      HashTransactionInEnvelope envelope passphrase = Ok hash /\ IsValidFormat (st_Format request) = None /\
      (let status := submission_status (SubmitTransaction (st_Transaction request)) in
       c' = mkCoreClient (sent c ++ [st_Transaction request]) (submitMetric c ++ [status])
              (opCountMetric c ++ [(status, zlen (Operations envelope))])) /\
      forall resp, r = Ok resp -> exists tx, SubmitTransaction (st_Transaction request) = Ok tx /\
        sr_Status resp = tx_Status tx /\ accepted_status (tx_Status tx) /\ sr_Hash resp = HexEncode hash /\
        sr_LatestLedger resp = (match (GetLedgerRange w).1 with Ok rng => Sequence (RLast rng) | _ => 0 end) /\
        (tx_Status tx <> TXStatusError -> sr_ErrorResultXDR resp = ""%string /\ sr_DiagnosticEventsXDR resp = [])) \/
   (c' = c /\ exists e, r = Er (ERpc InvalidParams e) /\
      (IsValidFormat (st_Format request) = None -> e = ENew "invalid_xdr" \/ e = ENew "invalid_hash"))).
Proof.
  unfold sendTransaction. intros Hrun Hnp Hr. unfold mbind, st_bind, lift in Hrun.
  destruct (IsValidFormat (st_Format request)) as [e|] eqn:Ef; cbn [check rpc on_err] in Hrun.
  { injection Hrun as <- <-. right. split; [done|]. exists e. split; [done|discriminate]. }
  destruct (envelope_UnmarshalBase64 (st_Transaction request)) as [envelope| |] eqn:Ee; cbn [invalid] in Hrun.
  2: { injection Hrun as <- <-. right. split; [done|]. eauto. }
  2: { injection Hrun as <- <-. by destruct (Hr msg). }
  destruct (HashTransactionInEnvelope envelope passphrase) as [hash| |] eqn:Eh; cbn [invalid] in Hrun.
  2: { injection Hrun as <- <-. right. split; [done|]. eauto. }
  2: { injection Hrun as <- <-. by destruct (Hr msg). }
  left. exists envelope, hash.
  destruct (GetLedgerRange w).1 as [rng|e|p] eqn:Eg; [| |by destruct (Hnp p)].
  all: unfold submit in Hrun; rewrite Ee in Hrun; destruct (SubmitTransaction (st_Transaction request)) as [tx|e'|p'];
    injection Hrun as <- <-; try (by destruct (Hr p')); split_and!; try done; intros resp Hresp; try done; exists tx;
    destruct (interpret_ok _ _ _ _ _ Hresp) as (H1 & H2 & H3 & H4 & H5 & H6 & H7);
    split_and!; try done; intros Hne; destruct (H6 Hne) as (? & _ & ? & _); done.
Qed.
End Send.

(** ** A concrete run *)

#[export] Instance toy_submission : TxSubmission (V := toy_scvals) := {
  TransactionEnvelope := string;
  envelope_UnmarshalBase64 s := if String.eqb s "bad" then Er (EExt "xdr") else Ok s;
  Operations e := [e; e];
  HashTransactionInEnvelope e p := Ok (p +:+ e);
  SubmitTransaction t := Ok (mkTXResponse "" "" "PENDING" "");
  IsException r := negb (String.eqb (tx_Exception r) "");
  TXStatusError := "ERROR"; TXStatusPending := "PENDING"; TXStatusDuplicate := "DUPLICATE";
  TXStatusTryAgainLater := "TRY_AGAIN_LATER";
  TransactionResult := string;
  result_UnmarshalBase64 s := Ok s;
  result_MarshalBinary s := Ok s;
  events_UnmarshalBase64 _ := Ok [];
  DiagnosticEventsToSlice _ := Ok [];
}.
#[export] Instance toy_submission_laws : TxSubmissionLaws toy_submission.
Proof. constructor. apply (bool_decide_unpack _). exact I. Qed.

Definition sample_sent : SendTransactionResponse := mkSendTransactionResponse "" "" [] [] "PENDING" (HexEncode "nettx") 9 45.
Lemma sendTransaction_once_witness :
  sendTransaction "net" sample_db (mkSendTransactionRequest "tx" "") (mkCoreClient [] [] []) =
    (Ok sample_sent, mkCoreClient ["tx"%string] ["PENDING"%string] [("PENDING"%string, 2)]) /\
  accepted_status (sr_Status sample_sent).
Proof.
  assert (sendTransaction "net" sample_db (mkSendTransactionRequest "tx" "") (mkCoreClient [] [] []) =
    (Ok sample_sent, mkCoreClient ["tx"%string] ["PENDING"%string] [("PENDING"%string, 2)])) as E by (vm_compute; reflexivity).
  split; [exact E|]. destruct (sendTransaction_once _ _ _ _ _ _ E) as [(env & hash & _ & _ & _ & _ & H)|(H & _)].
  - intros p. vm_compute. discriminate.
  - intros p. discriminate.
  - destruct (H _ eq_refl) as (tx & _ & -> & Ha & _). exact Ha.
  - discriminate H.
Defined.
