(* ===== verification/CMemory.v ===== *)
(** * CMemory: memory shared with C and Rust

    The bridges to the Rust libraries pass data through memory the garbage
    collector does not see.  Its state is the set of live blocks, each with the
    allocator it came from, and the table of [runtime/cgo] handles.  Reading or
    freeing what is not there, or freeing with the wrong allocator, is undefined
    behaviour of C and a panic of the model.  The second half is a small
    separation logic: a call allocates, reads or frees a set of blocks and leaves
    the others alone. *)

From stdpp Require Import gmap.
From S2P Require Import Prelude GoStd.

(** ** Data *)

(** [lib/shared.h] and [lib/preflight.h]; a pointer is an address, null is zero. *)
Record xdr_t := mkXdrT { xdr : Z; len : Z }.
Record xdr_vector_t := mkXdrVector { array : Z; vec_len : Z }.
Record xdr_diff_t := mkXdrDiffT { before : xdr_t; after : xdr_t }.
Record xdr_diff_vector_t := mkXdrDiffVector { diff_array : Z; diff_len : Z }.
Record c_preflight_result := mkCResult {
  cp_error : Z;
  cp_auth : xdr_vector_t;
  cp_result : xdr_t;
  cp_transaction_data : xdr_t;
  cp_min_fee : Z;
  cp_events : xdr_vector_t;
  cp_cpu_instructions : Z;
  cp_memory_bytes : Z;
  cp_pre_restore_transaction_data : xdr_t;
  cp_pre_restore_min_fee : Z;
  cp_ledger_entry_diff : xdr_diff_vector_t;
}.
(** [lib/xdr2json.h] *)
Record conversion_result_t := mkConversionResult { cr_json : Z; cr_error : Z }.

Inductive contents :=
  | Bytes (s : string)
  | XdrArray (l : list xdr_t)
  | XdrDiffArray (l : list xdr_diff_t)
  | PreflightResult (r : c_preflight_result)
  | ConversionResult (r : conversion_result_t).

(** [malloc] of C, and Rust's global allocator. *)
Inductive owner := Malloc | Rust.
#[export] Instance owner_eq_dec : EqDecision owner.
Proof. solve_decision. Defined.
Record block := mkBlock { allocator : owner; holds : contents }.

(** Outside code: where a new block goes. *)
Class Allocator := { allocate : block -> gmap Z block -> Z }.
Class AllocatorLaws (A : Allocator) := {
  allocate_fresh b h : h !! allocate b h = None;
  allocate_nonnull b h : allocate b h <> 0;
}.

Definition NUL : ascii := Ascii false false false false false false false false.
(** The text before the first NUL. *)
Fixpoint cut_nul (s : string) : string :=
  match s with
  | EmptyString => EmptyString
  | String c s' => if Ascii.eqb c NUL then EmptyString else String c (cut_nul s')
  end.
Definition c_string (s : string) : string := s +:+ String NUL EmptyString.
Definition slen (s : string) : Z := Z.of_nat (String.length s).

Section CMemory.
Context {A : Allocator} {H : Type}.

Record memory := mkMemory { heap : gmap Z block; handles : gmap Z H; handleIdx : Z }.
Definition with_heap (h : gmap Z block) (m : memory) : memory := mkMemory h (handles m) (handleIdx m).

(** ** Blocks *)

Definition malloc (b : block) : st memory Z := fun m =>
  let p := allocate b (heap m) in (Ok p, with_heap (<[p := b]> (heap m)) m).
Definition load (p : Z) : st memory contents := fun m =>
  match heap m !! p with
  | Some b => (Ok (holds b), m)
  | None => (Panic "invalid memory access", m)
  end.
Definition dealloc (o : owner) (p : Z) : st memory unit := fun m =>
  match heap m !! p with
  | Some b => if decide (allocator b = o) then (Ok tt, with_heap (delete p (heap m)) m)
              else (Panic "freed with another allocator", m)
  | None => (Panic "double free", m)
  end.
Definition load_bytes (p : Z) : st memory string :=
  c ← load p;
  match c with Bytes s => mret s | _ => lift (Panic "invalid memory access") end.

(** ** [cgo]: the conversions and the handles of the Go runtime *)

Definition C_free (p : Z) : st memory unit := if p =? 0 then mret tt else dealloc Malloc p.
Definition C_CBytes (b : string) : st memory Z := malloc (mkBlock Malloc (Bytes b)).
Definition C_CString (s : string) : st memory Z := malloc (mkBlock Malloc (Bytes (c_string s))).
Definition C_GoString (p : Z) : st memory string :=
  if p =? 0 then mret EmptyString
  else s ← load_bytes p;
       if has_char NUL s then mret (cut_nul s) else lift (Panic "invalid memory access").
(** The first [n] bytes at [p]. *)
Definition bytes_at (p n : Z) : st memory string :=
  s ← load_bytes p;
  if n <=? slen s then mret (substring 0 (Z.to_nat n) s) else lift (Panic "invalid memory access").
Definition C_GoBytes (p n : Z) : st memory string :=
  if n =? 0 then mret EmptyString
  else if n <? 0 then lift (Panic "gobytes: length out of range")
  else bytes_at p n.

Definition NewHandle (v : H) : st memory Z := fun m =>
  let h := u64 (handleIdx m + 1) in
  if h =? 0 then (Panic "runtime/cgo: ran out of handle space", mkMemory (heap m) (handles m) h)
  else (Ok h, mkMemory (heap m) (<[h := v]> (handles m)) h).
Definition Handle_Value (h : Z) : st memory H := fun m =>
  match handles m !! h with
  | Some v => (Ok v, m)
  | None => (Panic "runtime/cgo: misuse of an invalid Handle", m)
  end.
Definition Handle_Delete (h : Z) : st memory unit := fun m =>
  match handles m !! h with
  | Some _ => (Ok tt, mkMemory (heap m) (delete h (handles m)) (handleIdx m))
  | None => (Panic "runtime/cgo: misuse of an invalid Handle", m)
  end.

(** [defer d()], then the rest of the function: [d] runs whatever happens. *)
Definition defer {B} (d : st memory unit) (body : st memory B) : st memory B := fun m =>
  let '(r, m1) := body m in
  match d m1 with
  | (Ok _, m2) => (r, m2)
  | (Er e, m2) => (Er e, m2)
  | (Panic p, m2) => (Panic p, m2)
  end.

(** ** [preflight.go]: byte slices and their vectors *)

Definition CXDR (x : string) : st memory xdr_t := p ← C_CBytes x; mret (mkXdrT p (slen x)).
Definition GoXDR (x : xdr_t) : st memory string := C_GoBytes (xdr x) (i32 (len x)).
Definition FreeGoXDR (x : xdr_t) : st memory unit := C_free (xdr x).

(** [unsafe.Slice] of an array of structures. *)
Definition slice_at {B} (pick : contents -> option (list B)) (p n : Z) : st memory (list B) :=
  if n =? 0 then mret []
  else if p =? 0 then lift (Panic "unsafe.Slice: ptr is nil and len is not zero")
  else c ← load p;
       match pick c with
       | Some l => if n <=? zlen l then mret (take (Z.to_nat n) l) else lift (Panic "invalid memory access")
       | None => lift (Panic "invalid memory access")
       end.
Definition xdrs (c : contents) : option (list xdr_t) := match c with XdrArray l => Some l | _ => None end.
Definition xdr_diffs (c : contents) : option (list xdr_diff_t) := match c with XdrDiffArray l => Some l | _ => None end.

Definition GoXDRVector (v : xdr_vector_t) : st memory (list string) :=
  inputSlice ← slice_at xdrs (array v) (vec_len v);
  mapM GoXDR inputSlice.
Definition GoXDRDiffVector (v : xdr_diff_vector_t) : st memory (list (string * string)) :=
  inputSlice ← slice_at xdr_diffs (diff_array v) (diff_len v);
  mapM (fun d => b ← GoXDR (before d); a ← GoXDR (after d); mret (b, a)) inputSlice.

(** ** [lib/ffi]: the same data in Rust *)

(** The panic of [CString::new] on a NUL inside the text. *)
Definition string_to_c (s : string) : st memory Z :=
  if has_char NUL s then lift (Panic "NulError") else malloc (mkBlock Rust (Bytes (c_string s))).
Definition free_c_string (p : Z) : st memory unit := if p =? 0 then mret tt else dealloc Rust p.
Definition from_c_string (p : Z) : st memory string :=
  s ← load_bytes p;
  if has_char NUL s then mret (cut_nul s) else lift (Panic "invalid memory access").
Definition from_c_xdr (x : xdr_t) : st memory string :=
  if xdr x =? 0 then lift (Panic "invalid memory access")
  else if len x =? 0 then mret EmptyString
  else bytes_at (xdr x) (len x).

(** A vector without elements has no block, its pointer is the alignment of the
    element type. *)
Definition vec_to_c_array (n align : Z) (c : contents) : st memory (Z * Z) :=
  if n =? 0 then mret (align, 0) else p ← malloc (mkBlock Rust c); mret (p, n).
Definition drop_vec (p n : Z) : st memory unit := if n =? 0 then mret tt else dealloc Rust p.

Definition xdr_to_c (v : string) : st memory xdr_t :=
  '(p, n) ← vec_to_c_array (slen v) 1 (Bytes v); mret (mkXdrT p n).
Definition null_xdr : xdr_t := mkXdrT 0 0.
Definition option_xdr_to_c (v : option string) : st memory xdr_t :=
  match v with None => mret null_xdr | Some x => xdr_to_c x end.
Definition ledger_entry_diff_to_c (v : option string * option string) : st memory xdr_diff_t :=
  b ← option_xdr_to_c v.1; a ← option_xdr_to_c v.2; mret (mkXdrDiffT b a).
Definition xdr_vec_to_c (v : list string) : st memory xdr_vector_t :=
  c_v ← mapM xdr_to_c v;
  '(p, n) ← vec_to_c_array (zlen c_v) 8 (XdrArray c_v); mret (mkXdrVector p n).
Definition ledger_entry_diff_vec_to_c (v : list (option string * option string)) : st memory xdr_diff_vector_t :=
  c_diffs ← mapM ledger_entry_diff_to_c v;
  '(p, n) ← vec_to_c_array (zlen c_diffs) 8 (XdrDiffArray c_diffs); mret (mkXdrDiffVector p n).

Definition free_c_xdr (x : xdr_t) : st memory unit := if xdr x =? 0 then mret tt else drop_vec (xdr x) (len x).
Fixpoint free_all {B} (f : B -> st memory unit) (l : list B) : st memory unit :=
  match l with
  | [] => mret tt
  | x :: l' => _ ← f x; free_all f l'
  end.
Definition free_c_xdr_array (v : xdr_vector_t) : st memory unit :=
  if array v =? 0 then mret tt
  else l ← slice_at xdrs (array v) (vec_len v);
       _ ← free_all free_c_xdr l;
       drop_vec (array v) (vec_len v).
Definition free_c_xdr_diff_array (v : xdr_diff_vector_t) : st memory unit :=
  if diff_array v =? 0 then mret tt
  else l ← slice_at xdr_diffs (diff_array v) (diff_len v);
       _ ← free_all (fun d => _ ← free_c_xdr (before d); free_c_xdr (after d)) l;
       drop_vec (diff_array v) (diff_len v).
End CMemory.

(** ** A logic of blocks *)

Section Logic.
Context {A : Allocator} {AL : AllocatorLaws A} {H : Type}.
Notation memory := (memory (H := H)).
Notation blocks := (gmap Z block).

(** The call succeeds and adds blocks described by [R]. *)
Definition allocates {B} (c : st memory B) (R : B -> blocks -> Prop) : Prop := forall m, exists x o,
  c m = (Ok x, with_heap (o ∪ heap m) m) /\ R x o /\ o ##ₘ heap m.
(** Where the blocks are live the call returns the value and changes nothing. *)
Definition reads {B} (c : st memory B) (x : B) (o : blocks) : Prop := forall m,
  o ⊆ heap m -> c m = (Ok x, m).
(** Where the blocks are live the call succeeds and removes them. *)
Definition frees (c : st memory unit) (o : blocks) : Prop := forall m,
  o ⊆ heap m -> c m = (Ok tt, with_heap (heap m ∖ o) m).

Lemma with_heap_id (m : memory) : with_heap (heap m) m = m.
Proof. by destruct m. Qed.

Lemma allocates_ret {B} (x : B) (R : B -> blocks -> Prop) : R x ∅ -> allocates (mret x) R.
Proof.
  intros HR m. exists x, ∅. rewrite map_empty_union, with_heap_id. split_and!; [done..|apply map_disjoint_empty_l].
Qed.
Lemma allocates_bind {B C} (c : st memory B) (f : B -> st memory C) R Q :
  allocates c R ->
  (forall x o, R x o -> allocates (f x) (fun y o' => o' ##ₘ o -> Q y (o' ∪ o))) -> allocates (c ≫= f) Q.
Proof.
  intros Hc Hf m. destruct (Hc m) as (x & o & E1 & HR & Hd). destruct (Hf x o HR (with_heap (o ∪ heap m) m)) as (y & o' & E2 & HQ & Hd').
  cbn [heap with_heap] in *. apply map_disjoint_union_r in Hd' as [Hd1 Hd2]. exists y, (o' ∪ o).
  rewrite (st_bind_eq _ _ _ _ _ E1), E2. split_and!; [|by apply HQ|by apply map_disjoint_union_l_2].
  unfold with_heap. cbn. by rewrite (assoc_L (∪)).
Qed.
Lemma allocates_weaken {B} (c : st memory B) (R Q : B -> blocks -> Prop) :
  allocates c R -> (forall x o, R x o -> Q x o) -> allocates c Q.
Proof. intros Hc HRQ m. destruct (Hc m) as (x & o & ? & ? & ?). eauto 6. Qed.

Lemma reads_ret {B} (x : B) o : reads (mret x) x o.
Proof. by intros m _. Qed.
Lemma reads_bind {B C} (c : st memory B) (f : B -> st memory C) x y o :
  reads c x o -> reads (f x) y o -> reads (c ≫= f) y o.
Proof. intros Hc Hf m Hm. rewrite (st_bind_eq _ _ _ _ _ (Hc m Hm)). by apply Hf. Qed.
Lemma reads_mono {B} (c : st memory B) x o o' : o ⊆ o' -> reads c x o -> reads c x o'.
Proof. intros Ho Hc m Hm. apply Hc. by transitivity o'. Qed.

Lemma frees_ret : frees (mret tt) ∅.
Proof. intros m _. by rewrite map_difference_empty, with_heap_id. Qed.
Lemma frees_read {B} (c : st memory B) (f : B -> st memory unit) x o : reads c x o -> frees (f x) o -> frees (c ≫= f) o.
Proof. intros Hc Hf m Hm. rewrite (st_bind_eq _ _ _ _ _ (Hc m Hm)). by apply Hf. Qed.
Lemma frees_bind (c d : st memory unit) o1 o2 : o1 ##ₘ o2 -> frees c o1 -> frees d o2 -> frees (c ≫= fun _ => d) (o1 ∪ o2).
Proof.
  intros Hd Hc Hf m Hm. assert (o1 ⊆ heap m) as H1 by (transitivity (o1 ∪ o2); [apply map_union_subseteq_l|done]).
  assert (o2 ⊆ heap m) as H2 by (transitivity (o1 ∪ o2); [by apply map_union_subseteq_r|done]).
  rewrite (st_bind_eq _ _ _ _ _ (Hc m H1)), Hf.
  - unfold with_heap. cbn. do 2 f_equal. apply map_eq. intros i. rewrite !lookup_difference, lookup_union.
    by destruct (o1 !! i), (o2 !! i).
  - cbn. apply map_subseteq_spec. intros i b Hi. apply lookup_difference_Some. split; [by eapply lookup_weaken|].
    destruct (o1 !! i) eqn:E; [|done]. exfalso. by eapply map_disjoint_spec.
Qed.

(** ** The primitives *)

Lemma malloc_allocates b : allocates (malloc b) (fun p o => p <> 0 /\ o = {[ p := b ]}).
Proof.
  intros m. exists (allocate b (heap m)), {[ allocate b (heap m) := b ]}. unfold malloc. rewrite <- insert_union_singleton_l.
  split_and!; [done|apply allocate_nonnull|done|]. apply map_disjoint_singleton_l, allocate_fresh.
Qed.
Lemma load_reads p b o : o !! p = Some b -> reads (load p) (holds b) o.
Proof. intros Hp m Hm. unfold load. by rewrite (lookup_weaken _ _ _ _ Hp Hm). Qed.
Lemma dealloc_frees a p c : frees (dealloc a p) {[ p := mkBlock a c ]}.
Proof.
  intros m Hm. unfold dealloc. apply map_singleton_subseteq_l in Hm. rewrite Hm, decide_True by done.
  f_equal. f_equal. apply map_eq. intros i. rewrite lookup_difference.
  destruct (decide (i = p)) as [->|Hn].
  - by rewrite lookup_delete_eq, lookup_singleton_eq.
  - by rewrite lookup_delete_ne, lookup_singleton_ne.
Qed.
Lemma load_bytes_reads p a s : reads (load_bytes p) s {[ p := mkBlock a (Bytes s) ]}.
Proof. eapply reads_bind; [apply load_reads, lookup_singleton_eq|apply reads_ret]. Qed.

(** A text up to its NUL. *)
Lemma cut_nul_c_string s : has_char NUL s = false -> cut_nul (c_string s) = s.
Proof.
  unfold c_string. induction s as [|c s IH]; intros Hs; [done|]. cbn in Hs. apply orb_false_iff in Hs as [Hc Hs].
  rewrite str_app_cons. cbn [cut_nul]. rewrite Hc, IH by done. done.
Qed.
Lemma has_nul_c_string s : has_char NUL (c_string s) = true.
Proof.
  unfold c_string. induction s as [|c s IH]; [done|]. rewrite str_app_cons. cbn [has_char]. rewrite IH. apply orb_true_r.
Qed.
Lemma substring_full s : substring 0 (String.length s) s = s.
Proof. induction s as [|c s IH]; [done|]. cbn. by rewrite IH. Qed.

Lemma C_free_frees p c : p <> 0 -> frees (C_free p) {[ p := mkBlock Malloc c ]}.
Proof. intros Hp. unfold C_free. apply Z.eqb_neq in Hp. rewrite Hp. apply dealloc_frees. Qed.
Lemma bytes_at_reads p a s : reads (bytes_at p (slen s)) s {[ p := mkBlock a (Bytes s) ]}.
Proof.
  eapply reads_bind; [apply load_bytes_reads|]. cbv beta. rewrite Z.leb_refl. unfold slen. rewrite Nat2Z.id, substring_full.
  apply reads_ret.
Qed.
Lemma C_GoString_reads p a s : p <> 0 -> has_char NUL s = false ->
  reads (C_GoString p) s {[ p := mkBlock a (Bytes (c_string s)) ]}.
Proof.
  intros Hp Hs. unfold C_GoString. apply Z.eqb_neq in Hp. rewrite Hp. eapply reads_bind; [apply load_bytes_reads|]. cbv beta.
  rewrite has_nul_c_string, cut_nul_c_string by done. apply reads_ret.
Qed.

(** ** Byte slices *)

(** The limit of [C.int] on the length of a slice. *)
Definition fits (s : string) : Prop := slen s < 2 ^ 31.
Lemma i32_fits s : fits s -> i32 (slen s) = slen s.
Proof. unfold fits, slen. intros Hs. apply i32_small. unfold is_i32. lia. Qed.

(** A slice of a Rust vector, of [C.CBytes], and an optional one. *)
Definition rust_bytes (s : string) (x : xdr_t) (o : blocks) : Prop :=
  len x = slen s /\ xdr x <> 0 /\ o = if slen s =? 0 then ∅ else {[ xdr x := mkBlock Rust (Bytes s) ]}.
Definition malloc_bytes (s : string) (x : xdr_t) (o : blocks) : Prop :=
  len x = slen s /\ xdr x <> 0 /\ o = {[ xdr x := mkBlock Malloc (Bytes s) ]}.
Definition opt_bytes (v : option string) (x : xdr_t) (o : blocks) : Prop :=
  match v with Some s => rust_bytes s x o | None => x = null_xdr /\ o = ∅ end.

Lemma slen_zero s : slen s = 0 -> s = ""%string.
Proof. unfold slen. destruct s; cbn; [done|lia]. Qed.
Lemma slen_eqb s : slen s =? 0 = String.eqb s "".
Proof. by destruct s. Qed.

Lemma CXDR_allocates s : allocates (CXDR s) (malloc_bytes s).
Proof.
  eapply allocates_bind; [apply malloc_allocates|]. intros p o [Hp ->]. apply allocates_ret. intros _.
  rewrite map_empty_union. split_and!; done.
Qed.
Lemma FreeGoXDR_frees s x o : malloc_bytes s x o -> frees (FreeGoXDR x) o.
Proof. intros (_ & Hp & ->). by apply C_free_frees. Qed.
Lemma GoXDR_malloc s x o : malloc_bytes s x o -> fits s -> reads (GoXDR x) s o.
Proof.
  intros (Hl & Hp & ->) Hs. unfold GoXDR, C_GoBytes. rewrite Hl, i32_fits by done.
  destruct (Z.eqb_spec (slen s) 0) as [E|]; [rewrite (slen_zero _ E); apply reads_ret|].
  rewrite (proj2 (Z.ltb_ge _ _)) by (unfold slen; lia). apply bytes_at_reads.
Qed.
Lemma GoXDR_rust s x o : rust_bytes s x o -> fits s -> reads (GoXDR x) s o.
Proof.
  intros (Hl & Hp & ->) Hs. unfold GoXDR, C_GoBytes. rewrite Hl, i32_fits by done.
  destruct (Z.eqb_spec (slen s) 0) as [E|]; [rewrite (slen_zero _ E); apply reads_ret|].
  rewrite (proj2 (Z.ltb_ge _ _)) by (unfold slen; lia). apply bytes_at_reads.
Qed.
Lemma GoXDR_opt v x o : opt_bytes v x o -> fits (default ""%string v) -> reads (GoXDR x) (default ""%string v) o.
Proof. destruct v; [apply GoXDR_rust|]. intros [-> ->] _. apply reads_ret. Qed.
Lemma from_c_xdr_malloc s x o : malloc_bytes s x o -> reads (from_c_xdr x) s o.
Proof.
  intros (Hl & Hp & ->). unfold from_c_xdr. apply Z.eqb_neq in Hp. rewrite Hp, Hl.
  destruct (Z.eqb_spec (slen s) 0) as [E|]; [rewrite (slen_zero _ E); apply reads_ret|]. apply bytes_at_reads.
Qed.


(** The block of a Rust vector of [n] elements. *)
Definition vec_block (p n : Z) (c : contents) : blocks := if n =? 0 then ∅ else {[ p := mkBlock Rust c ]}.

Lemma vec_to_c_array_allocates n align c : align <> 0 ->
  allocates (vec_to_c_array n align c) (fun r o => r.2 = n /\ r.1 <> 0 /\ o = vec_block r.1 n c).
Proof.
  intros Ha. unfold vec_to_c_array, vec_block. destruct (Z.eqb_spec n 0) as [->|].
  - by apply allocates_ret.
  - eapply allocates_bind; [apply malloc_allocates|]. intros p o [Hp ->]. apply allocates_ret. intros _.
    by rewrite map_empty_union.
Qed.
Lemma drop_vec_frees p n c : frees (drop_vec p n) (vec_block p n c).
Proof. unfold drop_vec, vec_block. destruct (n =? 0); [apply frees_ret|apply dealloc_frees]. Qed.

Lemma xdr_to_c_allocates s : allocates (xdr_to_c s) (rust_bytes s).
Proof.
  eapply allocates_bind; [by apply vec_to_c_array_allocates|]. intros [p n] o (Hn & Hp & ->). apply allocates_ret. intros _.
  rewrite map_empty_union. split_and!; done.
Qed.
Lemma option_xdr_to_c_allocates v : allocates (option_xdr_to_c v) (opt_bytes v).
Proof. destruct v; [apply xdr_to_c_allocates|]. by apply allocates_ret. Qed.
Lemma free_c_xdr_frees v x o : opt_bytes v x o -> frees (free_c_xdr x) o.
Proof.
  unfold free_c_xdr. destruct v as [s|].
  - intros (Hl & Hp & ->). apply Z.eqb_neq in Hp. rewrite Hp, Hl. apply (drop_vec_frees _ (slen s)).
  - intros [-> ->]. apply frees_ret.
Qed.

(** ** Lists of allocations and their vectors *)

Inductive rep_list {B C} (R : B -> C -> blocks -> Prop) : list B -> list C -> blocks -> Prop :=
  | rep_nil : rep_list R [] [] ∅
  | rep_cons v x l xs o o' : R v x o -> rep_list R l xs o' -> o' ##ₘ o -> rep_list R (v :: l) (x :: xs) (o' ∪ o).

Lemma mapM_allocates {B C} (f : B -> st memory C) R l :
  (forall v, allocates (f v) (R v)) -> allocates (mapM f l) (rep_list R l).
Proof.
  intros Hf. induction l as [|v l IH]; [by apply allocates_ret; constructor|].
  eapply allocates_bind; [apply Hf|]. intros x o Hx. eapply allocates_bind; [apply IH|]. intros xs o' Hxs.
  apply allocates_ret. intros _ Hd. rewrite map_empty_union in Hd |- *. by constructor.
Qed.
Lemma mapM_reads {B C D} (g : C -> st memory D) (h : B -> D) (R : B -> C -> blocks -> Prop) (ok : B -> Prop) l xs o :
  (forall v x o, R v x o -> ok v -> reads (g x) (h v) o) -> rep_list R l xs o -> Forall ok l ->
  reads (mapM g xs) (h <$> l) o.
Proof.
  intros Hg Hl. induction Hl as [|v x l xs o o' Hv Hl IH Hd]; intros Hok; [apply reads_ret|].
  inversion Hok; subst. cbn [mapM fmap list_fmap].
  eapply reads_bind; [eapply reads_mono; [|by apply Hg]; by apply map_union_subseteq_r|].
  eapply reads_bind; [eapply reads_mono; [|by apply IH]; by apply map_union_subseteq_l|]. apply reads_ret.
Qed.
Lemma free_all_frees {B C} (d : C -> st memory unit) (R : B -> C -> blocks -> Prop) l xs o :
  (forall v x o, R v x o -> frees (d x) o) -> rep_list R l xs o -> frees (free_all d xs) o.
Proof.
  intros Hd Hl. induction Hl as [|v x l xs o o' Hv Hl IH Ho]; [apply frees_ret|].
  rewrite map_union_comm by done. cbn [free_all]. apply frees_bind; [done|by eapply Hd|done].
Qed.
Lemma rep_list_length {B C} (R : B -> C -> blocks -> Prop) l xs o : rep_list R l xs o -> zlen xs = zlen l.
Proof. unfold zlen. induction 1; cbn; lia. Qed.

(** A vector at [p]: its block and what its elements own. *)
Definition rep_vec {B C} (c : list C -> contents) (R : B -> C -> blocks -> Prop) (l : list B) (p n : Z) (o : blocks) : Prop :=
  exists xs o', rep_list R l xs o' /\ n = zlen l /\ p <> 0 /\ vec_block p n (c xs) ##ₘ o' /\ o = vec_block p n (c xs) ∪ o'.
(** The default vector is null. *)
Definition null_vec (p n : Z) (o : blocks) : Prop := p = 0 /\ n = 0 /\ o = ∅.

Lemma slice_at_reads {B} (pick : contents -> option (list B)) c l p :
  pick (c l) = Some l -> p <> 0 -> reads (slice_at pick p (zlen l)) l (vec_block p (zlen l) (c l)).
Proof.
  intros Hc Hp. unfold slice_at, vec_block. destruct (Z.eqb_spec (zlen l) 0) as [E|].
  - destruct l; [apply reads_ret|done].
  - apply Z.eqb_neq in Hp. rewrite Hp. eapply reads_bind; [apply load_reads, lookup_singleton_eq|]. cbn [holds].
    rewrite Hc, Z.leb_refl. unfold zlen. rewrite Nat2Z.id, take_ge by lia. apply reads_ret.
Qed.

Section Vectors.
Context {B C : Type} (c : list C -> contents) (pick : contents -> option (list C)) (pick_c : forall l, pick (c l) = Some l).
Context (R : B -> C -> blocks -> Prop).

Lemma rep_vec_intro l xs o p n : rep_list R l xs o -> p <> 0 -> n = zlen xs -> vec_block p n (c xs) ##ₘ o ->
  rep_vec c R l p n (vec_block p n (c xs) ∪ o).
Proof. intros Hl Hp -> Hd. exists xs, o. by rewrite <- (rep_list_length _ _ _ _ Hl). Qed.
Lemma vec_reads {D} (g : C -> st memory D) (h : B -> D) (ok : B -> Prop) l p n o :
  (forall v x o, R v x o -> ok v -> reads (g x) (h v) o) -> rep_vec c R l p n o -> Forall ok l ->
  reads (xs ← slice_at pick p n; mapM g xs) (h <$> l) o.
Proof.
  intros Hg (xs & o' & Hl & Hn & Hp & Hd & ->) Hok. pose proof (rep_list_length _ _ _ _ Hl) as Hlen.
  eapply reads_bind; [|eapply reads_mono; [|by eapply mapM_reads]; by apply map_union_subseteq_r].
  subst n. rewrite <- Hlen. eapply reads_mono; [apply map_union_subseteq_l|]. apply slice_at_reads; [apply pick_c|done].
Qed.
Lemma vec_frees (d : C -> st memory unit) l p n o :
  (forall v x o, R v x o -> frees (d x) o) -> rep_vec c R l p n o ->
  frees (if p =? 0 then mret tt else xs ← slice_at pick p n; _ ← free_all d xs; drop_vec p n) o.
Proof.
  intros Hg (xs & o' & Hl & Hn & Hp & Hd & ->). pose proof (rep_list_length _ _ _ _ Hl) as Hlen.
  rewrite (proj2 (Z.eqb_neq _ _)) by done. eapply frees_read.
  - eapply reads_mono; [apply map_union_subseteq_l|]. subst n. rewrite <- Hlen. apply slice_at_reads; [apply pick_c|done].
  - rewrite map_union_comm by done. apply frees_bind; [done|by eapply free_all_frees|apply drop_vec_frees].
Qed.
Lemma null_vec_frees (d : C -> st memory unit) p n o : null_vec p n o ->
  frees (if p =? 0 then mret tt else xs ← slice_at pick p n; _ ← free_all d xs; drop_vec p n) o.
Proof. intros (-> & -> & ->). apply frees_ret. Qed.
Lemma null_vec_reads {D} (g : C -> st memory D) p n o : null_vec p n o ->
  reads (xs ← slice_at pick p n; mapM g xs) [] o.
Proof. intros (-> & -> & ->). apply reads_ret. Qed.
End Vectors.

(** ** Strings, differences *)

Definition rust_string (s : string) (p : Z) (o : blocks) : Prop :=
  p <> 0 /\ has_char NUL s = false /\ o = {[ p := mkBlock Rust (Bytes (c_string s)) ]}.
Lemma string_to_c_allocates s : has_char NUL s = false -> allocates (string_to_c s) (rust_string s).
Proof.
  intros Hs. unfold string_to_c. rewrite Hs. eapply allocates_weaken; [apply malloc_allocates|]. by intros p o [Hp ->].
Qed.
Lemma free_c_string_frees s p o : rust_string s p o -> frees (free_c_string p) o.
Proof. intros (Hp & _ & ->). unfold free_c_string. apply Z.eqb_neq in Hp. rewrite Hp. apply dealloc_frees. Qed.
Lemma GoString_rust s p o : rust_string s p o -> reads (C_GoString p) s o.
Proof. intros (Hp & Hs & ->). by apply C_GoString_reads. Qed.
Lemma from_c_string_reads s p a : has_char NUL s = false ->
  reads (from_c_string p) s {[ p := mkBlock a (Bytes (c_string s)) ]}.
Proof.
  intros Hs. eapply reads_bind; [apply load_bytes_reads|]. cbv beta.
  rewrite has_nul_c_string, cut_nul_c_string by done. apply reads_ret.
Qed.

Definition opt_diff (v : option string * option string) (x : xdr_diff_t) (o : blocks) : Prop :=
  exists o1 o2, opt_bytes v.1 (before x) o1 /\ opt_bytes v.2 (after x) o2 /\ o2 ##ₘ o1 /\ o = o2 ∪ o1.
Lemma ledger_entry_diff_to_c_allocates v : allocates (ledger_entry_diff_to_c v) (opt_diff v).
Proof.
  eapply allocates_bind; [apply option_xdr_to_c_allocates|]. intros b o1 H1.
  eapply allocates_bind; [apply option_xdr_to_c_allocates|]. intros a o2 H2. apply allocates_ret. intros _ Hd.
  rewrite map_empty_union in Hd |- *. by exists o1, o2.
Qed.
Lemma GoXDR_diff v x o : opt_diff v x o -> fits (default ""%string v.1) -> fits (default ""%string v.2) ->
  reads (b ← GoXDR (before x); a ← GoXDR (after x); mret (b, a)) (default ""%string v.1, default ""%string v.2) o.
Proof.
  intros (o1 & o2 & H1 & H2 & Hd & ->) Hf1 Hf2.
  eapply reads_bind; [eapply reads_mono; [|by apply GoXDR_opt]; by apply map_union_subseteq_r|].
  eapply reads_bind; [eapply reads_mono; [|by apply GoXDR_opt]; by apply map_union_subseteq_l|]. apply reads_ret.
Qed.
Lemma free_diff_frees v x o : opt_diff v x o -> frees (_ ← free_c_xdr (before x); free_c_xdr (after x)) o.
Proof.
  intros (o1 & o2 & H1 & H2 & Hd & ->). rewrite map_union_comm by done. apply frees_bind; [done|by eapply free_c_xdr_frees..].
Qed.

(** ** Disjoint pieces *)

Fixpoint pieces (os : list blocks) (t : blocks) : Prop :=
  match os with
  | [] => t = ∅
  | o :: os' => exists t', pieces os' t' /\ o ##ₘ t' /\ t = o ∪ t'
  end.

Lemma pieces_nil : pieces [] ∅.
Proof. done. Qed.
Lemma pieces_cons o os t : pieces (o :: os) t <-> exists t', pieces os t' /\ o ##ₘ t' /\ t = o ∪ t'.
Proof. done. Qed.
Lemma pieces_one o : pieces [o] o.
Proof. exists ∅. split_and!; [done|apply map_disjoint_empty_r|by rewrite map_union_empty]. Qed.
(** A new piece beside the others. *)
Lemma pieces_add o os t : pieces os t -> t ##ₘ o -> pieces (o :: os) (t ∪ o).
Proof. intros Hp Hd. apply pieces_cons. exists t. split_and!; [done..|by apply map_union_comm]. Qed.
Lemma pieces_empty os t : pieces os t -> pieces (∅ :: os) t.
Proof.
  intros Hp. apply pieces_cons. exists t. split_and!; [done|apply map_disjoint_empty_l|by rewrite map_empty_union].
Qed.
Lemma pieces_perm os os' t : os ≡ₚ os' -> pieces os t -> pieces os' t.
Proof.
  intros Hp. revert t. induction Hp as [|o os os' Hp IH|o1 o2 os|os1 os2 os3 _ IH1 _ IH2]; intros t Ht.
  - done.
  - apply pieces_cons in Ht as (t' & Ht & Hd & ->). apply pieces_cons. eauto.
  - apply pieces_cons in Ht as (t1 & Ht & Hd & ->). apply pieces_cons in Ht as (t2 & Ht & Hd2 & ->).
    apply map_disjoint_union_r in Hd as [Hd1 Hd3]. apply pieces_cons. exists (o2 ∪ t2). split_and!.
    + apply pieces_cons. eauto.
    + apply map_disjoint_union_r. done.
    + rewrite !(assoc_L (∪)), (map_union_comm o1 o2) by done. done.
  - by apply IH2, IH1.
Qed.
Lemma pieces_sub o os t : pieces os t -> o ∈ os -> o ⊆ t.
Proof.
  revert t. induction os as [|o' os IH]; intros t Ht Hin; [by apply not_elem_of_nil in Hin|].
  apply pieces_cons in Ht as (t' & Ht & Hd & ->). apply elem_of_cons in Hin as [->|Hin].
  - apply map_union_subseteq_l.
  - transitivity t'; [by apply IH|]. by apply map_union_subseteq_r.
Qed.
(** Two groups of pieces. *)
Lemma pieces_group os1 os2 t : pieces (os1 ++ os2) t -> exists t1 t2, pieces os1 t1 /\ pieces os2 t2 /\ t1 ##ₘ t2 /\ t = t1 ∪ t2.
Proof.
  revert t. induction os1 as [|o os1 IH]; intros t Ht; cbn in Ht.
  - exists ∅, t. split_and!; [apply pieces_nil|done|apply map_disjoint_empty_l|by rewrite map_empty_union].
  - apply pieces_cons in Ht as (t' & Ht & Hd & ->). destruct (IH t' Ht) as (t1 & t2 & H1 & H2 & Hd' & ->).
    apply map_disjoint_union_r in Hd as [? ?]. exists (o ∪ t1), t2. split_and!.
    + apply pieces_cons. eauto.
    + done.
    + by apply map_disjoint_union_l.
    + by rewrite (assoc_L (∪)).
Qed.
Lemma frees_pieces_cons (c d : st memory unit) o os t : frees c o -> (forall t', pieces os t' -> frees d t') ->
  pieces (o :: os) t -> frees (c ≫= fun _ => d) t.
Proof. intros Hc Hd Ht. apply pieces_cons in Ht as (t' & Ht & Hdis & ->). apply frees_bind; [done..|by apply Hd]. Qed.
Lemma frees_pieces_one (c : st memory unit) o t : frees c o -> pieces [o] t -> frees c t.
Proof. intros Hc Ht. apply pieces_cons in Ht as (t' & -> & Hd & ->). by rewrite map_union_empty. Qed.
Lemma reads_piece {B} (c : st memory B) x o os t : reads c x o -> pieces os t -> o ∈ os -> reads c x t.
Proof. intros Hc Ht Hin. eapply reads_mono; [by eapply pieces_sub|done]. Qed.

(** What a set of blocks holds, whatever the addresses. *)
Definition made_of (o : blocks) (bs : list block) : Prop := (map_to_list o).*2 ≡ₚ bs.
Lemma made_of_empty : made_of ∅ [].
Proof. unfold made_of. by rewrite map_to_list_empty. Qed.
Lemma made_of_one p b : made_of {[ p := b ]} [b].
Proof. unfold made_of. by rewrite map_to_list_singleton. Qed.
Lemma made_of_union o1 o2 bs1 bs2 : o1 ##ₘ o2 -> made_of o1 bs1 -> made_of o2 bs2 -> made_of (o1 ∪ o2) (bs1 ++ bs2).
Proof.
  unfold made_of. intros Hd <- <-. induction o1 as [|i x o1 Hi Hf IH] using map_first_key_ind.
  - by rewrite map_empty_union, map_to_list_empty.
  - apply map_disjoint_insert_l in Hd as [Hi2 Hd]. rewrite <- insert_union_l.
    rewrite !map_to_list_insert by (rewrite ?lookup_union_None; done). cbn. by rewrite IH.
Qed.

(** What [m'] holds beyond [m]: blocks with these contents; none of [m] is
    changed or freed. *)
Definition leaks (bs : list block) (m m' : memory) : Prop :=
  exists o, heap m' = o ∪ heap m /\ o ##ₘ heap m /\ made_of o bs.

Lemma with_heap_twice h h' (m : memory) : with_heap h (with_heap h' m) = with_heap h m.
Proof. done. Qed.
Lemma add_sub o (m : memory) : o ##ₘ heap m -> with_heap ((o ∪ heap m) ∖ o) m = m.
Proof.
  destruct m as [hp hs ix]. unfold with_heap. cbn. intros Hd. f_equal. apply map_eq. intros i.
  rewrite lookup_difference, lookup_union. rewrite map_disjoint_alt in Hd.
  destruct (o !! i) eqn:E1, (hp !! i) eqn:E2; try done. destruct (Hd i); congruence.
Qed.
Lemma CXDR_step {B} s (f : xdr_t -> st memory B) m : exists x o, malloc_bytes s x o /\ o ##ₘ heap m /\
  (CXDR s ≫= f) m = f x (with_heap (o ∪ heap m) m).
Proof.
  destruct (CXDR_allocates s m) as (x & o & Ex & Hx & Hd). exists x, o. by rewrite (st_bind_eq _ _ _ _ _ Ex).
Qed.
Lemma malloc_made_of s x o : malloc_bytes s x o -> made_of o [mkBlock Malloc (Bytes s)].
Proof. intros (_ & _ & ->). apply made_of_one. Qed.
End Logic.

(** ** Disjoint unions *)

Ltac disj := rewrite ?map_disjoint_union_l, ?map_disjoint_union_r in *; destruct_and?; split_and?;
  first [done | by symmetry].
Lemma sub_diff {K} (a b h : gmap Z K) : a ⊆ h -> a ##ₘ b -> a ⊆ h ∖ b.
Proof.
  rewrite !map_subseteq_spec. intros Hs Hd i x Hi. apply lookup_difference_Some. split; [by apply Hs|].
  destruct (b !! i) eqn:E1; [|done]. exfalso. by eapply map_disjoint_spec.
Qed.
(** Freeing some of several groups of blocks. *)
Lemma minus_one {K} (r b h : gmap Z K) : r ##ₘ b -> r ##ₘ h -> b ##ₘ h -> ((r ∪ (b ∪ h)) ∖ b) ∖ r = h.
Proof.
  rewrite !map_disjoint_alt. intros H1 H2 H3. apply map_eq. intros i. rewrite !lookup_difference, !lookup_union.
  specialize (H1 i); specialize (H2 i); specialize (H3 i).
  destruct (r !! i), (b !! i), (h !! i); cbn; first [done | exfalso; first [by destruct H1 | by destruct H2 | by destruct H3]].
Qed.
Lemma minus_two {K} (r k a b h : gmap Z K) : a ##ₘ b -> r ##ₘ k -> r ##ₘ a -> r ##ₘ b -> r ##ₘ h -> k ##ₘ a -> k ##ₘ b ->
  a ##ₘ h -> b ##ₘ h -> (((r ∪ k) ∪ (b ∪ (a ∪ h))) ∖ a ∖ b) ∖ r = k ∪ h.
Proof.
  rewrite !map_disjoint_alt. intros H1 H2 H3 H4 H5 H6 H7 H8 H9. apply map_eq. intros i.
  rewrite !lookup_difference, !lookup_union.
  specialize (H1 i); specialize (H2 i); specialize (H3 i); specialize (H4 i); specialize (H5 i); specialize (H6 i);
    specialize (H7 i); specialize (H8 i); specialize (H9 i).
  destruct (r !! i), (k !! i), (a !! i), (b !! i), (h !! i); cbn;
    first [done | exfalso; first [by destruct H1 | by destruct H2 | by destruct H3 | by destruct H4 | by destruct H5
                                 | by destruct H6 | by destruct H7 | by destruct H8 | by destruct H9]].
Qed.

(** An allocator that goes upwards. *)
#[export] Instance bump_allocator : Allocator := {
  allocate _ h := 1 + map_fold (fun p _ top => Z.max p top) 0 h;
}.
Lemma map_fold_top (h : gmap Z block) : 0 <= map_fold (fun p _ top => Z.max p top) 0 h /\
  forall p, is_Some (h !! p) -> p <= map_fold (fun p _ top => Z.max p top) 0 h.
Proof.
  apply (map_fold_weak_ind (fun top h => 0 <= top /\ forall p, is_Some (h !! p) -> p <= top)).
  - split; [lia|]. intros p [x Hx]. by rewrite lookup_empty in Hx.
  - intros i x h' top Hi [Ht IH]. split; [lia|]. intros p Hp. destruct (decide (p = i)) as [->|Hn]; [lia|].
    rewrite lookup_insert_ne in Hp by done. specialize (IH p Hp). lia.
Qed.
#[export] Instance bump_allocator_laws : AllocatorLaws bump_allocator.
Proof.
  constructor; intros b h; destruct (map_fold_top h) as [H0 Hp]; cbn.
  - destruct (h !! _) eqn:E; [|done]. specialize (Hp _ (mk_is_Some _ _ E)). lia.
  - lia.
Qed.

(** Permutations of concrete lists. *)
Ltac split_at x l k :=
  lazymatch l with
  | x :: ?t => k uconstr:([]) t
  | ?y :: ?t => split_at x t ltac:(fun p q => k uconstr:(y :: p) q)
  end.
Ltac perm :=
  lazymatch goal with
  | |- [] ≡ₚ [] => reflexivity
  | |- ?x :: ?l ≡ₚ ?r => split_at x r ltac:(fun p q => refine (Permutation_cons_app p q x _)); cbn [app]; perm
  end.
