(* ===== verification/Preflight.v ===== *)
(** * Preflight: [preflight/preflight.go]

    The bridge to the Rust library that runs a transaction against a snapshot:
    the parameters passed to it, the ledger entries it asks for, its result. *)

From S2P Require Import Prelude GoStd Externals Protocol BucketWindow LedgerMeta Store LedgerStore EventStore TxStore WriteTx Ingest Migration Daemon Convert LedgerEntries.

(** ** Authorization modes and resources: [protocol/simulate_transaction.go] *)

Definition AuthModeEnforce : string := "enforce".
Definition AuthModeRecord : string := "record".
Definition AuthModeRecordAllowNonroot : string := "record_allow_nonroot".
Record ResourceConfig := mkResourceConfig { InstructionLeeway : Z }.
Definition DefaultInstructionLeeway : Z := 0.
Definition DefaultResourceConfig : ResourceConfig := mkResourceConfig DefaultInstructionLeeway.

(** ** Outside code: operations of [xdr] *)

Class Operations := {
  OperationBody : Type;
  op_Type : OperationBody -> Z;
  op_Type_String : OperationBody -> string;
  op_MarshalBinary : OperationBody -> go string;
  (** [MustInvokeHostFunctionOp]: its binary form and its number of
      authorization entries; it panics on other operations *)
  MustInvokeHostFunctionOp : OperationBody -> go (go string * nat);
  AccountId : Type;
  account_MarshalBinary : AccountId -> go string;
  LedgerFootprint : Type;
  empty_footprint : LedgerFootprint;
  footprint_MarshalBinary : LedgerFootprint -> go string;
}.
Class OperationsLaws `{X : XdrConsts} (O : Operations) := {
  must_invoke o : op_Type o = OperationTypeInvokeHostFunction -> exists r, MustInvokeHostFunctionOp o = Ok r;
}.

(** ** The data passed to and from the library *)

Record XDRDiff := mkXDRDiff { Before : string; After : string }.
Record Preflight := mkPreflight {
  pf_Error : string;
  pf_Events : list string;
  pf_TransactionData : string;
  pf_MinFee : Z;
  pf_Result : string;
  pf_Auth : list string;
  pf_CPUInstructions : Z;
  pf_MemoryBytes : Z;
  pf_PreRestoreTransactionData : string;
  pf_PreRestoreMinFee : Z;
  pf_LedgerEntryDiff : list XDRDiff;
}.
Record ledger_info_t := mkLedgerInfoT {
  network_passphrase : string;
  sequence_number : Z;
  protocol_version : Z;
  timestamp : Z;
  base_reserve : Z;
  bucket_list_size : Z;
}.
(** The structure the library returns; its integers are 64 bits wide. *)
Record preflight_result_t := mkResultT {
  c_error : string;
  c_events : list string;
  c_transaction_data : string;
  c_min_fee : Z;
  c_result : string;
  c_auth : list string;
  c_cpu_instructions : Z;
  c_memory_bytes : Z;
  c_pre_restore_transaction_data : string;
  c_pre_restore_min_fee : Z;
  c_ledger_entry_diff : list (string * string);
}.

(** The snapshot source the library calls back: [None] is the empty structure,
    otherwise the entry's bytes and its time to live. *)
Definition snapshot : Type := string -> go (option (string * Z)).

(** ** Outside code: the Rust library

    A run of the library is the entries it asks for, each question depending on
    the answers before, and its result. *)

Inductive simulation (A : Type) : Type :=
  | Finished (result : A)
  | GetEntry (key : string) (continue : option (string * option Z) -> simulation A).
Arguments Finished {A} result.
Arguments GetEntry {A} key continue.

(** What the library makes of the structure a question is answered with: a
    negative time to live is a missing one, one over 32 bits a missing entry. *)
Definition answer (res : option (string * Z)) : option (string * option Z) :=
  '(v, ttl) ← res;
  if ttl <? 0 then Some (v, None) else if ttl <? 2 ^ 32 then Some (v, Some ttl) else None.

(** A panic of the Go code that answers leaves the library. *)
Fixpoint run {A} (snap : snapshot) (s : simulation A) : go A :=
  match s with
  | Finished r => Ok r
  | GetEntry key continue => res ← snap key; run snap (continue (answer res))
  end.

Class PreflightLib := {
  preflight_invoke_hf_op : string -> string -> ledger_info_t -> Z -> bool -> Z -> simulation preflight_result_t;
  preflight_footprint_ttl_op : string -> string -> ledger_info_t -> simulation preflight_result_t;
}.

Section Preflight.
Context `{V : ScVals} {D : Ledgers} {Drv : Driver} {X : XdrConsts} {J : XdrToJson}.
Context {E : LedgerEntryXdr} {O : Operations} {P : PreflightLib}.
(** [xdr.SafeUnmarshal] on keys and [MarshalBinary] of whole entries. *)
Context (key_SafeUnmarshal : string -> go LedgerKey) (entry_MarshalBinary : LedgerEntry -> go string).

Definition defaultBaseReserve : Z := 5000000.

(** The entries of a fixed ledger. *)
Definition LedgerEntryGetter : Type := list LedgerKey -> go (list LedgerKeyAndEntry).

Record Parameters := mkParameters {
  p_SourceAccount : AccountId;
  p_OpBody : OperationBody;
  p_Footprint : LedgerFootprint;
  p_NetworkPassphrase : string;
  p_LedgerEntryGetter : LedgerEntryGetter;
  p_LedgerSeq : Z;
  p_BucketListSize : Z;
  p_ResourceConfig : ResourceConfig;
  p_EnableDebug : bool;
  p_AuthMode : string;
  p_ProtocolVersion : Z;
}.

(** A key or an entry that does not convert panics, a failing lookup or one with
    several entries is answered like a missing entry. *)
Definition SnapshotSourceGet (getter : LedgerEntryGetter) : snapshot := fun ledgerKeyXDR =>
  match key_SafeUnmarshal ledgerKeyXDR with
  | Er _ | Panic _ => Panic "cannot unmarshal ledger key"
  | Ok ledgerKey =>
      match getter [ledgerKey] with
      | Panic p => Panic p
      | Er _ => Ok None
      | Ok entries =>
          if 1 <? zlen entries then Ok None
          else match entries with
               | [] => Ok None
               | entry :: _ =>
                   match entry_MarshalBinary (ke_Entry entry) with
                   | Ok out => Ok (Some (out, match ke_LiveUntilLedgerSeq entry with Some ttl => ttl | None => -1 end))
                   | _ => Panic "cannot marshal ledger entry"
                   end
               end
      end
  end.

Definition getLedgerInfo (params : Parameters) (now : Z) : ledger_info_t :=
  mkLedgerInfoT (p_NetworkPassphrase params) (u32 (p_LedgerSeq params)) (u32 (p_ProtocolVersion params)) (u64 now)
    defaultBaseReserve (u64 (p_BucketListSize params)).

Definition GoXDRDiffVector (v : list (string * string)) : list XDRDiff := (fun d => mkXDRDiff d.1 d.2) <$> v.

Definition GoPreflight (result : preflight_result_t) : Preflight :=
  mkPreflight (c_error result) (c_events result) (c_transaction_data result) (i64 (c_min_fee result)) (c_result result)
    (c_auth result) (u64 (c_cpu_instructions result)) (u64 (c_memory_bytes result))
    (c_pre_restore_transaction_data result) (i64 (c_pre_restore_min_fee result))
    (GoXDRDiffVector (c_ledger_entry_diff result)).

Definition getFootprintTTLPreflight (now : Z) (params : Parameters) : go Preflight :=
  opBodyXDR ← op_MarshalBinary (p_OpBody params);
  footprintXDR ← on_err (EWrap "cannot marshal footprint: %w" []) (footprint_MarshalBinary (p_Footprint params));
  res ← run (SnapshotSourceGet (p_LedgerEntryGetter params))
    (preflight_footprint_ttl_op opBodyXDR footprintXDR (getLedgerInfo params now));
  Ok (GoPreflight res).

(** The integer of [shared.rs::AuthMode]. *)
Definition authMode_code (authMode : string) : go Z :=
  if String.eqb authMode AuthModeEnforce then Ok 0
  else if String.eqb authMode AuthModeRecord then Ok 1
  else if String.eqb authMode AuthModeRecordAllowNonroot then Ok 2
  else Er (EFmt "invalid auth mode: '%s'" [FS authMode]).

Definition getInvokeHostFunctionPreflight (now : Z) (params : Parameters) : go Preflight :=
  op ← MustInvokeHostFunctionOp (p_OpBody params);
  invokeHostFunctionXDR ← op.1;
  sourceAccountXDR ← account_MarshalBinary (p_SourceAccount params);
  authMode ← authMode_code (p_AuthMode params);
  res ← run (SnapshotSourceGet (p_LedgerEntryGetter params))
    (preflight_invoke_hf_op invokeHostFunctionXDR sourceAccountXDR (getLedgerInfo params now)
      (u64 (InstructionLeeway (p_ResourceConfig params))) (p_EnableDebug params) authMode);
  Ok (GoPreflight res).

Definition GetPreflight (now : Z) (params : Parameters) : go Preflight :=
  if op_Type (p_OpBody params) =? OperationTypeInvokeHostFunction then getInvokeHostFunctionPreflight now params
  else if (op_Type (p_OpBody params) =? OperationTypeExtendFootprintTtl)
          || (op_Type (p_OpBody params) =? OperationTypeRestoreFootprint)
  then getFootprintTTLPreflight now params
  else Er (EFmt "unsupported operation type: %s" [FS (op_Type_String (p_OpBody params))]).
End Preflight.
