(* ===== verification/Bridge.v ===== *)
(** * Bridge: the Rust libraries called through shared memory

    [preflight/preflight.go] and [xdr2json/conversion.go] again, this time with
    every allocation they and the Rust code they call make ([lib/preflight],
    [lib/xdr2json], [lib/ffi]).  Preflight and Convert model the same functions on
    values; here they are shown to compute those, and what they leave behind. *)

From stdpp Require Import gmap.
From S2P Require Import Prelude GoStd Externals Protocol BucketWindow LedgerMeta Store LedgerStore EventStore TxStore WriteTx Ingest Migration Daemon Convert LedgerEntries CMemory Preflight.

(** ** What the Rust code computes, before it is laid out in memory *)

Record InvokeHostFunctionSimulationResult := mkSimulationResult {
  ir_auth : list string;
  ir_invoke_result : option string;
  (** the serialized data and its resource fee *)
  ir_transaction_data : option (string * Z);
  ir_diagnostic_events : list string;
  ir_simulated_instructions : Z;
  ir_simulated_memory : Z;
  ir_modified_entries : list (option string * option string);
}.
Inductive outcome :=
  | InvokeHostFunctionOutcome (r : InvokeHostFunctionSimulationResult) (restore_preamble : option (string * Z)) (error : string)
  | TransactionDataOutcome (transaction_data restore_preamble : option (string * Z)) (error : string)
  (** an error or a panic caught, as its message *)
  | ErrorOutcome (message : string).

(** Outside code: the simulation itself. *)
Class RustSimulation := {
  simulate_invoke_hf_op : string -> string -> ledger_info_t -> Z -> bool -> Z -> simulation outcome;
  simulate_footprint_ttl_op : string -> string -> ledger_info_t -> simulation outcome;
}.

(** The values of an outcome; a missing one is empty. *)
Definition pair_values (d : option string * option string) : string * string :=
  (default ""%string d.1, default ""%string d.2).
Definition result_of (o : outcome) : preflight_result_t :=
  match o with
  | InvokeHostFunctionOutcome r restore error =>
      mkResultT error (ir_diagnostic_events r) (default ""%string (fst <$> ir_transaction_data r))
        (from_option snd 0 (ir_transaction_data r)) (default ""%string (ir_invoke_result r)) (ir_auth r)
        (ir_simulated_instructions r) (ir_simulated_memory r) (default ""%string (fst <$> restore)) (from_option snd 0 restore)
        (pair_values <$> ir_modified_entries r)
  | TransactionDataOutcome data restore error =>
      mkResultT error [] (default ""%string (fst <$> data)) (from_option snd 0 data) "" [] 0 0
        (default ""%string (fst <$> restore)) (from_option snd 0 restore) []
  | ErrorOutcome message => mkResultT message [] "" 0 "" [] 0 0 "" 0 []
  end.

Fixpoint sim_map {A B} (f : A -> B) (s : simulation A) : simulation B :=
  match s with
  | Finished r => Finished (f r)
  | GetEntry key continue => GetEntry key (fun a => sim_map f (continue a))
  end.
Lemma run_map {A B} (f : A -> B) snap s :
  run snap (sim_map f s) = (r ← run snap s; Ok (f r)).
Proof. induction s as [r|key c IH]; [done|]. cbn. destruct (snap key); [apply IH|done..]. Qed.

(** The library Preflight takes as a parameter. *)
#[export] Instance lib_values {RS : RustSimulation} : PreflightLib := {
  preflight_invoke_hf_op hf source info leeway debug mode := sim_map result_of (simulate_invoke_hf_op hf source info leeway debug mode);
  preflight_footprint_ttl_op body footprint info := sim_map result_of (simulate_footprint_ttl_op body footprint info);
}.

(** ** C structures of the calls *)

Record ledger_entry_and_ttl_t := mkEntryAndTTL { entry : xdr_t; ttl : Z }.
Record c_ledger_info := mkCLedgerInfo {
  cl_network_passphrase : Z;
  cl_sequence_number : Z;
  cl_protocol_version : Z;
  cl_timestamp : Z;
  cl_base_reserve : Z;
  cl_bucket_list_size : Z;
}.

Section Bridge.
Context `{V : ScVals} {D : Ledgers} {Drv : Driver} {X : XdrConsts} {J : XdrToJson}.
Context {E : LedgerEntryXdr} {O : Operations} {RS : RustSimulation} {A : Allocator}.
Context (key_SafeUnmarshal : string -> go LedgerKey) (entry_MarshalBinary : LedgerEntry -> go string).
(** What a handle stands for: a [snapshotSourceHandle], whose getter matters. *)
Notation memory := (memory (H := LedgerEntryGetter)).
Notation snapshot_of := (Preflight.SnapshotSourceGet key_SafeUnmarshal entry_MarshalBinary).

(** ** Callbacks *)

Definition SnapshotSourceGet (handle : Z) (cLedgerKey : xdr_t) : st memory ledger_entry_and_ttl_t :=
  h ← Handle_Value handle;
  ledgerKeyXDR ← GoXDR cLedgerKey;
  res ← lift (snapshot_of h ledgerKeyXDR);
  match res with
  | None => mret (mkEntryAndTTL null_xdr 0)
  | Some (out, ttl) => x ← CXDR out; mret (mkEntryAndTTL x ttl)
  end.
Definition FreeGoLedgerEntryAndTTL (leTTL : ledger_entry_and_ttl_t) : st memory unit := C_free (xdr (entry leTTL)).

(** [GoLedgerStorage::get_xdr_internal], and its caller's key. *)
Definition get_xdr_internal (golang_handle : Z) (key_c_xdr : xdr_t) : st memory (option (string * option Z)) :=
  res ← SnapshotSourceGet golang_handle key_c_xdr;
  if xdr (entry res) =? 0 then mret None
  else v ← from_c_xdr (entry res);
       _ ← FreeGoLedgerEntryAndTTL res;
       if ttl res <? 0 then mret (Some (v, None))
       else if ttl res <? 2 ^ 32 then mret (Some (v, Some (ttl res))) else mret None.
Definition get_entry (handle : Z) (key : string) : st memory (option (string * option Z)) :=
  key_xdr ← xdr_to_c key;
  res ← get_xdr_internal handle key_xdr;
  _ ← free_c_xdr key_xdr;
  mret res.

(** A run of the simulation whose questions go through the callback. *)
Fixpoint run_calls {B} (handle : Z) (s : simulation B) : st memory B :=
  match s with
  | Finished r => mret r
  | GetEntry key continue => res ← get_entry handle key; run_calls handle (continue res)
  end.

(** ** Results: [lib/preflight/src] *)

(** [CPreflightResult::default()] *)
Definition default_result : st memory c_preflight_result :=
  error ← string_to_c "";
  mret (mkCResult error (mkXdrVector 0 0) null_xdr null_xdr 0 (mkXdrVector 0 0) 0 0 null_xdr 0 (mkXdrDiffVector 0 0)).

(** The fields in their order, then the default the others come from. *)
Definition new_cpreflight_result_from_invoke_host_function (r : InvokeHostFunctionSimulationResult)
    (restore_preamble : option (string * Z)) (error : string) : st memory c_preflight_result :=
  c_error ← string_to_c error;
  auth ← xdr_vec_to_c (ir_auth r);
  result ← option_xdr_to_c (ir_invoke_result r);
  transaction_data ← option_xdr_to_c (fst <$> ir_transaction_data r);
  events ← xdr_vec_to_c (ir_diagnostic_events r);
  ledger_entry_diff ← ledger_entry_diff_vec_to_c (ir_modified_entries r);
  dflt ← default_result;
  pre_restore ← match restore_preamble with
                | Some p => x ← xdr_to_c p.1; mret (x, p.2)
                | None => mret (cp_pre_restore_transaction_data dflt, cp_pre_restore_min_fee dflt)
                end;
  mret (mkCResult c_error auth result transaction_data (from_option snd 0 (ir_transaction_data r)) events
    (ir_simulated_instructions r) (ir_simulated_memory r) pre_restore.1 pre_restore.2 ledger_entry_diff).

Definition new_cpreflight_result_from_transaction_data (transaction_data restore_preamble : option (string * Z))
    (error : string) : st memory c_preflight_result :=
  c_error ← string_to_c error;
  data ← option_xdr_to_c (fst <$> transaction_data);
  dflt ← default_result;
  pre_restore ← match restore_preamble with
                | Some p => x ← xdr_to_c p.1; mret (x, p.2)
                | None => mret (cp_pre_restore_transaction_data dflt, cp_pre_restore_min_fee dflt)
                end;
  mret (mkCResult c_error (cp_auth dflt) (cp_result dflt) data (from_option snd 0 transaction_data) (cp_events dflt)
    (cp_cpu_instructions dflt) (cp_memory_bytes dflt) pre_restore.1 pre_restore.2 (cp_ledger_entry_diff dflt)).

Definition preflight_error (str : string) : st memory c_preflight_result :=
  c_str ← string_to_c str;
  dflt ← default_result;
  mret (mkCResult c_str (cp_auth dflt) (cp_result dflt) (cp_transaction_data dflt) (cp_min_fee dflt) (cp_events dflt)
    (cp_cpu_instructions dflt) (cp_memory_bytes dflt) (cp_pre_restore_transaction_data dflt) (cp_pre_restore_min_fee dflt)
    (cp_ledger_entry_diff dflt)).

(** [catch_preflight_panic]: the result in a box of its own. *)
Definition boxed_result (o : outcome) : st memory Z :=
  c_preflight_result ← match o with
    | InvokeHostFunctionOutcome r restore error => new_cpreflight_result_from_invoke_host_function r restore error
    | TransactionDataOutcome data restore error => new_cpreflight_result_from_transaction_data data restore error
    | ErrorOutcome message => preflight_error message
    end;
  malloc (mkBlock Rust (PreflightResult c_preflight_result)).

Definition load_result (p : Z) : st memory c_preflight_result :=
  c ← load p;
  match c with PreflightResult r => mret r | _ => lift (Panic "invalid memory access") end.

Definition free_preflight_result (result : Z) : st memory unit :=
  if result =? 0 then mret tt
  else boxed ← load_result result;
       _ ← free_c_string (cp_error boxed);
       _ ← free_c_xdr_array (cp_auth boxed);
       _ ← free_c_xdr (cp_result boxed);
       _ ← free_c_xdr (cp_transaction_data boxed);
       _ ← free_c_xdr_array (cp_events boxed);
       _ ← free_c_xdr (cp_pre_restore_transaction_data boxed);
       _ ← free_c_xdr_diff_array (cp_ledger_entry_diff boxed);
       dealloc Rust result.

(** The passphrase is read from memory, the rest is in the structure. *)
Definition fill_ledger_info (c_ledger_info : c_ledger_info) : st memory ledger_info_t :=
  network_passphrase ← from_c_string (cl_network_passphrase c_ledger_info);
  mret (mkLedgerInfoT network_passphrase (cl_sequence_number c_ledger_info) (cl_protocol_version c_ledger_info)
    (cl_timestamp c_ledger_info) (cl_base_reserve c_ledger_info) (cl_bucket_list_size c_ledger_info)).

Definition C_preflight_invoke_hf_op (handle : Z) (invoke_hf_op source_account : xdr_t) (ledger_info : c_ledger_info)
    (instruction_leeway : Z) (enable_debug : bool) (auth_mode : Z) : st memory Z :=
  op ← from_c_xdr invoke_hf_op;
  source ← from_c_xdr source_account;
  info ← fill_ledger_info ledger_info;
  o ← run_calls handle (simulate_invoke_hf_op op source info instruction_leeway enable_debug auth_mode);
  boxed_result o.

Definition C_preflight_footprint_ttl_op (handle : Z) (op_body footprint : xdr_t) (ledger_info : c_ledger_info) : st memory Z :=
  body ← from_c_xdr op_body;
  fp ← from_c_xdr footprint;
  info ← fill_ledger_info ledger_info;
  o ← run_calls handle (simulate_footprint_ttl_op body fp info);
  boxed_result o.

(** ** [preflight.go] *)

Definition getLedgerInfo (params : Parameters) (now : Z) : st memory c_ledger_info :=
  network_passphrase ← C_CString (p_NetworkPassphrase params);
  mret (mkCLedgerInfo network_passphrase (u32 (p_LedgerSeq params)) (u32 (p_ProtocolVersion params)) (u64 now)
    defaultBaseReserve (u64 (p_BucketListSize params))).

Definition GoPreflight (result : Z) : st memory Preflight :=
  defer (free_preflight_result result)
   (r ← load_result result;
    error ← C_GoString (cp_error r);
    events ← GoXDRVector (cp_events r);
    transaction_data ← GoXDR (cp_transaction_data r);
    res ← GoXDR (cp_result r);
    auth ← GoXDRVector (cp_auth r);
    pre_restore ← GoXDR (cp_pre_restore_transaction_data r);
    diff ← CMemory.GoXDRDiffVector (cp_ledger_entry_diff r);
    mret (mkPreflight error events transaction_data (i64 (cp_min_fee r)) res auth (u64 (cp_cpu_instructions r))
      (u64 (cp_memory_bytes r)) pre_restore (i64 (cp_pre_restore_min_fee r)) (Preflight.GoXDRDiffVector diff))).

Definition getFootprintTTLPreflight (now : Z) (params : Parameters) : st memory Preflight :=
  opBodyXDR ← lift (op_MarshalBinary (p_OpBody params));
  opBodyCXDR ← CXDR opBodyXDR;
  footprintXDR ← lift (on_err (EWrap "cannot marshal footprint: %w" []) (footprint_MarshalBinary (p_Footprint params)));
  footprintCXDR ← CXDR footprintXDR;
  handle ← NewHandle (p_LedgerEntryGetter params);
  defer (Handle_Delete handle)
   (info ← getLedgerInfo params now;
    res ← C_preflight_footprint_ttl_op handle opBodyCXDR footprintCXDR info;
    _ ← FreeGoXDR opBodyCXDR;
    _ ← FreeGoXDR footprintCXDR;
    GoPreflight res).

Definition getInvokeHostFunctionPreflight (now : Z) (params : Parameters) : st memory Preflight :=
  op ← lift (MustInvokeHostFunctionOp (p_OpBody params));
  invokeHostFunctionXDR ← lift op.1;
  invokeHostFunctionCXDR ← CXDR invokeHostFunctionXDR;
  sourceAccountXDR ← lift (account_MarshalBinary (p_SourceAccount params));
  sourceAccountCXDR ← CXDR sourceAccountXDR;
  handle ← NewHandle (p_LedgerEntryGetter params);
  defer (Handle_Delete handle)
   (authMode ← lift (authMode_code (p_AuthMode params));
    info ← getLedgerInfo params now;
    res ← C_preflight_invoke_hf_op handle invokeHostFunctionCXDR sourceAccountCXDR info
      (u64 (InstructionLeeway (p_ResourceConfig params))) (p_EnableDebug params) authMode;
    _ ← FreeGoXDR invokeHostFunctionCXDR;
    _ ← FreeGoXDR sourceAccountCXDR;
    GoPreflight res).

Definition GetPreflight (now : Z) (params : Parameters) : st memory Preflight :=
  if op_Type (p_OpBody params) =? OperationTypeInvokeHostFunction then getInvokeHostFunctionPreflight now params
  else if (op_Type (p_OpBody params) =? OperationTypeExtendFootprintTtl)
          || (op_Type (p_OpBody params) =? OperationTypeRestoreFootprint)
  then getFootprintTTLPreflight now params
  else lift (Er (EFmt "unsupported operation type: %s" [FS (op_Type_String (p_OpBody params))])).
End Bridge.

(** ** [xdr2json/conversion.go] *)

Section Conversion.
Context {J : XdrToJson} {A : Allocator} {H : Type}.
Notation memory := (memory (H := H)).

(** [C.xdr_to_json] of [lib/xdr2json]: copies of both arguments, two strings and
    a box for the result. *)
Definition C_xdr_to_json (typename : Z) (x : xdr_t) : st memory Z :=
  type_str ← from_c_string typename;
  xdr_bytearray ← from_c_xdr x;
  let '(json, error) := xdr_to_json type_str xdr_bytearray in
  c_json ← string_to_c json;
  c_error ← string_to_c error;
  malloc (mkBlock Rust (ConversionResult (mkConversionResult c_json c_error))).

Definition load_conversion (p : Z) : st memory conversion_result_t :=
  c ← load p;
  match c with ConversionResult r => mret r | _ => lift (Panic "invalid memory access") end.
Definition free_conversion_result (ptr : Z) : st memory unit :=
  if ptr =? 0 then mret tt
  else r ← load_conversion ptr;
       _ ← free_c_string (cr_json r);
       _ ← free_c_string (cr_error r);
       dealloc Rust ptr.

Definition convertAnyBytes (xdrTypeName field : string) : st memory string :=
  goRawXdr ← CXDR field;
  b ← C_CString xdrTypeName;
  result ← C_xdr_to_json b goRawXdr;
  _ ← C_free b;
  r ← load_conversion result;
  jsonStr ← C_GoString (cr_json r);
  errStr ← C_GoString (cr_error r);
  _ ← free_conversion_result result;
  if negb (String.eqb errStr "") then lift (Er (ENew errStr)) else mret jsonStr.
End Conversion.

(** ** Results in memory *)

Section Results.
Context {A : Allocator} {AL : AllocatorLaws A} {E : LedgerEntryXdr}.
Notation memory := (memory (H := LedgerEntryGetter)).
Notation blocks := (gmap Z block).

Definition field_bytes (s : string) (x : xdr_t) (o : blocks) : Prop := exists v, default ""%string v = s /\ opt_bytes v x o.
Definition field_vec (l : list string) (v : xdr_vector_t) (o : blocks) : Prop :=
  (l = [] /\ null_vec (array v) (vec_len v) o) \/ rep_vec XdrArray rust_bytes l (array v) (vec_len v) o.
Definition field_diff (l : list (string * string)) (v : xdr_diff_vector_t) (o : blocks) : Prop :=
  (l = [] /\ null_vec (diff_array v) (diff_len v) o) \/
  exists l0, l = pair_values <$> l0 /\ rep_vec XdrDiffArray opt_diff l0 (diff_array v) (diff_len v) o.

(** The blocks each field owns, in the order they are freed. *)
Inductive fields (res : preflight_result_t) (r : c_preflight_result) : list blocks -> Prop :=
  | mk_fields oe oa ors ot ov op od :
      rust_string (c_error res) (cp_error r) oe -> field_vec (c_auth res) (cp_auth r) oa ->
      field_bytes (c_result res) (cp_result r) ors -> field_bytes (c_transaction_data res) (cp_transaction_data r) ot ->
      field_vec (c_events res) (cp_events r) ov ->
      field_bytes (c_pre_restore_transaction_data res) (cp_pre_restore_transaction_data r) op ->
      field_diff (c_ledger_entry_diff res) (cp_ledger_entry_diff r) od ->
      cp_min_fee r = c_min_fee res -> cp_cpu_instructions r = c_cpu_instructions res ->
      cp_memory_bytes r = c_memory_bytes res -> cp_pre_restore_min_fee r = c_pre_restore_min_fee res ->
      fields res r [oe; oa; ors; ot; ov; op; od].
(** The empty message of the default result. *)
Definition stray (o : blocks) : Prop := exists p, rust_string "" p o.

Lemma field_bytes_null : field_bytes "" null_xdr ∅.
Proof. by exists None. Qed.
Lemma field_vec_null : field_vec [] (mkXdrVector 0 0) ∅.
Proof. by left. Qed.
Lemma field_diff_null : field_diff [] (mkXdrDiffVector 0 0) ∅.
Proof. by left. Qed.
#[local] Hint Resolve field_bytes_null field_vec_null field_diff_null : core.

Lemma xdr_vec_allocates l : allocates (H := LedgerEntryGetter) (xdr_vec_to_c l) (field_vec l).
Proof.
  eapply allocates_bind; [apply mapM_allocates, xdr_to_c_allocates|]. intros xs o Hl.
  eapply allocates_bind; [by apply vec_to_c_array_allocates|]. intros [p n] o' (Hn & Hp & ->). cbn [fst snd] in *. subst n. apply allocates_ret.
  intros _ Hd. rewrite map_empty_union in Hd |- *. right. by apply rep_vec_intro.
Qed.
Lemma diff_vec_allocates l :
  allocates (H := LedgerEntryGetter) (ledger_entry_diff_vec_to_c l) (field_diff (pair_values <$> l)).
Proof.
  eapply allocates_bind; [apply mapM_allocates, ledger_entry_diff_to_c_allocates|]. intros xs o Hl.
  eapply allocates_bind; [by apply vec_to_c_array_allocates|]. intros [p n] o' (Hn & Hp & ->). cbn [fst snd] in *. subst n. apply allocates_ret.
  intros _ Hd. rewrite map_empty_union in Hd |- *. right. exists l. split; [done|]. by apply rep_vec_intro.
Qed.
Lemma option_field_allocates v : allocates (H := LedgerEntryGetter) (option_xdr_to_c v) (field_bytes (default ""%string v)).
Proof. eapply allocates_weaken; [apply option_xdr_to_c_allocates|]. intros x o Ho. by exists v. Qed.

Lemma default_result_allocates : allocates (H := LedgerEntryGetter) default_result
  (fun r o => stray o /\ exists p, r = mkCResult p (mkXdrVector 0 0) null_xdr null_xdr 0 (mkXdrVector 0 0) 0 0 null_xdr 0 (mkXdrDiffVector 0 0)).
Proof.
  eapply allocates_bind; [by apply string_to_c_allocates|]. intros p o Ho. apply allocates_ret. intros _.
  rewrite map_empty_union. split; [by exists p|by exists p].
Qed.
Lemma restore_allocates (restore : option (string * Z)) d0 :
  allocates (H := LedgerEntryGetter)
    (match restore with Some p => x ← xdr_to_c p.1; mret (x, p.2) | None => mret (null_xdr, d0) end)
    (fun r o => field_bytes (default ""%string (fst <$> restore)) r.1 o /\ r.2 = from_option snd d0 restore).
Proof.
  destruct restore as [[s fee]|]; [|by apply allocates_ret].
  eapply allocates_bind; [apply xdr_to_c_allocates|]. intros x o Ho. apply allocates_ret. intros _.
  rewrite map_empty_union. split; [by exists (Some s)|done].
Qed.

(** A result and the stray message beside it. *)
Definition new_result (res : preflight_result_t) (r : c_preflight_result) (o : blocks) : Prop :=
  exists os ol, fields res r os /\ stray ol /\ pieces (ol :: os) o.

(** The pieces a sequence of allocations leaves, latest first. *)
Ltac gather := repeat match goal with
  | |- _ ##ₘ _ -> _ => let H := fresh "Hd" in intros H
  end; rewrite ?map_empty_union in *.
Ltac stack := repeat first [apply pieces_one | eapply pieces_add; [|eassumption]].

Lemma invoke_result_allocates r restore error : has_char NUL error = false ->
  allocates (new_cpreflight_result_from_invoke_host_function r restore error)
    (new_result (result_of (InvokeHostFunctionOutcome r restore error))).
Proof.
  intros He. unfold new_cpreflight_result_from_invoke_host_function.
  eapply allocates_bind; [by apply string_to_c_allocates|]. intros pe oe Hoe.
  eapply allocates_bind; [apply xdr_vec_allocates|]. intros auth oa Hoa.
  eapply allocates_bind; [apply option_field_allocates|]. intros res ors Hors.
  eapply allocates_bind; [apply option_field_allocates|]. intros td ot Hot.
  eapply allocates_bind; [apply xdr_vec_allocates|]. intros ev ov Hov.
  eapply allocates_bind; [apply diff_vec_allocates|]. intros df od Hod.
  eapply allocates_bind; [apply default_result_allocates|]. intros dflt ol [Hol [pl ->]].
  eapply allocates_bind; [apply restore_allocates|]. intros pre op [Hop Hfee].
  apply allocates_ret. gather. exists [oe; oa; ors; ot; ov; op; od], ol. split_and!; [by constructor|done|].
  eapply (pieces_perm [oe; oa; ors; ot; ov; od; ol; op]); [perm|]. stack.
Qed.
Lemma transaction_data_result_allocates data restore error : has_char NUL error = false ->
  allocates (new_cpreflight_result_from_transaction_data data restore error)
    (new_result (result_of (TransactionDataOutcome data restore error))).
Proof.
  intros He. unfold new_cpreflight_result_from_transaction_data.
  eapply allocates_bind; [by apply string_to_c_allocates|]. intros pe oe Hoe.
  eapply allocates_bind; [apply option_field_allocates|]. intros td ot Hot.
  eapply allocates_bind; [apply default_result_allocates|]. intros dflt ol [Hol [pl ->]].
  eapply allocates_bind; [apply restore_allocates|]. intros pre op [Hop Hfee].
  apply allocates_ret. gather. exists [oe; ∅; ∅; ot; ∅; op; ∅], ol. split_and!; [by constructor|done|].
  eapply (pieces_perm [∅; ∅; ∅; ∅; oe; ot; ol; op]); [perm|]. do 4 apply pieces_empty. stack.
Qed.
Lemma error_result_allocates message : has_char NUL message = false ->
  allocates (preflight_error message) (new_result (result_of (ErrorOutcome message))).
Proof.
  intros He. unfold preflight_error. eapply allocates_bind; [by apply string_to_c_allocates|]. intros pe oe Hoe.
  eapply allocates_bind; [apply default_result_allocates|]. intros dflt ol [Hol [pl ->]].
  apply allocates_ret. gather. exists [oe; ∅; ∅; ∅; ∅; ∅; ∅], ol. split_and!; [by constructor|done|].
  eapply (pieces_perm [∅; ∅; ∅; ∅; ∅; ∅; oe; ol]); [perm|]. do 6 apply pieces_empty. stack.
Qed.

(** A boxed result at [p]. *)
Definition result_at (res : preflight_result_t) (p : Z) (o : blocks) : Prop :=
  exists r os, fields res r os /\ p <> 0 /\ pieces (os ++ [{[ p := mkBlock Rust (PreflightResult r) ]}]) o.

Lemma boxed_result_allocates out : has_char NUL (c_error (result_of out)) = false ->
  allocates (boxed_result out) (fun p o => exists o1 ol, result_at (result_of out) p o1 /\ stray ol /\ o1 ##ₘ ol /\ o = o1 ∪ ol).
Proof.
  intros He. unfold boxed_result. apply (allocates_bind _ _ (new_result (result_of out))).
  - destruct out; [by apply invoke_result_allocates|by apply transaction_data_result_allocates|by apply error_result_allocates].
  - intros r o (os & ol & Hf & Hol & Ho). eapply allocates_weaken; [apply malloc_allocates|]. intros p o' [Hp ->] Hd.
    assert (pieces ((os ++ [{[ p := mkBlock Rust (PreflightResult r) ]}]) ++ [ol]) ({[ p := mkBlock Rust (PreflightResult r) ]} ∪ o)) as Hall.
    { eapply pieces_perm; [|apply pieces_cons; by exists o]. rewrite <- !Permutation_cons_append. constructor. }
    apply pieces_group in Hall as (t1 & t2 & H1 & H2 & Ht & ->).
    apply pieces_cons in H2 as (? & -> & _ & ->). rewrite map_union_empty in *.
    exists t1, ol. split_and!; [by exists r, os|done..].
Qed.

(** *** Reading and freeing a result *)

(** The lengths [C.int] can hold. *)
Definition result_fits (res : preflight_result_t) : Prop :=
  fits (c_transaction_data res) /\ fits (c_result res) /\ fits (c_pre_restore_transaction_data res) /\
  Forall fits (c_auth res) /\ Forall fits (c_events res) /\
  Forall (fun d => fits d.1 /\ fits d.2) (c_ledger_entry_diff res).

Lemma field_bytes_reads s x o : field_bytes s x o -> fits s -> reads (H := LedgerEntryGetter) (GoXDR x) s o.
Proof. intros (v & <- & Hx). by apply GoXDR_opt. Qed.
Lemma field_bytes_frees s x o : field_bytes s x o -> frees (H := LedgerEntryGetter) (free_c_xdr x) o.
Proof. intros (v & _ & Hx). by eapply free_c_xdr_frees. Qed.
Lemma field_vec_reads l v o : field_vec l v o -> Forall fits l -> reads (H := LedgerEntryGetter) (GoXDRVector v) l o.
Proof.
  intros [[-> Hv]|Hv] Hl; [by eapply null_vec_reads|]. unfold GoXDRVector. rewrite <- (list_fmap_id l).
  eapply (vec_reads XdrArray xdrs); [done| |done|done]. intros s x o' Hx Hs. by apply GoXDR_rust.
Qed.
Lemma field_vec_frees l v o : field_vec l v o -> frees (H := LedgerEntryGetter) (free_c_xdr_array v) o.
Proof.
  intros [[_ Hv]|Hv]; [by eapply null_vec_frees|]. eapply (vec_frees XdrArray xdrs); [done| |done].
  intros s x o' Hx. by apply (free_c_xdr_frees (Some s)).
Qed.
Lemma field_diff_reads l v o : field_diff l v o -> Forall (fun d => fits d.1 /\ fits d.2) l ->
  reads (H := LedgerEntryGetter) (CMemory.GoXDRDiffVector v) l o.
Proof.
  intros [[-> Hv]|(l0 & -> & Hv)] Hl; [by eapply null_vec_reads|]. rewrite Forall_fmap in Hl.
  eapply (vec_reads XdrDiffArray xdr_diffs); [done| |done|done]. intros d x o' Hx [? ?]. by apply GoXDR_diff.
Qed.
Lemma field_diff_frees l v o : field_diff l v o -> frees (H := LedgerEntryGetter) (free_c_xdr_diff_array v) o.
Proof.
  intros [[_ Hv]|(l0 & _ & Hv)]; [by eapply null_vec_frees|]. eapply (vec_frees XdrDiffArray xdr_diffs); [done| |done].
  intros d x o' Hx. by eapply free_diff_frees.
Qed.

Lemma load_result_reads p r os o : pieces (os ++ [{[ p := mkBlock Rust (PreflightResult r) ]}]) o ->
  reads (load_result p) r o.
Proof.
  intros Ho. eapply reads_piece; [|exact Ho|apply elem_of_app; right; by left].
  eapply reads_bind; [apply load_reads, lookup_singleton_eq|apply reads_ret].
Qed.

Lemma free_preflight_result_frees res p o : result_at res p o -> frees (free_preflight_result p) o.
Proof.
  intros (r & os & Hf & Hp & Ho). unfold free_preflight_result. apply Z.eqb_neq in Hp. rewrite Hp.
  eapply frees_read; [by eapply load_result_reads|]. destruct Hf as [oe oa ors ot ov op od He Ha Hr Ht Hv Hpr Hd _ _ _ _].
  revert Ho. cbn [app]. eapply frees_pieces_cons; [by eapply free_c_string_frees|]. intros t1.
  eapply frees_pieces_cons; [by eapply field_vec_frees|]. intros t2.
  eapply frees_pieces_cons; [by eapply field_bytes_frees|]. intros t3.
  eapply frees_pieces_cons; [by eapply field_bytes_frees|]. intros t4.
  eapply frees_pieces_cons; [by eapply field_vec_frees|]. intros t5.
  eapply frees_pieces_cons; [by eapply field_bytes_frees|]. intros t6.
  eapply frees_pieces_cons; [by eapply field_diff_frees|]. intros t7.
  apply frees_pieces_one, dealloc_frees.
Qed.

Lemma GoPreflight_spec res p o m : result_at res p o -> result_fits res -> o ⊆ heap m ->
  GoPreflight p m = (Ok (Preflight.GoPreflight res), with_heap (heap m ∖ o) m).
Proof.
  intros Hat Hfit Hm. pose proof (free_preflight_result_frees _ _ _ Hat m Hm) as Hfree.
  destruct Hat as (r & os & Hf & Hp & Ho). pose proof (load_result_reads _ _ _ _ Ho) as Hload.
  destruct Hf as [oe oa ors ot ov op od He Ha Hr Ht Hv Hpr Hd Emin Ecpu Emem Epre].
  destruct Hfit as (Fd & Fr & Fp & Fa & Fe & Fdiff).
  assert (reads (r ← load_result p; error ← C_GoString (cp_error r); events ← GoXDRVector (cp_events r);
    transaction_data ← GoXDR (cp_transaction_data r); res0 ← GoXDR (cp_result r); auth ← GoXDRVector (cp_auth r);
    pre_restore ← GoXDR (cp_pre_restore_transaction_data r); diff ← CMemory.GoXDRDiffVector (cp_ledger_entry_diff r);
    mret (mkPreflight error events transaction_data (i64 (cp_min_fee r)) res0 auth (u64 (cp_cpu_instructions r))
      (u64 (cp_memory_bytes r)) pre_restore (i64 (cp_pre_restore_min_fee r)) (Preflight.GoXDRDiffVector diff)))
    (Preflight.GoPreflight res) o) as Hbody.
  { eapply reads_bind; [exact Hload|]. cbn [app] in Ho.
    eapply reads_bind; [eapply reads_piece; [by eapply GoString_rust|exact Ho|set_solver]|].
    eapply reads_bind; [eapply reads_piece; [by eapply field_vec_reads|exact Ho|set_solver]|].
    eapply reads_bind; [eapply reads_piece; [by eapply field_bytes_reads|exact Ho|set_solver]|].
    eapply reads_bind; [eapply reads_piece; [by eapply field_bytes_reads|exact Ho|set_solver]|].
    eapply reads_bind; [eapply reads_piece; [by eapply field_vec_reads|exact Ho|set_solver]|].
    eapply reads_bind; [eapply reads_piece; [by eapply field_bytes_reads|exact Ho|set_solver]|].
    eapply reads_bind; [eapply reads_piece; [by eapply field_diff_reads|exact Ho|set_solver]|].
    rewrite Emin, Ecpu, Emem, Epre. apply reads_ret. }
  unfold GoPreflight, defer. by rewrite (Hbody m Hm), Hfree.
Qed.
End Results.

(** ** The simulation and its callbacks *)

(** A simulation whose keys [C.int] can measure and whose outcome satisfies [Q]. *)
Inductive within {B} (Q : B -> Prop) : simulation B -> Prop :=
  | within_finished r : Q r -> within Q (Finished r)
  | within_get key continue : fits key -> (forall a, within Q (continue a)) -> within Q (GetEntry key continue).
Lemma within_run {B} (Q : B -> Prop) snap s r : within Q s -> run snap s = Ok r -> Q r.
Proof.
  induction 1 as [r' Hr|key c Hk Hc IH]; cbn; [by intros [= <-]|]. destruct (snap key); [apply IH|done..].
Qed.

Definition outcome_fits (o : outcome) : Prop :=
  has_char NUL (c_error (result_of o)) = false /\ result_fits (result_of o).
(** What is relied on of the simulation: XDR is limited to 32 MiB
    ([DEFAULT_XDR_RW_LIMITS]), messages have no NUL. *)
Class RustSimulationLaws (RS : RustSimulation) := {
  invoke_within hf source info leeway debug mode :
    within outcome_fits (simulate_invoke_hf_op hf source info leeway debug mode);
  footprint_within body footprint info : within outcome_fits (simulate_footprint_ttl_op body footprint info);
}.

Section Calls.
Context `{V : ScVals} {D : Ledgers} {Drv : Driver} {X : XdrConsts} {J : XdrToJson}.
Context {E : LedgerEntryXdr} {O : Operations} {RS : RustSimulation} {RSL : RustSimulationLaws RS}.
Context {A : Allocator} {AL : AllocatorLaws A}.
Context (key_SafeUnmarshal : string -> go LedgerKey) (entry_MarshalBinary : LedgerEntry -> go string).
Notation memory := (memory (H := LedgerEntryGetter)).
Notation blocks := (gmap Z block).
Notation snapshot_of := (Preflight.SnapshotSourceGet key_SafeUnmarshal entry_MarshalBinary).

Lemma snapshot_cases getter key : (exists r, snapshot_of getter key = Ok r) \/ exists p, snapshot_of getter key = Panic p.
Proof.
  unfold Preflight.SnapshotSourceGet. destruct (key_SafeUnmarshal key); [|eauto..].
  destruct (getter _); [|eauto..]. destruct (1 <? _); [eauto|]. destruct a0 as [|e ?]; [eauto|]. destruct (entry_MarshalBinary _); eauto.
Qed.

Lemma SnapshotSourceGet_spec handle key x o getter m : handles m !! handle = Some getter -> fits key ->
  rust_bytes key x o -> o ⊆ heap m ->
  match snapshot_of getter key with
  | Ok None => SnapshotSourceGet key_SafeUnmarshal entry_MarshalBinary handle x m = (Ok (mkEntryAndTTL null_xdr 0), m)
  | Ok (Some (out, t)) => exists y o', malloc_bytes out y o' /\ o' ##ₘ heap m /\
      SnapshotSourceGet key_SafeUnmarshal entry_MarshalBinary handle x m =
      (Ok (mkEntryAndTTL y t), with_heap (o' ∪ heap m) m)
  | Er e => False
  | Panic p => SnapshotSourceGet key_SafeUnmarshal entry_MarshalBinary handle x m = (Panic p, m)
  end.
Proof.
  intros Hh Hk Hx Ho. unfold SnapshotSourceGet.
  assert (Handle_Value handle m = (Ok getter, m)) as Hv by (unfold Handle_Value; by rewrite Hh).
  rewrite (st_bind_eq _ _ _ _ _ Hv), (st_bind_eq _ _ _ _ _ (GoXDR_rust _ _ _ Hx Hk m Ho)).
  destruct (snapshot_cases getter key) as [[r Hr]|[p Hr]]; rewrite Hr; [|done]. destruct r as [[out t]|]; [|done].
  destruct (CXDR_allocates out m) as (y & o' & Ey & Hy & Hd). exists y, o'. split_and!; [done..|].
  unfold lift. cbn. unfold mbind, st_bind. cbn. by rewrite Ey.
Qed.

Lemma get_xdr_internal_spec handle key x o getter m : handles m !! handle = Some getter -> fits key ->
  rust_bytes key x o -> o ⊆ heap m ->
  match snapshot_of getter key with
  | Ok r => get_xdr_internal key_SafeUnmarshal entry_MarshalBinary handle x m = (Ok (answer r), m)
  | Er _ => False
  | Panic p => get_xdr_internal key_SafeUnmarshal entry_MarshalBinary handle x m = (Panic p, m)
  end.
Proof.
  intros Hh Hk Hx Ho. pose proof (SnapshotSourceGet_spec handle key x o getter m Hh Hk Hx Ho) as Hs. unfold get_xdr_internal.
  destruct (snapshot_of getter key) as [[[out t]|]|e|p]; [|by rewrite (st_bind_eq _ _ _ _ _ Hs)|done|].
  - destruct Hs as (y & o' & Hy & Hd & Hs). rewrite (st_bind_eq _ _ _ _ _ Hs). cbn [entry ttl].
    rewrite (proj2 (Z.eqb_neq (xdr y) 0)) by (by destruct Hy as (_ & ? & _)). set (m2 := with_heap _ m).
    assert (o' ⊆ heap m2) as Ho' by apply map_union_subseteq_l.
    rewrite (st_bind_eq _ _ _ _ _ (from_c_xdr_malloc _ _ _ Hy m2 Ho')). unfold FreeGoLedgerEntryAndTTL. cbn [entry].
    rewrite (st_bind_eq _ _ _ _ _ (FreeGoXDR_frees _ _ _ Hy m2 Ho')). subst m2. cbn [heap with_heap handles handleIdx].
    change (with_heap _ (with_heap _ m)) with (with_heap ((o' ∪ heap m) ∖ o') m). rewrite add_sub by done.
    unfold answer. cbn [mbind option_bind]. destruct (t <? 0); [done|]. by destruct (t <? 2 ^ 32).
  - unfold mbind, st_bind. by rewrite Hs.
Qed.

(** One question: the entry's copy is freed, and so is the key. *)
Lemma get_entry_spec handle key getter m : handles m !! handle = Some getter -> fits key ->
  match snapshot_of getter key with
  | Ok r => get_entry key_SafeUnmarshal entry_MarshalBinary handle key m = (Ok (answer r), m)
  | Er _ => False
  | Panic p => exists m', get_entry key_SafeUnmarshal entry_MarshalBinary handle key m = (Panic p, m') /\
      handles m' = handles m
  end.
Proof.
  intros Hh Hk. unfold get_entry. destruct (xdr_to_c_allocates key m) as (x & o & Ex & Hx & Hd).
  rewrite (st_bind_eq _ _ _ _ _ Ex). set (m1 := with_heap (o ∪ heap m) m).
  assert (o ⊆ heap m1) as Ho by apply map_union_subseteq_l.
  assert (free_c_xdr x m1 = (Ok tt, m)) as Hfree.
  { rewrite (free_c_xdr_frees (Some key) _ _ Hx m1 Ho). cbn. f_equal. apply (add_sub o m Hd). }
  pose proof (get_xdr_internal_spec handle key x o getter m1 Hh Hk Hx Ho) as Hs.
  destruct (snapshot_of getter key) as [r|e|p]; [|done|].
  - by rewrite (st_bind_eq _ _ _ _ _ Hs), (st_bind_eq _ _ _ _ _ Hfree).
  - exists m1. unfold mbind, st_bind. by rewrite Hs.
Qed.

(** The simulation run through the callbacks is the simulation run on values. *)
Lemma run_calls_spec {B} (Q : B -> Prop) handle getter s m : handles m !! handle = Some getter -> within Q s ->
  match run (snapshot_of getter) s with
  | Ok r => run_calls key_SafeUnmarshal entry_MarshalBinary handle s m = (Ok r, m)
  | Er _ => False
  | Panic p => exists m', run_calls key_SafeUnmarshal entry_MarshalBinary handle s m = (Panic p, m') /\ handles m' = handles m
  end.
Proof.
  intros Hh Hs. induction Hs as [r Hr|key c Hk Hc IH]; [done|]. cbn [run run_calls].
  pose proof (get_entry_spec handle key getter m Hh Hk) as Hg.
  destruct (snapshot_of getter key) as [r|e|p]; [|done|].
  - cbn. rewrite (st_bind_eq _ _ _ _ _ Hg). apply IH.
  - destruct Hg as (m' & Hg & Hm'). exists m'. unfold mbind, st_bind. cbn. by rewrite Hg.
Qed.

(** ** A call of the library *)

(** Both entry points: copies of the arguments, a run, a boxed result. *)
Definition library_call (handle : Z) (sim : string -> string -> ledger_info_t -> simulation outcome) (x1 x2 : xdr_t)
    (ledger_info : c_ledger_info) : st memory Z :=
  b1 ← from_c_xdr x1;
  b2 ← from_c_xdr x2;
  info ← fill_ledger_info ledger_info;
  out ← run_calls key_SafeUnmarshal entry_MarshalBinary handle (sim b1 b2 info);
  boxed_result out.
(** What the Go code does around it. *)
Definition bridged (params : Parameters) (now : Z) (call : c_ledger_info -> st memory Z) (x1 x2 : xdr_t) : st memory Preflight :=
  info ← getLedgerInfo params now;
  res ← call info;
  _ ← FreeGoXDR x1;
  _ ← FreeGoXDR x2;
  GoPreflight res.

Definition passphrase_block (params : Parameters) : block := mkBlock Malloc (Bytes (c_string (p_NetworkPassphrase params))).
Definition stray_block : block := mkBlock Rust (Bytes (c_string "")).

Lemma stray_made_of o : stray o -> made_of o [stray_block].
Proof. intros (p & _ & _ & ->). apply made_of_one. Qed.
Lemma getLedgerInfo_spec params now m : has_char NUL (p_NetworkPassphrase params) = false ->
  exists li o, getLedgerInfo params now m = (Ok li, with_heap (o ∪ heap m) m) /\ o ##ₘ heap m /\
    made_of o [passphrase_block params] /\ reads (fill_ledger_info li) (Preflight.getLedgerInfo params now) o.
Proof.
  intros Hn. destruct (malloc_allocates (H := LedgerEntryGetter) (passphrase_block params) m) as (p & o & Ep & [Hp ->] & Hd).
  eexists _, _. split_and!; [|exact Hd|apply made_of_one|].
  - unfold getLedgerInfo, C_CString. by rewrite (st_bind_eq _ _ _ _ _ Ep).
  - unfold fill_ledger_info. eapply reads_bind; [by apply from_c_string_reads|]. apply reads_ret.
Qed.

Lemma library_call_spec handle getter sim b1 b2 x1 o1 x2 o2 li info o3 m :
  handles m !! handle = Some getter -> (forall info, within outcome_fits (sim b1 b2 info)) ->
  malloc_bytes b1 x1 o1 -> malloc_bytes b2 x2 o2 -> o1 ⊆ heap m -> o2 ⊆ heap m ->
  reads (fill_ledger_info li) info o3 -> o3 ⊆ heap m ->
  match run (snapshot_of getter) (sim b1 b2 info) with
  | Ok out => exists p o ol, library_call handle sim x1 x2 li m = (Ok p, with_heap ((o ∪ ol) ∪ heap m) m) /\
      result_at (result_of out) p o /\ stray ol /\ o ##ₘ ol /\ o ∪ ol ##ₘ heap m /\ outcome_fits out
  | Er _ => False
  | Panic p => exists m', library_call handle sim x1 x2 li m = (Panic p, m') /\ handles m' = handles m
  end.
Proof.
  intros Hh Hw H1 H2 Ho1 Ho2 Hli Ho3. unfold library_call.
  rewrite (st_bind_eq _ _ _ _ _ (from_c_xdr_malloc _ _ _ H1 m Ho1)), (st_bind_eq _ _ _ _ _ (from_c_xdr_malloc _ _ _ H2 m Ho2)),
    (st_bind_eq _ _ _ _ _ (Hli m Ho3)).
  pose proof (run_calls_spec _ handle getter _ m Hh (Hw info)) as Hr. pose proof (fun r => within_run _ (snapshot_of getter) _ r (Hw info)) as Hq.
  destruct (run _ _) as [out|e|p]; [|done|].
  - rewrite (st_bind_eq _ _ _ _ _ Hr). specialize (Hq out eq_refl).
    destruct (boxed_result_allocates out (proj1 Hq) m) as (p & oo & Ep & (o & ol & Hat & Hol & Hd & ->) & Hdm).
    exists p, o, ol. done.
  - destruct Hr as (m' & Hr & Hm). exists m'. unfold mbind at 1, st_bind at 1. by rewrite Hr.
Qed.

Lemma bridged_spec handle getter sim b1 b2 x1 o1 x2 o2 params now m h :
  handles m !! handle = Some getter -> (forall info, within outcome_fits (sim b1 b2 info)) ->
  malloc_bytes b1 x1 o1 -> malloc_bytes b2 x2 o2 -> has_char NUL (p_NetworkPassphrase params) = false ->
  heap m = o2 ∪ (o1 ∪ h) -> o1 ##ₘ h -> o2 ##ₘ o1 ∪ h ->
  match run (snapshot_of getter) (sim b1 b2 (Preflight.getLedgerInfo params now)) with
  | Ok out => exists k, bridged params now (library_call handle sim x1 x2) x1 x2 m =
        (Ok (Preflight.GoPreflight (result_of out)), with_heap (k ∪ h) m) /\ k ##ₘ h /\
      made_of k [stray_block; passphrase_block params]
  | Er _ => False
  | Panic p => exists m', bridged params now (library_call handle sim x1 x2) x1 x2 m = (Panic p, m') /\ handles m' = handles m
  end.
Proof.
  intros Hh Hw H1 H2 Hn Hm Hd1 Hd2. unfold bridged.
  destruct (getLedgerInfo_spec params now m Hn) as (li & o3 & Eli & Hd3 & Hk3 & Hli). rewrite (st_bind_eq _ _ _ _ _ Eli).
  set (m1 := with_heap (o3 ∪ heap m) m). assert (heap m1 = o3 ∪ (o2 ∪ (o1 ∪ h))) as Em1 by (subst m1; cbn; by rewrite Hm).
  rewrite Hm in Hd3. assert (o1 ⊆ heap m1 /\ o2 ⊆ heap m1 /\ o3 ⊆ heap m1) as (S1 & S2 & S3).
  { rewrite Em1. split_and!; [|apply map_union_subseteq_r'; [disj|apply map_union_subseteq_l]|apply map_union_subseteq_l].
    do 2 (apply map_union_subseteq_r'; [disj|]). apply map_union_subseteq_l. }
  pose proof (library_call_spec handle getter sim b1 b2 x1 o1 x2 o2 li _ o3 m1 Hh Hw H1 H2 S1 S2 Hli S3) as Hc.
  destruct (run _ _) as [out|e|p]; [|done|].
  - destruct Hc as (p & o & ol & Ep & Hat & Hol & Hool & Hdm & Hfit). rewrite (st_bind_eq _ _ _ _ _ Ep).
    set (m2 := with_heap _ m1). assert (heap m2 = (o ∪ (ol ∪ o3)) ∪ (o2 ∪ (o1 ∪ h))) as Em2.
    { subst m2. cbn [heap with_heap]. rewrite Em1. by rewrite !(assoc_L (∪)). }
    rewrite Em1 in Hdm.
    assert (o1 ⊆ heap m2) as T1 by (transitivity (heap m1); [done|by apply map_union_subseteq_r; rewrite Em1]).
    rewrite (st_bind_eq _ _ _ _ _ (FreeGoXDR_frees _ _ _ H1 m2 T1)).
    set (m3 := with_heap (heap m2 ∖ o1) m2).
    assert (o2 ⊆ heap m3) as T2.
    { apply sub_diff; [|disj]. transitivity (heap m1); [done|by apply map_union_subseteq_r; rewrite Em1]. }
    rewrite (st_bind_eq _ _ _ _ _ (FreeGoXDR_frees _ _ _ H2 m3 T2)).
    rewrite (GoPreflight_spec _ _ _ _ Hat (proj2 Hfit)).
    2: { apply sub_diff; [apply sub_diff; [|disj]|disj]. rewrite Em2, <- (assoc_L (∪)). apply map_union_subseteq_l. }
    exists (ol ∪ o3). split_and!.
    + subst m3. cbn [heap with_heap]. rewrite Em2, minus_two by disj. done.
    + disj.
    + apply (made_of_union ol o3 [_] [_]); [disj|by apply stray_made_of|done].
  - destruct Hc as (m' & Hc & Hm'). exists m'. unfold mbind at 1, st_bind at 1. by rewrite Hc.
Qed.

(** ** Whole calls *)

(** A free entry in the table of handles. *)
Definition handle_room (m : memory) : Prop :=
  u64 (handleIdx m + 1) <> 0 /\ handles m !! u64 (handleIdx m + 1) = None.

(** The arguments copied before an early return. *)
Definition copied (params : Parameters) : list block :=
  if op_Type (p_OpBody params) =? OperationTypeInvokeHostFunction then
    match MustInvokeHostFunctionOp (p_OpBody params) with
    | Ok (Ok hf, _) =>
        match account_MarshalBinary (p_SourceAccount params) with
        | Ok account => [mkBlock Malloc (Bytes account); mkBlock Malloc (Bytes hf)]
        | _ => [mkBlock Malloc (Bytes hf)]
        end
    | _ => []
    end
  else if (op_Type (p_OpBody params) =? OperationTypeExtendFootprintTtl)
          || (op_Type (p_OpBody params) =? OperationTypeRestoreFootprint) then
    match op_MarshalBinary (p_OpBody params) with
    | Ok body => [mkBlock Malloc (Bytes body)]
    | _ => []
    end
  else [].
Definition left_behind (params : Parameters) (r : go Preflight) : list block :=
  match r with Ok _ => [stray_block; passphrase_block params] | _ => copied params end.

Lemma with_handle_spec {B} getter (body : Z -> st memory B) m r m2 : handle_room m ->
  let h := u64 (handleIdx m + 1) in
  body h (mkMemory (heap m) (<[h := getter]> (handles m)) h) = (r, m2) -> handles m2 = <[h := getter]> (handles m) ->
  (handle ← NewHandle getter; defer (Handle_Delete handle) (body handle)) m =
  (r, mkMemory (heap m2) (handles m) (handleIdx m2)).
Proof.
  intros [Hz Hn] h Hb Hh. unfold NewHandle, mbind, st_bind. fold h. rewrite (proj2 (Z.eqb_neq h 0)) by done.
  unfold defer. rewrite Hb. unfold Handle_Delete. rewrite Hh, lookup_insert_eq, delete_insert_id by done. done.
Qed.

(** A call with both arguments copied: the handle is deleted, and the blocks of a
    run that succeeds are freed but two. *)
Lemma handled_spec sim b1 b2 x1 o1 x2 o2 params now m h :
  handle_room m -> (forall info, within outcome_fits (sim b1 b2 info)) ->
  malloc_bytes b1 x1 o1 -> malloc_bytes b2 x2 o2 -> has_char NUL (p_NetworkPassphrase params) = false ->
  heap m = o2 ∪ (o1 ∪ h) -> o1 ##ₘ h -> o2 ##ₘ o1 ∪ h ->
  exists r m', (handle ← NewHandle (p_LedgerEntryGetter params);
                defer (Handle_Delete handle) (bridged params now (library_call handle sim x1 x2) x1 x2)) m = (r, m') /\
    r = (res ← run (snapshot_of (p_LedgerEntryGetter params))
                 (sim_map result_of (sim b1 b2 (Preflight.getLedgerInfo params now))); Ok (Preflight.GoPreflight res)) /\
    handles m' = handles m /\
    match r with
    | Ok _ => exists k, heap m' = k ∪ h /\ k ##ₘ h /\ made_of k [stray_block; passphrase_block params]
    | Er _ => False
    | Panic _ => True
    end.
Proof.
  intros Hroom Hw H1 H2 Hn Hm Hd1 Hd2. pose proof Hroom as [Hz _]. set (hd := u64 (handleIdx m + 1)) in *.
  set (m1 := mkMemory (heap m) (<[hd := p_LedgerEntryGetter params]> (handles m)) hd).
  pose proof (bridged_spec hd (p_LedgerEntryGetter params) sim b1 b2 x1 o1 x2 o2 params now m1 h (lookup_insert_eq _ _ _) Hw H1 H2 Hn Hm Hd1 Hd2) as Hb.
  rewrite run_map. destruct (run _ _) as [out|e|p]; [|done|].
  - destruct Hb as (k & Hb & Hk & Hmk). eexists _, _. split_and!; [by eapply with_handle_spec|done|done|].
    exists k. done.
  - destruct Hb as (m' & Hb & Hm'). eexists _, _. split_and!; [by eapply with_handle_spec|done|done|done].
Qed.

(** What a call is compared with. *)
Definition agrees (params : Parameters) (now : Z) (call : st memory Preflight) (m : memory) (r : go Preflight) : Prop :=
  exists m', call m = (r, m') /\ handles m' = handles m /\ (no_panic r -> leaks (left_behind params r) m m').

(** A call that allocated, at most, its arguments. *)
Lemma agrees_early params now (call : st memory Preflight) m r m' o :
  call m = (r, m') -> (forall a, r <> Ok a) -> heap m' = o ∪ heap m -> o ##ₘ heap m -> made_of o (copied params) ->
  handles m' = handles m -> agrees params now call m r.
Proof.
  intros Hc Hr Hh Hd Hm Hhd. exists m'. split_and!; [done..|]. intros _. exists o. split_and!; [done..|].
  destruct r; [by edestruct Hr|done..].
Qed.

Lemma agrees_now params now (call : st memory Preflight) m r :
  call m = (r, m) -> (forall a, r <> Ok a) -> copied params = [] -> agrees params now call m r.
Proof.
  intros Hc Hr Hcop. eapply (agrees_early _ _ _ _ _ m ∅); [done..|by rewrite map_empty_union|apply map_disjoint_empty_l| |done].
  rewrite Hcop. apply made_of_empty.
Qed.
Lemma lift_ok {S B C} (b : B) (f : B -> st S C) s : (lift (Ok b) ≫= f) s = f b s.
Proof. done. Qed.
Lemma agrees_lift {B} params now (b : B) (f : B -> st memory Preflight) m r :
  agrees params now (f b) m r -> agrees params now (lift (Ok b) ≫= f) m r.
Proof. done. Qed.
(** The next argument of the call copied, with the equation of what is left. *)
Ltac copy_argument x o H Hd E1 :=
  lazymatch goal with |- agrees _ _ (CXDR ?s ≫= ?f) ?m _ => destruct (CXDR_step s f m) as (x & o & H & Hd & E1) end.
Ltac copy_next_argument x o H Hd E1 :=
  rewrite lift_ok in E1; cbn beta in E1;
  lazymatch type of E1 with _ = (CXDR ?s ≫= ?f) ?m =>
    let E2 := fresh in destruct (CXDR_step s f m) as (x & o & H & Hd & E2); rewrite E2 in E1; clear E2 end;
  cbn [heap with_heap] in Hd, E1.
Lemma authMode_cases mode : (exists code, authMode_code mode = Ok code) \/ exists e, authMode_code mode = Er e.
Proof. unfold authMode_code. repeat case_match; eauto. Qed.

(** Once both arguments are copied, in the memory [m2]. *)
Lemma agrees_handled sim b1 b2 x1 o1 x2 o2 params now (call : st memory Preflight) m m2 :
  call m = (handle ← NewHandle (p_LedgerEntryGetter params);
            defer (Handle_Delete handle) (bridged params now (library_call handle sim x1 x2) x1 x2)) m2 ->
  m2 = with_heap (o2 ∪ (o1 ∪ heap m)) m -> handle_room m -> (forall info, within outcome_fits (sim b1 b2 info)) ->
  malloc_bytes b1 x1 o1 -> malloc_bytes b2 x2 o2 -> has_char NUL (p_NetworkPassphrase params) = false ->
  o1 ##ₘ heap m -> o2 ##ₘ o1 ∪ heap m ->
  agrees params now call m
    (res ← run (snapshot_of (p_LedgerEntryGetter params))
       (sim_map result_of (sim b1 b2 (Preflight.getLedgerInfo params now))); Ok (Preflight.GoPreflight res)).
Proof.
  intros Hc -> Hroom Hw H1 H2 Hn Hd1 Hd2.
  destruct (handled_spec sim b1 b2 x1 o1 x2 o2 params now (with_heap (o2 ∪ (o1 ∪ heap m)) m) (heap m)) as (r & m' & Er & <- & Hh & Hk);
    [done..|].
  exists m'. split_and!; [by rewrite Hc|done|]. intros Hnp. destruct r as [a|e|p]; [|done|by destruct (Hnp p)]. done.
Qed.

Lemma getInvokeHostFunctionPreflight_spec now params m :
  op_Type (p_OpBody params) = OperationTypeInvokeHostFunction -> handle_room m ->
  has_char NUL (p_NetworkPassphrase params) = false ->
  agrees params now (getInvokeHostFunctionPreflight key_SafeUnmarshal entry_MarshalBinary now params) m
    (Preflight.getInvokeHostFunctionPreflight key_SafeUnmarshal entry_MarshalBinary now params).
Proof.
  intros Ht Hroom Hn.
  assert (copied params = match MustInvokeHostFunctionOp (p_OpBody params) with
    | Ok (Ok hf, _) => match account_MarshalBinary (p_SourceAccount params) with
        | Ok account => [mkBlock Malloc (Bytes account); mkBlock Malloc (Bytes hf)] | _ => [mkBlock Malloc (Bytes hf)] end
    | _ => [] end) as Hcop by (unfold copied; by rewrite Ht, Z.eqb_refl).
  unfold getInvokeHostFunctionPreflight, Preflight.getInvokeHostFunctionPreflight.
  destruct (MustInvokeHostFunctionOp (p_OpBody params)) as [[mhf n]|e|p]; [|by apply agrees_now..].
  destruct mhf as [hf|e|p]; [|by apply agrees_now..].
  apply agrees_lift, agrees_lift. copy_argument x1 o1 H1 Hd1 E1.
  destruct (account_MarshalBinary (p_SourceAccount params)) as [account|e|p].
  2,3: eapply agrees_early; [exact E1|done|done|done|rewrite Hcop; by eapply malloc_made_of|done].
  copy_next_argument x2 o2 H2 Hd2 E1.
  destruct (authMode_cases (p_AuthMode params)) as [[code Hcode]|[e Hcode]]; rewrite Hcode in *.
  - by eapply (agrees_handled (fun hf account info => simulate_invoke_hf_op hf account info
      (u64 (InstructionLeeway (p_ResourceConfig params))) (p_EnableDebug params) code) hf account);
      [exact E1|done|done|intros info; apply invoke_within|done..].
  - eapply (agrees_early _ _ _ _ _ _ (o2 ∪ o1)).
    + rewrite E1. by apply with_handle_spec.
    + done.
    + cbn. by rewrite (assoc_L (∪)).
    + disj.
    + rewrite Hcop. apply (made_of_union o2 o1 [_] [_]); [disj|by eapply malloc_made_of..].
    + done.
Qed.

Lemma getFootprintTTLPreflight_spec now params m :
  op_Type (p_OpBody params) <> OperationTypeInvokeHostFunction ->
  (op_Type (p_OpBody params) =? OperationTypeExtendFootprintTtl) || (op_Type (p_OpBody params) =? OperationTypeRestoreFootprint) = true ->
  handle_room m -> has_char NUL (p_NetworkPassphrase params) = false ->
  agrees params now (getFootprintTTLPreflight key_SafeUnmarshal entry_MarshalBinary now params) m
    (Preflight.getFootprintTTLPreflight key_SafeUnmarshal entry_MarshalBinary now params).
Proof.
  intros Hni Ht Hroom Hn. apply Z.eqb_neq in Hni.
  assert (copied params = match op_MarshalBinary (p_OpBody params) with
    | Ok body => [mkBlock Malloc (Bytes body)] | _ => [] end) as Hcop by (unfold copied; by rewrite Hni, Ht).
  unfold getFootprintTTLPreflight, Preflight.getFootprintTTLPreflight.
  destruct (op_MarshalBinary (p_OpBody params)) as [body|e|p]; [|by apply agrees_now..].
  apply agrees_lift. copy_argument x1 o1 H1 Hd1 E1.
  destruct (footprint_MarshalBinary (p_Footprint params)) as [footprint|e|p].
  2,3: eapply agrees_early; [exact E1|done|done|done|rewrite Hcop; by eapply malloc_made_of|done].
  cbn [on_err] in *. copy_next_argument x2 o2 H2 Hd2 E1.
  by eapply (agrees_handled simulate_footprint_ttl_op body footprint);
    [exact E1|done|done|intros info; apply footprint_within|done..].
Qed.
(** C19: A preflight through the shared memory returns what the preflight on values
    returns, for every operation, every sequence of callbacks and every error; it
    never reads or frees memory that is not live, whatever its outcome it deletes
    its handle and leaves the blocks of others alone, and what it allocated it
    frees, except for two blocks after a run of the library (the C string of the
    network passphrase and the unused message of Rust's default result) and for
    the arguments already copied when it returns an error. *)
Theorem preflight_memory now params m :
  handle_room m -> has_char NUL (p_NetworkPassphrase params) = false ->
  let r := Preflight.GetPreflight key_SafeUnmarshal entry_MarshalBinary now params in
  exists m', GetPreflight key_SafeUnmarshal entry_MarshalBinary now params m = (r, m') /\
    handles m' = handles m /\ (no_panic r -> leaks (left_behind params r) m m').
Proof.
  intros Hroom Hn. unfold GetPreflight, Preflight.GetPreflight.
  destruct (Z.eqb_spec (op_Type (p_OpBody params)) OperationTypeInvokeHostFunction) as [Ht|Ht].
  - by apply getInvokeHostFunctionPreflight_spec.
  - destruct (_ || _) eqn:Hf; [by apply getFootprintTTLPreflight_spec|].
    apply agrees_now; [done..|]. apply Z.eqb_neq in Ht. unfold copied. by rewrite Ht, Hf.
Qed.
End Calls.

(** ** Conversions *)

Section Conversions.
Context {J : XdrToJson} {A : Allocator} {AL : AllocatorLaws A} {H : Type}.
Notation memory := (memory (H := H)).
Notation blocks := (gmap Z block).

(** What is relied on of [xdr_to_json]: its texts have no NUL. *)
Definition texts_clean (t x : string) : Prop :=
  has_char NUL (xdr_to_json t x).1 = false /\ has_char NUL (xdr_to_json t x).2 = false.

Definition conversion_at (json error : string) (p : Z) (o : blocks) : Prop := exists r oj oe,
  rust_string json (cr_json r) oj /\ rust_string error (cr_error r) oe /\ p <> 0 /\
  pieces [oj; oe; {[ p := mkBlock Rust (ConversionResult r) ]}] o.

Lemma conversion_allocates json error : has_char NUL json = false -> has_char NUL error = false ->
  allocates (H := H) (c_json ← string_to_c json; c_error ← string_to_c error;
             malloc (mkBlock Rust (ConversionResult (mkConversionResult c_json c_error)))) (conversion_at json error).
Proof.
  intros Hj He. eapply allocates_bind; [by apply string_to_c_allocates|]. intros pj oj Hoj.
  eapply allocates_bind; [by apply string_to_c_allocates|]. intros pe oe Hoe.
  eapply allocates_weaken; [apply malloc_allocates|]. intros p o [Hp ->] Hd1 Hd2.
  exists (mkConversionResult pj pe), oj, oe. split_and!; [done..|].
  eapply pieces_add; [|exact Hd2]. eapply pieces_add; [apply pieces_one|exact Hd1].
Qed.
Lemma load_conversion_reads r os o p : pieces (os ++ [{[ p := mkBlock Rust (ConversionResult r) ]}]) o ->
  reads (H := H) (load_conversion p) r o.
Proof.
  intros Ho. eapply reads_piece; [|exact Ho|apply elem_of_app; right; by left].
  eapply reads_bind; [apply load_reads, lookup_singleton_eq|apply reads_ret].
Qed.
Lemma free_conversion_frees json error p o : conversion_at json error p o -> frees (H := H) (free_conversion_result p) o.
Proof.
  intros (r & oj & oe & Hj & He & Hp & Ho). unfold free_conversion_result. rewrite (proj2 (Z.eqb_neq p 0)) by done.
  eapply frees_read; [by apply (load_conversion_reads r [oj; oe])|]. revert Ho.
  eapply frees_pieces_cons; [by eapply free_c_string_frees|]. intros t1.
  eapply frees_pieces_cons; [by eapply free_c_string_frees|]. intros t2. apply frees_pieces_one, dealloc_frees.
Qed.

(** C40: A conversion through the shared memory returns what the conversion on values
    returns, errors included; it reads and frees only live memory and leaves the
    blocks of others alone; of its own it frees all but one, the copy of the XDR it
    converts. *)
Theorem conversion_memory xdrTypeName field (m : memory) :
  texts_clean xdrTypeName field -> has_char NUL xdrTypeName = false ->
  exists m', convertAnyBytes xdrTypeName field m = (Convert.convertAnyBytes xdrTypeName field, m') /\
    handles m' = handles m /\ leaks [mkBlock Malloc (Bytes field)] m m'.
Proof.
  intros [Hj He] Hn. unfold convertAnyBytes, Convert.convertAnyBytes.
  destruct (CXDR_allocates field m) as (x & o1 & E1 & H1 & Hd1). rewrite (st_bind_eq _ _ _ _ _ E1).
  destruct (malloc_allocates (mkBlock Malloc (Bytes (c_string xdrTypeName))) (with_heap (o1 ∪ heap m) m)) as (b & o2 & E2 & [Hb ->] & Hd2).
  rewrite (st_bind_eq _ _ _ _ _ E2). clear E1 E2. cbn [heap with_heap] in *.
  rewrite with_heap_twice. set (o2 := {[ b := _ ]}) in *. set (m2 := with_heap _ m).
  assert (o2 ⊆ heap m2) as S2 by apply map_union_subseteq_l.
  assert (o1 ⊆ heap m2) as S1 by (apply map_union_subseteq_r'; [disj|apply map_union_subseteq_l]).
  destruct (xdr_to_json xdrTypeName field) as [json error] eqn:Ex. cbn [fst snd] in Hj, He.
  destruct (conversion_allocates json error Hj He m2) as (p & o & Ep & Ho & Hdo).
  assert (C_xdr_to_json b x m2 = (Ok p, with_heap (o ∪ heap m2) m2)) as Ec.
  { unfold C_xdr_to_json. rewrite (st_bind_eq _ _ _ _ _ (from_c_string_reads _ _ _ Hn m2 S2)),
      (st_bind_eq _ _ _ _ _ (from_c_xdr_malloc _ _ _ H1 m2 S1)), Ex. exact Ep. }
  rewrite (st_bind_eq _ _ _ _ _ Ec). set (m3 := with_heap (o ∪ heap m2) m2).
  change (heap m2) with (o2 ∪ (o1 ∪ heap m)) in Hdo.
  rewrite (st_bind_eq _ _ _ _ _ (C_free_frees b _ Hb m3 (map_union_subseteq_r' _ _ _ Hdo S2))).
  set (m4 := with_heap _ m3). assert (o ⊆ heap m4) as S4 by (apply sub_diff; [apply map_union_subseteq_l|disj]).
  pose proof Ho as (r & oj & oe & Hrj & Hre & Hp & Hps).
  rewrite (st_bind_eq _ _ _ _ _ (load_conversion_reads r [oj; oe] o p Hps m4 S4)).
  assert (reads (H := H) (C_GoString (cr_json r)) json o) as Rj by (eapply reads_piece; [by apply GoString_rust|exact Hps|set_solver]).
  assert (reads (H := H) (C_GoString (cr_error r)) error o) as Re by (eapply reads_piece; [by apply GoString_rust|exact Hps|set_solver]).
  rewrite (st_bind_eq _ _ _ _ _ (Rj m4 S4)), (st_bind_eq _ _ _ _ _ (Re m4 S4)),
    (st_bind_eq _ _ _ _ _ (free_conversion_frees _ _ _ _ Ho m4 S4)).
  set (m5 := with_heap _ m4). assert (heap m5 = o1 ∪ heap m) as E5.
  { change (heap m5) with (((o ∪ (o2 ∪ (o1 ∪ heap m))) ∖ o2) ∖ o). apply minus_one; disj. }
  exists m5. split_and!; [by destruct (negb _)|done|]. exists o1. split_and!; [done|disj|by eapply malloc_made_of].
Qed.
End Conversions.

(** ** The theorems at concrete calls *)

(** A simulation that asks for one entry and returns it. *)
Definition toy_outcome (what entry : string) : outcome :=
  InvokeHostFunctionOutcome (mkSimulationResult ["auth"%string] (Some entry) (Some (what, 100)) ["event"%string] 1 2
    [(None, Some "new"%string)]) None "".
Definition toy_run (what : string) : simulation outcome :=
  GetEntry "key" (fun res => Finished (toy_outcome what (match res with Some (String c _, _) => String c EmptyString | _ => "none"%string end))).
#[export] Instance toy_rust : RustSimulation := {
  simulate_invoke_hf_op hf account _ _ _ _ := toy_run "data";
  simulate_footprint_ttl_op body footprint _ := toy_run "data";
}.
#[export] Instance toy_rust_laws : RustSimulationLaws toy_rust.
Proof.
  assert (within outcome_fits (toy_run "data")) as Hw.
  { apply within_get; [done|]. intros a. apply within_finished.
    assert (forall e, slen e <= 4 -> outcome_fits (toy_outcome "data" e)) as Ht.
    { intros e He. split; [done|]. unfold result_fits, fits. cbn.
      split_and!; rewrite ?Forall_singleton; cbn; try done; lia. }
    destruct a as [[[|c s] t]|]; by apply Ht. }
  constructor; intros; exact Hw.
Qed.

#[export] Instance toy_ops : Operations := {
  OperationBody := Z;
  op_Type := id;
  op_Type_String := Itoa;
  op_MarshalBinary o := Ok (Itoa o);
  MustInvokeHostFunctionOp o := if o =? 24 then Ok (Ok "hf"%string, 0%nat) else Panic "MustInvokeHostFunctionOp";
  AccountId := string;
  account_MarshalBinary := Ok;
  LedgerFootprint := string;
  empty_footprint := ""%string;
  footprint_MarshalBinary := Ok;
}.
Definition toy_getter (keys : list string) : go (list (LedgerKeyAndEntry (E := toy_entries))) :=
  Ok ((fun k => mkKeyAndEntry (E := toy_entries) k ("entry of " +:+ k)%string None) <$> keys).
Definition toy_params (op : Z) (mode : string) : Parameters (O := toy_ops) (E := toy_entries) :=
  mkParameters "source"%string op "footprint"%string "net"%string toy_getter 9 1000 DefaultResourceConfig false mode 23.
(** A process with one block and one handle of its own. *)
Definition toy_memory : memory (H := LedgerEntryGetter (E := toy_entries)) :=
  mkMemory {[ 7 := mkBlock Malloc (Bytes "other") ]} {[ 3 := toy_getter ]} 3.
Definition toy_preflight_memory op mode := GetPreflight (O := toy_ops) (E := toy_entries) Ok Ok 0 (toy_params op mode) toy_memory.

(** A run leaves the passphrase and Rust's empty message, an unknown mode both
    arguments. *)
Example preflight_blocks : map_to_list (heap (toy_preflight_memory 24 "enforce").2) =
  [(7, mkBlock Malloc (Bytes "other")); (10, passphrase_block (toy_params 24 "enforce")); (20, stray_block)].
Proof. vm_compute. reflexivity. Qed.
Example preflight_bad_mode : map_to_list (heap (toy_preflight_memory 24 "none").2) =
  [(7, mkBlock Malloc (Bytes "other")); (9, mkBlock Malloc (Bytes "source")); (8, mkBlock Malloc (Bytes "hf"))].
Proof. vm_compute. reflexivity. Qed.
Example preflight_result : (pf_Result <$> (toy_preflight_memory 24 "enforce").1) = Ok "e"%string.
Proof. vm_compute. reflexivity. Qed.

Lemma preflight_memory_witness :
  let r := Preflight.GetPreflight (O := toy_ops) (E := toy_entries) (P := lib_values) Ok Ok 0 (toy_params 24 "enforce") in
  exists m', toy_preflight_memory 24 "enforce" = (r, m') /\ handles m' = handles toy_memory /\
    (no_panic r -> leaks (left_behind (toy_params 24 "enforce") r) toy_memory m').
Proof.
  apply (preflight_memory (O := toy_ops) (E := toy_entries) Ok Ok 0 (toy_params 24 "enforce") toy_memory).
  - split; [vm_compute; discriminate|vm_compute; reflexivity].
  - reflexivity.
Defined.

Definition clean_json : XdrToJson := {|
  xdr_to_json t x := if String.eqb t "ScVal" then ("[1]", "")%string else ("{}", "xdr_to_json() failed")%string
|}.
Lemma conversion_memory_witness :
  exists m', convertAnyBytes (J := clean_json) "ScVal" "bytes" toy_memory = (Ok "[1]"%string, m') /\
    handles m' = handles toy_memory /\ leaks [mkBlock Malloc (Bytes "bytes")] toy_memory m'.
Proof.
  apply (conversion_memory (J := clean_json) "ScVal" "bytes" toy_memory).
  - split; reflexivity.
  - reflexivity.
Defined.
