(* ===== verification/PreflightPool.v ===== *)
(** * The preflight worker pool: [preflight/pool.go]

    Requests go through a bounded channel to a fixed number of workers.  Clients,
    workers and callers of [Close] are interleaved one channel or atomic
    operation at a time: the state machine below has a step for each, with Go's
    rules for buffered channels, [select] with a default, and closing.  A
    client's result is that of [GetPreflight] on its parameters, which the
    machine leaves out: it follows who is served. *)

From S2P Require Import Prelude.

(** [GetPreflight]: before the closed check, between it and the [select], in the
    channel or at a worker, returned, or ended by a panic. *)
Inductive outcome := Answered | ErrPoolClosed | ErrPreflightQueueFull | ErrContext.
Inductive client := CStart | CChecked | CWaiting | CDone (o : outcome) | CPanicked.
(** [work]: at the head of its loop, running a client's request, returned. *)
Inductive worker := WIdle | WBusy (c : nat) | WExited.
(** [Close]: before the swap, before closing the channel, waiting for the
    workers, returned after waiting, returned because another call was first,
    ended by a panic (closing a closed channel). *)
Inductive closer := KStart | KSwapped | KWaiting | KDone | KSkipped | KPanicked.

Record WorkerPool := mkPool {
  isClosed : bool;
  chanClosed : bool;
  requestChan : list nat;
  JobQueueCapacity : nat;
  workers : list worker;
  clients : list client;
  closers : list closer;
}.

Definition NewPreflightWorkerPool (WorkerCount capacity nclients nclosers : nat) : WorkerPool :=
  mkPool false false [] capacity (replicate WorkerCount WIdle) (replicate nclients CStart) (replicate nclosers KStart).

Definition set_client (c : nat) (x : client) (s : WorkerPool) : WorkerPool :=
  mkPool (isClosed s) (chanClosed s) (requestChan s) (JobQueueCapacity s) (workers s) (<[c := x]> (clients s)) (closers s).
Definition set_worker (w : nat) (x : worker) (s : WorkerPool) : WorkerPool :=
  mkPool (isClosed s) (chanClosed s) (requestChan s) (JobQueueCapacity s) (<[w := x]> (workers s)) (clients s) (closers s).
Definition set_closer (k : nat) (x : closer) (s : WorkerPool) : WorkerPool :=
  mkPool (isClosed s) (chanClosed s) (requestChan s) (JobQueueCapacity s) (workers s) (clients s) (<[k := x]> (closers s)).
Definition set_chan (q : list nat) (s : WorkerPool) : WorkerPool :=
  mkPool (isClosed s) (chanClosed s) q (JobQueueCapacity s) (workers s) (clients s) (closers s).
Definition set_flags (closed chan : bool) (s : WorkerPool) : WorkerPool :=
  mkPool closed chan (requestChan s) (JobQueueCapacity s) (workers s) (clients s) (closers s).

(** ** One operation of a client *)
Inductive client_step (ctx_done : nat -> bool) (c : nat) (s : WorkerPool) : WorkerPool -> Prop :=
  | load_closed : clients s !! c = Some CStart -> isClosed s = true ->
      client_step ctx_done c s (set_client c (CDone ErrPoolClosed) s)
  | load_open : clients s !! c = Some CStart -> isClosed s = false ->
      client_step ctx_done c s (set_client c CChecked s)
  | send_buffered : clients s !! c = Some CChecked -> chanClosed s = false ->
      (length (requestChan s) < JobQueueCapacity s)%nat ->
      client_step ctx_done c s (set_client c CWaiting (set_chan (requestChan s ++ [c]) s))
  | send_handoff w : clients s !! c = Some CChecked -> chanClosed s = false -> requestChan s = [] ->
      workers s !! w = Some WIdle ->
      client_step ctx_done c s (set_client c CWaiting (set_worker w (WBusy c) s))
  | send_on_closed : clients s !! c = Some CChecked -> chanClosed s = true ->
      client_step ctx_done c s (set_client c CPanicked s)
  | cancelled : clients s !! c = Some CChecked -> ctx_done c = true ->
      client_step ctx_done c s (set_client c (CDone ErrContext) s)
  | queue_full : clients s !! c = Some CChecked -> chanClosed s = false ->
      (JobQueueCapacity s <= length (requestChan s))%nat ->
      client_step ctx_done c s (set_client c (CDone ErrPreflightQueueFull) s).

(** ** One operation of a worker *)
Inductive worker_step (w : nat) (s : WorkerPool) : WorkerPool -> Prop :=
  | receive c q : workers s !! w = Some WIdle -> requestChan s = c :: q ->
      worker_step w s (set_worker w (WBusy c) (set_chan q s))
  | finish c : workers s !! w = Some (WBusy c) ->
      worker_step w s (set_worker w WIdle (set_client c (CDone Answered) s))
  | drained : workers s !! w = Some WIdle -> requestChan s = [] -> chanClosed s = true ->
      worker_step w s (set_worker w WExited s).

(** ** One operation of [Close] *)
Inductive closer_step (k : nat) (s : WorkerPool) : WorkerPool -> Prop :=
  | swap_first : closers s !! k = Some KStart -> isClosed s = false ->
      closer_step k s (set_closer k KSwapped (set_flags true (chanClosed s) s))
  | swap_late : closers s !! k = Some KStart -> isClosed s = true ->
      closer_step k s (set_closer k KSkipped s)
  | close_chan : closers s !! k = Some KSwapped -> chanClosed s = false ->
      closer_step k s (set_closer k KWaiting (set_flags (isClosed s) true s))
  | close_twice : closers s !! k = Some KSwapped -> chanClosed s = true ->
      closer_step k s (set_closer k KPanicked s)
  | wait_done : closers s !! k = Some KWaiting -> Forall (fun x => x = WExited) (workers s) ->
      closer_step k s (set_closer k KDone s).

Inductive pool_step (ctx_done : nat -> bool) (s s' : WorkerPool) : Prop :=
  | step_client c : client_step ctx_done c s s' -> pool_step ctx_done s s'
  | step_worker w : worker_step w s s' -> pool_step ctx_done s s'
  | step_closer k : closer_step k s s' -> pool_step ctx_done s s'.
Definition pool_steps (ctx_done : nat -> bool) : WorkerPool -> WorkerPool -> Prop := rtc (pool_step ctx_done).

(** ** Who is being served *)

Definition served_by (x : worker) : option nat := match x with WBusy c => Some c | _ => None end.
Definition running (s : WorkerPool) : list nat := omap served_by (workers s).
(** Every client that was accepted and not answered. *)
Definition pending (s : WorkerPool) : list nat := requestChan s ++ running s.

Record pool_inv (n : nat) (s : WorkerPool) : Prop := {
  inv_workers : length (workers s) = n;
  inv_queue : (length (requestChan s) <= JobQueueCapacity s)%nat;
  inv_nodup : NoDup (pending s);
  inv_pending c : clients s !! c = Some CWaiting <-> c ∈ pending s;
  inv_flags : chanClosed s = true -> isClosed s = true;
  inv_exited : WExited ∈ workers s -> chanClosed s = true /\ requestChan s = [];
  inv_closer k : closers s !! k = Some KSwapped ->
    isClosed s = true /\ chanClosed s = false /\ forall k', closers s !! k' = Some KSwapped -> k' = k;
  inv_close_once : KPanicked ∉ closers s;
  inv_waiting : KWaiting ∈ closers s -> chanClosed s = true;
  inv_done : KDone ∈ closers s -> Forall (fun x => x = WExited) (workers s) /\ chanClosed s = true;
}.

(** ** The invariant holds in every reachable state *)

(** A worker takes a client, or answers it. *)
Lemma running_take w c s : workers s !! w = Some WIdle -> running (set_worker w (WBusy c) s) ≡ₚ c :: running s.
Proof.
  intros Hw. unfold running. simpl. rewrite omap_insert_split by (by eapply lookup_lt_Some).
  rewrite (omap_split _ _ _ _ Hw). simpl. by rewrite Permutation_middle.
Qed.
Lemma running_answer w c s : workers s !! w = Some (WBusy c) -> running s ≡ₚ c :: running (set_worker w WIdle s).
Proof.
  intros Hw. unfold running. simpl. rewrite (omap_insert_split _ (workers s)) by (by eapply lookup_lt_Some).
  rewrite (omap_split _ _ _ _ Hw). simpl. by rewrite Permutation_middle.
Qed.
Lemma running_exit w s : workers s !! w = Some WIdle -> running (set_worker w WExited s) = running s.
Proof.
  intros Hw. unfold running. simpl. rewrite omap_insert_split by (by eapply lookup_lt_Some).
  by rewrite (omap_split _ _ _ _ Hw).
Qed.

Lemma exited_insert (l : list worker) w x : x <> WExited -> WExited ∈ <[w := x]> l -> WExited ∈ l.
Proof.
  intros Hx (i & Hi)%list_elem_of_lookup. apply list_lookup_insert_Some in Hi as [(_ & ? & _)|(_ & Hi)]; [done|].
  by eapply list_elem_of_lookup_2.
Qed.

(** A client that starts or leaves waiting. *)
Lemma pending_client (cs : list client) c x (p p' : list nat) : is_Some (cs !! c) ->
  (forall d, cs !! d = Some CWaiting <-> d ∈ p) ->
  (forall d, d <> c -> d ∈ p' <-> d ∈ p) -> (x = CWaiting <-> c ∈ p') ->
  forall d, <[c := x]> cs !! d = Some CWaiting <-> d ∈ p'.
Proof.
  intros [y Hc] Hp Hne Hx d. destruct (decide (d = c)) as [->|Hd].
  - rewrite list_lookup_insert_eq by (by eapply lookup_lt_Some). rewrite <- Hx. naive_solver.
  - rewrite list_lookup_insert_ne by done. by rewrite Hp, Hne.
Qed.

Lemma pool_inv_init n cap nclients nclosers : pool_inv n (NewPreflightWorkerPool n cap nclients nclosers).
Proof.
  assert (running (NewPreflightWorkerPool n cap nclients nclosers) = []) as Hr.
  { unfold running. simpl. induction n; [done|]. done. }
  constructor; unfold pending; rewrite ?Hr; simpl; try done.
  - apply length_replicate.
  - lia.
  - constructor.
  - intros c. rewrite elem_of_nil. split; [|done]. intros H%lookup_replicate. by destruct H.
  - intros H%elem_of_replicate. by destruct H.
  - intros k H%lookup_replicate. by destruct H.
  - intros H%elem_of_replicate. by destruct H.
  - intros H%elem_of_replicate. by destruct H.
  - intros H%elem_of_replicate. by destruct H.
Qed.

Lemma set_client_inv n s c x : pool_inv n s -> (exists y, clients s !! c = Some y /\ y <> CWaiting) -> x <> CWaiting ->
  pool_inv n (set_client c x s).
Proof.
  intros [H1 H2 H3 H4 H5 H6 H7 H8 H10 H9] (y & Hy & Hny) Hx. constructor; simpl; try done.
  apply (pending_client _ _ _ (pending s)); [by exists y|done|done|].
  split; [done|]. intros Hp. apply H4 in Hp. congruence.
Qed.

Lemma client_step_inv ctx n c s s' : pool_inv n s -> client_step ctx c s s' -> pool_inv n s'.
Proof.
  intros Hinv Hstep. pose proof Hinv as [H1 H2 H3 H4 H5 H6 H7 H8 H10 H9].
  assert (clients s !! c = Some CChecked -> c ∉ pending s) as Hfresh.
  { intros Hc Hp. apply H4 in Hp. congruence. }
  destruct Hstep as [Hc Hcl|Hc Hcl|Hc Hch Hlen|w Hc Hch Hq Hw|Hc Hch|Hc Hctx|Hc Hch Hlen];
    try (apply set_client_inv; [done|by eexists|done]).
  - specialize (Hfresh Hc). unfold pending in *. constructor; simpl; try done.
    + rewrite length_app. simpl. lia.
    + unfold pending. simpl. change (running (set_client _ _ _)) with (running s).
      rewrite <- (assoc_L app). simpl. apply NoDup_app in H3 as (Hq & Hd & Hr). apply NoDup_app.
      split_and!; [done| |constructor; set_solver]. set_solver.
    + apply (pending_client _ _ _ (pending s)); [by exists CChecked|done| |]; unfold pending; simpl; set_solver.
    + intros Hex. destruct (H6 Hex) as [? _]. congruence.
  - specialize (Hfresh Hc). constructor; simpl; try done.
    + by rewrite length_insert.
    + unfold pending. simpl. change (running (set_client _ _ _)) with (running (set_worker w (WBusy c) s)).
      rewrite running_take, Hq by done. unfold pending in *. rewrite Hq in *. simpl in *. by constructor.
    + apply (pending_client _ _ _ (pending s)); [by exists CChecked|done| |]; unfold pending in *; simpl;
        change (running (set_client _ _ _)) with (running (set_worker w (WBusy c) s)); rewrite Hq in *;
        setoid_rewrite (running_take w c s Hw); set_solver.
    + intros Hex. apply exited_insert in Hex; [|done]. destruct (H6 Hex) as [? _]. congruence.
    + intros Hk. destruct (H9 Hk) as [_ ?]. congruence.
Qed.

Lemma worker_step_inv n w s s' : pool_inv n s -> worker_step w s s' -> pool_inv n s'.
Proof.
  intros Hinv Hstep. pose proof Hinv as [H1 H2 H3 H4 H5 H6 H7 H8 H10 H9].
  assert (forall y, workers s !! w = Some y -> KDone ∈ closers s -> y = WExited) as Hdone.
  { intros y Hy Hk. destruct (H9 Hk) as [HF _]. rewrite Forall_lookup in HF. by eapply HF. }
  destruct Hstep as [c q Hw Hq|c Hw|Hw Hq Hch].
  - assert (pending s ≡ₚ pending (set_worker w (WBusy c) (set_chan q s))) as Hp.
    { unfold pending. simpl. change (running (set_worker w (WBusy c) (set_chan q s))) with (running (set_worker w (WBusy c) s)).
      rewrite (running_take w c s Hw), Hq. simpl. by rewrite Permutation_middle. }
    constructor; simpl; try done.
    + by rewrite length_insert.
    + rewrite Hq in H2. simpl in H2. lia.
    + by rewrite <- Hp.
    + intros d. by rewrite <- Hp.
    + intros Hex. apply exited_insert in Hex; [|done]. destruct (H6 Hex) as [_ ?]. congruence.
    + intros Hk. by specialize (Hdone _ Hw Hk).
  - assert (c ∈ pending s) as Hc.
    { unfold pending. rewrite (running_answer w c s Hw). set_solver. }
    assert (pending s ≡ₚ c :: pending (set_worker w WIdle (set_client c (CDone Answered) s))) as Hp.
    { unfold pending. simpl. change (running (set_worker w WIdle (set_client c _ s))) with (running (set_worker w WIdle s)).
      by rewrite (running_answer w c s Hw), Permutation_middle. }
    constructor; simpl; try done.
    + by rewrite length_insert.
    + rewrite Hp in H3. by apply NoDup_cons in H3 as [_ ?].
    + apply (pending_client _ _ _ (pending s)); [exists CWaiting; by apply H4|done| |].
      * intros d Hd. rewrite Hp. set_solver.
      * split; [done|]. rewrite Hp in H3. by apply NoDup_cons in H3 as [? _].
    + intros Hex. apply exited_insert in Hex; [|done]. by apply H6.
    + intros Hk. by specialize (Hdone _ Hw Hk).
  - assert (pending (set_worker w WExited s) = pending s) as Hp.
    { unfold pending. simpl. by rewrite running_exit. }
    constructor; simpl; try done.
    + by rewrite length_insert.
    + by rewrite Hp.
    + intros d. by rewrite Hp.
    + intros Hk. by specialize (Hdone _ Hw Hk).
Qed.

Lemma closer_elem (l : list closer) k x y : y ∈ <[k := x]> l -> y = x \/ y ∈ l.
Proof.
  intros (i & Hi)%list_elem_of_lookup. apply list_lookup_insert_Some in Hi as [(_ & -> & _)|(_ & Hi)]; [by left|].
  right. by eapply list_elem_of_lookup_2.
Qed.

Lemma closer_step_inv n k s s' : pool_inv n s -> closer_step k s s' -> pool_inv n s'.
Proof.
  intros [H1 H2 H3 H4 H5 H6 H7 H8 H10 H9] Hstep.
  assert (forall x j, x <> KSwapped -> <[k := x]> (closers s) !! j = Some KSwapped -> closers s !! j = Some KSwapped) as Hold.
  { intros x j Hx [(_ & ? & _)|(_ & Hj)]%list_lookup_insert_Some; done. }
  destruct Hstep as [Hk Hc|Hk Hc|Hk Hc|Hk Hc|Hk Hall]; constructor; simpl; try done.
  - intros j Hj. apply list_lookup_insert_Some in Hj as [(<- & _ & _)|(Hne & Hj)]; [|destruct (H7 j Hj); congruence].
    split_and!; [done|destruct (chanClosed s); [by rewrite H5 in Hc|done]|].
    intros j' [(<- & _)|(_ & Hj')]%list_lookup_insert_Some; [done|]. destruct (H7 _ Hj'). congruence.
  - intros [|]%closer_elem; done.
  - intros [|]%closer_elem; [done|]. by apply H10.
  - intros [|]%closer_elem; [done|]. by apply H9.
  - intros j Hj. apply Hold in Hj; [|done]. destruct (H7 j Hj) as (? & ? & Hu). split_and!; [done..|].
    intros j' Hj'. apply Hu. eapply Hold; [|exact Hj']; done.
  - intros [|]%closer_elem; done.
  - intros [|]%closer_elem; [done|]. by apply H10.
  - intros [|]%closer_elem; [done|]. by apply H9.
  - intros _. by destruct (H7 k Hk).
  - intros Hex. split; [done|]. by apply H6.
  - intros j Hj. pose proof (Hold KWaiting j ltac:(done) Hj) as Hj'. destruct (H7 k Hk) as (_ & _ & Hu).
    assert (j = k) as -> by (by apply Hu). rewrite list_lookup_insert_eq in Hj; [done|by eapply lookup_lt_Some].
  - intros [|]%closer_elem; done.
  - intros [|Hd]%closer_elem; [done|]. split; [|done]. by apply H9.
  - intros j Hj. destruct (H7 k Hk) as (_ & ? & _). congruence.
  - destruct (H7 k Hk) as (_ & ? & _). congruence.
  - destruct (H7 k Hk) as (_ & ? & _). congruence.
  - intros j Hj. apply Hold in Hj; [|done]. destruct (H7 j Hj) as (? & ? & Hu). split_and!; [done..|].
    intros j' Hj'. apply Hu. eapply Hold; [|exact Hj']; done.
  - intros [|]%closer_elem; done.
  - intros [|]%closer_elem; [done|]. by apply H10.
  - intros _. split; [done|]. apply H10. by eapply list_elem_of_lookup_2.
Qed.

Lemma pool_step_inv ctx n s s' : pool_inv n s -> pool_step ctx s s' -> pool_inv n s'.
Proof. intros Hi [c H|w H|k H]; [by eapply client_step_inv|by eapply worker_step_inv|by eapply closer_step_inv]. Qed.

Lemma pool_step_capacity ctx s s' : pool_step ctx s s' -> JobQueueCapacity s' = JobQueueCapacity s.
Proof. intros [c H|w H|k H]; by destruct H. Qed.

Lemma pool_reachable ctx n cap nclients nclosers s :
  pool_steps ctx (NewPreflightWorkerPool n cap nclients nclosers) s -> pool_inv n s /\ JobQueueCapacity s = cap.
Proof.
  assert (forall a b, pool_steps ctx a b -> pool_inv n a /\ JobQueueCapacity a = cap -> pool_inv n b /\ JobQueueCapacity b = cap) as H.
  { induction 1 as [|a b c Hab _ IH]; [done|]. intros [Hi Hc]. apply IH. split; [by eapply pool_step_inv|].
    by rewrite (pool_step_capacity _ _ _ Hab). }
  intros Hs. by apply (H _ _ Hs); split; [apply pool_inv_init|].
Qed.

Lemma length_running s : (length (running s) <= length (workers s))%nat.
Proof. unfold running. induction (workers s) as [|[] l IH]; cbn; lia. Qed.

(** C12: Whatever the interleaving of clients, workers and [Close], at most
    [WorkerCount] requests run and at most [JobQueueCapacity] wait in the channel;
    a client is waiting exactly when its request is in the channel or at one
    worker, in one place only, so none is lost or run twice; the channel is never
    closed twice; and when [Close] has returned after waiting, every worker has
    exited and no accepted request is left unanswered. *)
Theorem pool_safe ctx n cap nclients nclosers s : (0 < n)%nat ->
  pool_steps ctx (NewPreflightWorkerPool n cap nclients nclosers) s ->
  (length (running s) <= n)%nat /\ (length (requestChan s) <= cap)%nat /\ NoDup (pending s) /\
  (forall c, clients s !! c = Some CWaiting <-> c ∈ pending s) /\ KPanicked ∉ closers s /\
  (KDone ∈ closers s -> Forall (fun x => x = WExited) (workers s) /\ forall c, clients s !! c <> Some CWaiting).
Proof.
  intros Hn Hs. destruct (pool_reachable _ _ _ _ _ _ Hs) as [[H1 H2 H3 H4 H5 H6 H7 H8 H10 H9] Hcap].
  split_and!; [rewrite <- H1; apply length_running|by rewrite <- Hcap|done|done|done|].
  intros Hk. destruct (H9 Hk) as [Hall _]. split; [done|]. intros c Hc. apply H4 in Hc.
  destruct (workers s) as [|x l] eqn:E; [simpl in H1; lia|]. apply Forall_cons in Hall as Hall'. destruct Hall' as [-> _].
  destruct (H6 ltac:(by left)) as [_ Hq]. unfold pending in Hc. rewrite Hq in Hc. simpl in Hc.
  unfold running in Hc. rewrite E in Hc. apply list_elem_of_omap in Hc as (y & Hy & Hs').
  rewrite Forall_forall in Hall. by rewrite (Hall y Hy) in Hs'.
Qed.

(** ** The workers alone answer everything that was accepted *)

Definition worker_run : WorkerPool -> WorkerPool -> Prop := fun s s' => exists w, worker_step w s s'.
Definition alive (x : worker) : option unit := match x with WExited => None | _ => Some tt end.
Definition work_left (s : WorkerPool) : nat :=
  3 * length (requestChan s) + 2 * length (running s) + length (omap alive (workers s)).

Lemma worker_step_less w s s' : worker_step w s s' -> (work_left s' < work_left s)%nat.
Proof.
  unfold work_left. intros [c q Hw Hq|c Hw|Hw Hq Hc].
  - change (running (set_worker w (WBusy c) (set_chan q s))) with (running (set_worker w (WBusy c) s)).
    rewrite (running_take w c s Hw), Hq. simpl.
    rewrite (omap_insert_split alive (workers s)) by (by eapply lookup_lt_Some).
    rewrite (omap_split alive (workers s) w _ Hw). simpl. lia.
  - change (running (set_worker w WIdle (set_client c _ s))) with (running (set_worker w WIdle s)).
    rewrite (running_answer w c s Hw). simpl.
    rewrite (omap_insert_split alive (workers s)) by (by eapply lookup_lt_Some).
    rewrite (omap_split alive (workers s) w _ Hw). simpl. lia.
  - rewrite (running_exit w s Hw). simpl.
    rewrite (omap_insert_split alive (workers s)) by (by eapply lookup_lt_Some).
    rewrite (omap_split alive (workers s) w _ Hw), !length_app. simpl. lia.
Qed.

(** An accepted request can always be worked on. *)
Lemma pending_progress n s : (0 < n)%nat -> pool_inv n s -> pending s <> [] ->
  exists w s', worker_step w s s' /\
    forall c, clients s !! c = Some CWaiting \/ clients s !! c = Some (CDone Answered) ->
              clients s' !! c = Some CWaiting \/ clients s' !! c = Some (CDone Answered).
Proof.
  intros Hn [H1 H2 H3 H4 H5 H6 H7 H8 H10 H9] Hp.
  destruct (running s) as [|c l] eqn:Er.
  - unfold pending in Hp. rewrite Er, app_nil_r in Hp. destruct (requestChan s) as [|c q] eqn:Eq; [done|].
    destruct (workers s) as [|x l] eqn:E; [simpl in H1; lia|].
    assert (workers s !! 0%nat = Some WIdle) as Hw.
    { rewrite E. simpl. destruct x as [|d|]; [done| |].
      - unfold running in Er. rewrite E in Er. discriminate.
      - destruct (H6 ltac:(by left)) as [_ ?]. done. }
    eexists O, _. split; [by eapply receive|]. done.
  - assert (c ∈ running s) as Hc by (rewrite Er; left). unfold running in Hc.
    apply list_elem_of_omap in Hc as (x & Hx & Hs). destruct x as [|c'|]; try done. injection Hs as ->.
    apply list_elem_of_lookup in Hx as [w Hw]. eexists w, _. split; [by eapply finish|].
    intros d Hd. simpl. destruct (decide (d = c)) as [->|Hne]; [|by rewrite list_lookup_insert_ne].
    right. apply list_lookup_insert_eq. destruct Hd as [Hd|Hd]; by eapply lookup_lt_Some.
Qed.

(** C29: From every reachable state the workers by themselves reach a state where
    every client that was waiting has its answer; and no run of the workers alone
    is longer than the work left, so they never spin. *)
Theorem pool_drains ctx n cap nclients nclosers s : (0 < n)%nat ->
  pool_steps ctx (NewPreflightWorkerPool n cap nclients nclosers) s ->
  (exists s', rtc worker_run s s' /\
     forall c, clients s !! c = Some CWaiting -> clients s' !! c = Some (CDone Answered)) /\
  forall k s', nsteps worker_run k s s' -> (k <= work_left s)%nat.
Proof.
  intros Hn Hs. apply pool_reachable in Hs as [Hi _]. split.
  - assert (exists s', rtc worker_run s s' /\ forall c,
      clients s !! c = Some CWaiting \/ clients s !! c = Some (CDone Answered) ->
      clients s' !! c = Some (CDone Answered)) as (s' & Hrun & Hans); [|exists s'; eauto].
    remember (work_left s) as m eqn:Em. revert s Hi Em. induction m as [m IH] using lt_wf_ind; intros s Hi ->.
    destruct (decide (pending s = [])) as [Hp|Hp].
    + exists s. split; [done|]. intros c [Hc|Hc]; [|done]. apply (inv_pending _ _ Hi) in Hc. rewrite Hp in Hc.
      by apply not_elem_of_nil in Hc.
    + destruct (pending_progress n s Hn Hi Hp) as (w & s1 & Hstep & Hkeep).
      destruct (IH (work_left s1)) with (s := s1) as (s' & Hrun & Hans);
        [by eapply worker_step_less|by eapply worker_step_inv|done|].
      exists s'. split; [eapply rtc_l; [by exists w|done]|]. intros c Hc. by apply Hans, Hkeep.
  - intros k s' Hk. clear Hi. induction Hk as [|k a b c [w Hab] _ IH]; [lia|].
    pose proof (worker_step_less w a b Hab). lia.
Qed.

(** C36: Close is not safe against a request in flight: between the check of
    [isClosed] and the send on the channel, [Close] can close the channel, and the
    send panics. *)
Theorem pool_close_race ctx n cap : exists s,
  pool_steps ctx (NewPreflightWorkerPool n cap 1 1) s /\ clients s !! 0%nat = Some CPanicked.
Proof.
  eexists. split.
  - eapply rtc_l; [apply (step_client ctx _ _ 0); by apply load_open|].
    eapply rtc_l; [apply (step_closer ctx _ _ 0); by apply swap_first|].
    eapply rtc_l; [apply (step_closer ctx _ _ 0); by apply close_chan|].
    eapply rtc_l; [apply (step_client ctx _ _ 0); by apply send_on_closed|]. apply rtc_refl.
  - reflexivity.
Qed.

(** ** A concrete run: a buffered request while another runs *)

Definition sample_pool : WorkerPool :=
  mkPool false false [1%nat] 1 [WBusy 0] [CWaiting; CWaiting; CStart] [KStart].
Lemma sample_pool_reachable ctx : pool_steps ctx (NewPreflightWorkerPool 1 1 3 1) sample_pool.
Proof.
  eapply rtc_l; [apply (step_client ctx _ _ 0); by apply load_open|].
  eapply rtc_l; [apply (step_client ctx _ _ 0); apply send_buffered; [done|done|simpl; lia]|].
  eapply rtc_l; [apply (step_worker ctx _ _ 0); by eapply receive|].
  eapply rtc_l; [apply (step_client ctx _ _ 1); by apply load_open|].
  eapply rtc_l; [apply (step_client ctx _ _ 1); apply send_buffered; [done|done|simpl; lia]|]. apply rtc_refl.
Qed.

Lemma pool_safe_witness : (length (running sample_pool) <= 1)%nat /\ (length (requestChan sample_pool) <= 1)%nat.
Proof.
  destruct (pool_safe (fun _ => false) 1 1 3 1 sample_pool ltac:(lia) (sample_pool_reachable _)) as (H1 & H2 & _).
  split; [exact H1|exact H2].
Defined.
Lemma pool_drains_witness : exists s', rtc worker_run sample_pool s' /\
  clients s' !! 0%nat = Some (CDone Answered) /\ clients s' !! 1%nat = Some (CDone Answered).
Proof.
  destruct (pool_drains (fun _ => false) 1 1 3 1 sample_pool ltac:(lia) (sample_pool_reachable _)) as ((s' & Hr & Ha) & _).
  exists s'. split; [exact Hr|]. split; apply Ha; reflexivity.
Defined.
