(* ===== verification/Simulate.v ===== *)
(** * simulateTransaction: [methods/simulate_transaction.go],
      [protocol/simulate_transaction.go]

    The request is checked and turned into the parameters of a preflight
    ([prepare]), the preflight is run by the getter (the worker pool), and its
    result is put in the format of the request ([formatResponse]). *)

From S2P Require Import Prelude GoStd Externals Protocol BucketWindow LedgerMeta Store LedgerStore EventStore TxStore WriteTx Ingest Migration Daemon Convert LedgerEntries Preflight.

(** ** Kinds of ledger entry changes *)

Definition LedgerEntryChangeType : Type := Z.
Definition LedgerEntryChangeTypeCreated : LedgerEntryChangeType := 1.
Definition LedgerEntryChangeTypeUpdated : LedgerEntryChangeType := 2.
Definition LedgerEntryChangeTypeDeleted : LedgerEntryChangeType := 3.
(** The two maps; a missing key gives the zero value. *)
Definition LedgerEntryChangeTypeName (l : LedgerEntryChangeType) : option string :=
  if l =? LedgerEntryChangeTypeCreated then Some "created"%string
  else if l =? LedgerEntryChangeTypeUpdated then Some "updated"%string
  else if l =? LedgerEntryChangeTypeDeleted then Some "deleted"%string
  else None.
Definition LedgerEntryChangeTypeValue (s : string) : option LedgerEntryChangeType :=
  if String.eqb s "created" then Some LedgerEntryChangeTypeCreated
  else if String.eqb s "updated" then Some LedgerEntryChangeTypeUpdated
  else if String.eqb s "deleted" then Some LedgerEntryChangeTypeDeleted
  else None.
Definition LedgerEntryChangeType_String (l : LedgerEntryChangeType) : string :=
  default EmptyString (LedgerEntryChangeTypeName l).
Definition LedgerEntryChangeType_MarshalJSON (l : LedgerEntryChangeType) : json := JStr (LedgerEntryChangeType_String l).
Definition LedgerEntryChangeType_Parse (s : string) : go LedgerEntryChangeType :=
  let s := TrimSpace (ToLower s) in
  match LedgerEntryChangeTypeValue s with
  | Some value => Ok value
  | None => Er (EFmt "%q is not a valid ledger entry change type" [FS s])
  end.
Definition LedgerEntryChangeType_UnmarshalJSON (data : json) : go LedgerEntryChangeType :=
  s ← json_string data; LedgerEntryChangeType_Parse s.

Record LedgerEntryChange := mkLedgerEntryChange {
  ch_Type : LedgerEntryChangeType;
  ch_KeyXDR : string;
  ch_KeyJSON : string;
  ch_BeforeXDR : option string;
  ch_BeforeJSON : string;
  ch_AfterXDR : option string;
  ch_AfterJSON : string;
}.
Definition zero_change : LedgerEntryChange := mkLedgerEntryChange 0 "" "" None "" None "".

Record SimulateTransactionRequest := mkSimulateRequest {
  sq_Transaction : string; sq_ResourceConfig : option ResourceConfig; sq_AuthMode : string; sq_Format : string;
}.
Record SimulateHostFunctionResult := mkHostFunctionResult {
  hf_AuthXDR : option (list string); hf_AuthJSON : list string;
  hf_ReturnValueXDR : option string; hf_ReturnValueJSON : string;
}.
Record RestorePreamble := mkRestorePreamble {
  rs_TransactionDataXDR : string; rs_TransactionDataJSON : string; rs_MinResourceFee : Z;
}.
(** [Error] is empty when it is [None]. *)
Record SimulateTransactionResponse := mkSimulateResponse {
  sm_Error : option err;
  sm_TransactionDataXDR : string;
  sm_TransactionDataJSON : string;
  sm_EventsXDR : list string;
  sm_EventsJSON : list string;
  sm_MinResourceFee : Z;
  sm_Results : list SimulateHostFunctionResult;
  sm_RestorePreamble : option RestorePreamble;
  sm_StateChanges : list LedgerEntryChange;
  sm_LatestLedger : Z;
}.
Definition fail_response (e : err) (latestLedger : Z) : SimulateTransactionResponse :=
  mkSimulateResponse (Some e) "" "" [] [] 0 [] None [] latestLedger.

(** ** Outside code: envelopes of [xdr] *)

Record Operation {O : Operations} := mkOperation { o_SourceAccount : option AccountId; o_Body : OperationBody }.
Class SimEnvelopes {O : Operations} {E : LedgerEntryXdr} := {
  SimEnvelope : Type;
  sim_UnmarshalBase64 : string -> go SimEnvelope;
  env_Operations : SimEnvelope -> list Operation;
  env_SourceAccount : SimEnvelope -> AccountId;
  env_Type : SimEnvelope -> Z;
  (** the [V1] arm: the version of its extension and the footprint of its
      Soroban data *)
  env_V1 : SimEnvelope -> option (Z * option LedgerFootprint);
  entry_SafeUnmarshal : string -> go LedgerEntry;
  entry_LedgerKey : LedgerEntry -> go LedgerKey;
}.
(** Documented: an arm of a union is set exactly when the discriminant selects
    it. *)
Class SimEnvelopesLaws `{X : XdrConsts} {O : Operations} {E : LedgerEntryXdr} (SE : SimEnvelopes) := {
  v1_set e : is_Some (env_V1 e) <-> env_Type e = EnvelopeTypeEnvelopeTypeTx;
  soroban_set e v d : env_V1 e = Some (v, d) -> (is_Some d <-> v = 1);
}.

Section Simulate.
Context `{V : ScVals} {D : Ledgers} {Drv : Driver} {XC : XdrConsts} {J : XdrToJson} {X : LedgerXdr D}.
Context {E : LedgerEntryXdr} {CS : CoreStates} {C : CoreClient} {O : Operations} {SE : SimEnvelopes}.

(** ** The changes of ledger entries *)

Definition errMissingDiff : err := ESentinel "no ledger difference found".
Definition present (s : string) : bool := negb (String.eqb s "").

(** Both the entry before and the entry after go to [BeforeJSON], as in the
    source. *)
Definition AddLedgerEntryChangeJSON (l : LedgerEntryChange) (diff : XDRDiff) (key : LedgerKey) : go LedgerEntryChange :=
  keyJSON ← ConvertInterface "LedgerKey" (key_MarshalBinary key);
  b ← (if present (Before diff) then ConvertBytes "LedgerEntry" (Before diff) else Ok (ch_BeforeJSON l));
  b ← (if present (After diff) then ConvertBytes "LedgerEntry" (After diff) else Ok b);
  Ok (mkLedgerEntryChange (ch_Type l) (ch_KeyXDR l) keyJSON (ch_BeforeXDR l) b (ch_AfterXDR l) (ch_AfterJSON l)).

Definition LedgerEntryChangeFromXDRDiff (diff : XDRDiff) (format : string) : go LedgerEntryChange :=
  _ ← check (IsValidFormat format);
  let beforePresent := present (Before diff) in
  let afterPresent := present (After diff) in
  choice ← (if beforePresent
            then Ok (Before diff, if afterPresent then LedgerEntryChangeTypeUpdated else LedgerEntryChangeTypeDeleted)
            else if afterPresent then Ok (After diff, LedgerEntryChangeTypeCreated)
            else Er errMissingDiff);
  let '(entryXDR, changeType) := choice in
  entry ← entry_SafeUnmarshal entryXDR;
  key ← entry_LedgerKey entry;
  if String.eqb format FormatJSON
  then AddLedgerEntryChangeJSON (mkLedgerEntryChange changeType "" "" None "" None "") diff key
  else
    keyB64 ← key_MarshalBase64 key;
    Ok (mkLedgerEntryChange changeType keyB64 ""
          (if beforePresent then Some (Base64Encode (Before diff)) else None) ""
          (if afterPresent then Some (Base64Encode (After diff)) else None) "").

(** A diff without entries leaves the zero value in the slice. *)
Fixpoint state_changes (format : string) (diffs : list XDRDiff) : go (list LedgerEntryChange) :=
  match diffs with
  | [] => Ok []
  | diff :: diffs' =>
      change ← match LedgerEntryChangeFromXDRDiff diff format with
               | Er e => if errors_Is e "no ledger difference found" then Ok zero_change else Er e
               | r => r
               end;
      rest ← state_changes format diffs';
      Ok (change :: rest)
  end.

(** ** The response *)

Definition getRestorePreamble (preflight : Preflight) (format : string) : go (option RestorePreamble) :=
  if (String.length (pf_PreRestoreTransactionData preflight) =? 0)%nat then Ok None
  else if String.eqb format FormatJSON then
    txDataJs ← ConvertBytes "SorobanTransactionData" (pf_PreRestoreTransactionData preflight);
    Ok (Some (mkRestorePreamble "" txDataJs (pf_PreRestoreMinFee preflight)))
  else Ok (Some (mkRestorePreamble (Base64Encode (pf_PreRestoreTransactionData preflight)) "" (pf_PreRestoreMinFee preflight))).

Definition getSimulationResults (preflight : Preflight) (format : string) : go (list SimulateHostFunctionResult) :=
  if (String.length (pf_Result preflight) =? 0)%nat then Ok []
  else if String.eqb format FormatJSON then
    rvJs ← ConvertBytes "ScVal" (pf_Result preflight);
    auths ← jsonifySlice "SorobanAuthorizationEntry" (pf_Auth preflight);
    Ok [mkHostFunctionResult None auths None rvJs]
  else Ok [mkHostFunctionResult (Some (base64EncodeSlice (pf_Auth preflight))) [] (Some (Base64Encode (pf_Result preflight))) ""].

Definition formatResponse (preflight : Preflight) (format : string) (latestLedger : Z) : go SimulateTransactionResponse :=
  results ← getSimulationResults preflight format;
  restorePreamble ← getRestorePreamble preflight format;
  stateChanges ← state_changes format (pf_LedgerEntryDiff preflight);
  let error := if String.eqb (pf_Error preflight) "" then None else Some (ENew (pf_Error preflight)) in
  let respond dataXDR dataJSON eventsXDR eventsJSON := mkSimulateResponse error dataXDR dataJSON eventsXDR eventsJSON
    (pf_MinFee preflight) results restorePreamble stateChanges latestLedger in
  if String.eqb format FormatJSON then
    dataJSON ← ConvertBytes "SorobanTransactionData" (pf_TransactionData preflight);
    eventsJSON ← jsonifySlice "DiagnosticEvent" (pf_Events preflight);
    Ok (respond "" dataJSON [] eventsJSON)
  else Ok (respond (Base64Encode (pf_TransactionData preflight)) "" (base64EncodeSlice (pf_Events preflight)) []).

(** ** The request *)

(** The mode the reference holds afterwards. *)
Definition validateAuthMode (opBody : OperationBody) (authModeRef : option string) : go string :=
  match authModeRef with
  | None => Er (ENew "invalid auth mode")
  | Some authMode =>
      if negb (String.eqb authMode "" || String.eqb authMode AuthModeEnforce || String.eqb authMode AuthModeRecord
               || String.eqb authMode AuthModeRecordAllowNonroot)
      then Er (EFmt "optional 'authMode' must be one of %s when included"
                 [FS (Join "," [AuthModeEnforce; AuthModeRecord; AuthModeRecordAllowNonroot])])
      else if op_Type opBody =? OperationTypeInvokeHostFunction then
        op ← MustInvokeHostFunctionOp opBody;
        let hasAuth := (0 <? op.2)%nat in
        if String.eqb authMode "" then Ok (if hasAuth then AuthModeEnforce else AuthModeRecord)
        else if hasAuth && (String.eqb authMode AuthModeRecord || String.eqb authMode AuthModeRecordAllowNonroot)
        then Er (EFmt "cannot set authMode to '%s' with an auth footprint" [FS authMode])
        else Ok authMode
      else if (op_Type opBody =? OperationTypeExtendFootprintTtl) || (op_Type opBody =? OperationTypeRestoreFootprint)
      then if negb (String.eqb authMode "") then Er (ENew "cannot set authMode with non-InvokeHostFunction operations")
           else Ok authMode
      else Er (EFmt "transaction contains unsupported operation type: %s" [FS (op_Type_String opBody)])
  end.

(** [preflight.GetterParameters] *)
Record GetterParameters := mkGetterParameters {
  gp_BucketListSize : Z;
  gp_SourceAccount : AccountId;
  gp_OperationBody : OperationBody;
  gp_Footprint : LedgerFootprint;
  gp_ResourceConfig : ResourceConfig;
  gp_AuthMode : string;
  gp_ProtocolVersion : Z;
  gp_LedgerEntryGetter : list LedgerKey -> go (list LedgerKeyAndEntry);
  gp_LedgerSeq : Z;
}.

Definition soroban_data_missing : err :=
  ENew "To perform a SimulateTransaction for ExtendFootprintTtl or RestoreFootprint operations, SorobanTransactionData must be provided".

(** The footprint of an extension or a restoration.  A nil arm panics when it is
    read; the second test is only made when the first is true. *)
Definition required_footprint (txEnvelope : SimEnvelope) : go (SimulateTransactionResponse + LedgerFootprint) :=
  missing ← (if negb (env_Type txEnvelope =? EnvelopeTypeEnvelopeTypeTx) then
               match env_V1 txEnvelope with
               | None => Panic "nil pointer dereference"
               | Some v1 => Ok (negb (v1.1 =? 1))
               end
             else Ok false);
  if (missing : bool) then Ok (inl (fail_response soroban_data_missing 0))
  else match env_V1 txEnvelope with
       | None | Some (_, None) => Panic "nil pointer dereference"
       | Some (_, Some footprint) => Ok (inr footprint)
       end.

Definition operation_footprint (txEnvelope : SimEnvelope) (body : OperationBody) :
    go (SimulateTransactionResponse + LedgerFootprint) :=
  if op_Type body =? OperationTypeInvokeHostFunction then Ok (inr empty_footprint)
  else if (op_Type body =? OperationTypeExtendFootprintTtl) || (op_Type body =? OperationTypeRestoreFootprint)
  then required_footprint txEnvelope
  else Ok (inl (fail_response (EFmt "Transaction contains unsupported operation type: %s" [FS (op_Type_String body)]) 0)).

(** Everything before the preflight: the response of a request that cannot be
    simulated, or the parameters.  Every error is reported in a response. *)
Definition prepare (request : SimulateTransactionRequest) : st DB (SimulateTransactionResponse + GetterParameters) :=
  match IsValidFormat (sq_Format request) with
  | Some e => mret (inl (fail_response e 0))
  | None =>
  match sim_UnmarshalBase64 (sq_Transaction request) with
  | Panic p => lift (Panic p)
  | Er _ => mret (inl (fail_response (ENew "Could not unmarshal transaction") 0))
  | Ok txEnvelope =>
  match env_Operations txEnvelope with
  | [op] =>
      match validateAuthMode (o_Body op) (Some (sq_AuthMode request)) with
      | Panic p => lift (Panic p)
      | Er e => mret (inl (fail_response e 0))
      | Ok authMode =>
          let sourceAccount := match o_SourceAccount op with Some a => a | None => env_SourceAccount txEnvelope end in
          footprint ← lift (operation_footprint txEnvelope (o_Body op));
          match footprint with
          | inl r => mret (inl r)
          | inr footprint =>
              latest ← attempt GetLatestLedgerSequence;
              match latest with
              | Panic p => lift (Panic p)
              | Er e => mret (inl (fail_response e 0))
              | Ok latestLedger =>
                  sizes ← attempt (getBucketListSizeAndProtocolVersion latestLedger);
                  match sizes with
                  | Panic p => lift (Panic p)
                  | Er e => mret (inl (fail_response e latestLedger))
                  | Ok (bucketListSize, protocolVersion) =>
                      w ← get_st;
                      mret (inr (mkGetterParameters bucketListSize sourceAccount (o_Body op) footprint
                        (default DefaultResourceConfig (sq_ResourceConfig request)) authMode protocolVersion
                        (fun keys => r ← (NewLedgerEntryAtGetter latestLedger keys w).1; Ok r.1) latestLedger))
                  end
              end
          end
      end
  | _ => mret (inl (fail_response (ENew "Transaction contains more than one operation") 0))
  end end end.

Definition simulateTransaction (GetPreflight : GetterParameters -> go Preflight) (request : SimulateTransactionRequest) :
    st DB SimulateTransactionResponse :=
  prepared ← prepare request;
  lift (match prepared with
        | inl r => Ok r
        | inr params =>
            match GetPreflight params with
            | Panic p => Panic p
            | Er e => Ok (fail_response e (gp_LedgerSeq params))
            | Ok result =>
                match formatResponse result (sq_Format request) (gp_LedgerSeq params) with
                | Panic p => Panic p
                | Er e => Ok (fail_response e (gp_LedgerSeq params))
                | Ok simResp => Ok simResp
                end
            end
        end).

(** The parameters a worker of the pool runs a request with. *)
Definition worker_parameters (networkPassphrase : string) (enableDebug : bool) (params : GetterParameters) : Parameters :=
  mkParameters (gp_SourceAccount params) (gp_OperationBody params) (gp_Footprint params) networkPassphrase
    (gp_LedgerEntryGetter params) (gp_LedgerSeq params) (gp_BucketListSize params) (gp_ResourceConfig params)
    enableDebug (gp_AuthMode params) (gp_ProtocolVersion params).
(** ** Authorization modes *)

(** The mode a request ends up with: enforcement when the operation carries
    authorization entries, recording when it does not, unless it asks for another
    one; operations other than invocations have none. *)
Inductive auth_mode (body : OperationBody) : string -> string -> Prop :=
  | mode_default hf n : op_Type body = OperationTypeInvokeHostFunction -> MustInvokeHostFunctionOp body = Ok (hf, n) ->
      auth_mode body "" (if decide (n = 0%nat) then AuthModeRecord else AuthModeEnforce)
  | mode_enforce hf n : op_Type body = OperationTypeInvokeHostFunction -> MustInvokeHostFunctionOp body = Ok (hf, n) ->
      auth_mode body AuthModeEnforce AuthModeEnforce
  | mode_record hf m : op_Type body = OperationTypeInvokeHostFunction -> MustInvokeHostFunctionOp body = Ok (hf, 0%nat) ->
      m = AuthModeRecord \/ m = AuthModeRecordAllowNonroot -> auth_mode body m m
  | mode_none : op_Type body <> OperationTypeInvokeHostFunction ->
      op_Type body = OperationTypeExtendFootprintTtl \/ op_Type body = OperationTypeRestoreFootprint ->
      auth_mode body "" "".

Lemma auth_mode_valid body m m' : auth_mode body m m' ->
  validateAuthMode body (Some m) = Ok m'.
Proof.
  intros H. unfold validateAuthMode. destruct H as [hf n Ht Hm|hf n Ht Hm|hf m Ht Hm Hr|Hn Ht].
  - cbn. rewrite Ht, Z.eqb_refl, Hm. by destruct n.
  - cbn. rewrite Ht, Z.eqb_refl, Hm. cbn. by rewrite andb_false_r.
  - destruct Hr as [-> | ->]; cbn; by rewrite Ht, Z.eqb_refl, Hm.
  - cbn. destruct (Z.eqb_spec (op_Type body) OperationTypeInvokeHostFunction); [done|].
    destruct Ht as [-> | ->]; rewrite Z.eqb_refl, ?orb_true_r; done.
Qed.

Lemma valid_auth_mode body m m' : validateAuthMode body (Some m) = Ok m' -> auth_mode body m m'.
Proof.
  unfold validateAuthMode. destruct (negb _) eqn:Hm; [done|]. apply negb_false_iff in Hm. rewrite !orb_true_iff in Hm.
  destruct (Z.eqb_spec (op_Type body) OperationTypeInvokeHostFunction) as [Ht|Ht].
  - destruct (MustInvokeHostFunctionOp body) as [[hf n]|e|p] eqn:Eop; cbn [mbind go_bind]; [|done..]. cbn [snd].
    destruct (String.eqb_spec m "") as [-> |Hne].
    + destruct (Nat.ltb_spec 0 n); intros [= <-]; pose proof (mode_default body hf n Ht Eop) as H';
        destruct (decide (n = 0%nat)); try lia; done.
    + destruct ((0 <? n)%nat && _) eqn:Eb; [done|]. intros [= <-].
      destruct (decide (m = AuthModeEnforce)) as [He|He]; [rewrite He; by eapply mode_enforce|].
      assert (m = AuthModeRecord \/ m = AuthModeRecordAllowNonroot) as Hr.
      { destruct Hm as [[[Hm|Hm]|Hm]|Hm]; [done|by apply String.eqb_eq in Hm|left; by apply String.eqb_eq|right; by apply String.eqb_eq]. }
      destruct n as [|n]; [by eapply mode_record|]. cbn in Eb. destruct Hr as [-> | ->]; done.
  - destruct (_ || _) eqn:Et; [|done]. destruct (String.eqb_spec m "") as [-> |]; [|done]. intros [= <-].
    apply orb_true_iff in Et as [Et|Et]; apply Z.eqb_eq in Et; apply mode_none; auto.
Qed.

(** The authorization mode of a request is accepted exactly when it is one the
    operation allows: a recording mode only without authorization entries, none at
    all outside invocations; an omitted mode becomes enforcement when entries are
    present and recording otherwise.  The mode accepted is one the library knows. *)
Theorem validateAuthMode_spec body m m' :
  (validateAuthMode body (Some m) = Ok m' <-> auth_mode body m m') /\
  (op_Type body = OperationTypeInvokeHostFunction -> validateAuthMode body (Some m) = Ok m' ->
   exists code, authMode_code m' = Ok code /\ 0 <= code <= 2).
Proof.
  split; [split; [apply valid_auth_mode|apply auth_mode_valid]|].
  intros Ht H%valid_auth_mode. destruct H as [hf n|hf n|hf m _ _ [-> | ->]|Hn]; [destruct (decide (n = 0%nat))|..]; try done;
    eexists; (split; [reflexivity|lia]).
Qed.
(** ** From the request to the library *)

(** The state a request is simulated in: [l] is the latest ledger stored, with
    its protocol version and the size of its live state. *)
Record simulate_pre (w : DB) (l : LedgerCloseMeta) (version size : Z) : Prop := {
  sp_drv : no_driver_errors;
  sp_keyed : ledgers_keyed (disk w);
  sp_sess : sess_tx w = None;
  sp_cache : cache_ok w;
  sp_last : last (all_ledgers (disk w)) = Some l;
  sp_meta : (lcm_V l = 1 /\ lcm_V1 l = Some (version, size)) \/ (lcm_V l = 2 /\ lcm_V2 l = Some (version, size));
}.

(** The entries of a fixed ledger, from Core. *)
Definition entries_at (sequence : Z) (keys : list LedgerKey) : go (list LedgerKeyAndEntry) :=
  resp ← on_err (EWrap "could not query captive core: %w" []) (core_GetLedgerEntries sequence keys);
  entries_loop keys 0 resp.

Lemma sizes_at w l version size : simulate_pre w l version size ->
  getBucketListSizeAndProtocolVersion (LedgerSequence l) w = (Ok (u64 size, u32 version), w).
Proof.
  intros [Hd Hk Hs _ Hl Hmeta]. assert (view w = disk w) as Hv by (unfold view; by rewrite Hs).
  unfold getBucketListSizeAndProtocolVersion, GetLedger, mbind, st_bind.
  rewrite getLedgerFromDB_spec by (rewrite ?Hv; done || (intros n; apply Hd)). rewrite Hv.
  assert (l ∈ all_ledgers (disk w)) as Hin by (by apply last_Some_elem_of).
  apply elem_of_all_ledgers in Hin; [|done]. rewrite Hin.
  destruct Hmeta as [[-> Hm]|[-> Hm]]; cbn; by rewrite Hm.
Qed.

Lemma simulate_pre_ext w w' l version size : disk w' = disk w -> sess_tx w' = None -> cache_ok w' ->
  simulate_pre w l version size -> simulate_pre w' l version size.
Proof. intros Hdisk Hs Hc []. split; rewrite ?Hdisk; done. Qed.

Lemma getter_at seq keys w : seq <> 0 ->
  (r ← (NewLedgerEntryAtGetter seq keys w).1; Ok r.1) = entries_at seq keys.
Proof.
  intros Hs. unfold NewLedgerEntryAtGetter, GetLedgerEntries, entries_at. apply Z.eqb_neq in Hs. rewrite Hs.
  unfold mbind, st_bind, lift. cbn. destruct (core_GetLedgerEntries seq keys); cbn; [|done..].
  by destruct (entries_loop keys 0 a).
Qed.

Definition source_of (env : SimEnvelope) (op : Operation) : AccountId :=
  default (env_SourceAccount env) (o_SourceAccount op).

Lemma prepare_spec request env op mode footprint w l version size : simulate_pre w l version size -> LedgerSequence l <> 0 ->
  IsValidFormat (sq_Format request) = None -> sim_UnmarshalBase64 (sq_Transaction request) = Ok env ->
  env_Operations env = [op] -> auth_mode (o_Body op) (sq_AuthMode request) mode ->
  operation_footprint env (o_Body op) = Ok (inr footprint) ->
  exists getter w', prepare request w = (Ok (inr (mkGetterParameters (u64 size) (source_of env op) (o_Body op) footprint
      (default DefaultResourceConfig (sq_ResourceConfig request)) mode (u32 version) getter (LedgerSequence l))), w') /\
    (forall keys, getter keys = entries_at (LedgerSequence l) keys) /\ disk w' = disk w /\ sess_tx w' = None.
Proof.
  intros Hpre Hnz Hf Henv Hop Hmode Hfp.
  destruct (getLatestLedgerSequence_spec w) as (w' & Hlatest & Hdisk & Hsess & Hcache);
    [intros n; apply (sp_drv _ _ _ _ Hpre)|apply Hpre..|].
  rewrite (sp_last _ _ _ _ Hpre) in Hlatest.
  exists (fun keys => r ← (NewLedgerEntryAtGetter (LedgerSequence l) keys w').1; Ok r.1), w'.
  split_and!; [|intros keys; by apply getter_at|done..].
  unfold prepare. rewrite Hf, Henv, Hop, (auth_mode_valid _ _ _ Hmode), Hfp.
  unfold attempt, GetLatestLedgerSequence, mbind, st_bind, lift. rewrite Hlatest.
  rewrite (sizes_at w' l version size) by (by eapply simulate_pre_ext). unfold source_of. by destruct (o_SourceAccount op).
Qed.
(** For an extension or a restoration the footprint is that of the Soroban data
    when the envelope has some; without Soroban data the handler never answers
    with the message written for that case, it always panics on a nil pointer. *)
Theorem soroban_data_missing_panics `{!SimEnvelopesLaws SE} env :
  (exists footprint, env_V1 env = Some (1, Some footprint) /\ required_footprint env = Ok (inr footprint)) \/
  ((forall footprint, env_V1 env <> Some (1, Some footprint)) /\
   required_footprint env = Panic "nil pointer dereference").
Proof.
  pose proof (v1_set env) as Hset. pose proof (soroban_set env) as Hsor. unfold required_footprint.
  destruct (env_V1 env) as [[v d]|].
  - assert (env_Type env = EnvelopeTypeEnvelopeTypeTx) as -> by (apply Hset; eauto). rewrite Z.eqb_refl. cbn.
    specialize (Hsor v d eq_refl). destruct d as [f|].
    + left. exists f. assert (v = 1) as -> by (apply Hsor; eauto). done.
    + right. split; [|done]. congruence.
  - right. split; [done|]. destruct (Z.eqb_spec (env_Type env) EnvelopeTypeEnvelopeTypeTx) as [E1|]; [|done].
    apply Hset in E1 as [? E1]. done.
Qed.

(** One run of the library: an invocation with its source account and the code of
    its mode, another operation with its footprint. *)
Inductive library_run `{P : PreflightLib} (info : ledger_info_t) (leeway : Z) (debug : bool) (body : OperationBody)
    (source : AccountId) (footprint : LedgerFootprint) (mode : string) (snap : snapshot) : preflight_result_t -> Prop :=
  | run_invocation hf n account code res : op_Type body = OperationTypeInvokeHostFunction ->
      MustInvokeHostFunctionOp body = Ok (Ok hf, n) -> account_MarshalBinary source = Ok account ->
      (mode, code) ∈ [(AuthModeEnforce, 0); (AuthModeRecord, 1); (AuthModeRecordAllowNonroot, 2)] ->
      run snap (preflight_invoke_hf_op hf account info leeway debug code) = Ok res ->
      library_run info leeway debug body source footprint mode snap res
  | run_footprint b f res : op_Type body <> OperationTypeInvokeHostFunction ->
      op_Type body = OperationTypeExtendFootprintTtl \/ op_Type body = OperationTypeRestoreFootprint ->
      op_MarshalBinary body = Ok b -> footprint_MarshalBinary footprint = Ok f ->
      run snap (preflight_footprint_ttl_op b f info) = Ok res ->
      library_run info leeway debug body source footprint mode snap res.

Definition answer_of (r : go SimulateTransactionResponse) (sequence : Z) : go SimulateTransactionResponse :=
  match r with Er e => Ok (fail_response e sequence) | _ => r end.

Lemma GetPreflight_run `{P : PreflightLib} key_SafeUnmarshal entry_MarshalBinary now params res :
  library_run (getLedgerInfo params now) (u64 (InstructionLeeway (p_ResourceConfig params))) (p_EnableDebug params)
    (p_OpBody params) (p_SourceAccount params) (p_Footprint params) (p_AuthMode params)
    (SnapshotSourceGet key_SafeUnmarshal entry_MarshalBinary (p_LedgerEntryGetter params)) res ->
  GetPreflight key_SafeUnmarshal entry_MarshalBinary now params = Ok (GoPreflight res).
Proof.
  intros H. unfold GetPreflight. inversion H as [hf n account code r Ht Hm Ha Hc Hr|b f r Hn Ht Hb Hf Hr]; subst; clear H.
  - rewrite Ht, Z.eqb_refl. unfold getInvokeHostFunctionPreflight. rewrite Hm. cbn. rewrite Ha. cbn.
    repeat (apply elem_of_cons in Hc as [[= -> ->]|Hc]; [cbn; by rewrite Hr|]). by apply not_elem_of_nil in Hc.
  - apply Z.eqb_neq in Hn. rewrite Hn. destruct Ht as [E1|E1]; rewrite E1, Z.eqb_refl, ?orb_true_r;
      unfold getFootprintTTLPreflight; rewrite Hb; cbn; rewrite Hf; cbn; by rewrite Hr.
Qed.

(** C18: A valid request is simulated by exactly one run of the library against the
    latest stored ledger: its sequence, protocol version and live state size, the
    entries Core has at that ledger, the source account, footprint, resources and
    authorization mode the request determines; the answer is that run's result
    in the format asked for, or its error with the ledger's sequence. *)
Theorem simulateTransaction_runs `{P : PreflightLib} key_SafeUnmarshal entry_MarshalBinary now passphrase debug
    request env op mode footprint w l version size res :
  simulate_pre w l version size -> LedgerSequence l <> 0 ->
  IsValidFormat (sq_Format request) = None -> sim_UnmarshalBase64 (sq_Transaction request) = Ok env ->
  env_Operations env = [op] -> auth_mode (o_Body op) (sq_AuthMode request) mode ->
  operation_footprint env (o_Body op) = Ok (inr footprint) ->
  (forall getter, (forall keys, getter keys = entries_at (LedgerSequence l) keys) -> library_run
     (mkLedgerInfoT passphrase (u32 (LedgerSequence l)) (u32 version) (u64 now) 5000000 (u64 size))
     (u64 (InstructionLeeway (default DefaultResourceConfig (sq_ResourceConfig request)))) debug
     (o_Body op) (source_of env op) footprint mode (SnapshotSourceGet key_SafeUnmarshal entry_MarshalBinary getter) res) ->
  exists w', simulateTransaction
      (fun params => GetPreflight key_SafeUnmarshal entry_MarshalBinary now (worker_parameters passphrase debug params)) request w =
    (answer_of (formatResponse (GoPreflight res) (sq_Format request) (LedgerSequence l)) (LedgerSequence l), w') /\
    disk w' = disk w /\ sess_tx w' = None.
Proof.
  intros Hpre Hnz Hf Henv Hop Hmode Hfp Hres.
  destruct (prepare_spec request env op mode footprint w l version size) as (getter & w' & Hprep & Hget & Hdisk & Hsess); [done..|].
  exists w'. split_and!; [|done..].
  unfold simulateTransaction. rewrite (st_bind_eq _ _ _ _ _ Hprep). unfold lift. cbn [gp_LedgerSeq].
  rewrite (GetPreflight_run _ _ _ _ res).
  - f_equal. by destruct (formatResponse _ _ _).
  - unfold worker_parameters, getLedgerInfo, defaultBaseReserve. cbn. unfold u64, u32. rewrite !Z.mod_mod by lia. by apply Hres.
Qed.
(** ** The changes a response reports *)

Lemma ToLower_app a b : ToLower (a +:+ b) = (ToLower a +:+ ToLower b)%string.
Proof. unfold ToLower. induction a as [|c a IH]; [done|]. rewrite str_app_cons. cbn [map_string]. by rewrite IH. Qed.
Lemma is_space_lower c : is_space (lower_char c) = is_space c.
Proof. destruct c as [[] [] [] [] [] [] [] []]; reflexivity. Qed.
Lemma all_space_lower s : all_space (ToLower s) = all_space s.
Proof.
  unfold ToLower. induction s as [|c s IH]; [done|]. cbn [map_string all_space]. by rewrite is_space_lower, IH.
Qed.

Lemma change_type_cases t name : LedgerEntryChangeTypeName t = Some name ->
  LedgerEntryChangeTypeValue name = Some t /\ no_space name = true.
Proof.
  unfold LedgerEntryChangeTypeName.
  destruct (Z.eqb_spec t LedgerEntryChangeTypeCreated) as [-> |]; [intros [= <-]; done|].
  destruct (Z.eqb_spec t LedgerEntryChangeTypeUpdated) as [-> |]; [intros [= <-]; done|].
  destruct (Z.eqb_spec t LedgerEntryChangeTypeDeleted) as [-> |]; [intros [= <-]; done|done].
Qed.
Lemma change_type_named s t : LedgerEntryChangeTypeValue s = Some t -> LedgerEntryChangeTypeName t = Some s.
Proof.
  unfold LedgerEntryChangeTypeValue.
  destruct (String.eqb_spec s "created") as [-> |]; [intros [= <-]; done|].
  destruct (String.eqb_spec s "updated") as [-> |]; [intros [= <-]; done|].
  destruct (String.eqb_spec s "deleted") as [-> |]; [intros [= <-]; done|done].
Qed.

Lemma change_type_readable t :
  is_ok (LedgerEntryChangeType_UnmarshalJSON (LedgerEntryChangeType_MarshalJSON t)) =
  bool_decide (is_Some (LedgerEntryChangeTypeName t)).
Proof.
  unfold LedgerEntryChangeType_MarshalJSON, LedgerEntryChangeType_String, LedgerEntryChangeType_UnmarshalJSON. cbn.
  unfold LedgerEntryChangeTypeName. repeat case_match; reflexivity.
Qed.

(** The text form of a kind of change reads back as that kind, whatever the
    case of its letters and the spaces around it; whatever text is read gives one
    of the three kinds, and the zero value has a form that does not read back. *)
Theorem change_type_roundtrip :
  (forall t name before text after, LedgerEntryChangeTypeName t = Some name -> ToLower text = name ->
     all_space before = true -> all_space after = true ->
     LedgerEntryChangeType_UnmarshalJSON (JStr (before +:+ text +:+ after)) = Ok t) /\
  (forall t, LedgerEntryChangeType_UnmarshalJSON (LedgerEntryChangeType_MarshalJSON t) = Ok t <->
     t = LedgerEntryChangeTypeCreated \/ t = LedgerEntryChangeTypeUpdated \/ t = LedgerEntryChangeTypeDeleted) /\
  (forall data t, LedgerEntryChangeType_UnmarshalJSON data = Ok t -> is_Some (LedgerEntryChangeTypeName t)) /\
  is_ok (LedgerEntryChangeType_UnmarshalJSON (LedgerEntryChangeType_MarshalJSON (ch_Type zero_change))) = false.
Proof.
  split_and!.
  - intros t name before text after Hn Ht Hb Ha. destruct (change_type_cases _ _ Hn) as [Hv Hw].
    unfold LedgerEntryChangeType_UnmarshalJSON, LedgerEntryChangeType_Parse. cbn [json_string mbind go_bind].
    rewrite !ToLower_app, Ht, TrimSpace_word by (by rewrite ?all_space_lower). by rewrite Hv.
  - intros t. split.
    + intros H. assert (is_Some (LedgerEntryChangeTypeName t)) as Hs.
      { apply (bool_decide_unpack _). rewrite <- change_type_readable, H. done. }
      revert Hs. unfold LedgerEntryChangeTypeName. repeat case_match; rewrite ?Z.eqb_eq in *; auto. by intros [? ?].
    + by intros [-> | [-> | ->]].
  - intros data t. unfold LedgerEntryChangeType_UnmarshalJSON, LedgerEntryChangeType_Parse.
    destruct (json_string data); cbn; [|done..]. destruct (LedgerEntryChangeTypeValue _) eqn:E1; [|done].
    intros [= <-]. apply change_type_named in E1. eauto.
  - reflexivity.
Qed.

Definition empty_diff (d : XDRDiff) : bool := negb (present (Before d)) && negb (present (After d)).

Lemma change_named diff format ch : LedgerEntryChangeFromXDRDiff diff format = Ok ch ->
  empty_diff diff = false /\ is_Some (LedgerEntryChangeTypeName (ch_Type ch)).
Proof.
  intros H. unfold LedgerEntryChangeFromXDRDiff in H. unfold empty_diff.
  destruct (IsValidFormat format); [done|]. cbn [check mbind go_bind] in H.
  destruct (present (Before diff)) eqn:Hb, (present (After diff)) eqn:Ha; cbn [mbind go_bind] in H; [| | |done];
    go_inv; (destruct (String.eqb format FormatJSON); [unfold AddLedgerEntryChangeJSON in H; rewrite Hb, Ha in H|]);
    go_inv; split; cbn; eauto.
Qed.

Lemma empty_diff_missing diff format : IsValidFormat format = None -> empty_diff diff = true ->
  LedgerEntryChangeFromXDRDiff diff format = Er errMissingDiff.
Proof.
  intros Hf [Hb%negb_true_iff Ha%negb_true_iff]%andb_true_iff. unfold LedgerEntryChangeFromXDRDiff. by rewrite Hf, Hb, Ha.
Qed.

Definition readable (ch : LedgerEntryChange) : bool :=
  is_ok (LedgerEntryChangeType_UnmarshalJSON (LedgerEntryChangeType_MarshalJSON (ch_Type ch))).

Lemma state_changes_at format diffs chs : state_changes format diffs = Ok chs ->
  Forall2 (fun d ch => LedgerEntryChangeFromXDRDiff d format = Ok ch \/
     (ch = zero_change /\ is_ok (LedgerEntryChangeFromXDRDiff d format) = false)) diffs chs.
Proof.
  revert chs. induction diffs as [|d diffs IH]; intros chs H; cbn [state_changes] in H.
  { injection H as <-. constructor. }
  apply go_bind_ok in H as (ch & Hch & H). apply go_bind_ok in H as (rest & Hrest & [= <-]).
  constructor; [|by apply IH]. destruct (LedgerEntryChangeFromXDRDiff d format) eqn:Hd; [by left| |done].
  right. destruct (errors_Is e _); [|done]. by injection Hch as <-.
Qed.

Lemma formatResponse_changes pf format seq r : formatResponse pf format seq = Ok r ->
  state_changes format (pf_LedgerEntryDiff pf) = Ok (sm_StateChanges r).
Proof. intros H. unfold formatResponse in H. go_inv. destruct (String.eqb format FormatJSON); go_inv; done. Qed.

Lemma readable_named ch : readable ch = bool_decide (is_Some (LedgerEntryChangeTypeName (ch_Type ch))).
Proof. apply change_type_readable. Qed.

Lemma unreadable_zero : readable zero_change = false.
Proof. reflexivity. Qed.

(** A response has one change per difference the library reports, in order; a
    change is readable for a client exactly when it is that difference's change,
    and an empty difference, which the source means to skip, leaves a change
    that is not: its kind has an empty name. *)
Theorem formatResponse_state_changes pf format seq r : IsValidFormat format = None ->
  formatResponse pf format seq = Ok r ->
  Forall2 (fun d ch => (readable ch = true <-> LedgerEntryChangeFromXDRDiff d format = Ok ch) /\
                       (empty_diff d = true -> ch = zero_change /\ readable ch = false))
    (pf_LedgerEntryDiff pf) (sm_StateChanges r).
Proof.
  intros Hf H%formatResponse_changes%state_changes_at. eapply Forall2_impl; [exact H|]. intros d ch Hd. cbn beta in Hd. split.
  - split; [|intros E1; rewrite readable_named; apply bool_decide_eq_true, (change_named _ _ _ E1)].
    destruct Hd as [Hd|[-> _]]; [done|]. by rewrite unreadable_zero.
  - intros He. pose proof (empty_diff_missing _ _ Hf He) as Hm. rewrite Hm in Hd. destruct Hd as [|[-> _]]; [done|]. by rewrite unreadable_zero.
Qed.

(** In the JSON format the entry after a change is written over the entry
    before it: a change of a reported response has the later entry, if there is
    one, in [BeforeJSON], and never an [AfterJSON]. *)
Theorem change_json_after_lost diff ch : LedgerEntryChangeFromXDRDiff diff FormatJSON = Ok ch ->
  ch_AfterJSON ch = ""%string /\
  ConvertBytes "LedgerEntry" (if present (After diff) then After diff else Before diff) = Ok (ch_BeforeJSON ch).
Proof.
  intros H. unfold LedgerEntryChangeFromXDRDiff in H.
  change (IsValidFormat FormatJSON) with (@None err) in H. change (String.eqb FormatJSON FormatJSON) with true in H.
  destruct (present (Before diff)) eqn:Hb, (present (After diff)) eqn:Ha; cbn [check mbind go_bind] in H; [| | |discriminate H];
    go_inv; unfold AddLedgerEntryChangeJSON in H; rewrite ?Hb, ?Ha in H; go_inv; split; assumption || reflexivity.
Qed.
End Simulate.

(** ** A concrete run *)

(** An operation is its type with the number of its authorization entries. *)
#[export] Instance toy_operations : Operations := {
  OperationBody := Z * nat;
  op_Type := fst;
  op_Type_String o := Itoa o.1;
  op_MarshalBinary o := Ok (Itoa o.1);
  MustInvokeHostFunctionOp o := if o.1 =? 24 then Ok (Ok "hf"%string, o.2) else Panic "MustInvokeHostFunctionOp";
  AccountId := string;
  account_MarshalBinary := Ok;
  LedgerFootprint := string;
  empty_footprint := ""%string;
  footprint_MarshalBinary := Ok;
}.
#[export] Instance toy_operations_laws : OperationsLaws toy_operations.
Proof. constructor. intros [t n]. simpl. intros ->. simpl. eauto. Qed.

(** Four envelopes, by name: an invocation, one with authorization entries, an
    extension and an extension without Soroban data. *)
#[export] Instance toy_envelopes : SimEnvelopes (E := toy_entries) := {
  SimEnvelope := string;
  sim_UnmarshalBase64 := Ok;
  env_Operations e := [@mkOperation toy_operations None
    (if String.eqb e "invoke" then (24, 0%nat) else if String.eqb e "signed" then (24, 1%nat) else (25, 0%nat))];
  env_SourceAccount _ := "source"%string;
  env_Type _ := 2;
  env_V1 e := if String.eqb e "extend" then Some (1, Some "footprint"%string) else Some (0, None);
  entry_SafeUnmarshal := Ok;
  entry_LedgerKey := Ok;
}.
#[export] Instance toy_envelopes_laws : SimEnvelopesLaws (O := toy_operations) toy_envelopes.
Proof.
  constructor.
  - intros e. simpl. destruct (String.eqb e "extend"); split; eauto.
  - intros e v d. simpl. destruct (String.eqb e "extend"); intros [= <- <-]; split; eauto; [by intros [? ?]|done].
Qed.

(** A library that returns the entry of one key, and an empty difference. *)
Definition toy_result (what entry : string) : preflight_result_t :=
  mkResultT "" [] what 100 entry ["auth"%string] 1 2 "" 0 [("", ""); ("old", "new")]%string.
Definition toy_simulation (what : string) : simulation preflight_result_t :=
  GetEntry "key" (fun res => Finished (toy_result what (from_option fst "none"%string res))).
#[export] Instance toy_lib : PreflightLib := {
  preflight_invoke_hf_op hf account _ _ _ code := toy_simulation (hf +:+ account +:+ Itoa code);
  preflight_footprint_ttl_op body footprint _ := toy_simulation (body +:+ footprint);
}.

Definition toy_request (name mode : string) : SimulateTransactionRequest := mkSimulateRequest name None mode "".
Definition toy_simulate (name mode : string) : go SimulateTransactionResponse * DB :=
  simulateTransaction (E := toy_entries) (CS := toy_states) (D := toy_ledgers)
    (fun params => GetPreflight (P := toy_lib) Ok Ok 0 (worker_parameters "net" false params)) (toy_request name mode) sample_db.

Example simulate_invoke : (toy_simulate "invoke" "").1 =
  Ok (mkSimulateResponse None (Base64Encode "hfsource1") "" [] [] 100
        [mkHostFunctionResult (Some [Base64Encode "auth"]) [] (Some (Base64Encode "e:key")) ""] None
        [zero_change; mkLedgerEntryChange 2 "old" "" (Some (Base64Encode "old")) "" (Some (Base64Encode "new")) ""] 9).
Proof. vm_compute. reflexivity. Qed.
Example simulate_signed : (toy_simulate "signed" "record").1 =
  Ok (fail_response (EFmt "cannot set authMode to '%s' with an auth footprint" [FS "record"]) 0).
Proof. vm_compute. reflexivity. Qed.
Example simulate_bare : (toy_simulate "bare" "").1 = Panic "nil pointer dereference".
Proof. vm_compute. reflexivity. Qed.

Lemma soroban_data_missing_panics_witness :
  (exists footprint, env_V1 "bare" = Some (1, Some footprint) /\ required_footprint "bare" = Ok (inr footprint)) \/
  ((forall footprint, env_V1 "bare" <> Some (1, Some footprint)) /\
   required_footprint "bare" = Panic "nil pointer dereference").
Proof. apply (soroban_data_missing_panics (SE := toy_envelopes) "bare"). Defined.

Lemma simulateTransaction_runs_witness : exists w',
  toy_simulate "extend" "" =
    (answer_of (formatResponse (GoPreflight (toy_result "25footprint" "e:key")) "" 9) 9, w') /\
  disk w' = disk sample_db /\ sess_tx w' = None.
Proof.
  apply (simulateTransaction_runs (P := toy_lib) (E := toy_entries) (CS := toy_states) (O := toy_operations) (SE := toy_envelopes) Ok Ok 0 "net" false
    (toy_request "extend" "") "extend" (@mkOperation toy_operations None (25, 0%nat)) "" "footprint" sample_db (sample_ledger 9)
    23 1000 (toy_result "25footprint" "e:key")).
  - split; [by intros n t|apply sample_ledgers_keyed|reflexivity|by left|vm_compute; reflexivity|by right].
  - discriminate.
  - reflexivity.
  - reflexivity.
  - reflexivity.
  - apply mode_none; [discriminate|by left].
  - reflexivity.
  - intros getter Hget. apply (run_footprint (O := toy_operations) (P := toy_lib) _ _ _ (25, 0%nat) _ "footprint" _ _ "25" "footprint"); [discriminate|by left|reflexivity..|].
    unfold preflight_footprint_ttl_op, toy_lib, toy_simulation, run, SnapshotSourceGet. by rewrite Hget.
Defined.

Definition toy_preflight : Preflight := GoPreflight (toy_result "data" "none").
Lemma formatResponse_state_changes_witness :
  Forall2 (fun d ch => (readable ch = true <-> LedgerEntryChangeFromXDRDiff (E := toy_entries) d "" = Ok ch) /\
                       (empty_diff d = true -> ch = zero_change /\ readable ch = false))
    [mkXDRDiff "" ""; mkXDRDiff "old" "new"]%string
    [zero_change; mkLedgerEntryChange 2 "old" "" (Some (Base64Encode "old")) "" (Some (Base64Encode "new")) ""].
Proof.
  apply (formatResponse_state_changes (E := toy_entries) toy_preflight "" 9
    (mkSimulateResponse None (Base64Encode "data") "" [] [] 100
       [mkHostFunctionResult (Some [Base64Encode "auth"]) [] (Some (Base64Encode "none")) ""] None
       [zero_change; mkLedgerEntryChange 2 "old" "" (Some (Base64Encode "old")) "" (Some (Base64Encode "new")) ""] 9)).
  - reflexivity.
  - vm_compute. reflexivity.
Defined.
Lemma change_json_after_lost_witness :
  let ch := mkLedgerEntryChange 2 "" "LedgerKey:old" None "LedgerEntry:new" None "" in
  ch_AfterJSON ch = ""%string /\ ConvertBytes "LedgerEntry" "new" = Ok (ch_BeforeJSON ch).
Proof.
  apply (change_json_after_lost (E := toy_entries) (mkXDRDiff "old" "new")
    (mkLedgerEntryChange 2 "" "LedgerKey:old" None "LedgerEntry:new" None "")). vm_compute. reflexivity.
Defined.
