(* ===== verification/Rpc.v ===== *)
(** * The JSON-RPC front: [internal/jsonrpc.go]

    The table of endpoints with the limits each is served under, the limiters
    built from it, and the status a finished request is counted with. *)

From S2P Require Import Prelude GoStd GoTime Config ConfigLoad Options Backlog PanicGroup DurationLimiter.

Definition warningThresholdDenominator : Z := 3.
Definition maxHTTPRequestSize : Z := 512 * 1024.

(** [unicode.IsUpper] and [strings.ToLower] on ASCII: the names are. *)
Definition is_upper (c : ascii) : bool := (65 <=? Z.of_nat (nat_of_ascii c)) && (Z.of_nat (nat_of_ascii c) <=? 90).
Fixpoint underscored (s : string) : string :=
  match s with
  | EmptyString => EmptyString
  | String v s' => if is_upper v then String "_" (String v (underscored s')) else String v (underscored s')
  end.
Definition toSnakeCase (s : string) : string := ToLower (underscored s).

(** ** The status of a request *)

(** [errors.As] with a target of type [*jrpc2.Error]: its code. *)
Fixpoint errors_As_rpc (e : err) : option Z :=
  match e with
  | ERpc code _ => Some code
  | EWrap _ _ e' => errors_As_rpc e'
  | EJoin es => (fix first (es : list err) : option Z :=
      match es with
      | [] => None
      | e' :: es' => match errors_As_rpc e' with Some c => Some c | None => first es' end
      end) es
  | _ => None
  end.

(** [strings.NewReplacer(" ", "_", "-", "_", "(", "", ")", "")] *)
Fixpoint prometheusLabelReplacer (s : string) : string :=
  match s with
  | EmptyString => EmptyString
  | String c s' =>
      if Ascii.eqb c " " || Ascii.eqb c "-" then String "_" (prometheusLabelReplacer s')
      else if Ascii.eqb c "(" || Ascii.eqb c ")" then prometheusLabelReplacer s'
      else String c (prometheusLabelReplacer s')
  end%char.

(** ** The endpoints *)

(** The handlers of [internal/methods] with the configuration they are built from. *)
Inductive underlying :=
  | NewHealthCheck (retentionWindow maxHealthyLedgerLatency : Z)
  | NewGetEventsHandler (maxLimit defaultLimit : Z)
  | NewGetNetworkHandler (networkPassphrase friendbotURL : string)
  | NewGetVersionInfoHandler
  | NewGetLatestLedgerHandler
  | NewGetLedgersHandler (maxLimit defaultLimit : Z)
  | NewGetLedgerEntriesHandler
  | NewGetTransactionHandler
  | NewGetTransactionsHandler (maxLimit defaultLimit : Z) (networkPassphrase : string)
  | NewSendTransactionHandler (networkPassphrase : string)
  | NewSimulateTransactionHandler
  | NewGetFeeStatsHandler.

Record endpoint := mkEndpoint {
  methodName : string;
  underlyingHandler : underlying;
  queueLimit : Z;
  longName : string;
  requestDurationLimit : Z;
}.
(** What a method is served by: the duration limiter around the queue limiter
    around its handler. *)
Record served := mkServed {
  sv_duration : requestDurationLimiter;
  sv_queue : backlogQLimiter;
  sv_handler : underlying;
}.
(** The whole front: [global_duration] around [global_queue] around the bridge. *)
Record Handler := mkHandler {
  bridge : gmap string served;
  global_queue : backlogQLimiter;
  global_duration : requestDurationLimiter;
  max_bytes : Z;
}.

Section Rpc.
Context {L : ConfigLib}.

Definition handlers (cfg : Config) : list endpoint := [
    mkEndpoint "getHealth" (NewHealthCheck (uint_field cfg "HistoryRetentionWindow") (duration_field cfg "MaxHealthyLedgerLatency"))
      (uint_field cfg "RequestBacklogGetHealthQueueLimit") (toSnakeCase "getHealth") (duration_field cfg "MaxGetHealthExecutionDuration");
    mkEndpoint "getEvents" (NewGetEventsHandler (uint_field cfg "MaxEventsLimit") (uint_field cfg "DefaultEventsLimit"))
      (uint_field cfg "RequestBacklogGetEventsQueueLimit") (toSnakeCase "getEvents") (duration_field cfg "MaxGetEventsExecutionDuration");
    mkEndpoint "getNetwork" (NewGetNetworkHandler (string_field cfg "NetworkPassphrase") (string_field cfg "FriendbotURL"))
      (uint_field cfg "RequestBacklogGetNetworkQueueLimit") (toSnakeCase "getNetwork") (duration_field cfg "MaxGetNetworkExecutionDuration");
    mkEndpoint "getVersionInfo" NewGetVersionInfoHandler
      (uint_field cfg "RequestBacklogGetVersionInfoQueueLimit") (toSnakeCase "getVersionInfo") (duration_field cfg "MaxGetVersionInfoExecutionDuration");
    mkEndpoint "getLatestLedger" NewGetLatestLedgerHandler
      (uint_field cfg "RequestBacklogGetLatestLedgerQueueLimit") (toSnakeCase "getLatestLedger") (duration_field cfg "MaxGetLatestLedgerExecutionDuration");
    mkEndpoint "getLedgers" (NewGetLedgersHandler (uint_field cfg "MaxLedgersLimit") (uint_field cfg "DefaultLedgersLimit"))
      (uint_field cfg "RequestBacklogGetLedgersQueueLimit") (toSnakeCase "getLedgers") (duration_field cfg "MaxGetLedgersExecutionDuration");
    mkEndpoint "getLedgerEntries" NewGetLedgerEntriesHandler
      (uint_field cfg "RequestBacklogGetLedgerEntriesQueueLimit") (toSnakeCase "getLedgerEntries") (duration_field cfg "MaxGetLedgerEntriesExecutionDuration");
    mkEndpoint "getTransaction" NewGetTransactionHandler
      (uint_field cfg "RequestBacklogGetTransactionQueueLimit") (toSnakeCase "getTransaction") (duration_field cfg "MaxGetTransactionExecutionDuration");
    mkEndpoint "getTransactions" (NewGetTransactionsHandler (uint_field cfg "MaxTransactionsLimit") (uint_field cfg "DefaultTransactionsLimit") (string_field cfg "NetworkPassphrase"))
      (uint_field cfg "RequestBacklogGetTransactionsQueueLimit") (toSnakeCase "getTransactions") (duration_field cfg "MaxGetTransactionsExecutionDuration");
    mkEndpoint "sendTransaction" (NewSendTransactionHandler (string_field cfg "NetworkPassphrase"))
      (uint_field cfg "RequestBacklogSendTransactionQueueLimit") (toSnakeCase "sendTransaction") (duration_field cfg "MaxSendTransactionExecutionDuration");
    mkEndpoint "simulateTransaction" NewSimulateTransactionHandler
      (uint_field cfg "RequestBacklogSimulateTransactionQueueLimit") (toSnakeCase "simulateTransaction") (duration_field cfg "MaxSimulateTransactionExecutionDuration");
    mkEndpoint "getFeeStats" NewGetFeeStatsHandler
      (uint_field cfg "RequestBacklogGetFeeStatsTransactionQueueLimit") (toSnakeCase "getFeeStats") (duration_field cfg "MaxGetFeeStatsExecutionDuration")]%string.

(** One turn of the loop over the endpoints; the warning comes at a third of the
    limit. *)
Definition serve (handler : endpoint) : served :=
  mkServed (MakeRequestDurationLimiter (Z.quot (requestDurationLimit handler) warningThresholdDenominator)
              (requestDurationLimit handler) (Some 0) (Some 0) (Some []))
           (MakeBacklogQueueLimiter (Some 0) (queueLimit handler) (Some []))
           (underlyingHandler handler).
Fixpoint serve_all (hs : list endpoint) (handlersMap : gmap string served) : gmap string served :=
  match hs with
  | [] => handlersMap
  | handler :: hs' => serve_all hs' (<[methodName handler := serve handler]> handlersMap)
  end.

Definition NewJSONRPCHandler (cfg : Config) : Handler :=
  mkHandler (serve_all (handlers cfg) ∅)
    (MakeBacklogQueueLimiter (Some 0) (uint_field cfg "RequestBacklogGlobalQueueLimit") (Some []))
    (MakeRequestDurationLimiter (duration_field cfg "RequestExecutionWarningThreshold")
       (duration_field cfg "MaxRequestExecutionDuration") (Some 0) (Some 0) (Some []))
    maxHTTPRequestSize.

(** ** One request *)

(** [jrpc2.Code.String]; a result is any value, and [simulation_error] the [Error]
    of one that is a [SimulateTransactionResponse]. *)
Context {A : Type} (code_String : Z -> string) (simulation_error : A -> option string).

(** [label["status"]] *)
Definition status (r : go A) : string :=
  match r with
  | Ok result => match simulation_error result with
                 | Some e => if String.eqb e "" then "ok" else "error"
                 | None => "ok"
                 end
  | Er e => match errors_As_rpc e with
            | Some code => prometheusLabelReplacer (code_String code)
            | None => "ok"
            end
  | Panic _ => "ok"
  end%string.

(** The decorated handler: it counts the request under its method and status, and
    passes the outcome on; a panic passes it by. *)
Definition decorated (endpoint : string) (observed : list (string * string)) (r : go A) : list (string * string) * go A :=
  match r with
  | Panic _ => (observed, r)
  | _ => (observed ++ [(endpoint, status r)], r)
  end.

(** What the duration limiter calls: the handler's outcome, unless the queue
    limiter turned the request away; [p] is where its thread ended. *)
Definition downstream (method : string) (q : backlogQLimiter) (p : pc) (r : go A) : go A :=
  match answer (Backlog.Handle method) q p with
  | Some (CallError e) => Er e
  | _ => r
  end.

(** A request to [method] from the bridge. *)
Definition call (method : string) (q : requestDurationLimiter) (evs : list (event (go A))) (direct : go A)
    (ctx_err : option err) (observed : list (string * string)) :
    option (requestDurationLimiter * (list (string * string) * go A)) :=
  '(q', r) ← DurationLimiter.Handle q method evs direct ctx_err;
  Some (q', decorated method observed r).
End Rpc.

(** ** The table *)

Section Served.
Context {L : ConfigLib}.

Lemma serve_all_lookup hs m0 m : NoDup (methodName <$> hs) ->
  serve_all hs m0 !! m = match find (fun h => String.eqb (methodName h) m) hs with
                         | Some h => Some (serve h)
                         | None => m0 !! m
                         end.
Proof.
  revert m0. induction hs as [|h hs IH]; intros m0 Hnd; cbn [serve_all find]; [done|].
  apply NoDup_cons in Hnd as [Hh Hnd]. rewrite IH by done. destruct (String.eqb_spec (methodName h) m) as [<-|Hne].
  - destruct (find _ hs) as [h'|] eqn:E; [|apply lookup_insert_eq].
    apply find_some in E as [Hin E%String.eqb_eq]. destruct Hh. rewrite <- E. apply list_elem_of_fmap_2, list_elem_of_In, Hin.
  - destruct (find _ hs); [done|by apply lookup_insert_ne].
Qed.

Lemma handlers_named cfg : NoDup (methodName <$> handlers cfg) /\ NoDup (longName <$> handlers cfg).
Proof. split; apply (bool_decide_unpack _); vm_compute; exact I. Qed.

Lemma bridge_lookup cfg m sv : bridge (NewJSONRPCHandler cfg) !! m = Some sv ->
  exists h, h ∈ handlers cfg /\ methodName h = m /\ sv = serve h.
Proof.
  unfold NewJSONRPCHandler, bridge. destruct (handlers_named cfg) as [Hnd _]. rewrite serve_all_lookup by done.
  destruct (find _ _) as [h|] eqn:E; [|by rewrite lookup_empty]. intros [= <-].
  apply find_some in E as [Hin E%String.eqb_eq]. exists h. split_and!; [by apply list_elem_of_In|done|done].
Qed.

(** Every queue limit comes from such an option. *)
Lemma queue_fields sys cfg :
  Forall (fun h => exists f, f ∈ positive_uints (options sys) /\ queueLimit h = uint_field cfg f) (handlers cfg) /\
  "RequestBacklogGlobalQueueLimit"%string ∈ positive_uints (options sys).
Proof.
  assert (positive_uints (options sys) = positive_uints (options sample_system)) as -> by (vm_compute; reflexivity).
  split; [|apply (bool_decide_unpack _); vm_compute; exact I].
  repeat (constructor; [eexists; split; [|reflexivity]; apply (bool_decide_unpack _); vm_compute; exact I|]). constructor.
Qed.

(** The option that holds a method's duration limit: [MaxGetHealthExecutionDuration]
    for [getHealth]. *)
Definition duration_option (method : string) : string :=
  ("Max" ++ match method with
            | String c rest => String (ascii_of_N (N_of_ascii c - 32)) rest
            | EmptyString => method
            end ++ "ExecutionDuration")%string.
Lemma duration_fields cfg :
  Forall (fun h => requestDurationLimit h = duration_field cfg (duration_option (methodName h))) (handlers cfg).
Proof. repeat (constructor; [reflexivity|]). constructor. Qed.

(** The limits handed to the paginated handlers. *)
Definition limits_fit (u : underlying) : Prop :=
  match u with
  | NewGetEventsHandler max default | NewGetLedgersHandler max default | NewGetTransactionsHandler max default _ => default <= max
  | _ => True
  end.
(** The page limits do not depend on the URL. *)
Lemma handlers_fit_same sys cfg cfg' : same_but_url cfg cfg' -> acceptable sys cfg ->
  Forall (fun h => limits_fit (underlyingHandler h)) (handlers cfg').
Proof. intros Hs []. repeat constructor; cbn; rewrite !(uint_field_same _ cfg cfg') by done; assumption. Qed.

(** The warning timer is set exactly when a third of the limit is at least one
    nanosecond. *)
Lemma third_of_limit limit wc lc lg :
  let d := MakeRequestDurationLimiter (Z.quot limit warningThresholdDenominator) limit wc lc lg in
  limitThreshold d = limit /\ (0 <= limit -> warningThreshold d = limit / 3) /\ has_warningCh d = (3 <=? limit).
Proof.
  unfold MakeRequestDurationLimiter, has_warningCh, warningThresholdDenominator. cbn [limitThreshold warningThreshold].
  assert (3 * Z.quot limit 3 <= limit + 2 /\ limit - 2 <= 3 * Z.quot limit 3 /\
          (0 <= limit -> 3 * Z.quot limit 3 <= limit) /\ (limit <= 0 -> limit <= 3 * Z.quot limit 3)) as (H1 & H2 & H3 & H4).
  { Z.to_euclidean_division_equations. lia. }
  split_and!; [done| |].
  - intros Hp. rewrite Z.quot_div_nonneg in * by lia. destruct (Z.ltb_spec limit (limit / 3)); [lia|done].
  - destruct (Z.leb_spec 3 limit), (Z.ltb_spec limit (Z.quot limit 3)); rewrite ?Z.ltb_irrefl, ?andb_false_r; try lia; try done;
      destruct (Z.eqb_spec (Z.quot limit 3) 0), (Z.ltb_spec (Z.quot limit 3) limit); try done; lia.
Qed.

(** ** Properties *)

(** C31: A server started on an accepted configuration serves its twelve methods,
    each under its own limits: the queue limit is positive and below 2^32, so the
    pass-through value is never reached, and in every interleaving at most that
    many requests are past admission; the duration limit is whatever the method's
    own option holds (no validator looks at a duration, it may be zero or
    negative), and the warning comes at a third of it when it is not negative, if
    that third is a nanosecond at least; and no default page size exceeds the
    maximum. *)
Theorem endpoints_limited sys s opts cfg : AddFlags [] (options sys) = Ok opts -> SetValues s opts ∅ = Ok cfg ->
  (Options_Validate opts cfg).2 = None ->
  let h := NewJSONRPCHandler (Options_Validate opts cfg).1 in
  size (bridge h) = 12%nat /\ 0 < limit (global_queue h) <= u32max /\
  forall m sv, bridge h !! m = Some sv ->
    0 < limit (sv_queue sv) <= u32max /\
    (forall n st, Z.of_nat n < 18446744073709551616 ->
       steps (Backlog.Handle m) (sv_queue sv, replicate n PStart) st -> countb admitted st.2 <= limit (sv_queue sv)) /\
    limitThreshold (sv_duration sv) = duration_field (Options_Validate opts cfg).1 (duration_option m) /\
    (0 <= limitThreshold (sv_duration sv) -> warningThreshold (sv_duration sv) = limitThreshold (sv_duration sv) / 3) /\
    has_warningCh (sv_duration sv) = (3 <=? limitThreshold (sv_duration sv)) /\
    limits_fit (sv_handler sv).
Proof.
  intros Hflags Hl Hv. cbv zeta. destruct (accepted_config sys s opts cfg Hflags Hl Hv) as (Hsame & Hacc & Hpos).
  set (cfg' := (Options_Validate opts cfg).1) in *. clearbody cfg'.
  destruct (queue_fields sys cfg') as [Hq Hg]. split; [reflexivity|]. split; [by apply Hpos|].
  intros m sv (e & He & <- & ->)%bridge_lookup. pose proof (duration_fields cfg') as Hdur. rewrite Forall_forall in Hq, Hdur. destruct (Hq e He) as (f & Hf & Ef).
  destruct (third_of_limit (requestDurationLimit e) (Some 0) (Some 0) (Some [])) as (Hlimit & Hthird & Hwarn).
  cbn [serve sv_queue sv_duration sv_handler MakeBacklogQueueLimiter limit]. rewrite Ef. specialize (Hpos f Hf).
  split; [done|]. split_and!; [|rewrite <- (Hdur e He); exact Hlimit| |exact Hwarn|].
  - intros n st Hn Hs.
    assert (0 <= uint_field cfg' f) as Hl0 by lia.
    by destruct (backlog_inv_steps _ (uint_field cfg' f) (Some 0) n _ st Hn (backlog_inv_init _ _ _ _ Hl0) Hs) as (_ & _ & _ & _ & ?).
  - intros Hp. by apply Hthird.
  - pose proof (handlers_fit_same sys cfg cfg' Hsame Hacc) as HF. rewrite Forall_forall in HF. by apply HF.
Qed.

Lemma limiter_decides {A} method q n (e : event (go A)) post direct : limitThreshold q <> RequestDurationLimiterNoLimit ->
  (n <> 0%nat -> has_warningCh q = true) -> dl_logger q <> None ->
  exists q', DurationLimiter.Handle q method (replicate n WarningTimer ++ e :: post) direct None =
  match e with
  | WarningTimer => DurationLimiter.Handle q method (replicate n WarningTimer ++ e :: post) direct None
  | LimitTimer => if has_limitCh q then Some (q', Er ErrRequestExceededProcessingLimitThreshold) else None
  | Completed (Panic _) => Some (q', Er ErrFailToProcessDueToInternalIssue)
  | Completed r => Some (q', r)
  end.
Proof.
  intros Hl Hw Hlog. unfold DurationLimiter.Handle. destruct (Z.eqb_spec (limitThreshold q) RequestDurationLimiterNoLimit); [done|].
  destruct n as [|n]; [|rewrite select_loop_warnings by auto]; cbn [replicate app select_loop];
    destruct e as [| |[a|e|p]]; try (by exists q); try (by destruct (has_limitCh q); eexists); try (by eexists);
    destruct (dl_logger q); try done; by eexists.
Qed.

(** A method's request stopped by its duration limit, turned away by its full
    queue, or ending in a panic is answered with an error and still counted as
    [ok]: the two errors of the limiter, like the one of an unhealthy [getHealth],
    are not pointers, and the queue's is no JSON-RPC error.  An outcome of the
    handler is passed on, its pointer errors counted under the code's name. *)
Theorem failures_counted_ok {A} code_String (simulation_error : A -> option string) cfg m sv n post direct observed r :
  bridge (NewJSONRPCHandler cfg) !! m = Some sv ->
  limitThreshold (sv_duration sv) <> RequestDurationLimiterNoLimit -> limitThreshold (sv_duration sv) <> 0 ->
  (n <> 0%nat -> has_warningCh (sv_duration sv) = true) ->
  let run := fun e => call code_String simulation_error m (sv_duration sv) (replicate n WarningTimer ++ e :: post) direct None observed in
  let ends p := Completed (downstream m (sv_queue sv) p r) in
  (exists q, run LimitTimer = Some (q, (observed ++ [(m, "ok"%string)], Er ErrRequestExceededProcessingLimitThreshold))) /\
  (exists q e, run (ends PRejected) = Some (q, (observed ++ [(m, "ok"%string)], Er e))) /\
  (exists q, run (ends PDone) =
     Some (q, match r with
              | Panic _ => (observed ++ [(m, "ok"%string)], Er ErrFailToProcessDueToInternalIssue)
              | Er (ERpc code e) => (observed ++ [(m, prometheusLabelReplacer (code_String code))], Er (ERpc code e))
              | Er (ERpcValue code e) => (observed ++ [(m, "ok"%string)], Er (ERpcValue code e))
              | _ => (observed ++ [(m, status code_String simulation_error r)], r)
              end)).
Proof.
  intros (h & _ & _ & ->)%bridge_lookup Hl H0 Hw run ends.
  pose proof (fun e => limiter_decides (A := A) m (sv_duration (serve h)) n e post direct Hl Hw ltac:(done)) as Hd.
  assert (has_limitCh (sv_duration (serve h)) = true) as Hch by (unfold has_limitCh; by destruct (Z.eqb_spec (limitThreshold (sv_duration (serve h))) 0)).
  subst run ends. unfold call. split_and!.
  - destruct (Hd LimitTimer) as (q & ->). rewrite Hch. by exists q.
  - destruct (Hd (Completed (downstream m (sv_queue (serve h)) PRejected r))) as (q & ->). by eexists _, _.
  - destruct (Hd (Completed (downstream m (sv_queue (serve h)) PDone r))) as (q & ->). exists q.
    cbn [downstream answer]. destruct r as [a|[]|p]; done.
Qed.
End Served.

(** ** A concrete run *)

Definition sample_front : Handler := NewJSONRPCHandler (Options_Validate sample_options sample_config).1.
Example sample_endpoint :
  option_map (fun sv => (limitThreshold (sv_duration sv), limit (sv_queue sv), sv_handler sv)) (bridge sample_front !! "getEvents"%string) =
    Some (10 * Second, 1000, NewGetEventsHandler 200 100) /\
  toSnakeCase "getLedgerEntries" = "get_ledger_entries"%string.
Proof. vm_compute. done. Qed.

Lemma endpoints_limited_witness :
  size (bridge sample_front) = 12%nat /\ 0 < limit (global_queue sample_front) <= u32max /\
  exists sv, bridge sample_front !! "getEvents"%string = Some sv /\ 0 < limit (sv_queue sv) <= u32max /\
    limitThreshold (sv_duration sv) =
    duration_field (Options_Validate sample_options sample_config).1 "MaxGetEventsExecutionDuration".
Proof.
  destruct (endpoints_limited sample_system sample_sources sample_options sample_config sample_options_ok sample_config_ok)
    as (Hsize & Hglobal & Hall); [vm_compute; reflexivity|].
  split; [exact Hsize|]. split; [exact Hglobal|]. eexists. split; [reflexivity|].
  destruct (Hall "getEvents"%string _ eq_refl) as (Hq & _ & Hd & _). split; [exact Hq|exact Hd].
Defined.

(** A slow [getEvents]: both timers, and the handler too late. *)
Lemma failures_counted_ok_witness : exists q,
  call (fun _ => "internal error"%string) (fun _ => None) "getEvents" (sv_duration (serve (mkEndpoint "getEvents"
      (NewGetEventsHandler 200 100) 1000 "get_events" (10 * Second)))) [WarningTimer; LimitTimer; Completed (Ok 1)] (Ok 0) None [] =
  Some (q, ([("getEvents", "ok")]%string, Er ErrRequestExceededProcessingLimitThreshold)).
Proof.
  destruct (failures_counted_ok (fun _ => "internal error"%string) (fun _ => None)
    (Options_Validate sample_options sample_config).1 "getEvents" (serve (mkEndpoint "getEvents"
      (NewGetEventsHandler 200 100) 1000 "get_events" (10 * Second))) 1 [Completed (Ok 1)] (Ok 0) [] (Ok 1)) as (H & _).
  - vm_compute. reflexivity.
  - vm_compute. congruence.
  - vm_compute. congruence.
  - intros _. vm_compute. reflexivity.
  - exact H.
Defined.

(** Durations are not validated: a server accepts a negative limit. *)
Definition negative_sources : Sources :=
  mkSources (lookupEnv sample_sources) (Changed sample_sources)
    (fun _ => Ok (mkToml (fun k => if String.eqb k "MAX_GET_EVENTS_EXECUTION_DURATION" then Some (AStr "-1s") else Get sample_toml k)
                         ("MAX_GET_EVENTS_EXECUTION_DURATION"%string :: Keys sample_toml))) (Version sample_sources).
Definition accepted_limit (s : Sources) (method : string) : go (option Z) :=
  cfg ← SetValues s sample_options ∅;
  match Options_Validate sample_options cfg with
  | (_, Some e) => Er e
  | (cfg', None) => Ok (option_map (fun sv => limitThreshold (sv_duration sv)) (bridge (NewJSONRPCHandler cfg') !! method))
  end.
Lemma negative_limit_accepted : accepted_limit negative_sources "getEvents" = Ok (Some (- Second)).
Proof. vm_compute. reflexivity. Qed.
