(* ===== verification/System.v ===== *)
(** * The server as a whole

    The components composed: what the ingestion service has stored is what the
    endpoints answer.  The theorems go through the interface the components share,
    the list of retained ledgers the tables represent. *)

From S2P Require Import Prelude GoStd GoTime Externals Cursor Protocol Filters BucketWindow LedgerMeta FeeWindow Store LedgerStore EventStore TxStore WriteTx Ingest Migration Daemon Convert Handlers GetEvents GetTransactions.

Section System.
Context `{T : Toid} {TT : ToidText T} `{K : Strkey} `{V : ScVals} `{X : XdrConsts} {D : Ledgers} {Drv : Driver} {B : LedgerBackend}.
Context {J : XdrToJson} {R : RpcCodes}.
Context {W : Type} `{Q : BucketQueue (list Z) W}.
Context {TL : ToidLaws T} {TTL : ToidTextLaws TT} {KL : StrkeyLaws K} {VL : ScValsLaws V} {XL : XdrConstsLaws X}.
Context {passphrase : string} {L : LedgersLaws D passphrase} {BL : LedgerBackendLaws B}.

(** A service over the ledgers [ls], and the ledgers [lcms] the backend has next. *)
Record live_run (rw : readWriter) (s : Service (W := W)) (ls : list LedgerCloseMeta) (next : Z) (lcms : list LedgerCloseMeta) : Prop := {
  lr_driver : no_driver_errors;
  lr_service : service_ok (passphrase := passphrase) rw s ls next;
  lr_length : (length ls <= Z.to_nat (historyRetentionWindow rw))%nat;
  lr_next : 0 < next /\ next + zlen lcms < 2147483647;
  lr_archive : ls = [] -> archive_GetRootHAS = Ok next;
  lr_prepare : backend_PrepareRange next = Ok tt;
  lr_backend i l : lcms !! i = Some l -> backend_GetLedger (next + Z.of_nat i) = Ok l;
  lr_fine : Forall (fun l => ledger_fine (passphrase := passphrase) l /\ Forall fees_sane (ledger_txs l)) lcms;
  lr_keys : NoDup (concat (keys_of (passphrase := passphrase) <$> (ls ++ lcms)));
  lr_fees : fees_held (svc_feeWindows s) + zlen (concat (ledger_txs <$> lcms)) < 2 ^ 56;
  lr_positive : Forall (fun l => 1 <= LedgerSequence l) ls;
}.

(** The ledgers that are retained. *)
Definition kept (rw : readWriter) (all : list LedgerCloseMeta) : list LedgerCloseMeta :=
  lastn (Z.to_nat (historyRetentionWindow rw)) all.

Lemma live_run_ends rw s ls next lcms : live_run rw s ls next lcms ->
  exists s', run rw (length lcms) s = (Ok tt, s') /\
    service_ok (passphrase := passphrase) rw s' (kept rw (ls ++ lcms)) (next + zlen lcms) /\
    metadata (disk (svc_db s')) = metadata (disk (svc_db s)).
Proof.
  intros [Hd Hok Hlen [Hn Hmax] Harch Hprep Hb HF Hnd Hheld _].
  destruct (getNextLedgerSequence_run rw s ls next Hd Hok) as (s1 & H1 & Hok1 & Hfw & Hdisk); [unfold zlen in *; lia|done..|].
  unfold run, mbind, st_bind. rewrite H1, <- Hdisk.
  apply (ingest_from_run rw lcms s1 ls); try done. by rewrite Hfw.
Qed.

(** All the ledgers are consecutive, and decode. *)
Lemma live_run_consecutive rw s ls next lcms : live_run rw s ls next lcms ->
  consecutive (ls ++ lcms) /\ Forall (fun l => ledger_decodes l /\ 1 <= LedgerSequence l < 2147483647) (ls ++ lcms).
Proof.
  intros [_ Hok _ [Hn Hmax] _ _ Hb HF _ _ Hpos].
  assert (forall i l, lcms !! i = Some l -> LedgerSequence l = next + Z.of_nat i) as Hseq.
  { intros i l Hi. by eapply backend_sequence, Hb. }
  split.
  - intros i a b Ha Hb'. destruct (decide (S i < length ls)%nat) as [Hlt|Hge].
    + rewrite lookup_app_l in Ha, Hb' by lia. by eapply (so_consecutive _ _ _ _ Hok).
    + rewrite (lookup_app_r ls lcms (S i)) in Hb' by lia. rewrite (Hseq _ _ Hb').
      destruct (decide (i < length ls)%nat) as [Hi|Hi].
      * rewrite lookup_app_l in Ha by lia. assert (last ls = Some a) as Hl.
        { rewrite last_lookup, <- Ha. f_equal. lia. }
        rewrite (so_next _ _ _ _ Hok a Hl). lia.
      * rewrite lookup_app_r in Ha by lia. rewrite (Hseq _ _ Ha). lia.
  - apply Forall_app. split; rewrite Forall_forall in *; intros l Hl.
    + pose proof (so_fine _ _ _ _ Hok) as Hf. rewrite Forall_forall in Hf. destruct (Hf l Hl) as [Hdec _].
      split; [done|]. specialize (Hpos l Hl). apply list_elem_of_lookup in Hl as [i Hi].
      destruct (last ls) as [x|] eqn:Ex; [|apply last_None in Ex as ->; done].
      pose proof (so_next _ _ _ _ Hok x Ex) as Ex'. rewrite last_lookup in Ex. apply lookup_lt_Some in Hi as Hlt.
      rewrite (consecutive_nth _ _ _ _ _ (so_consecutive _ _ _ _ Hok) Hi Ex ltac:(lia)) in Ex'. unfold zlen in *. lia.
    + destruct (HF l Hl) as [[Hdec _] _]. split; [done|]. apply list_elem_of_lookup in Hl as [i Hi].
      rewrite (Hseq i l Hi). apply lookup_lt_Some in Hi. unfold zlen in *. lia.
Qed.

Lemma kept_lookup rw all i : kept rw all !! i = all !! (length all - Z.to_nat (historyRetentionWindow rw) + i)%nat.
Proof. unfold kept, lastn. by rewrite lookup_drop. Qed.

Lemma kept_sub rw all l : l ∈ kept rw all -> l ∈ all.
Proof. intros [i Hi]%list_elem_of_lookup. rewrite kept_lookup in Hi. by eapply list_elem_of_lookup_2. Qed.

(** The kept ledgers are those from the first of them on. *)
Lemma kept_iff rw all first l : consecutive all -> head (kept rw all) = Some first -> l ∈ all ->
  (l ∈ kept rw all <-> LedgerSequence first <= LedgerSequence l).
Proof.
  intros Hc Hfirst Hl. rewrite head_lookup, kept_lookup, Nat.add_0_r in Hfirst. set (k := (length all - _)%nat) in *.
  split.
  - intros [j Hj]%list_elem_of_lookup. rewrite kept_lookup in Hj. fold k in Hj.
    rewrite (consecutive_nth _ _ _ _ _ Hc Hfirst Hj) by lia. lia.
  - apply list_elem_of_lookup in Hl as [i Hi]. intros Hle. apply (list_elem_of_lookup_2 _ (i - k)). rewrite kept_lookup. fold k.
    destruct (decide (k <= i)%nat); [by replace (k + (i - k))%nat with i by lia|].
    rewrite (consecutive_nth _ _ _ _ _ Hc Hi Hfirst) in Hle by lia. lia.
Qed.

(** A ledger whose hash is looked up is the only one that has it. *)
Lemma keys_owner lcms l l' tx tx' h : NoDup (concat (keys_of (passphrase := passphrase) <$> lcms)) ->
  l ∈ lcms -> tx ∈ ledger_txs l -> h ∈ tx_keys tx -> l' ∈ lcms -> tx' ∈ ledger_txs l' -> h ∈ tx_keys tx' ->
  exists i, lcms !! i = Some l /\ lcms !! i = Some l'.
Proof.
  assert (forall l tx, tx ∈ ledger_txs l -> h ∈ tx_keys tx -> h ∈ keys_of l) as Hin.
  { intros l0 tx0 Ht Hh. unfold keys_of. apply elem_of_concat. exists (tx_keys tx0). split; [done|]. by apply list_elem_of_fmap_2. }
  intros Hnd Hl Ht Hh Hl' Ht' Hh'. pose proof (Hin _ _ Ht Hh) as Hk. pose proof (Hin _ _ Ht' Hh') as Hk'. clear Hin.
  induction lcms as [|x lcms IH]; [by apply not_elem_of_nil in Hl|].
  rewrite fmap_cons in Hnd. cbn [concat] in Hnd. apply NoDup_app in Hnd as (_ & Hdis & Hnd).
  assert (forall y, y ∈ lcms -> h ∈ keys_of y -> h ∉ keys_of x) as Hno.
  { intros y Hy Hhy Hx. apply (Hdis h Hx). apply elem_of_concat. exists (keys_of y). split; [done|]. by apply list_elem_of_fmap_2. }
  apply elem_of_cons in Hl as [-> |Hl], Hl' as [-> |Hl'].
  - by exists 0%nat.
  - by destruct (Hno l').
  - by destruct (Hno l).
  - destruct (IH Hnd Hl Hl') as [i Hi]. by exists (S i).
Qed.

(** What is stored after the run. *)
Lemma live_run_stored rw s ls next lcms latest : live_run rw s ls next lcms -> last (ls ++ lcms) = Some latest ->
  exists s' first, run rw (length lcms) s = (Ok tt, s') /\ head (kept rw (ls ++ lcms)) = Some first /\
    service_ok (passphrase := passphrase) rw s' (kept rw (ls ++ lcms)) (next + zlen lcms) /\
    stored (svc_db s') first latest /\ range_of (disk (svc_db s')) = Ok (mkRange (info_of first) (info_of latest)).
Proof.
  intros Hf Hlast. destruct (live_run_ends _ _ _ _ _ Hf) as (s' & Hrun & Hok & _).
  pose proof (so_retention _ _ _ _ (lr_service _ _ _ _ _ Hf)) as Hret. pose proof Hok as [_ _ Hidle Hrep _ _ Hcache _ _ _].
  pose proof (rep_ledgers _ _ Hrep) as Hls.
  assert (last (kept rw (ls ++ lcms)) = Some latest) as Hl.
  { apply last_Some in Hlast as [l' ->]. apply last_lastn. lia. }
  assert (exists first, head (kept rw (ls ++ lcms)) = Some first) as [first Hfirst].
  { destruct (kept rw (ls ++ lcms)) as [|x l]; [done|by exists x]. }
  exists s', first. split_and!; try done.
  - split; try done; [apply (lr_driver _ _ _ _ _ Hf)|apply (rep_keyed _ _ Hrep)|by rewrite Hls..].
  - unfold range_of. by rewrite Hls, Hfirst, Hl.
Qed.

(** A getEvents request inside the stored range, over readable events. *)
Record events_request_ok (h : eventsRPCHandler) (request : GetEventsRequest) (es : list entry)
    (first latest : LedgerCloseMeta) (info : entry -> EventInfo) : Prop := {
  er_events : Forall (fun en => event_ok (Event_of (en_event en))) es;
  er_info : forall en, en ∈ es -> entry_info (Format request) en = Ok (info en);
  er_valid : GetEventsRequest_Valid request (maxLimit h) = None;
  er_marshal : filters_marshal (Filters request);
  er_start : cursor_ok (events_start request);
  er_within : LedgerSequence first <= Ledger (events_start request) <= LedgerSequence latest;
  er_end : 0 <= EndLedger request;
  er_limit : 0 < events_limit h request;
  er_uniform : uniform (Filters request);
}.

Lemma events_request_pre h request w ls first latest info : stored w first latest ->
  range_of (disk w) = Ok (mkRange (info_of first) (info_of latest)) -> represents (passphrase := passphrase) (disk w) ls ->
  0 <= LedgerSequence first -> LedgerSequence latest < 2147483647 ->
  events_request_ok h request (concat (ledger_log (passphrase := passphrase) <$> ls)) first latest info ->
  events_pre h request w (concat (ledger_log (passphrase := passphrase) <$> ls)) (mkRange (info_of first) (info_of latest)) info.
Proof.
  intros [Hd Hk Hs Hc _ _] Hrng Hrep Hf Hl [H1 H2 H3 H4 H5 H6 H7 H8 _].
  constructor; try done. apply (rep_events _ _ Hrep).
Qed.

(** C1: Whatever a service over the stored ledgers [ls] ingests next, the endpoints
    answer from exactly the last [historyRetentionWindow] ledgers.  getHealth is
    healthy while the latest one is recent enough; getTransaction finds every
    transaction by its hash as long as its ledger is kept and reports NOT_FOUND
    afterwards; getEvents, for [uniform] filters only (contract IDs and event types
    each restricted by all filters or by none; some filter leaves the topics open,
    or no topic filter names a concrete segment, or every one does), returns the
    first events of the kept ledgers in its window that its filters accept, in
    order, and the cursor to go on from. *)
Theorem ingested_is_served rw s ls next lcms latest : live_run rw s ls next lcms -> last (ls ++ lcms) = Some latest ->
  let all := ls ++ lcms in
  exists s' first, run rw (length lcms) s = (Ok tt, s') /\ head (kept rw all) = Some first /\
    (forall retention maxLatency now,
       (getHealth retention maxLatency now (svc_db s')).1 = health_of retention maxLatency now first latest) /\
    (forall txn request hash lcm tx parsed d, th_passphrase txn = passphrase ->
       IsValidFormat (gtr_Format request) = None -> parse_hash (gtr_Hash request) = Ok hash ->
       lcm ∈ all -> tx ∈ ledger_txs lcm -> hash ∈ tx_keys tx ->
       ParseTransaction lcm tx = Ok parsed -> details_of (gtr_Hash request) parsed (gtr_Format request) = Ok d ->
       (handle_GetTransaction txn request (svc_db s')).1 =
         Ok (let answer := mkGetTransactionResponse (LedgerSequence latest) (LedgerCloseTime latest)
                             (LedgerSequence first) (LedgerCloseTime first) in
             if LedgerSequence first <=? LedgerSequence lcm then answer d (LedgerCloseTime lcm)
             else answer (no_details (gtr_Hash request)) 0)) /\
    (forall h request info,
       let log := concat (ledger_log <$> kept rw all) in
       let rng := mkRange (info_of first) (info_of latest) in
       events_request_ok h request log first latest info ->
       exists sel cursor, selection log (Filters request) (events_start request) (events_endLedger request rng) sel /\
         let page := take (Z.to_nat (events_limit h request)) sel in
         Cursor_String (resume (events_endLedger request rng) (events_limit h request) page) = Ok cursor /\
         (getEvents h request (svc_db s')).1 = Ok (mkGetEventsResponse (info <$> page) cursor (LedgerSequence latest) (LedgerSequence first) (LedgerCloseTime latest) (LedgerCloseTime first))).
Proof.
  intros Hf Hlast all. destruct (live_run_stored _ _ _ _ _ _ Hf Hlast) as (s' & first & Hrun & Hfirst & Hok & Hst & Hrng).
  pose proof Hok as [_ _ Hidle Hrep _ _ Hcache _ _ _]. pose proof (lr_driver _ _ _ _ _ Hf) as Hd.
  destruct (live_run_consecutive _ _ _ _ _ Hf) as [Hcons Hdec]. fold all in Hcons, Hdec, Hfirst, Hlast, Hrep.
  rewrite Forall_forall in Hdec.
  destruct (Hdec latest) as [_ Hseq]; [by apply last_Some_elem_of|].
  destruct (Hdec first) as [_ Hseq1]; [apply (kept_sub rw); apply list_elem_of_lookup; exists 0%nat; by rewrite <- head_lookup|].
  exists s', first. split_and!; [done|done| | |].
  - intros. apply getHealth_stored; [done|lia].
  - intros txn request hash lcm tx parsed d Hp Hfmt Hh Hl Htx Hkey Hparse Hdet. cbv zeta.
    pose proof (kept_iff rw all first lcm Hcons Hfirst Hl) as Hin.
    destruct (Z.leb_spec (LedgerSequence first) (LedgerSequence lcm)) as [Hle|Hlt].
    + by rewrite (handle_found txn request (svc_db s') (kept rw all) _ hash lcm tx parsed d Hd Hp Hrep Hidle Hcache
        (proj1 (Hdec lcm Hl)) Hrng Hfmt Hh (proj2 Hin Hle) Htx Hkey Hparse Hdet).
    + rewrite (handle_missing txn request (svc_db s') (kept rw all) _ hash Hd Hrep Hidle Hcache Hrng Hfmt Hh); [done|].
      intros l' tx' Hl' Htx' Hkey'. pose proof (kept_sub rw all l' Hl') as Hl2.
      destruct (keys_owner all lcm l' tx tx' hash (lr_keys _ _ _ _ _ Hf) Hl Htx Hkey Hl2 Htx' Hkey') as (i & H1 & H2).
      rewrite H1 in H2. injection H2 as <-. apply Hin in Hl'. lia.
  - intros h request info log rng Hok'.
    pose proof (events_request_pre h request (svc_db s') (kept rw all) first latest info Hst Hrng Hrep ltac:(lia) ltac:(lia) Hok') as Hpre.
    destruct (getEvents_page _ _ _ _ _ _ Hpre) as (cids & topics & Hc & Ht & cursor & Hev & Hcur).
    eexists _, cursor. split; [|split; [exact Hcur|by rewrite Hev]]. eapply page_selection; [exact Hpre|apply Hok'|done..].
Qed.
End System.

(** ** A concrete run *)

Lemma sample_live_run : live_run (passphrase := "net") (T := sep35) sample_rw sample_service [] 7
  [sample_ledger 7; sample_ledger 8; sample_ledger 9].
Proof.
  constructor.
  - intros n t. reflexivity.
  - apply sample_service_ok. lia.
  - simpl. lia.
  - split; [lia|reflexivity].
  - intros _. reflexivity.
  - reflexivity.
  - intros [|[|[|i]]] l Hl; simpl in Hl; simplify_eq; reflexivity.
  - apply Forall_cons_2; [split; [apply sample_fine_7 | apply sample_sane; lia]|].
    apply Forall_cons_2; [split; [apply sample_fine_8 | apply sample_sane; lia]|].
    apply Forall_cons_2; [split; [apply sample_fine_9 | apply sample_sane; lia]|apply Forall_nil_2].
  - apply sample_keys_distinct.
  - vm_compute. reflexivity.
  - constructor.
Qed.

(** Two of three ledgers are kept: the transaction of ledger 8 is found. *)
Lemma ingested_is_served_witness : exists s',
  run sample_rw 3 sample_service = (Ok tt, s') /\
  (getHealth 2 (30 * Second) (60 * Second) (svc_db s')).1 = Ok (mkHealth "healthy" 9 8 2) /\
  (handle_GetTransaction (mkTransactionHandler true "net") sample_hash_request (svc_db s')).1 =
    Ok (mkGetTransactionResponse 9 45 8 40 sample_details 40).
Proof.
  destruct (ingested_is_served (passphrase := "net") sample_rw sample_service [] 7 [sample_ledger 7; sample_ledger 8; sample_ledger 9]
    (sample_ledger 9) sample_live_run eq_refl) as (s' & first & Hrun & Hfirst & Hhealth & Htx & _).
  injection Hfirst as <-. exists s'. split; [exact Hrun|]. split; [rewrite Hhealth; vm_compute; reflexivity|].
  rewrite (Htx (mkTransactionHandler true "net") sample_hash_request (sample_hash 82) (sample_ledger 8)
    (sample_tx 2 82 300 "mint") sample_parsed sample_details); [vm_compute; reflexivity|reflexivity|reflexivity|..].
  - vm_compute. reflexivity.
  - right. left.
  - right. left.
  - vm_compute. left.
  - vm_compute. reflexivity.
  - vm_compute. reflexivity.
Defined.
