(* ===== verification/Live.v ===== *)
(** * Paging while the server ingests

    A client follows the cursors of [getTransactions] while the ingestion service
    appends ledgers and trims old ones between its requests.  The pages are read
    from different databases, all windows of one history of ledgers. *)

From S2P Require Import Prelude GoStd GoTime Externals Cursor Protocol Filters BucketWindow LedgerMeta FeeWindow Store LedgerStore EventStore TxStore WriteTx Ingest Migration Daemon Convert Handlers GetEvents GetTransactions System.

Section Live.
Context `{T : Toid} {TT : ToidText T} `{K : Strkey} `{V : ScVals} `{X : XdrConsts} {D : Ledgers} {Drv : Driver} {B : LedgerBackend}.
Context {J : XdrToJson} {R : RpcCodes}.
Context {W : Type} `{Q : BucketQueue (list Z) W}.
Context {TL : ToidLaws T} {TTL : ToidTextLaws TT} {VL : ScValsLaws V} {XL : XdrConstsLaws X}.
Context {passphrase : string} {L : LedgersLaws D passphrase} {BL : LedgerBackendLaws B}.

(** ** The client *)

(** For each number of the schedule the service ingests that many ledgers, then
    the client asks for its next page, with the last cursor. *)
Fixpoint client (h : transactionsRPCHandler) (rw : readWriter) (limit : Z) (request : GetTransactionsRequest) (next : Z)
    (schedule : list nat) (s : Service (W := W)) : go (list TransactionInfo) :=
  match schedule with
  | [] => Ok []
  | n :: schedule' =>
      let '(r, s') := ingest_from rw n next s in
      _ ← r;
      page ← getTransactionsByLedgerSequence h request (svc_db s');
      rest ← client h rw limit (next_request request (gt_Cursor page) limit) (next + Z.of_nat n) schedule' s';
      Ok (gt_Transactions page ++ rest)
  end.

(** ** The history *)

(** A service that has seen the ledgers [hist], of which it retains the last, and
    the ledgers [lcms] it ingests next. *)
Record ahead (rw : readWriter) (s : Service (W := W)) (hist : list LedgerCloseMeta) (next : Z) (lcms : list LedgerCloseMeta) : Prop := {
  ah_driver : no_driver_errors;
  ah_service : service_ok (passphrase := passphrase) rw s (kept rw hist) next;
  ah_next : 0 < next /\ next + zlen lcms < 2147483647;
  ah_backend i l : lcms !! i = Some l -> backend_GetLedger (next + Z.of_nat i) = Ok l;
  ah_fine : Forall (fun l => ledger_fine (passphrase := passphrase) l /\ Forall fees_sane (ledger_txs l)) lcms;
  ah_keys : NoDup (concat (keys_of (passphrase := passphrase) <$> (hist ++ lcms)));
  ah_fees : fees_held (svc_feeWindows s) + zlen (concat (ledger_txs <$> lcms)) < 2 ^ 56;
  ah_consecutive : consecutive (hist ++ lcms);
  ah_readable : Forall readable (hist ++ lcms);
}.

Lemma kept_app rw a b : kept rw (kept rw a ++ b) = kept rw (a ++ b).
Proof. apply lastn_app. Qed.
Lemma kept_suffix rw all : exists k, kept rw all = drop k all.
Proof. by eexists. Qed.

(** Ingesting the next [n] of them. *)
Lemma ahead_step rw s hist next lcms n : ahead rw s hist next lcms -> (n <= length lcms)%nat ->
  exists s', ingest_from rw n next s = (Ok tt, s') /\ ahead rw s' (hist ++ take n lcms) (next + Z.of_nat n) (drop n lcms).
Proof.
  intros [Hd Hok [Hn Hmax] Hb HF Hnd Hheld Hcons Hread] Hle.
  rewrite <- (take_drop n lcms) in HF, Hnd, Hheld, Hcons, Hread. apply Forall_app in HF as [HF1 HF2].
  rewrite (assoc_L (++)) in Hnd, Hcons, Hread.
  assert (length (take n lcms) = n) as Elen by (rewrite length_take; lia).
  rewrite fmap_app, concat_app in Hheld. unfold zlen in Hheld, Hmax. rewrite length_app in Hheld.
  destruct (ingest_from_held rw (take n lcms) s (kept rw hist) next Hd Hok Hn) as (s' & Hrun & Hok' & Hheld' & _).
  - unfold zlen. lia.
  - unfold kept, lastn. rewrite length_drop. lia.
  - intros i l Hi. apply Hb. by apply lookup_take_Some in Hi as [Hi _].
  - done.
  - rewrite fmap_app, concat_app in Hnd. apply NoDup_app in Hnd as (Hnd & _ & _). destruct (kept_suffix rw hist) as [k ->].
    rewrite <- (take_drop k hist), <- (assoc_L (++)), fmap_app, concat_app in Hnd. by apply NoDup_app in Hnd as (_ & _ & Hnd).
  - unfold zlen. lia.
  - rewrite Elen in Hrun. fold (kept rw (kept rw hist ++ take n lcms)) in Hok'. rewrite kept_app in Hok'.
    unfold zlen in Hok', Hheld'. rewrite Elen in Hok'. exists s'. split; [done|]. constructor; try done.
    + unfold zlen. rewrite length_drop. lia.
    + intros i l Hi. rewrite lookup_drop in Hi. rewrite <- (Hb _ _ Hi). f_equal. lia.
    + unfold zlen. lia.
Qed.

Lemma consecutive_sorted ls : consecutive ls -> StronglySorted seq_lt ls.
Proof.
  induction ls as [|a ls IH]; intros Hc; [constructor|]. constructor.
  - apply IH. intros i x y Hx Hy. by apply (Hc (S i) x y).
  - apply Forall_lookup. intros i b Hb. unfold seq_lt.
    rewrite (consecutive_nth (a :: ls) 0 (S i) a b Hc eq_refl Hb) by lia. lia.
Qed.
Lemma consecutive_prefix a b : consecutive (a ++ b) -> consecutive a.
Proof. intros Hc i x y Hx Hy. by apply (Hc i x y); apply lookup_app_l_Some. Qed.

Lemma from_app start a b : from start (a ++ b) = from start a ++ from start b.
Proof. unfold from. by rewrite fmap_app, concat_app, filter_app. Qed.

(** What a request reads in the window is what the whole history has there. *)
Lemma from_kept rw start all l : consecutive all -> l ∈ kept rw all -> LedgerSequence l = start.1.1 ->
  from start (kept rw all) = from start all.
Proof.
  intros Hc [i Hi]%list_elem_of_lookup El. destruct (kept_suffix rw all) as [k E]. rewrite E in *.
  rewrite (from_drop start (drop k all) i l); [|by apply consecutive_drop|done|done].
  rewrite lookup_drop in Hi. rewrite (from_drop start all (k + i) l) by done. by rewrite drop_drop.
Qed.

(** The rest of the stream after the [n]-th transaction of a prefix. *)
Lemma from_next start a b n x : consecutive (a ++ b) -> Forall readable (a ++ b) -> from start a !! n = Some x ->
  from (after (position x)) (a ++ b) = drop (S n) (from start (a ++ b)).
Proof.
  intros Hc Hr Hx. apply from_after; [done|by apply consecutive_sorted|].
  rewrite from_app. by apply lookup_app_l_Some.
Qed.

(** ** One page *)

Definition window_range (win : list LedgerCloseMeta) : LedgerRange :=
  match head win, last win with Some a, Some b => mkRange (info_of a) (info_of b) | _, _ => zero_range end.

Lemma ahead_pre h rw s hist next lcms : ahead rw s hist next lcms -> th_networkPassphrase h = passphrase -> hist <> [] ->
  transactions_pre (passphrase := passphrase) h (svc_db s) (kept rw hist) (window_range (kept rw hist)).
Proof.
  intros [Hd Hok _ _ _ _ _ Hcons Hread] Hp Hne. pose proof (so_rep _ _ _ _ Hok) as Hrep.
  pose proof (so_retention _ _ _ _ Hok) as Hret.
  assert (kept rw hist <> []) as Hk.
  { intros E. apply (f_equal length) in E. unfold kept, lastn in E. rewrite length_drop in E. destruct hist; [done|]. cbn in E. lia. }
  constructor; try done.
  - apply (rep_keyed _ _ Hrep).
  - apply (rep_ledgers _ _ Hrep).
  - apply (so_cache _ _ _ _ Hok).
  - destruct (kept_suffix rw hist) as [k ->]. apply Forall_drop. by apply Forall_app in Hread as [? _].
  - apply (so_consecutive _ _ _ _ Hok).
  - unfold range_of, window_range. rewrite (rep_ledgers _ _ Hrep). destruct (kept rw hist) as [|a l] eqn:E; [done|].
    destruct (last_is_Some (a :: l)) as [_ Hl]. by destruct (Hl ltac:(done)) as [b ->].
Qed.

(** A request that is valid in a window and starts a page at [start], which may
    have left the window. *)
Record ready (h : transactionsRPCHandler) (request : GetTransactionsRequest) (win : list LedgerCloseMeta) (start : id) (limit : Z) : Prop := {
  rd_valid : GetTransactionsRequest_IsValid request (th_maxLimit h) (ToLedgerSeqRange (window_range win)) = None;
  rd_page : initializePagination h request = Ok (start, limit);
  rd_start : 0 <= start.1.1 /\ 1 <= start.1.2;
  rd_limit : 0 < limit < 9223372036854775808 /\ limit <= th_maxLimit h;
}.

Definition stored_at (win : list LedgerCloseMeta) (seq : Z) : bool := bool_decide (seq ∈ (LedgerSequence <$> win)).
Lemma stored_at_true win seq : stored_at win seq = true <-> exists l, l ∈ win /\ LedgerSequence l = seq.
Proof. unfold stored_at. rewrite bool_decide_eq_true, list_elem_of_fmap. naive_solver. Qed.

(** The page, and how the next request continues, or the refusal. *)
Lemma one_page h rw s hist next lcms request start limit infos x : ahead rw s hist next lcms ->
  th_networkPassphrase h = passphrase -> ready h request (kept rw hist) start limit ->
  infos_of (GT_Format request) (from (passphrase := passphrase) start hist) infos ->
  from (passphrase := passphrase) start hist !! Z.to_nat (limit - 1) = Some x ->
  if stored_at (kept rw hist) start.1.1 then
    exists page, getTransactionsByLedgerSequence h request (svc_db s) = Ok page /\
      gt_Transactions page = take (Z.to_nat limit) infos /\
      forall win, ready h (next_request request (gt_Cursor page) limit) win (after (position x)) limit
  else getTransactionsByLedgerSequence h request (svc_db s) =
    Er (ERpc InvalidParams (EFmt "database does not contain metadata for ledger: %d" [FZ start.1.1])).
Proof.
  intros Ha Hp [Hv Hpage [Hs1 Hs2] [Hlim Hmax]] Hinf Hx.
  pose proof (ah_readable _ _ _ _ _ Ha) as [Hread _]%Forall_app. pose proof (consecutive_prefix _ _ (ah_consecutive _ _ _ _ _ Ha)) as Hcons.
  pose proof (list_elem_of_lookup_2 _ _ _ Hx) as Hin. destruct (from_readable start hist x Hread Hin) as [(lx & Hlx & Elx) Hxo].
  assert (hist <> []) as Hne by (intros ->; by apply not_elem_of_nil in Hlx).
  pose proof (ahead_pre h rw s hist next lcms Ha Hp Hne) as Hpre.
  destruct (stored_at _ _) eqn:Est.
  - apply stored_at_true in Est as (l & Hl & El). pose proof (from_kept rw start hist l Hcons Hl El) as Efrom.
    destruct (handler_page h request (svc_db s) (kept rw hist) _ start limit infos Hpre) as (c & Hc & Hrun).
    + constructor; try done. by exists l.
    + by rewrite Efrom.
    + eexists. split; [exact Hrun|]. split; [done|]. intros win. cbn [gt_Cursor].
      rewrite Efrom in Hc. unfold page_cursor in Hc. rewrite Hx in Hc.
      destruct (next_request_valid h request limit (position x) c (ToLedgerSeqRange (window_range win)) (valid_format _ _ _ Hv) Hlim Hmax Hc Hxo)
        as [Hv' Hp'].
      constructor; try done. unfold after, position in *. cbn [fst snd] in *. split; [|lia]. rewrite <- Elx.
      rewrite Forall_forall in Hread. destruct (Hread lx Hlx) as [Hdec _]. by apply lcm_seq.
  - destruct (last (kept rw hist)) as [l'|] eqn:Hlast.
    2:{ exfalso. apply last_None in Hlast. pose proof (tp_range _ _ _ _ Hpre) as Hr. unfold range_of in Hr.
        by rewrite (tp_ledgers _ _ _ _ Hpre), Hlast in Hr. }
    apply (handler_page_missing h request (svc_db s) (kept rw hist) _ start limit l' Hpre Hv Hpage Hlast).
    + split; [done|]. apply list_elem_of_filter in Hin as [Hat _]. unfold position in Elx. cbn [fst] in Elx.
      assert (start.1.1 <= LedgerSequence lx) as H1 by (unfold at_or_after in Hat; lia). etrans; [exact H1|].
      assert (last hist = Some l') as Hl'.
      { destruct (kept_suffix rw hist) as [k E]. rewrite E in Hlast. rewrite <- (take_drop k hist), last_app, Hlast. done. }
      pose proof (le_latest hist lx Hcons Hlx) as [_ H2]. unfold latest_of in H2. by rewrite Hl' in H2.
    + intros l Hl El. assert (stored_at (kept rw hist) start.1.1 = true) as E; [|congruence].
      apply stored_at_true. by exists l.
Qed.

(** ** All pages *)

(** The ledger a page starts in when the window has moved past it by the time the
    client asks, for the first such page. *)
Fixpoint refused (rw : readWriter) (limit : Z) (start : id) (hist lcms : list LedgerCloseMeta) (schedule : list nat) : option Z :=
  match schedule with
  | [] => None
  | n :: schedule' =>
      let hist' := hist ++ take n lcms in
      if stored_at (kept rw hist') start.1.1 then
        x ← from (passphrase := passphrase) start hist' !! Z.to_nat (limit - 1);
        refused rw limit (after (position x)) hist' (drop n lcms) schedule'
      else Some start.1.1
  end.
Definition not_stored (seq : Z) : err :=
  ERpc InvalidParams (EFmt "database does not contain metadata for ledger: %d" [FZ seq]).

(** A start that is not stored, with something to read after it, is older than the
    window. *)
Lemma missing_trimmed rw start hist x : consecutive hist -> Forall readable hist -> x ∈ from (passphrase := passphrase) start hist ->
  stored_at (kept rw hist) start.1.1 = false -> Forall (fun l => start.1.1 < LedgerSequence l) (kept rw hist).
Proof.
  intros Hc Hr Hx Hst. destruct (from_readable start hist x Hr Hx) as [(lx & [j Hj]%list_elem_of_lookup & Elx) _].
  apply list_elem_of_filter in Hx as [Hat _]. unfold at_or_after, position in Hat, Elx. cbn [fst] in Elx.
  apply Forall_lookup. intros i l Hl. destruct (Z.lt_ge_cases start.1.1 (LedgerSequence l)) as [|Hle]; [done|].
  enough (stored_at (kept rw hist) start.1.1 = true) by congruence. apply stored_at_true.
  destruct (kept_suffix rw hist) as [k E]. rewrite E in *. rewrite lookup_drop in Hl.
  assert (k + i <= j)%nat as Hij.
  { destruct (le_lt_dec (k + i) j) as [|Hji]; [done|]. pose proof (consecutive_nth hist j (k + i) lx l Hc Hj Hl). lia. }
  pose proof (consecutive_nth hist (k + i) j l lx Hc Hl Hj Hij) as Hn. apply lookup_lt_Some in Hj as Hlt.
  set (d := Z.to_nat (start.1.1 - LedgerSequence l)).
  destruct (lookup_lt_is_Some_2 hist (k + i + d)) as [m Hm]; [lia|]. exists m. split.
  - apply (list_elem_of_lookup_2 _ (i + d)). by rewrite lookup_drop, Nat.add_assoc.
  - rewrite (consecutive_nth hist (k + i) (k + i + d) l m Hc Hl Hm); lia.
Qed.

(** Whenever it asks, there is a full page more than it has read. *)
Definition pages_full (limit : Z) (start : id) (hist lcms : list LedgerCloseMeta) (schedule : list nat) : Prop :=
  forall i, (i < length schedule)%nat ->
    (S i * Z.to_nat limit <= length (from (passphrase := passphrase) start (hist ++ take (sum_list (take (S i) schedule)) lcms)))%nat.

Lemma pages_full_cons limit start hist lcms n schedule : 0 < limit -> pages_full limit start hist lcms (n :: schedule) ->
  consecutive (hist ++ lcms) -> Forall readable (hist ++ lcms) -> (n <= length lcms)%nat ->
  exists x, from start (hist ++ take n lcms) !! Z.to_nat (limit - 1) = Some x /\
    pages_full limit (after (position x)) (hist ++ take n lcms) (drop n lcms) schedule.
Proof.
  intros Hlim Hfull Hc Hr Hn. pose proof (Hfull 0%nat ltac:(cbn; lia)) as H0.
  change (sum_list (take 1 (n :: schedule))) with (n + 0)%nat in H0. rewrite Nat.add_0_r in H0.
  destruct (lookup_lt_is_Some_2 (from start (hist ++ take n lcms)) (Z.to_nat (limit - 1))) as [x Hx]; [lia|].
  exists x. split; [done|]. intros i Hi. pose proof (Hfull (S i) ltac:(cbn; lia)) as H.
  set (m := sum_list (take (S i) schedule)) in *. change (sum_list (take (S (S i)) (n :: schedule))) with (n + m)%nat in H.
  assert (hist ++ take (n + m) lcms = (hist ++ take n lcms) ++ take m (drop n lcms)) as E.
  { rewrite <- (assoc_L (++)), take_take_drop. done. }
  rewrite E in H. rewrite <- (take_drop (n + m) lcms), (assoc_L (++)) in Hc, Hr. apply Forall_app in Hr as [Hr _].
  apply consecutive_prefix in Hc. rewrite E in Hc, Hr.
  rewrite (from_next start _ _ _ x Hc Hr Hx), length_drop. lia.
Qed.

Lemma client_pages h rw schedule : forall s hist next lcms request start limit infos,
  ahead rw s hist next lcms -> th_networkPassphrase h = passphrase -> (sum_list schedule <= length lcms)%nat ->
  0 < limit -> (forall n, head schedule = Some n -> ready h request (kept rw (hist ++ take n lcms)) start limit) ->
  infos_of (GT_Format request) (from (passphrase := passphrase) start (hist ++ lcms)) infos ->
  pages_full limit start hist lcms schedule ->
  match refused rw limit start hist lcms schedule with
  | None => client h rw limit request next schedule s = Ok (take (length schedule * Z.to_nat limit) infos)
  | Some seq => client h rw limit request next schedule s = Er (not_stored seq) /\
      exists k, (k <= length lcms)%nat /\ Forall (fun l => seq < LedgerSequence l) (kept rw (hist ++ take k lcms))
  end.
Proof.
  induction schedule as [|n schedule IH]; intros s hist next lcms request start limit infos Ha Hp Hsum Hlim Hready Hinf Hfull; [done|].
  change (sum_list (n :: schedule)) with (n + sum_list schedule)%nat in Hsum.
  pose proof (ah_consecutive _ _ _ _ _ Ha) as Hc. pose proof (ah_readable _ _ _ _ _ Ha) as Hr.
  destruct (ahead_step rw s hist next lcms n Ha ltac:(lia)) as (s' & Hrun & Ha').
  destruct (pages_full_cons _ _ _ _ _ _ Hlim Hfull Hc Hr ltac:(lia)) as (x & Hx & Hfull'). set (hist' := hist ++ take n lcms) in *.
  assert (hist ++ lcms = hist' ++ drop n lcms) as E by (unfold hist'; by rewrite <- (assoc_L (++)), take_drop).
  rewrite E in Hc, Hr, Hinf.
  assert (infos_of (GT_Format request) (from start hist') (take (length (from start hist')) infos)) as Hinf1.
  { rewrite from_app in Hinf. apply Forall2_app_inv_l in Hinf as (i1 & i2 & H1 & H2 & ->).
    pose proof (Forall2_length _ _ _ H1) as ->. by rewrite take_app_length. }
  pose proof (one_page h rw s' hist' _ _ request start limit _ x Ha' Hp (Hready n eq_refl) Hinf1 Hx) as Hone.
  cbn [refused client length]. fold hist'. rewrite Hrun, Hx. cbn [mbind go_bind option_bind].
  destruct (stored_at _ _) eqn:Est.
  2:{ rewrite Hone. split; [done|]. exists n. split; [lia|]. fold hist'. apply Forall_app in Hr as [Hr _].
      apply (missing_trimmed rw start hist' x); [by eapply consecutive_prefix|done|by eapply list_elem_of_lookup_2|done]. }
  destruct Hone as (page & -> & Epage & Hnext). cbn [mbind go_bind].
  apply lookup_lt_Some in Hx as Hlt. rewrite take_take, Nat.min_l in Epage by lia.
  pose proof (from_next start hist' (drop n lcms) _ x Hc Hr Hx) as Hfrom. replace (S (Z.to_nat (limit - 1))) with (Z.to_nat limit) in Hfrom by lia.
  specialize (IH s' hist' (next + Z.of_nat n) (drop n lcms) (next_request request (gt_Cursor page) limit) (after (position x)) limit
    (drop (Z.to_nat limit) infos) Ha' Hp).
  destruct (refused rw limit (after (position x)) hist' (drop n lcms) schedule) as [seq|].
  - destruct IH as [-> (k & Hk & Hseq)]; [rewrite length_drop; lia|done|intros; apply Hnext|rewrite Hfrom; by apply Forall2_drop|done|].
    split; [done|]. exists (n + k)%nat. rewrite length_drop in Hk. split; [lia|].
    unfold hist' in Hseq. rewrite <- (assoc_L (++)), take_take_drop in Hseq. done.
  - rewrite IH; [|rewrite length_drop; lia|done|intros; apply Hnext|rewrite Hfrom; by apply Forall2_drop|done].
    cbn [mbind go_bind]. rewrite Epage. by rewrite take_take_drop.
Qed.

(** C6: Paging is stable while the server ingests.  Between the requests of a
    client that follows the cursors of getTransactions the service ingests any
    numbers of ledgers, each trimming what leaves the retention window.  As long
    as it asks only when there is a full page more to read, the client receives the
    transactions of the whole history from its start, in order, none twice and none
    missing; and if the window has moved past the ledger a page starts in by the
    time it asks, the request is refused with that ledger's number, which is older
    than everything then retained: nothing is skipped silently. *)
Theorem paging_survives_ingestion h rw s hist next lcms request start limit n schedule infos :
  ahead rw s hist next lcms -> th_networkPassphrase h = passphrase -> (sum_list (n :: schedule) <= length lcms)%nat ->
  ready h request (kept rw (hist ++ take n lcms)) start limit ->
  infos_of (GT_Format request) (from (passphrase := passphrase) start (hist ++ lcms)) infos ->
  pages_full limit start hist lcms (n :: schedule) ->
  match refused rw limit start hist lcms (n :: schedule) with
  | None => client h rw limit request next (n :: schedule) s = Ok (take (length (n :: schedule) * Z.to_nat limit) infos)
  | Some seq => client h rw limit request next (n :: schedule) s = Er (not_stored seq) /\
      exists k, (k <= length lcms)%nat /\ Forall (fun l => seq < LedgerSequence l) (kept rw (hist ++ take k lcms))
  end.
Proof.
  intros Ha Hp Hsum Hready Hinf Hfull. apply client_pages; try done; [|by intros ? [= <-]].
  by destruct (rd_limit _ _ _ _ _ Hready) as [[? _] _].
Qed.
End Live.

(** ** A concrete run *)

Lemma sample_ahead : ahead (passphrase := "net") (T := sep35) sample_rw sample_service [] 7 [sample_ledger 7; sample_ledger 8; sample_ledger 9].
Proof.
  destruct sample_live_run as [Hd Hs Hl [Hn Hmax] _ _ Hb Hf Hk Hheld _]. constructor; try done.
  - apply (bo_consecutive _ sample_batch).
  - repeat apply Forall_cons_2; [split; [apply sample_fine_7|]|split; [apply sample_fine_8|]|split; [apply sample_fine_9|]|apply Forall_nil_2];
      vm_compute; discriminate.
Qed.

(** With a retention of two ledgers, a client that asks after every ledger gets
    all transactions; one that lets two pass is refused ledger 7. *)
Lemma paging_survives_ingestion_witness :
  client sample_txs_handler sample_rw 2 (sample_txs_request 7 2) 7 [1; 1; 1]%nat sample_service =
    Ok (take 6 (sample_infos (from (passphrase := "net") (7, 1, 1) [sample_ledger 7; sample_ledger 8; sample_ledger 9]))) /\
  client sample_txs_handler sample_rw 2 (sample_txs_request 7 2) 7 [1; 2]%nat sample_service =
    Er (ERpc InvalidParams (EFmt "database does not contain metadata for ledger: %d" [FZ 7])).
Proof.
  pose proof (paging_survives_ingestion (passphrase := "net") sample_txs_handler sample_rw sample_service [] 7
    [sample_ledger 7; sample_ledger 8; sample_ledger 9] (sample_txs_request 7 2) (7, 1, 1) 2 1%nat) as H.
  split.
  - refine (H [1; 1]%nat _ sample_ahead eq_refl _ _ _ _).
    + vm_compute. lia.
    + constructor; vm_compute; repeat split; congruence.
    + apply sample_infos_ok. vm_compute. reflexivity.
    + intros [|[|[|i]]] Hi; cbn in Hi; [vm_compute; lia..|lia].
  - refine (proj1 (H [2]%nat (sample_infos (from (passphrase := "net") (7, 1, 1) [sample_ledger 7; sample_ledger 8; sample_ledger 9]))
      sample_ahead eq_refl _ _ _ _)).
    + vm_compute. lia.
    + constructor; vm_compute; repeat split; congruence.
    + apply sample_infos_ok. vm_compute. reflexivity.
    + intros [|[|i]] Hi; cbn in Hi; [vm_compute; lia..|lia].
Defined.
