(* ===== verification/Start.v ===== *)
(** * Starting the server: [cmd/stellar-rpc/main.go], [daemon.MustNew]

    The root command loads and checks the configuration and builds the daemon from
    it: the core, the archives and the database are opened, the storage is
    initialised, and the ingestion service, the preflight pool and the JSON-RPC
    front are created over it.  Fatal errors end the process; here they are the
    error of the call. *)

From S2P Require Import Prelude GoStd GoTime Externals Cursor Protocol BucketWindow LedgerMeta FeeWindow Store LedgerStore EventStore TxStore WriteTx Ingest Migration Daemon PreflightPool Config ConfigLoad Options Backlog PanicGroup DurationLimiter WordWrap ConfigSave Rpc.

(** ** What the daemon asks of stellar/go and of the machine *)

Record HTTPQueryServerParams := mkQueryParams { Port : Z; ThreadPoolSize : Z; SnapshotLedgers : Z }.
Record CaptiveCoreTomlParams := mkTomlParams {
  HTTPPort : Z;
  tp_HistoryArchiveURLs : list string;
  tp_NetworkPassphrase : string;
  Strict : bool;
  EnforceSorobanDiagnosticEvents : bool;
  EnforceSorobanTransactionMetaExtV1 : bool;
  CoreBinaryPath : string;
  QueryServerParams : HTTPQueryServerParams;
}.
Record CaptiveCoreConfig {CoreToml : Type} := mkCoreConfig {
  BinaryPath : string;
  StoragePath : string;
  cc_NetworkPassphrase : string;
  cc_HistoryArchiveURLs : list string;
  CheckpointFrequency : Z;
  Toml : CoreToml;
  UserAgent : string;
}.
Arguments CaptiveCoreConfig : clear implicits.
Arguments mkCoreConfig {CoreToml}.
Record ArchiveOptions := mkArchiveOptions {
  ao_NetworkPassphrase : string;
  ao_CheckpointFrequency : Z;
  ao_UserAgent : string;
}.

(** The captive core, the history archives, the data store, the database file
    and the sockets; [DB] is the type of an open database. *)
Class Machine (CL : ConfigLib) (DB : Type) := {
  CoreToml : Type;
  NewCaptiveCoreTomlFromFile : string -> CaptiveCoreTomlParams -> go CoreToml;
  NewCaptive : CaptiveCoreConfig CoreToml -> go unit;
  NewArchivePool : list string -> ArchiveOptions -> go unit;
  NewDataStore : option Decoded -> go unit;
  OpenDatabase : string -> go DB;
  Listen : string -> string -> go unit;
}.

Definition defaultReadTimeout : Z := 5 * Second.
(** [logger.WithError(err).Fatal(msg)] ends the process. *)
Definition Fatal {A} (msg : string) (r : go A) : go A := on_err (EWrap msg []) r.

Section Start.
Context {CL : ConfigLib}.
Context `{V : ScVals} {D : Ledgers} {Drv : Driver} {T : Toid} {X : XdrConsts} {B : LedgerBackend}.
Context {Mc : Machine CL DB}.

Notation Windows := (LedgerBucketWindow (list Z)).

(** ** The parts *)

Definition core_toml_params (cfg : Config) : CaptiveCoreTomlParams :=
  mkTomlParams (uint_field cfg "CaptiveCoreHTTPPort") (strings_field cfg "HistoryArchiveURLs")
    (string_field cfg "NetworkPassphrase") true true true (string_field cfg "StellarCoreBinaryPath")
    (mkQueryParams (uint_field cfg "CaptiveCoreHTTPQueryPort") (uint_field cfg "CaptiveCoreHTTPQueryThreadPoolSize")
      (uint_field cfg "CaptiveCoreHTTPQuerySnapshotLedgers")).

(** The error it returns is a result; that of the TOML file is fatal. *)
Definition newCaptiveCore (cfg : Config) : go (CaptiveCoreConfig CoreToml * go unit) :=
  captiveCoreToml ← Fatal "Invalid captive core toml"
    (NewCaptiveCoreTomlFromFile (string_field cfg "CaptiveCoreConfigPath") (core_toml_params cfg));
  let captiveConfig := mkCoreConfig (string_field cfg "StellarCoreBinaryPath") (string_field cfg "CaptiveCoreStoragePath")
    (string_field cfg "NetworkPassphrase") (strings_field cfg "HistoryArchiveURLs") (uint_field cfg "CheckpointFrequency")
    captiveCoreToml (ExtendedUserAgent cfg "captivecore") in
  Ok (captiveConfig, NewCaptive captiveConfig).
Definition mustCreateCaptiveCore (cfg : Config) : go (CaptiveCoreConfig CoreToml) :=
  core ← newCaptiveCore cfg;
  _ ← Fatal "could not create captive core" core.2;
  Ok core.1.

Definition archive_options (cfg : Config) : ArchiveOptions :=
  mkArchiveOptions (string_field cfg "NetworkPassphrase") (uint_field cfg "CheckpointFrequency")
    (string_field cfg "HistoryArchiveUserAgent").
Definition mustCreateHistoryArchive (cfg : Config) : go unit :=
  if (length (strings_field cfg "HistoryArchiveURLs") =? 0)%nat then Er (ENew "no history archives URLs were provided")
  else Fatal "could not connect to history archive"
         (NewArchivePool (strings_field cfg "HistoryArchiveURLs") (archive_options cfg)).

Definition mustOpenDatabase (cfg : Config) : go DB :=
  Fatal "could not open database" (OpenDatabase (string_field cfg "SQLiteDBPath")).
Definition mustCreateDataStore (cfg : Config) : go unit :=
  Fatal "failed to initialize datastore" (NewDataStore (decoded_field cfg "DataStoreConfig")).

(** A client of the core: its URL and its timeout. *)
Definition createStellarCoreClient (cfg : Config) : string * Z :=
  (string_field cfg "StellarCoreURL", duration_field cfg "CoreRequestTimeout").
Definition createHighperfStellarCoreClient (cfg : Config) : string * Z :=
  ("http://localhost:" +:+ Itoa (uint_field cfg "CaptiveCoreHTTPQueryPort"), duration_field cfg "CoreRequestTimeout").

(** What [mustInitializeStorage] reads of the configuration. *)
Definition storage_config (cfg : Config) : StorageConfig :=
  mkStorageConfig (uint_field cfg "ClassicFeeStatsLedgerRetentionWindow") (uint_field cfg "SorobanFeeStatsLedgerRetentionWindow")
    (uint_field cfg "HistoryRetentionWindow") (string_field cfg "NetworkPassphrase").

(** The service shares the daemon's database and fee windows. *)
Definition createIngestService (cfg : Config) (feewindows : State (W := Windows)) : readWriter * Service (W := Windows) :=
  (mkReadWriter (uint_field cfg "HistoryRetentionWindow") (string_field cfg "NetworkPassphrase"),
   mkService (fw_db feewindows)
     (mkFeeWindows (SorobanInclusionFeeWindow feewindows) (ClassicFeeWindow feewindows) (networkPassPhrase feewindows) tt) 0).

(** The pool, for the requests and calls of [Close] it will see. *)
Definition createPreflightWorkerPool (cfg : Config) (nclients nclosers : nat) : WorkerPool :=
  NewPreflightWorkerPool (Z.to_nat (uint_field cfg "PreflightWorkerCount")) (Z.to_nat (uint_field cfg "PreflightWorkerQueueSize"))
    nclients nclosers.

(** A listening server: its endpoint and its read timeout. *)
Definition setupAdminServer (cfg : Config) : go string :=
  _ ← Fatal "cannot listen on admin endpoint" (Listen "tcp" (string_field cfg "AdminEndpoint"));
  Ok (string_field cfg "AdminEndpoint").
Definition setupHTTPServers (cfg : Config) : go ((string * Z) * option string) :=
  _ ← Fatal "cannot listen on endpoint" (Listen "tcp" (string_field cfg "Endpoint"));
  let server := (string_field cfg "Endpoint", defaultReadTimeout) in
  if negb (String.eqb (string_field cfg "AdminEndpoint") "") then
    admin ← setupAdminServer cfg; Ok (server, Some admin)
  else Ok (server, None).

(** ** The daemon *)

Record Node := mkNode {
  node_core : CaptiveCoreConfig CoreToml;
  coreClient : string * Z;
  coreQueryingClient : string * Z;
  (** whether there is a data store *)
  dataStore : bool;
  ingestService : readWriter * Service (W := Windows);
  preflightWorkerPool : nat -> nat -> WorkerPool;
  jsonRPCHandler : Handler;
  server : string * Z;
  adminServer : option string;
}.

(** [order] is the order in which Go iterates over the migrations. *)
Definition MustNew (cfg : Config) (order : list string) : go Node :=
  core ← mustCreateCaptiveCore cfg;
  _ ← mustCreateHistoryArchive cfg;
  db ← mustOpenDatabase cfg;
  let '(r, feewindows) := mustInitializeStorage (storage_config cfg) order db in
  _ ← r;
  _ ← (if bool_field cfg "ServeLedgersFromDatastore" then mustCreateDataStore cfg else Ok tt);
  servers ← setupHTTPServers cfg;
  Ok (mkNode core (createStellarCoreClient cfg) (createHighperfStellarCoreClient cfg)
    (bool_field cfg "ServeLedgersFromDatastore") (createIngestService cfg feewindows) (createPreflightWorkerPool cfg)
    (NewJSONRPCHandler cfg) servers.1 servers.2).

(** The root command up to [daemon.Run]. *)
Definition root_command (sys : System) (s : Sources) (order : list string) : go Node :=
  opts ← AddFlags [] (options sys);
  cfg ← SetValues s opts ∅;
  match Options_Validate opts cfg with
  | (_, Some e) => Er e
  | (cfg, None) => MustNew cfg order
  end.

(** The [gen-config-file] command: the configuration is not checked. *)
Definition gen_config_file {TC : TomlCodec CL} (sys : System) (s : Sources) : go Bytes :=
  opts ← AddFlags [] (options sys);
  cfg ← SetValues s opts ∅;
  MarshalTOML opts cfg.

(** The [version] command, with the variables the linker sets. *)
Record BuildInfo := mkBuildInfo { bi_Version : string; bi_CommitHash : string; bi_Branch : string }.
Definition version_command (b : BuildInfo) (xdr_CommitHash : string) : list string :=
  [if String.eqb (bi_CommitHash b) "" then "stellar-rpc dev"
   else
     let branch := if String.eqb (bi_Branch b) "main" then "" else bi_Branch b in
     "stellar-rpc " +:+ bi_Version b +:+ " (" +:+ bi_CommitHash b +:+ ") " +:+ branch;
   "stellar-xdr " +:+ xdr_CommitHash]%string.

(** ** What an accepted configuration starts *)

Context {passphrase : string} {L : LedgersLaws D passphrase} {TL : ToidLaws T}.

(** The database file: what was committed before, over consecutive ledgers. *)
Record stored_state (w : DB) (ls : list LedgerCloseMeta) : Prop := {
  ss_idle : sess_tx w = None;
  ss_keyed : ledgers_keyed (disk w);
  ss_ledgers : all_ledgers (disk w) = ls;
  ss_cache : cache_ok w;
  ss_batch : batch_ok (passphrase := passphrase) ls;
  ss_tx : metadata (disk w) !! flag_key KTx = None \/
    (metadata (disk w) !! flag_key KTx = Some "true"%string /\ indexes_tx (passphrase := passphrase) (transactions (disk w)) ls);
  ss_ev : (metadata (disk w) !! flag_key KEv = None /\ events (disk w) = ∅) \/
    (metadata (disk w) !! flag_key KEv = Some "true"%string /\ indexes_events (passphrase := passphrase) (disk w) ls);
}.

(** The bounds a configuration must respect for this database. *)
Record fits_database (cfg : Config) (ls : list LedgerCloseMeta) : Prop := {
  fd_passphrase : string_field cfg "NetworkPassphrase" = passphrase;
  fd_small : uint_field cfg "ClassicFeeStatsLedgerRetentionWindow" < 2147483648 /\
             uint_field cfg "SorobanFeeStatsLedgerRetentionWindow" < 2147483648;
  fd_length : zlen ls <= uint_field cfg "HistoryRetentionWindow";
}.
Definition fee_windows_fit (cfg : Config) : Prop :=
  Z.max (uint_field cfg "ClassicFeeStatsLedgerRetentionWindow") (uint_field cfg "SorobanFeeStatsLedgerRetentionWindow")
    <= uint_field cfg "HistoryRetentionWindow".

(** The machine can start the parts the configuration names, and opens [w]. *)
Record machine_ready (cfg : Config) (w : DB) (toml : CoreToml) : Prop := {
  mr_toml : NewCaptiveCoreTomlFromFile (string_field cfg "CaptiveCoreConfigPath") (core_toml_params cfg) = Ok toml;
  mr_core c : Toml c = toml -> NewCaptive c = Ok tt;
  mr_archives : NewArchivePool (strings_field cfg "HistoryArchiveURLs") (archive_options cfg) = Ok tt;
  mr_database : OpenDatabase (string_field cfg "SQLiteDBPath") = Ok w;
  mr_datastore : bool_field cfg "ServeLedgersFromDatastore" = true -> NewDataStore (decoded_field cfg "DataStoreConfig") = Ok tt;
  mr_listen : Listen "tcp" (string_field cfg "Endpoint") = Ok tt;
  mr_admin : string_field cfg "AdminEndpoint" <> ""%string -> Listen "tcp" (string_field cfg "AdminEndpoint") = Ok tt;
}.

Lemma positive_fields sys :
  Forall (fun f => f ∈ positive_uints (options sys))
    ["ClassicFeeStatsLedgerRetentionWindow"; "SorobanFeeStatsLedgerRetentionWindow"; "HistoryRetentionWindow";
     "PreflightWorkerCount"; "PreflightWorkerQueueSize"]%string.
Proof.
  assert (positive_uints (options sys) = positive_uints (options sample_system)) as -> by (vm_compute; reflexivity).
  repeat (constructor; [apply (bool_decide_unpack _); vm_compute; exact I|]). constructor.
Qed.

(** Validation already rules out the fatal error of a missing history archive. *)
Definition required_lists (opts : Options) : list string := omap (fun o =>
  match o_Validate o, o_kind o with Some Required, KStrings => Some (o_ConfigKey o) | _, _ => None end) opts.
Lemma required_list_in opts f : f ∈ required_lists opts ->
  exists o, o ∈ opts /\ o_Validate o = Some Required /\ o_kind o = KStrings /\ o_ConfigKey o = f.
Proof.
  intros (o & Ho & E)%list_elem_of_omap. exists o. split; [done|].
  destruct (o_Validate o) as [[]|], (o_kind o); try discriminate E. by injection E.
Qed.
Lemma required_lists_eq sys : required_lists (options sys) = ["HistoryArchiveURLs"%string].
Proof. reflexivity. Qed.

Lemma archives_set sys s cfg cfg' : SetValues s (with_flag_default <$> options sys) ∅ = Ok cfg -> acceptable sys cfg ->
  same_but_url cfg cfg' -> strings_field cfg' "HistoryArchiveURLs" <> [].
Proof.
  intros Hl Ha Hs. destruct (required_list_in (options sys) "HistoryArchiveURLs") as (o & Ho & Ev & Ek & Eo).
  { rewrite required_lists_eq. by left. }
  pose proof (acc_required _ _ Ha o Ho Ev) as Hset. pose proof (loaded_typed sys s cfg Hl (with_flag_default o)) as Ht.
  rewrite flag_default_kind, flag_default_key, Ek, Eo in Ht. rewrite Ek, Eo in Hset.
  specialize (Ht (list_elem_of_fmap_2 _ _ _ Ho)). clear -Hset Ht Hs. unfold strings_field, is_set in *. rewrite Hs by done.
  destruct (cfg !! _) as [v|]; [|done]. specialize (Ht v eq_refl). destruct v; try done. by destruct l.
Qed.

Lemma storage_pre_start cfg w ls : stored_state w ls -> fits_database cfg ls -> fee_windows_fit cfg ->
  0 < uint_field cfg "ClassicFeeStatsLedgerRetentionWindow" -> 0 < uint_field cfg "SorobanFeeStatsLedgerRetentionWindow" ->
  uint_field cfg "HistoryRetentionWindow" <= u32max -> storage_pre (passphrase := passphrase) (storage_config cfg) w ls.
Proof. intros [] [] Hfit ? ? Hh. unfold fee_windows_fit in Hfit. unfold u32max in Hh. constructor; cbn [storage_config]; try done; simpl; lia. Qed.

Lemma last_filter_all {A} (p : A -> bool) (l : list A) : (forall z, last l = Some z -> p z = true) ->
  last (filter (fun x => p x = true) l) = last l.
Proof.
  destruct l as [|z l _] using rev_ind; [done|]. rewrite last_snoc. intros H.
  rewrite filter_app, filter_cons_True by (by apply H). rewrite filter_nil. apply last_snoc.
Qed.

(** The service made from an initialised storage. *)
Lemma service_ready cfg sc ls s next : initialised (passphrase := passphrase) sc ls s -> batch_ok (passphrase := passphrase) ls ->
  string_field cfg "NetworkPassphrase" = passphrase ->
  0 <= Z.max (ClassicFeeStatsLedgerRetentionWindow sc) (SorobanFeeStatsLedgerRetentionWindow sc) -> 0 < uint_field cfg "HistoryRetentionWindow" <= u32max ->
  0 < next -> (forall l, last ls = Some l -> next = LedgerSequence l + 1) ->
  let '(rw, service) := createIngestService cfg s in service_ok (passphrase := passphrase) rw service ls next.
Proof.
  intros [Hrep Hidle Hc _ _ (Hp & Hready & _)] [Hfine Hseq Hcons _ _ _] Hpp Hw Hh Hn Hnext.
  set (w := Z.max _ _) in *.
  unfold createIngestService. unfold u32max in Hh.
  destruct (Hready next Hn) as [Hcl Hso].
  { intros x. rewrite (last_filter_all _ ls); [apply Hnext|]. intros z Hz. apply last_Some_elem_of in Hz as Hin.
    pose proof (Hseq) as HF. rewrite Forall_forall in HF. specialize (HF _ Hin).
    assert (latest_of ls = LedgerSequence z) as El by (unfold latest_of; by rewrite Hz).
    unfold IsLedgerIncluded, range_for. simpl. rewrite El. destruct (Z.ltb_spec w (LedgerSequence z)); lia. }
  constructor; try done; simpl; lia.
Qed.
(** Windows that do not fit: the check runs once the database is open. *)
Definition window_error (cfg : Config) : err :=
  EFmt "Fee stat analysis window (%d) cannot exceed history retention window (%d)."
    [FZ (Z.max (uint_field cfg "ClassicFeeStatsLedgerRetentionWindow") (uint_field cfg "SorobanFeeStatsLedgerRetentionWindow"));
     FZ (uint_field cfg "HistoryRetentionWindow")].

Lemma storage_fatal cfg order w ls : no_driver_errors -> stored_state w ls -> ~ fee_windows_fit cfg ->
  0 < uint_field cfg "HistoryRetentionWindow" <= u32max ->
  exists s, mustInitializeStorage (storage_config cfg) order w = (Er (window_error cfg), s) /\ disk (fw_db s) = disk w.
Proof.
  intros Hd [Hidle Hk Hl Hc [_ Hseq _ _ _ _] _ _] Hfit Hh. unfold fee_windows_fit in Hfit. unfold u32max in Hh.
  unfold mustInitializeStorage, initializeStorage, mbind, st_bind, fatal at 1, wrap_err.
  destruct (migration_range_spec (uint_field cfg "HistoryRetentionWindow") w ls Hd) as (w1 & Hr1 & Hd1 & _ & _);
    try done; try (unfold view; rewrite Hidle; done); [lia|].
  cbn [storage_config Daemon.HistoryRetentionWindow].
  rewrite (on_mdb_run _ (new_fee_windows (storage_config cfg) w) _ _ Hr1). cbn [on_err].
  eexists. unfold buildMigrations, mbind, st_bind, lift, storage_config. cbn.
  destruct (Z.ltb_spec (uint_field cfg "HistoryRetentionWindow")
    (Z.max (uint_field cfg "ClassicFeeStatsLedgerRetentionWindow") (uint_field cfg "SorobanFeeStatsLedgerRetentionWindow"))); [|lia].
  cbn. split; [reflexivity|exact Hd1].
Qed.

(** The parts before the storage: the core, the archives and the database. *)
Lemma MustNew_open cfg order w toml : machine_ready cfg w toml -> strings_field cfg "HistoryArchiveURLs" <> [] ->
  exists core servers, core = mkCoreConfig (string_field cfg "StellarCoreBinaryPath") (string_field cfg "CaptiveCoreStoragePath")
    (string_field cfg "NetworkPassphrase") (strings_field cfg "HistoryArchiveURLs") (uint_field cfg "CheckpointFrequency")
    toml (ExtendedUserAgent cfg "captivecore") /\
  MustNew cfg order =
    let '(r, feewindows) := mustInitializeStorage (storage_config cfg) order w in
    _ ← r;
    Ok (mkNode core (createStellarCoreClient cfg) (createHighperfStellarCoreClient cfg)
      (bool_field cfg "ServeLedgersFromDatastore") (createIngestService cfg feewindows) (createPreflightWorkerPool cfg)
      (NewJSONRPCHandler cfg) (string_field cfg "Endpoint", defaultReadTimeout) servers).
Proof.
  intros [Htoml Hcore Harch Hdb Hstore Hlisten Hadmin] Hurls.
  eexists _, (if String.eqb (string_field cfg "AdminEndpoint") "" then None else Some (string_field cfg "AdminEndpoint")).
  split; [reflexivity|].
  assert (mustCreateDataStore cfg = Ok tt \/ bool_field cfg "ServeLedgersFromDatastore" = false) as Hs.
  { destruct (bool_field cfg _); [left|by right]. unfold mustCreateDataStore. by rewrite Hstore. }
  unfold MustNew, mustCreateCaptiveCore, newCaptiveCore, mustCreateHistoryArchive, mustOpenDatabase, setupHTTPServers, setupAdminServer.
  rewrite Htoml, Harch, Hdb, Hlisten. cbn -[mustInitializeStorage mustCreateDataStore String.eqb].
  rewrite Hcore by done. cbn -[mustInitializeStorage mustCreateDataStore String.eqb].
  destruct (strings_field cfg "HistoryArchiveURLs"); [done|]. cbn -[mustInitializeStorage mustCreateDataStore String.eqb].
  destruct (mustInitializeStorage _ _ _) as [[[]|e|p] st]; [|done..]. cbn -[mustCreateDataStore String.eqb].
  destruct Hs as [-> | ->]; [destruct (bool_field cfg _)|];
    destruct (String.eqb_spec (string_field cfg "AdminEndpoint") ""); cbn; try (rewrite Hadmin by done); reflexivity.
Qed.

(** A node started on a database that holds [ls]. *)
Record node_ready (cfg : Config) (ls : list LedgerCloseMeta) (node : Node) : Prop := {
  nr_storage : exists st, initialised (passphrase := passphrase) (storage_config cfg) ls st /\ ingestService node = createIngestService cfg st;
  nr_service next : 0 < next -> (forall l, last ls = Some l -> next = LedgerSequence l + 1) ->
    service_ok (passphrase := passphrase) (ingestService node).1 (ingestService node).2 ls next;
  nr_pool nclients nclosers : workers (preflightWorkerPool node nclients nclosers) <> [];
  nr_handler : jsonRPCHandler node = NewJSONRPCHandler cfg;
  nr_client : coreClient node = (string_field cfg "StellarCoreURL", duration_field cfg "CoreRequestTimeout");
  nr_server : server node = (string_field cfg "Endpoint", defaultReadTimeout);
}.

(** What validation guarantees of the fields that starting depends on. *)
Record start_fields (cfg : Config) : Prop := {
  sf_classic : 0 < uint_field cfg "ClassicFeeStatsLedgerRetentionWindow";
  sf_soroban : 0 < uint_field cfg "SorobanFeeStatsLedgerRetentionWindow";
  sf_history : 0 < uint_field cfg "HistoryRetentionWindow" <= u32max;
  sf_workers : 0 < uint_field cfg "PreflightWorkerCount";
  sf_archives : strings_field cfg "HistoryArchiveURLs" <> [];
}.

Lemma MustNew_starts cfg order w ls toml : no_driver_errors -> order ≡ₚ [transactionsMigrationName; eventsMigrationName] ->
  start_fields cfg -> machine_ready cfg w toml -> stored_state w ls -> fits_database cfg ls -> fee_windows_fit cfg ->
  exists node, MustNew cfg order = Ok node /\ node_ready cfg ls node.
Proof.
  intros Hd Horder [Hc Hs Hh Hw Hurls] Hm Hst Hfits Hfit.
  destruct (MustNew_open cfg order w toml Hm Hurls) as (core & admin & _ & ->).
  pose proof (storage_pre_start cfg w ls Hst Hfits Hfit Hc Hs ltac:(lia)) as Hpre.
  destruct (initialise_ok _ order w ls Hd Hpre Horder) as (st & Hrun & Hinit). rewrite Hrun.
  eexists. split; [reflexivity|]. constructor; try done.
  - by exists st.
  - intros next Hn Hnext.
    refine (service_ready cfg _ ls st next Hinit (ss_batch _ _ Hst) (fd_passphrase _ _ Hfits) _ Hh Hn Hnext). simpl. lia.
  - intros nclients nclosers E. cbn in E. apply (f_equal length) in E. rewrite length_replicate in E. simpl in E. lia.
Qed.

(** The root command is [MustNew] on the accepted configuration. *)
Lemma root_command_accepted sys s opts cfg order : AddFlags [] (options sys) = Ok opts -> SetValues s opts ∅ = Ok cfg ->
  (Options_Validate opts cfg).2 = None ->
  root_command sys s order = MustNew (Options_Validate opts cfg).1 order /\ start_fields (Options_Validate opts cfg).1.
Proof.
  intros Hflags Hl Hv. destruct (accepted_config sys s opts cfg Hflags Hl Hv) as (Hsame & Hacc & Hpos). split.
  - unfold root_command. rewrite Hflags. cbn [go_bind mbind]. rewrite Hl. cbn [go_bind mbind].
    destruct (Options_Validate opts cfg) as [c [e|]]; done.
  - pose proof (positive_fields sys) as Hfields. rewrite !Forall_cons in Hfields. destruct Hfields as (Hc & Hs & Hh & Hw & _).
    apply Hpos in Hc, Hs, Hh, Hw. constructor; try lia.
    rewrite options_flagged in Hflags. apply Ok_inj in Hflags as <-. by eapply archives_set.
Qed.

(** C3: With any accepted configuration, on a database committed before over
    consecutive ledgers and a machine that can start the parts the configuration
    names, the root command starts the node exactly when the fee windows fit the
    history window: the storage is initialised in whatever order Go iterates over
    the migrations, the ingestion service shares its database and windows and is
    ready for the next ledger, the pool has workers, and the client of the core
    has the configured URL and timeout.  Otherwise it ends with the error of the
    window check. *)
Theorem server_starts sys s opts cfg order w ls toml :
  AddFlags [] (options sys) = Ok opts -> SetValues s opts ∅ = Ok cfg -> (Options_Validate opts cfg).2 = None ->
  no_driver_errors -> order ≡ₚ [transactionsMigrationName; eventsMigrationName] ->
  let cfg' := (Options_Validate opts cfg).1 in
  machine_ready cfg' w toml -> stored_state w ls -> fits_database cfg' ls ->
  if bool_decide (fee_windows_fit cfg') then exists node, root_command sys s order = Ok node /\ node_ready cfg' ls node
  else root_command sys s order = Er (window_error cfg').
Proof.
  intros Hflags Hl Hv Hd Horder cfg' Hm Hst Hfits.
  destruct (root_command_accepted sys s opts cfg order Hflags Hl Hv) as [-> Hsf]. fold cfg' in Hsf |- *. clearbody cfg'.
  case_bool_decide as Hfit; [by eapply MustNew_starts|].
  destruct (MustNew_open cfg' order w toml Hm (sf_archives _ Hsf)) as (core & admin & _ & ->).
  by destruct (storage_fatal cfg' order w ls Hd Hst Hfit (sf_history _ Hsf)) as (st & -> & _).
Qed.
End Start.

(** ** A start *)

(** A machine on which everything starts and the only database is [file]. *)
Definition sample_machine (file : DB) : Machine toy_config_lib (@DB toy_scvals toy_ledgers) := {|
  CoreToml := string;
  NewCaptiveCoreTomlFromFile path _ := if String.eqb path "core.cfg" then Ok path else Er (EExt "no such file");
  NewCaptive _ := Ok tt;
  NewArchivePool urls _ := if decide (urls = []) then Er (EExt "no archives") else Ok tt;
  NewDataStore _ := Er (EExt "no data store");
  OpenDatabase _ := Ok file;
  Listen network _ := if String.eqb network "tcp" then Ok tt else Er (EExt "unknown network");
|}.

Lemma sample_machine_ready file : machine_ready (Mc := sample_machine file) (Options_Validate sample_options sample_config).1 file "core.cfg"%string.
Proof.
  constructor; try (vm_compute; reflexivity); try (intros; vm_compute; reflexivity).
  intros H. exfalso. revert H. vm_compute. discriminate.
Qed.

Lemma sample_stored : stored_state (passphrase := "net") sample_db [sample_ledger 7; sample_ledger 8; sample_ledger 9].
Proof.
  destruct sample_storage_pre as [_ _ _ Hidle Hk Hl _ Hc Hb Htx Hev]. by constructor.
Qed.

Lemma server_starts_witness : exists node,
  root_command (Mc := sample_machine sample_db) sample_system sample_sources [eventsMigrationName; transactionsMigrationName] = Ok node /\
  service_ok (passphrase := "net") (T := sep35) (ingestService node).1 (ingestService node).2
    [sample_ledger 7; sample_ledger 8; sample_ledger 9] 10.
Proof.
  pose proof (server_starts (Mc := sample_machine sample_db) (passphrase := "net") sample_system sample_sources sample_options sample_config
    [eventsMigrationName; transactionsMigrationName] sample_db [sample_ledger 7; sample_ledger 8; sample_ledger 9] "core.cfg"%string
    sample_options_ok sample_config_ok) as H.
  cbv zeta in H. rewrite bool_decide_eq_true_2 in H by (vm_compute; discriminate).
  destruct H as (node & Hrun & Hready).
  - vm_compute. reflexivity.
  - intros n t. reflexivity.
  - apply perm_swap.
  - apply sample_machine_ready.
  - apply sample_stored.
  - constructor; vm_compute; [reflexivity|split; reflexivity|discriminate].
  - exists node. split; [exact Hrun|]. apply (nr_service _ _ _ Hready); [lia|]. intros l [= <-]. reflexivity.
Defined.
