(* ===== verification/Upgrade.v ===== *)
(** * Starting on the file of an older release

    The opening of the database and the start of the daemon composed: the schema
    migrations and then the data migrations bring any older file up to date. *)

From S2P Require Import Prelude GoStd GoTime Externals Cursor Protocol BucketWindow LedgerMeta FeeWindow Store LedgerStore EventStore TxStore WriteTx Ingest Schema Migration Daemon Config ConfigLoad Options Rpc Start.

Section Upgrade.
Context {CL : ConfigLib}.
Context `{V : ScVals} {D : Ledgers} {Drv : Driver} {T : Toid} {X : XdrConsts} {B : LedgerBackend}.
Context {SM : SqlMigrate} {SML : SqlMigrateLaws SM} {SO : SqlOpen}.
Context {passphrase : string} {L : LedgersLaws D passphrase} {TL : ToidLaws T}.

(** A machine that opens its database by [OpenSQLiteDBWithPrometheusMetrics]. *)
Definition with_files (Mc : Machine CL DB) (p : Process) : Machine CL DB := {|
  CoreToml := @CoreToml _ _ Mc;
  NewCaptiveCoreTomlFromFile := @NewCaptiveCoreTomlFromFile _ _ Mc;
  NewCaptive := @NewCaptive _ _ Mc;
  NewArchivePool := @NewArchivePool _ _ Mc;
  NewDataStore := @NewDataStore _ _ Mc;
  OpenDatabase path := (OpenSQLiteDBWithPrometheusMetrics path p).1;
  Listen := @Listen _ _ Mc;
|}.

Lemma flag_not_sequence k : k <> KFee -> flag_key k <> "LatestLedgerSequence"%string.
Proof. by destruct k. Qed.

(** What older releases recorded and the fourth script forgets is not part of what
    a start needs. *)
Lemma upgraded_stored k t ls : stored_state (passphrase := passphrase) (OpenSQLiteDB t) ls ->
  stored_state (passphrase := passphrase) (OpenSQLiteDB (upgraded k (length sqlMigrations) t)) ls.
Proof.
  intros [Hidle Hk Hl Hc Hb Htx Hev]. unfold upgraded. case_match; [|by constructor].
  constructor; try done; cbn; by rewrite lookup_delete_ne by (by apply not_eq_sym, flag_not_sequence).
Qed.

(** C4: A node starts on the database file of any older release.  The file has had
    any number [k] of the schema scripts, down to none, and stored consecutive
    ledgers [ls]; the transactions and events tables of the releases that had none
    yet are created, and what their data migrations have not filled is filled.  The
    file ends with the schema of this release and the node is ready over exactly
    [ls]: all of their transactions and events are indexed. *)
Theorem older_file_starts {Mc : Machine CL DB} sys s opts cfg order w0 ls toml k p :
  AddFlags [] (options sys) = Ok opts -> SetValues s opts ∅ = Ok cfg -> (Options_Validate opts cfg).2 = None ->
  no_driver_errors -> order ≡ₚ [transactionsMigrationName; eventsMigrationName] ->
  let cfg' := (Options_Validate opts cfg).1 in
  let path := string_field cfg' "SQLiteDBPath" in
  let file := file_of (data_source path) p in
  machine_ready (Mc := Mc) cfg' w0 toml -> sql_open_error "sqlite3" (data_source path) p = None ->
  at_version k file -> stored_state (passphrase := passphrase) (OpenSQLiteDB (content file)) ls ->
  fits_database (passphrase := passphrase) cfg' ls -> fee_windows_fit cfg' ->
  exists node db p', OpenSQLiteDBWithPrometheusMetrics path p = (Ok db, p') /\
    at_version (length sqlMigrations) (file_of (data_source path) p') /\
    root_command (Mc := with_files Mc p) sys s order = Ok node /\
    node_ready (passphrase := passphrase) (Mc := with_files Mc p) cfg' ls node /\
    represents (passphrase := passphrase) (disk (svc_db (ingestService node).2)) ls.
Proof.
  intros Hflags Hl Hv Hd Horder cfg' path file Hm Ho Hk Hst Hfits Hfit.
  pose proof (open_database path p k Hk) as Hopen.
  destruct (OpenSQLiteDBWithPrometheusMetrics path p) as [r p'] eqn:E. destruct Hopen as (_ & Hok & Hr).
  specialize (Hok Hd Ho). destruct r as [db| |]; [|done..]. destruct Hr as (Hv5 & Hc & Hdb & _). fold file in Hc. rewrite Hc in Hdb.
  destruct (root_command_accepted (Mc := with_files Mc p) sys s opts cfg order Hflags Hl Hv) as [-> Hsf]. fold cfg' in Hsf |- *.
  clearbody cfg'.
  assert (machine_ready (Mc := with_files Mc p) cfg' db toml) as Hm'.
  { destruct Hm as [H1 H2 H3 _ H5 H6 H7]. constructor; [exact H1|exact H2|exact H3| |exact H5|exact H6|exact H7]. cbn. fold path. by rewrite E. }
  destruct (MustNew_starts (Mc := with_files Mc p) cfg' order db ls toml Hd Horder Hsf Hm') as (node & Hnode & Hready);
    [rewrite Hdb; by apply upgraded_stored|exact Hfits|exact Hfit|].
  exists node, db, p'. split; [reflexivity|]. split; [exact Hv5|]. split; [exact Hnode|]. split; [exact Hready|].
  destruct (nr_storage _ _ _ Hready) as (st & Hin & ->). apply (in_tables _ _ _ Hin).
Qed.
End Upgrade.

(** ** The first release *)

(** Three ledgers, no other table yet, and the latest ledger in [metadata]. *)
Definition first_release : @File toy_scvals toy_ledgers :=
  mkFile (schema (schema_at 1)) (indexes (schema_at 1))
    (set_metadata (insert "LatestLedgerSequence" "9")%string sample_tables) {["k" := "v"]}%string (applied (schema_at 1)).
Definition sample_path : string := string_field (Options_Validate sample_options sample_config).1 "SQLiteDBPath".
Definition first_process : @Process toy_scvals toy_ledgers := mkProcess {[data_source sample_path := first_release]} [].
#[local] Instance sample_open : @SqlOpen toy_scvals toy_ledgers := {| sql_open_error _ _ _ := None |}.

Lemma first_release_stored : stored_state (passphrase := "net") (T := sep35) (OpenSQLiteDB (content first_release))
  [sample_ledger 7; sample_ledger 8; sample_ledger 9].
Proof. destruct sample_stored. by constructor. Qed.

Lemma first_release_version : at_version 1 first_release.
Proof.
  constructor; [apply Nat.leb_le; reflexivity|by split_and!|discriminate|by intros _|by intros _|by intros [|]].
Qed.

Lemma older_file_starts_witness : exists node db p',
  OpenSQLiteDBWithPrometheusMetrics (SM := sample_migrate) sample_path first_process = (Ok db, p') /\
  root_command (Mc := with_files (SM := sample_migrate) (sample_machine sample_db) first_process) sample_system sample_sources
    [eventsMigrationName; transactionsMigrationName] = Ok node /\
  represents (passphrase := "net") (T := sep35) (disk (svc_db (ingestService node).2)) [sample_ledger 7; sample_ledger 8; sample_ledger 9].
Proof.
  destruct (older_file_starts (SM := sample_migrate) (SML := sample_migrate_laws) (Mc := sample_machine sample_db) (passphrase := "net")
    sample_system sample_sources sample_options sample_config [eventsMigrationName; transactionsMigrationName] sample_db
    [sample_ledger 7; sample_ledger 8; sample_ledger 9] "core.cfg"%string 1 first_process sample_options_ok sample_config_ok)
    as (node & db & p' & Hopen & _ & Hnode & _ & Hrep).
  - vm_compute. reflexivity.
  - intros n t. reflexivity.
  - apply perm_swap.
  - apply sample_machine_ready.
  - reflexivity.
  - apply first_release_version.
  - apply first_release_stored.
  - constructor; vm_compute; [reflexivity|split; reflexivity|discriminate].
  - vm_compute. discriminate.
  - exists node, db, p'. exact (conj Hopen (conj Hnode Hrep)).
Defined.
