(* ===== verification/Metrics.v ===== *)
(** * Metrics: the collectors a starting daemon registers

    [daemon/metrics.go], and the parts of [db/db.go], [ingest/service.go],
    [preflight/pool.go] and [jsonrpc.go] that create metrics.  A registry refuses a
    name it knows and [MustRegister] panics on a refusal, so a clash of names
    would keep the server from starting. *)

From S2P Require Import Prelude GoStd GoTime Externals Cursor Protocol BucketWindow LedgerMeta FeeWindow Store LedgerStore EventStore TxStore WriteTx Ingest Migration Daemon Convert Submit PreflightPool Config ConfigLoad Options Backlog PanicGroup DurationLimiter WordWrap ConfigSave Rpc Start.

(** ** Data *)

(** The options of a metric ([GaugeOpts], [CounterOpts], [SummaryOpts]) and its
    variable labels. *)
Record Opts := mkOpts { Namespace : string; Subsystem : string; Name : string; Help : string; labels : list string }.

(** Outside code: [prometheus] and the collectors of other packages, each the list
    of the metrics it describes. *)
Class Prometheus := {
  Registry : Type;
  NewRegistry : Registry;
  Register : list Opts -> Registry -> go Registry;
  registered : Registry -> list Opts;
  BuildFQName : string -> string -> string -> string;
  GoCollector : list Opts;
  ProcessCollector : list Opts;
  (** [logmetrics.New]: a counter per level, as Go iterates over them *)
  logmetrics_New : string -> list Opts;
  (** what [db.RegisterMetrics] of [stellar/go] registers *)
  db_metrics : string -> string -> list Opts;
}.
Definition fqName `{Prometheus} (o : Opts) : string := BuildFQName (Namespace o) (Subsystem o) (Name o).

(** TODO: deprecate and rename to stellar_rpc *)
Definition PrometheusNamespace : string := "soroban_rpc".
Definition MetricsNamespace : string := PrometheusNamespace.

Section Metrics.
Context {Pr : Prometheus}.

(** [MustRegister]: the first refusal is a panic. *)
Fixpoint MustRegister (cs : list (list Opts)) : st Registry unit :=
  match cs with
  | [] => mret tt
  | c :: cs' => fun r => match Register c r with
                         | Ok r' => MustRegister cs' r'
                         | Er _ => (Panic "duplicate metrics collector registration attempted", r)
                         | Panic p => (Panic p, r)
                         end
  end.

(** ** The metrics of each component *)

Definition core_submitMetric : Opts :=
  mkOpts PrometheusNamespace "txsub" "submission_duration_seconds" "submission durations to Stellar-Core, sliding window = 10m" ["status"]%string.
Definition core_opCountMetric : Opts :=
  mkOpts PrometheusNamespace "txsub" "operation_count" "number of operations included in a transaction, sliding window = 10m" ["status"]%string.
Definition newCoreClientWithMetrics : st Registry CoreClientWithMetrics :=
  _ ← MustRegister [[core_submitMetric]; [core_opCountMetric]];
  mret (mkCoreClient [] [] []).

Definition txDurationMetric : Opts :=
  mkOpts MetricsNamespace "transactions" "operation_duration_seconds" "transaction store operation durations, sliding window = 10m" ["operation"]%string.
Definition txCountMetric : Opts :=
  mkOpts MetricsNamespace "transactions" "count" "count of transactions ingested, sliding window = 10m" [].
Definition NewReadWriter (historyRetentionWindow : Z) (networkPassphrase : string) : st Registry readWriter :=
  _ ← MustRegister [[txDurationMetric]; [txCountMetric]];
  mret (mkReadWriter historyRetentionWindow networkPassphrase).

Definition ingestionDurationMetric : Opts :=
  mkOpts MetricsNamespace "ingest" "ledger_ingestion_duration_seconds" "ledger ingestion durations, sliding window = 10m" ["type"]%string.
Definition latestLedgerMetric : Opts :=
  mkOpts MetricsNamespace "ingest" "local_latest_ledger" "sequence number of the latest ledger ingested by this ingesting instance" [].
Definition ledgerStatsMetric : Opts :=
  mkOpts MetricsNamespace "ingest" "ledger_stats_total" "counters of different ledger stats" ["type"]%string.

Definition requestQueueMetric : Opts :=
  mkOpts MetricsNamespace "preflight_pool" "queue_length" "number of preflight requests in the queue" [].
Definition concurrentRequestsMetric : Opts :=
  mkOpts MetricsNamespace "preflight_pool" "concurrent_requests" "number of preflight requests currently running" [].
Definition errorFullCounter : Opts :=
  mkOpts MetricsNamespace "preflight_pool" "queue_full_errors" "number of preflight full queue errors" [].
Definition durationMetric : Opts :=
  mkOpts MetricsNamespace "preflight_pool" "request_ledger_get_duration_seconds" "preflight request duration broken down by status" ["status"; "type"]%string.
Definition ledgerEntriesFetchedMetric : Opts :=
  mkOpts MetricsNamespace "preflight_pool" "request_ledger_entries_fetched" "ledger entries fetched by simulate transaction calls" [].
Definition NewPreflightWorkerPool (workers queue : nat) : st Registry (nat -> nat -> WorkerPool) :=
  _ ← MustRegister [[requestQueueMetric]; [concurrentRequestsMetric]; [errorFullCounter]; [durationMetric]; [ledgerEntriesFetchedMetric]];
  mret (PreflightPool.NewPreflightWorkerPool workers queue).

Definition requestMetric : Opts :=
  mkOpts MetricsNamespace "json_rpc" "request_duration_seconds" "JSON RPC request duration" ["endpoint"; "status"]%string.
Definition decorateHandlers : st Registry unit := MustRegister [[requestMetric]].

Definition buildInfoGauge : Opts :=
  mkOpts PrometheusNamespace "build" "info" "" ["version"; "goversion"; "commit"; "branch"; "build_timestamp"]%string.
Definition registerMetrics : st Registry unit :=
  _ ← MustRegister ((fun counter => [counter]) <$> logmetrics_New PrometheusNamespace);
  _ ← MustRegister [GoCollector];
  _ ← MustRegister [ProcessCollector];
  MustRegister [[buildInfoGauge]].

(** ** The metrics of the limiters *)

Section Limiters.
Context {CL : ConfigLib}.

(** A gauge and two counters for each endpoint. *)
Definition queueLimiterGauge (handler : endpoint) : Opts :=
  mkOpts MetricsNamespace "network" (longName handler +:+ "_inflight_requests")
    ("Number of concurrenty in-flight " +:+ methodName handler +:+ " requests") [].
Definition requestDurationWarnCounter (handler : endpoint) : Opts :=
  mkOpts MetricsNamespace "network" (longName handler +:+ "_execution_threshold_warning")
    ("The metric measures the count of " +:+ methodName handler +:+ " requests that surpassed the warning threshold for execution time") [].
Definition requestDurationLimitCounter (handler : endpoint) : Opts :=
  mkOpts MetricsNamespace "network" (longName handler +:+ "_execution_threshold_limit")
    ("The metric measures the count of " +:+ methodName handler +:+ " requests that surpassed the limit threshold for execution time") [].
Definition endpoint_metrics (handler : endpoint) : list Opts :=
  [queueLimiterGauge handler; requestDurationWarnCounter handler; requestDurationLimitCounter handler].
(** Those of the whole server. *)
Definition globalQueueRequestBacklogLimiter : Opts :=
  mkOpts MetricsNamespace "network" "global_inflight_requests" "Number of concurrenty in-flight http requests" [].
Definition globalQueueRequestExecutionDurationWarningCounter : Opts :=
  mkOpts MetricsNamespace "network" "global_request_execution_duration_threshold_warning"
    "The metric measures the count of requests that surpassed the warning threshold for execution time" [].
Definition globalQueueRequestExecutionDurationLimitCounter : Opts :=
  mkOpts MetricsNamespace "network" "global_request_execution_duration_threshold_limit"
    "The metric measures the count of requests that surpassed the limit threshold for execution time" [].
Definition limiter_metrics (cfg : Config) : list Opts :=
  concat (endpoint_metrics <$> handlers cfg) ++
  [globalQueueRequestBacklogLimiter; globalQueueRequestExecutionDurationWarningCounter; globalQueueRequestExecutionDurationLimitCounter].

(** The handler registers the metric of the requests only. *)
Definition NewJSONRPCHandler (cfg : Config) : st Registry Handler :=
  _ ← decorateHandlers;
  mret (Rpc.NewJSONRPCHandler cfg).
End Limiters.

(** ** The daemon *)

Section Start.
Context {CL : ConfigLib}.
Context `{V : ScVals} {D : Ledgers} {Drv : Driver} {T : Toid} {X : XdrConsts} {B : LedgerBackend}.
Context {Mc : Machine CL DB}.
Notation Windows := (LedgerBucketWindow (list Z)).

(** [db.OpenSQLiteDBWithPrometheusMetrics] *)
Definition mustOpenDatabase (cfg : Config) : st Registry DB :=
  session ← lift (Start.mustOpenDatabase cfg);
  _ ← MustRegister ((fun m => [m]) <$> db_metrics PrometheusNamespace "db");
  mret session.

Definition createIngestService (cfg : Config) (feewindows : State (W := Windows)) : st Registry (readWriter * Service (W := Windows)) :=
  _ ← NewReadWriter (uint_field cfg "HistoryRetentionWindow") (string_field cfg "NetworkPassphrase");
  _ ← MustRegister [[ingestionDurationMetric]; [latestLedgerMetric]; [ledgerStatsMetric]];
  mret (Start.createIngestService cfg feewindows).

(** [MustNew] again, over the registry it creates. *)
Definition MustNew (cfg : Config) (order : list string) : st Registry Node :=
  core ← lift (mustCreateCaptiveCore cfg);
  _ ← lift (mustCreateHistoryArchive cfg);
  db ← mustOpenDatabase cfg;
  _ ← newCoreClientWithMetrics;
  let '(r, feewindows) := mustInitializeStorage (storage_config cfg) order db in
  _ ← lift r;
  _ ← lift (if bool_field cfg "ServeLedgersFromDatastore" then mustCreateDataStore cfg else Ok tt);
  service ← createIngestService cfg feewindows;
  pool ← NewPreflightWorkerPool (Z.to_nat (uint_field cfg "PreflightWorkerCount")) (Z.to_nat (uint_field cfg "PreflightWorkerQueueSize"));
  handler ← NewJSONRPCHandler cfg;
  servers ← lift (setupHTTPServers cfg);
  _ ← registerMetrics;
  mret (mkNode core (createStellarCoreClient cfg) (createHighperfStellarCoreClient cfg)
    (bool_field cfg "ServeLedgersFromDatastore") service pool handler servers.1 servers.2).
End Start.
End Metrics.

(** ** Names *)

(** What is relied on of [prometheus]: a full name joins its parts; a registry takes
    a collector whose names are new; the collectors of other packages describe
    distinct names under a prefix of their own. *)
Class PrometheusLaws (Pr : Prometheus) := {
  fq_join ns sub name : ns <> ""%string -> sub <> ""%string -> name <> ""%string ->
    BuildFQName ns sub name = (ns +:+ "_" +:+ sub +:+ "_" +:+ name)%string;
  registered_new : registered NewRegistry = [];
  register_new c r : NoDup (fqName <$> registered r ++ c) ->
    exists r', Register c r = Ok r' /\ registered r' = registered r ++ c;
  go_names : NoDup (fqName <$> GoCollector) /\ Forall (fun o => HasPrefix (fqName o) "go_" = true) GoCollector;
  process_names : NoDup (fqName <$> ProcessCollector) /\ Forall (fun o => HasPrefix (fqName o) "process_" = true) ProcessCollector;
  log_names ns : NoDup (fqName <$> logmetrics_New ns) /\ Forall (fun o => HasPrefix (fqName o) (ns +:+ "_log_") = true) (logmetrics_New ns);
  db_names ns sub : NoDup (fqName <$> db_metrics ns sub) /\
    Forall (fun o => HasPrefix (fqName o) (ns +:+ "_" +:+ sub +:+ "_") = true) (db_metrics ns sub);
}.

Lemma HasPrefix_both s p q : HasPrefix s p = true -> HasPrefix s q = true -> HasPrefix p q = true \/ HasPrefix q p = true.
Proof.
  revert p q. induction s as [|c s IH]; intros [|a p] [|b q]; cbn; try (by auto); try done.
  intros [->%Ascii.eqb_eq Hp]%andb_prop [->%Ascii.eqb_eq Hq]%andb_prop. rewrite Ascii.eqb_refl. by apply IH.
Qed.

Section Names.
Context {Pr : Prometheus} {PL : PrometheusLaws Pr} {CL : ConfigLib}.

Definition own_metrics : list Opts :=
  [core_submitMetric; core_opCountMetric; txDurationMetric; txCountMetric;
   ingestionDurationMetric; latestLedgerMetric; ledgerStatsMetric;
   requestQueueMetric; concurrentRequestsMetric; errorFullCounter; durationMetric; ledgerEntriesFetchedMetric;
   requestMetric].
(** Everything a start registers, in its order. *)
Definition all_metrics : list Opts :=
  db_metrics PrometheusNamespace "db" ++ own_metrics ++ logmetrics_New PrometheusNamespace ++ GoCollector ++
  ProcessCollector ++ [buildInfoGauge].

Definition full_name (o : Opts) : string := (Namespace o +:+ "_" +:+ Subsystem o +:+ "_" +:+ Name o)%string.
Definition has_parts (o : Opts) : bool :=
  negb (String.eqb (Namespace o) "") && negb (String.eqb (Subsystem o) "") && negb (String.eqb (Name o) "").
Lemma fqName_full o : has_parts o = true -> fqName o = full_name o.
Proof.
  unfold has_parts. rewrite !andb_true_iff, !negb_true_iff, !String.eqb_neq. intros [[? ?] ?]. by apply fq_join.
Qed.
Lemma fqNames_full l : forallb has_parts l = true -> fqName <$> l = full_name <$> l.
Proof.
  induction l as [|o l IH]; [done|]. intros [Ho Hl]%andb_prop. rewrite !fmap_cons. by rewrite fqName_full, IH.
Qed.

(** Collectors of other packages, each with its prefix. *)
Definition families : list (string * list Opts) :=
  [(PrometheusNamespace +:+ "_db_", db_metrics PrometheusNamespace "db");
   (PrometheusNamespace +:+ "_log_", logmetrics_New PrometheusNamespace);
   ("go_", GoCollector); ("process_", ProcessCollector)]%string.
Definition family_ok (f : string * list Opts) : Prop :=
  NoDup (fqName <$> f.2) /\ Forall (fun o => HasPrefix (fqName o) f.1 = true) f.2.
Lemma families_ok : Forall family_ok families.
Proof. unfold families. repeat apply Forall_cons_2; [apply db_names|apply log_names|apply go_names|apply process_names|apply Forall_nil_2]. Qed.

(** No prefix is the beginning of another one, or of a name of the rest. *)
Fixpoint prefixes_apart (ps : list string) (rest : list string) : bool :=
  match ps with
  | [] => true
  | p :: ps' => forallb (fun q => negb (HasPrefix p q) && negb (HasPrefix q p)) ps' &&
      forallb (fun n => negb (HasPrefix n p)) rest && prefixes_apart ps' rest
  end.
Lemma families_NoDup fs rest : Forall family_ok fs -> NoDup (fqName <$> rest) ->
  prefixes_apart (fst <$> fs) (fqName <$> rest) = true -> NoDup (fqName <$> concat (snd <$> fs) ++ rest).
Proof.
  induction 1 as [|[p c] fs [Hn Hp] Hfs IH]; intros Hr Ha; [done|]. cbn [fst snd fmap list_fmap concat] in *.
  cbn [prefixes_apart] in Ha. apply andb_prop in Ha as [[Hq Hrest]%andb_prop Ha].
  rewrite <- (assoc_L (++)), fmap_app. apply NoDup_app. split_and!; [done| |by apply IH].
  intros n (o & -> & Ho)%list_elem_of_fmap Hin. rewrite Forall_forall in Hp. specialize (Hp o Ho).
  rewrite forallb_forall in Hq, Hrest. rewrite fmap_app, elem_of_app in Hin. destruct Hin as [(o' & E & Ho')%list_elem_of_fmap|Hin].
  - apply list_elem_of_In, in_concat in Ho' as (c' & Hc' & Ho'). apply list_elem_of_In, list_elem_of_fmap in Hc' as ([q c2] & -> & Hf).
    rewrite Forall_forall in Hfs. destruct (Hfs _ Hf) as [_ Hq']. rewrite Forall_forall in Hq'. cbn in Hq', Ho'.
    specialize (Hq' o' (proj2 (list_elem_of_In _ _) Ho')). rewrite <- E in Hq'.
    assert (In q (fst <$> fs)) as Hin by (apply list_elem_of_In, list_elem_of_fmap; by exists (q, c2)).
    specialize (Hq q Hin). destruct (HasPrefix_both _ _ _ Hp Hq') as [H1|H1]; rewrite H1 in Hq; cbn in Hq; [done|].
    by rewrite andb_false_r in Hq.
  - specialize (Hrest _ (proj1 (list_elem_of_In _ _) Hin)). by rewrite Hp in Hrest.
Qed.

(** The names of the limiters, which nobody registers, are apart too. *)
Lemma own_names cfg : NoDup (full_name <$> own_metrics ++ limiter_metrics cfg ++ [buildInfoGauge]).
Proof. apply (bool_decide_unpack _). vm_compute. exact I. Qed.

Lemma all_with_limiters cfg : NoDup (fqName <$> all_metrics ++ limiter_metrics cfg).
Proof.
  assert (all_metrics ++ limiter_metrics cfg ≡ₚ
    concat (snd <$> families) ++ own_metrics ++ limiter_metrics cfg ++ [buildInfoGauge]) as ->.
  { unfold all_metrics, families. cbn [fmap list_fmap concat snd]. rewrite app_nil_r, <- !(assoc_L (++)).
    apply Permutation_app_head. rewrite (Permutation_app_comm [buildInfoGauge]).
    do 3 (rewrite (Permutation_app_swap_app own_metrics); apply Permutation_app_head). done. }
  assert (fqName <$> own_metrics ++ limiter_metrics cfg ++ [buildInfoGauge] =
          full_name <$> own_metrics ++ limiter_metrics cfg ++ [buildInfoGauge]) as E.
  { apply fqNames_full. vm_compute. reflexivity. }
  apply families_NoDup; [apply families_ok|rewrite E; apply own_names|]. rewrite E. vm_compute. reflexivity.
Qed.

(** ** Registration *)

Lemma MustRegister_new cs r : NoDup (fqName <$> registered r ++ concat cs) ->
  exists r', MustRegister cs r = (Ok tt, r') /\ registered r' = registered r ++ concat cs.
Proof.
  revert r. induction cs as [|c cs IH]; intros r Hn; [exists r; by rewrite app_nil_r|]. cbn [concat MustRegister] in *.
  rewrite (assoc_L (++)) in Hn. destruct (register_new c r) as (r1 & -> & E1).
  { rewrite fmap_app in Hn. apply NoDup_app in Hn as (Hn & _ & _). exact Hn. }
  destruct (IH r1) as (r' & Hr' & E'); [by rewrite E1|]. exists r'. by rewrite Hr', E', E1, <- (assoc_L (++)).
Qed.

(** From a registry that holds [done_], the call ends as [r], and when that is a
    result it leaves a registry that holds all metrics. *)
Definition registers {A} (done_ : list Opts) (call : st Registry A) (r : go A) : Prop := forall reg,
  registered reg = done_ -> exists reg', call reg = (r, reg') /\ (is_ok r = true -> registered reg' = all_metrics).

Lemma registers_ret {A} (a : A) : registers all_metrics (mret a) (Ok a).
Proof. intros reg Hr. by exists reg. Qed.
Lemma registers_lift {A C} done_ (m : go A) (f : A -> st Registry C) (g : A -> go C) :
  (forall a, registers done_ (f a) (g a)) -> registers done_ (lift m ≫= f) (m ≫= g).
Proof. intros Hf reg Hr. destruct m as [a|e|p]; [by apply Hf|by exists reg..]. Qed.
Lemma registers_assoc {A C E} done_ (m : st Registry A) (g : A -> st Registry C) (f : C -> st Registry E) r :
  registers done_ (m ≫= fun a => g a ≫= f) r -> registers done_ ((m ≫= g) ≫= f) r.
Proof.
  intros Hm reg Hr. destruct (Hm reg Hr) as (reg' & E1 & H1). exists reg'. split; [|done]. rewrite <- E1.
  unfold mbind, st_bind. by destruct (m reg) as [[] ?].
Qed.
(** A group of collectors that is next among all of them. *)
Lemma registers_next {A} cs rest done_ (f : unit -> st Registry A) r :
  all_metrics = done_ ++ concat cs ++ rest -> registers (done_ ++ concat cs) (f tt) r ->
  registers done_ (MustRegister cs ≫= f) r.
Proof.
  intros Hall Hf reg Hr. destruct (MustRegister_new cs reg) as (reg1 & E1 & H1).
  { pose proof (all_with_limiters ∅) as Hn. rewrite Hall, (assoc_L (++) done_), <- (assoc_L (++)), fmap_app in Hn.
    rewrite Hr. by apply NoDup_app in Hn as (Hn & _ & _). }
  rewrite (st_bind_eq _ _ _ _ _ E1). apply Hf. by rewrite H1, Hr.
Qed.
Lemma concat_one {A} (l : list A) : concat [l] = l.
Proof. apply app_nil_r. Qed.
Lemma concat_singletons {A} (l : list A) : concat ((fun x => [x]) <$> l) = l.
Proof. induction l as [|x l IH]; [done|]. cbn. by rewrite IH. Qed.

(** The next component's metrics, and what follows them. *)
Ltac next_metrics := repeat apply registers_assoc; eapply registers_next;
  [rewrite ?concat_singletons, ?concat_one, <- ?(assoc_L (++)); reflexivity|]; rewrite ?concat_singletons, ?concat_one; cbn beta.
Ltac ret_step := repeat apply registers_assoc; change (mret ?a ≫= ?f) with (f a); cbn beta.

(** ** The start *)

Context `{V : ScVals} {D : Ledgers} {Drv : Driver} {T : Toid} {X : XdrConsts} {B : LedgerBackend}.
Context {Mc : Machine CL DB}.

(** C39: Registering metrics never keeps the server from starting: over a fresh
    registry the daemon is, or fails with, what [MustNew] without metrics is, no
    registration panics, and a daemon that starts has registered every metric of its
    components under a name of its own; the metrics of the limiters are not among
    them. *)
Theorem metrics_registered cfg order :
  exists reg, MustNew cfg order NewRegistry = (Start.MustNew cfg order, reg) /\
    (is_ok (Start.MustNew cfg order) = true ->
      registered reg = all_metrics /\ NoDup (fqName <$> registered reg) /\
      forall o, o ∈ limiter_metrics cfg -> fqName o ∉ fqName <$> registered reg).
Proof.
  assert (registers [] (MustNew cfg order) (Start.MustNew cfg order)) as Hm.
  { unfold MustNew, Start.MustNew. apply registers_lift. intros core. apply registers_lift. intros [].
    unfold mustOpenDatabase. apply registers_assoc, registers_lift. intros db. next_metrics. ret_step.
    unfold newCoreClientWithMetrics. next_metrics. ret_step. destruct (mustInitializeStorage _ _ _) as [r feewindows].
    apply registers_lift. intros []. apply registers_lift. intros [].
    unfold createIngestService, NewReadWriter. next_metrics. ret_step. next_metrics. ret_step.
    unfold NewPreflightWorkerPool. next_metrics. ret_step.
    unfold NewJSONRPCHandler, decorateHandlers. next_metrics. ret_step.
    apply registers_lift. intros servers. unfold registerMetrics. do 4 next_metrics.
    replace (_ ++ _) with all_metrics; [apply registers_ret|]. by rewrite <- !(assoc_L (++)). }
  destruct (Hm NewRegistry registered_new) as (reg & E & Hreg). exists reg. split; [done|]. intros Hok. rewrite (Hreg Hok).
  pose proof (all_with_limiters cfg) as Hn. rewrite fmap_app in Hn. apply NoDup_app in Hn as (Hn & Hlim & _).
  split_and!; [done..|]. intros o Ho Hin. apply (Hlim _ Hin). by apply list_elem_of_fmap_2.
Qed.
End Names.

(** ** At a concrete registry *)

(** A registry that is the list of what it holds; the other packages' collectors
    have a metric each. *)
Definition join_name (ns sub name : string) : string := (ns +:+ "_" +:+ sub +:+ "_" +:+ name)%string.
#[export] Instance list_registry : Prometheus := {
  Registry := list Opts;
  NewRegistry := [];
  Register c r := if bool_decide (NoDup ((fun o => join_name (Namespace o) (Subsystem o) (Name o)) <$> r ++ c))
                  then Ok (r ++ c) else Er (EExt "duplicate metrics collector registration attempted");
  registered r := r;
  BuildFQName := join_name;
  GoCollector := [mkOpts "go" "gc" "duration_seconds" "" []]%string;
  ProcessCollector := [mkOpts "process" "cpu" "seconds_total" "" []]%string;
  logmetrics_New ns := [mkOpts ns "log" "error_total" "" []]%string;
  db_metrics ns sub := [mkOpts ns sub "query_total" "" []]%string;
}.
Lemma HasPrefix_app p s : HasPrefix (p +:+ s) p = true.
Proof. induction p as [|c p IH]; [by destruct s|]. rewrite str_app_cons. cbn. by rewrite Ascii.eqb_refl. Qed.
#[export] Instance list_registry_laws : PrometheusLaws list_registry.
Proof.
  constructor; try done.
  - intros c r Hn. exists (r ++ c). split; [|done]. cbn. by rewrite bool_decide_eq_true_2 by exact Hn.
  - split; [apply NoDup_singleton|]. by constructor.
  - split; [apply NoDup_singleton|]. by constructor.
  - intros ns. split; [apply NoDup_singleton|]. constructor; [|constructor]. cbn. unfold join_name.
    replace (ns +:+ "_" +:+ "log" +:+ "_" +:+ "error_total")%string with ((ns +:+ "_log_") +:+ "error_total")%string
      by (by rewrite str_app_assoc). apply HasPrefix_app.
  - intros ns sub. split; [apply NoDup_singleton|]. constructor; [|constructor]. cbn. unfold join_name.
    replace (ns +:+ "_" +:+ sub +:+ "_" +:+ "query_total")%string with ((ns +:+ "_" +:+ sub +:+ "_") +:+ "query_total")%string
      by (by rewrite !str_app_assoc). apply HasPrefix_app.
Qed.

Lemma metrics_registered_witness : exists reg,
  MustNew (Mc := sample_machine sample_db) sample_config [eventsMigrationName; transactionsMigrationName] NewRegistry =
    (Start.MustNew (Mc := sample_machine sample_db) sample_config [eventsMigrationName; transactionsMigrationName], reg) /\
  (is_ok (Start.MustNew (Mc := sample_machine sample_db) sample_config [eventsMigrationName; transactionsMigrationName]) = true ->
    registered reg = all_metrics /\ NoDup (fqName <$> registered reg) /\
    forall o, o ∈ limiter_metrics sample_config -> fqName o ∉ fqName <$> registered reg).
Proof. apply (metrics_registered (Pr := list_registry) (Mc := sample_machine sample_db)). Defined.
