(* ===== verification/Restart.v ===== *)
(** * Stopping and starting again

    The database file a node leaves is one it can be started on: start-up,
    ingestion and start-up composed. *)

From S2P Require Import Prelude GoStd GoTime Externals Cursor Protocol Filters BucketWindow LedgerMeta FeeWindow Store LedgerStore EventStore TxStore WriteTx Ingest Migration Daemon Config ConfigLoad Options Rpc GetTransactions System Start.

Section Restart.
Context {CL : ConfigLib}.
Context `{V : ScVals} {D : Ledgers} {Drv : Driver} {T : Toid} {X : XdrConsts} {B : LedgerBackend}.
Context {passphrase : string} {L : LedgersLaws D passphrase} {TL : ToidLaws T} {BL : LedgerBackendLaws B}.

(** The ledgers [lcms] the network closes after [ls], as the backend has them. *)
Record network_next (ls : list LedgerCloseMeta) (next : Z) (lcms : list LedgerCloseMeta) : Prop := {
  nn_next l : last ls = Some l -> next = LedgerSequence l + 1;
  nn_bounds : 2 <= next /\ next + zlen lcms < 2147483647;
  nn_archive : ls = [] -> archive_GetRootHAS = Ok next;
  nn_prepare : backend_PrepareRange next = Ok tt;
  nn_backend i l : lcms !! i = Some l -> backend_GetLedger (next + Z.of_nat i) = Ok l;
  nn_batch : batch_ok (passphrase := passphrase) (ls ++ lcms);
}.

Lemma started_live {Mc : Machine CL DB} cfg ls node next lcms : no_driver_errors -> node_ready (passphrase := passphrase) cfg ls node ->
  network_next ls next lcms -> zlen ls <= uint_field cfg "HistoryRetentionWindow" ->
  live_run (passphrase := passphrase) (ingestService node).1 (ingestService node).2 ls next lcms.
Proof.
  intros Hd Hnode [Hnext [Hn Hmax] Harch Hprep Hb Hbatch] Hlen.
  destruct (nr_storage _ _ _ Hnode) as (st & Hinit & Eserv).
  pose proof (nr_service _ _ _ Hnode next ltac:(lia) Hnext) as Hserv.
  destruct Hbatch as [Hfine Hseq _ Hkeys Hfees Hbound]. apply Forall_app in Hfine as [_ Hfine], Hseq as [Hseq _], Hfees as [_ Hfees].
  constructor; try done.
  - rewrite Eserv. cbn. unfold zlen in Hlen. lia.
  - split; [lia|done].
  - apply Forall_forall. intros l Hl. rewrite Forall_forall in Hfine, Hfees. split; [by apply Hfine|by apply Hfees].
  - destruct (in_fees _ _ _ Hinit) as (_ & _ & Hheld). rewrite Eserv. cbn [createIngestService snd svc_feeWindows].
    change (fees_held (mkFeeWindows _ _ _ tt)) with (fees_held st).
    rewrite fmap_app, concat_app in Hbound. unfold zlen in Hheld, Hbound |- *. rewrite length_app in Hbound.
    pose proof (length_concat_filter ledger_txs (fun l => IsLedgerIncluded (range_for
      (Z.max (ClassicFeeStatsLedgerRetentionWindow (storage_config cfg)) (SorobanFeeStatsLedgerRetentionWindow (storage_config cfg))) ls)
      (LedgerSequence l)) ls). lia.
  - eapply Forall_impl; [exact Hseq|]. cbn. lia.
Qed.

(** The file after any number of ledgers can be opened by another start. *)
Lemma file_restartable {Mc : Machine CL DB} cfg ls node next lcms s' : node_ready (passphrase := passphrase) cfg ls node ->
  network_next ls next lcms -> 0 < uint_field cfg "HistoryRetentionWindow" -> fits_database (passphrase := passphrase) cfg ls ->
  service_ok (passphrase := passphrase) (ingestService node).1 s' (kept (ingestService node).1 (ls ++ lcms)) (next + zlen lcms) ->
  metadata (disk (svc_db s')) = metadata (disk (svc_db (ingestService node).2)) ->
  stored_state (passphrase := passphrase) (OpenSQLiteDB (disk (svc_db s'))) (kept (ingestService node).1 (ls ++ lcms)) /\
  fits_database (passphrase := passphrase) cfg (kept (ingestService node).1 (ls ++ lcms)).
Proof.
  intros Hnode Hnet Hret Hfits Hok Hmd. destruct (nr_storage _ _ _ Hnode) as (st & Hinit & Eserv). rewrite Eserv in *.
  cbn [createIngestService fst snd svc_db] in *. pose proof (so_rep _ _ _ _ Hok) as [Hk Hl Htx Hev].
  split.
  - constructor; cbn [OpenSQLiteDB disk sess_tx]; try done.
    + by left.
    + apply batch_ok_drop, (nn_batch _ _ _ Hnet).
    + right. rewrite Hmd. split; [apply (in_tx_done _ _ _ Hinit)|exact Htx].
    + right. rewrite Hmd. split; [apply (in_ev_done _ _ _ Hinit)|exact Hev].
  - destruct Hfits as [Hp Hs _]. constructor; [done..|]. unfold kept, lastn, zlen. cbn. rewrite length_drop. lia.
Qed.

(** C5: A node resumes where it stopped.  Started on a database with the ledgers
    [ls], it ingests the next [n] ledgers of the network, for any [n]; another
    start on the file it leaves, on any machine and with any order of migrations,
    succeeds and has a service over the retained ledgers of both, ready for the
    ledger after them: no ledger is lost, ingested twice or indexed twice. *)
Theorem restart_resumes {Mc : Machine CL DB} sys s opts cfg order order' w ls toml next lcms :
  AddFlags [] (options sys) = Ok opts -> SetValues s opts ∅ = Ok cfg -> (Options_Validate opts cfg).2 = None ->
  no_driver_errors -> order ≡ₚ [transactionsMigrationName; eventsMigrationName] ->
  order' ≡ₚ [transactionsMigrationName; eventsMigrationName] ->
  let cfg' := (Options_Validate opts cfg).1 in
  let retained := lastn (Z.to_nat (uint_field cfg' "HistoryRetentionWindow")) (ls ++ lcms) in
  machine_ready (Mc := Mc) cfg' w toml -> stored_state (passphrase := passphrase) w ls ->
  fits_database (passphrase := passphrase) cfg' ls -> fee_windows_fit cfg' -> network_next ls next lcms ->
  exists node stopped, root_command (Mc := Mc) sys s order = Ok node /\
    run (ingestService node).1 (length lcms) (ingestService node).2 = (Ok tt, stopped) /\
    (forall (Mc' : Machine CL DB) toml', machine_ready (Mc := Mc') cfg' (OpenSQLiteDB (disk (svc_db stopped))) toml' ->
     exists node', root_command (Mc := Mc') sys s order' = Ok node' /\
       represents (passphrase := passphrase) (disk (svc_db (ingestService node').2)) retained /\
       service_ok (passphrase := passphrase) (ingestService node').1 (ingestService node').2 retained (next + zlen lcms)).
Proof.
  intros Hflags Hl Hv Hd Horder Horder' cfg' retained Hm Hst Hfits Hfit Hnet.
  destruct (root_command_accepted (Mc := Mc) sys s opts cfg order Hflags Hl Hv) as [-> Hsf].
  pose proof (fun Mc' : Machine CL DB => proj1 (root_command_accepted sys s opts cfg order' Hflags Hl Hv)) as Hagain.
  fold cfg' in Hsf, Hagain |- *. clearbody cfg'.
  destruct (MustNew_starts (Mc := Mc) cfg' order w ls toml) as (node & Hnode & Hready); try done. exists node.
  destruct (live_run_ends _ _ _ _ _ (started_live cfg' ls node next lcms Hd Hready Hnet (fd_length _ _ Hfits))) as (s' & Hrun & Hok & Hmd).
  exists s'. split_and!; [done|done|]. intros Mc' toml' Hm'. rewrite Hagain.
  destruct (file_restartable cfg' ls node next lcms s' Hready Hnet) as [Hst' Hfits']; try done; [apply (sf_history _ Hsf)|].
  assert (kept (ingestService node).1 (ls ++ lcms) = retained) as Ek.
  { destruct (nr_storage _ _ _ Hready) as (st & _ & ->). done. }
  rewrite Ek in *. destruct (MustNew_starts (Mc := Mc') cfg' order' (OpenSQLiteDB (disk (svc_db s'))) retained toml') as (node' & Hnode' & Hready'); try done.
  exists node'. assert (service_ok (passphrase := passphrase) (ingestService node').1 (ingestService node').2 retained (next + zlen lcms)) as Hok'.
  { apply (nr_service _ _ _ Hready'); [destruct (nn_bounds _ _ _ Hnet); unfold zlen; lia|apply (so_next _ _ _ _ Hok)]. }
  split_and!; [done|apply (so_rep _ _ _ _ Hok')|done].
Qed.
End Restart.

(** ** A node stopped and started again *)

Definition empty_file : @DB toy_scvals toy_ledgers := OpenSQLiteDB no_tables.

Lemma empty_stored : stored_state (passphrase := "net") empty_file [].
Proof.
  constructor.
  - reflexivity.
  - intros k l Hk. exact (rep_keyed _ _ (represents_empty (passphrase := "net")) k l Hk).
  - reflexivity.
  - by left.
  - constructor; try apply Forall_nil_2; [intros i a b Ha; discriminate Ha|apply NoDup_nil_2|reflexivity].
  - left. reflexivity.
  - left. split; reflexivity.
Qed.

Lemma restart_resumes_witness : exists node stopped,
  root_command (Mc := sample_machine empty_file) sample_system sample_sources [eventsMigrationName; transactionsMigrationName] = Ok node /\
  run (ingestService node).1 3 (ingestService node).2 = (Ok tt, stopped) /\
  exists node', root_command (Mc := sample_machine (OpenSQLiteDB (disk (svc_db stopped)))) sample_system sample_sources
      [transactionsMigrationName; eventsMigrationName] = Ok node' /\
    service_ok (passphrase := "net") (T := sep35) (ingestService node').1 (ingestService node').2
      [sample_ledger 7; sample_ledger 8; sample_ledger 9] 10.
Proof.
  destruct (restart_resumes (Mc := sample_machine empty_file) (passphrase := "net") (BL := sample_backend_laws) sample_system sample_sources
    sample_options sample_config [eventsMigrationName; transactionsMigrationName] [transactionsMigrationName; eventsMigrationName]
    empty_file [] "core.cfg"%string 7 [sample_ledger 7; sample_ledger 8; sample_ledger 9] sample_options_ok sample_config_ok)
    as (node & stopped & Hstart & Hrun & Hagain).
  - vm_compute. reflexivity.
  - intros n t. reflexivity.
  - apply perm_swap.
  - reflexivity.
  - apply sample_machine_ready.
  - apply empty_stored.
  - constructor; vm_compute; [reflexivity|split; reflexivity|discriminate].
  - vm_compute. discriminate.
  - constructor; [intros l Hl; discriminate Hl|vm_compute; split; [discriminate|reflexivity]|reflexivity|reflexivity| |apply sample_batch].
    intros [|[|[|i]]] l Hl; simpl in Hl; simplify_eq; reflexivity.
  - exists node, stopped. split; [exact Hstart|]. split; [exact Hrun|].
    destruct (Hagain (sample_machine (OpenSQLiteDB (disk (svc_db stopped)))) "core.cfg"%string) as (node' & Hnode' & _ & Hok).
    { apply sample_machine_ready. }
    exists node'. split; [exact Hnode'|]. exact Hok.
Defined.
