(* ===== verification/Client.v ===== *)
(** * The Go client: [client/main.go]

    A client holds one connection of [jrpc2] and replaces it after any failed
    call; calls and [Close] share it under a read-write mutex.  Any number of
    calls and of [Close]s run interleaved, one operation of the mutex, of the
    connection or of the field at a time.  Whether a call succeeds is left open. *)

From S2P Require Import Prelude Externals Protocol Filters LedgerMeta Handlers GetEvents GetTransactions GetLedgers LedgerEntries Submit Simulate.

(** The connections made so far, whether each is closed; the field [cli]; the mutex. *)
Record Client := mkClient {
  conns : list bool;
  cli : option nat;
  readers : Z;
  writer : bool;
}.

Definition set_conns (l : list bool) (c : Client) : Client := mkClient l (cli c) (readers c) (writer c).
Definition set_cli (i : nat) (c : Client) : Client := mkClient (conns c) (Some i) (readers c) (writer c).
Definition set_readers (z : Z) (c : Client) : Client := mkClient (conns c) (cli c) z (writer c).
Definition set_writer (b : bool) (c : Client) : Client := mkClient (conns c) (cli c) (readers c) b.

(** [jrpc2.NewClient] and [jrpc2.Client.Close] *)
Definition new_conn (c : Client) : nat * Client := (length (conns c), set_conns (conns c ++ [false]) c).
Definition close_conn (i : nat) (c : Client) : Client := set_conns (<[i := true]> (conns c)) c.
(** [if c.cli != nil { c.cli.Close() }] *)
Definition close_old (c : Client) : Client := match cli c with Some i => close_conn i c | None => c end.

(** Where a goroutine is: in [callResult], in [refreshClient] after a failed
    call, or in [Close]. *)
Inductive thread :=
  | CallStart
  | CallLocked
  | Calling (i : nat)
  | CallReturned (failed : bool)
  | RefreshStart
  | RefreshMade (i : nat)
  | RefreshLocked (i : nat)
  | RefreshClosed (i : nat)
  | RefreshInstalled
  | CallDone (failed : bool)
  | CloseStart
  | CloseLocked
  | CloseReturned
  | CloseDone
  | Panicked.

(** One step of a goroutine.  A read lock is granted when no writer holds the
    mutex, the write lock when nobody does. *)
Inductive thread_step (c : Client) : thread -> Client -> thread -> Prop :=
  | call_RLock : writer c = false -> thread_step c CallStart (set_readers (readers c + 1) c) CallLocked
  | call_begin i : cli c = Some i -> thread_step c CallLocked c (Calling i)
  | call_nil : cli c = None -> thread_step c CallLocked c Panicked
  | call_end i failed : thread_step c (Calling i) c (CallReturned failed)
  | call_RUnlock failed : thread_step c (CallReturned failed) (set_readers (readers c - 1) c)
      (if failed then RefreshStart else CallDone false)
  | refresh_make : thread_step c RefreshStart (new_conn c).2 (RefreshMade (new_conn c).1)
  | refresh_Lock i : writer c = false -> readers c = 0 -> thread_step c (RefreshMade i) (set_writer true c) (RefreshLocked i)
  | refresh_close i : thread_step c (RefreshLocked i) (close_old c) (RefreshClosed i)
  | refresh_install i : thread_step c (RefreshClosed i) (set_cli i c) RefreshInstalled
  | refresh_Unlock : thread_step c RefreshInstalled (set_writer false c) (CallDone true)
  | close_RLock : writer c = false -> thread_step c CloseStart (set_readers (readers c + 1) c) CloseLocked
  | close_conn_step i : cli c = Some i -> thread_step c CloseLocked (close_conn i c) CloseReturned
  | close_nil : cli c = None -> thread_step c CloseLocked c Panicked
  | close_RUnlock : thread_step c CloseReturned (set_readers (readers c - 1) c) CloseDone.

Definition system : Type := Client * list thread.
Inductive step : system -> system -> Prop :=
  | step_thread k c ts t c' t' : ts !! k = Some t -> thread_step c t c' t' -> step (c, ts) (c', <[k := t']> ts).
Notation steps := (rtc step).

(** [NewClient]: [refreshClient] on a client nobody else has. *)
Definition refreshClient (c : Client) : Client :=
  let '(i, c) := new_conn c in
  set_writer false (set_cli i (close_old (set_writer true c))).
Definition NewClient : Client := refreshClient (mkClient [] None 0 false).

(** What a goroutine is about to do after [callResult] returned or [Close] did. *)
Definition finished (t : thread) : bool := match t with CallDone _ | CloseDone => true | _ => false end.

(** ** The invariant *)

Definition holds_read (t : thread) : bool :=
  match t with CallLocked | Calling _ | CallReturned _ | CloseLocked | CloseReturned => true | _ => false end.
Definition holds_write (t : thread) : bool :=
  match t with RefreshLocked _ | RefreshClosed _ | RefreshInstalled => true | _ => false end.
(** The connection a refresh has made and not yet installed. *)
Definition fresh (t : thread) : option nat :=
  match t with RefreshMade i | RefreshLocked i | RefreshClosed i => Some i | _ => None end.
(** A goroutine that explains why the current connection is closed. *)
Definition closes (t : thread) : bool :=
  match t with CloseReturned | CloseDone | RefreshClosed _ => true | _ => false end.
Definition closer (t : thread) : bool :=
  match t with CloseStart | CloseLocked | CloseReturned | CloseDone => true | _ => false end.

(** Steps left to a goroutine, at most. *)
Definition work (t : thread) : nat :=
  match t with
  | CallStart => 9 | CallLocked => 8 | Calling _ => 7 | CallReturned _ => 6 | RefreshStart => 5 | RefreshMade _ => 4
  | RefreshLocked _ => 3 | RefreshClosed _ => 2 | RefreshInstalled => 1 | CallDone _ => 0
  | CloseStart => 3 | CloseLocked => 2 | CloseReturned => 1 | CloseDone => 0 | Panicked => 0
  end.

Record client_inv (c : Client) (ts : list thread) : Prop := {
  ci_readers : readers c = countb holds_read ts;
  ci_writer : countb holds_write ts = Z.b2z (writer c);
  ci_excl : writer c = true -> readers c = 0;
  ci_cli : exists i, cli c = Some i /\ is_Some (conns c !! i);
  ci_calling i : Calling i ∈ ts -> cli c = Some i;
  ci_fresh i : i ∈ omap fresh ts -> conns c !! i = Some false /\ cli c <> Some i;
  ci_distinct : NoDup (omap fresh ts);
  ci_open i : conns c !! i = Some false -> cli c = Some i \/ i ∈ omap fresh ts;
  ci_closed i : cli c = Some i -> conns c !! i = Some true -> 1 <= countb closes ts;
  ci_closing i j : RefreshClosed j ∈ ts -> cli c = Some i -> conns c !! i = Some true;
  ci_alive : Panicked ∉ ts;
}.

(** A step of the mutex, or into and out of a call: connections and field stay. *)
Lemma locking_inv c ts k t c' t' : client_inv c ts -> ts !! k = Some t ->
  conns c' = conns c -> cli c' = cli c -> fresh t' = fresh t -> (closes t = true -> closes t' = true) ->
  (forall i, t' = Calling i -> cli c = Some i) -> (forall j, t' <> RefreshClosed j) -> t' <> Panicked ->
  readers c' = readers c - Z.b2z (holds_read t) + Z.b2z (holds_read t') ->
  Z.b2z (writer c') = Z.b2z (writer c) - Z.b2z (holds_write t) + Z.b2z (holds_write t') ->
  (writer c' = true -> readers c' = 0) ->
  client_inv c' (<[k := t']> ts).
Proof.
  intros [H1 H2 H3 H4 H5 H6 H7 H8 H9 H10 H11] Hk Ec El Ef Hcl Hcall Hrc Hp Hr Hw Hex.
  pose proof (omap_insert_perm fresh ts k t t' Hk) as HP. rewrite Ef in HP. apply (inj (app _)) in HP.
  constructor; rewrite ?Ec, ?El; try done.
  - by rewrite (countb_insert _ _ _ _ _ Hk), <- H1.
  - by rewrite (countb_insert _ _ _ _ _ Hk), H2.
  - intros i [E|Hi]%elem_of_insert_or; [by apply Hcall|by apply H5].
  - intros i. rewrite HP. apply H6.
  - by rewrite HP.
  - intros i. rewrite HP. apply H8.
  - intros i Hi Ho. specialize (H9 i Hi Ho). rewrite (countb_insert _ _ _ _ _ Hk).
    destruct (closes t); [rewrite Hcl by done; lia|]. destruct (closes t'); simpl; lia.
  - intros i j [E|Hj]%elem_of_insert_or; [by destruct (Hrc j)|by eapply H10].
  - intros [E|Hi]%elem_of_insert_or; [by apply Hp|by apply H11].
Qed.

(** Who holds the mutex excludes the others. *)
Lemma writer_excludes c ts k t : client_inv c ts -> ts !! k = Some t -> holds_write t = true ->
  writer c = true /\ readers c = 0 /\ (forall i, Calling i ∉ ts) /\
  forall j x, ts !! j = Some x -> holds_write x = true -> j = k.
Proof.
  intros [H1 H2 H3 _ _ _ _ _ _ _ _] Hk Ht. pose proof (countb_lookup_pos _ _ _ _ Hk Ht) as Hc.
  assert (writer c = true) as Hw by (destruct (writer c); [done|simpl in H2; lia]). specialize (H3 Hw). split_and!; try done.
  - intros i [j Hj]%list_elem_of_lookup. pose proof (countb_lookup_pos holds_read _ _ _ Hj eq_refl). lia.
  - intros j x Hj Hx. destruct (decide (j = k)) as [-> |Hne]; [done|].
    pose proof (countb_insert holds_write ts k t CallStart Hk) as Hi.
    assert (<[k := CallStart]> ts !! j = Some x) as Hj' by (by rewrite list_lookup_insert_ne).
    pose proof (countb_lookup_pos _ _ _ _ Hj' Hx). rewrite Ht in Hi. rewrite Hw in H2. simpl in *. lia.
Qed.

(** A new connection, kept by its maker. *)
Lemma make_inv c ts k : client_inv c ts -> ts !! k = Some RefreshStart ->
  client_inv (new_conn c).2 (<[k := RefreshMade (new_conn c).1]> ts).
Proof.
  intros [H1 H2 H3 (i0 & H4 & H4') H5 H6 H7 H8 H9 H10 H11] Hk. unfold new_conn. cbn [fst snd].
  pose proof (omap_insert_perm fresh ts k _ (RefreshMade (length (conns c))) Hk) as HP. simpl in HP.
  assert (i0 < length (conns c))%nat as Hi0 by (by apply lookup_lt_is_Some).
  assert (forall i b, conns c !! i = Some b -> (conns c ++ [false]) !! i = Some b) as Hkeep by (intros; by apply lookup_app_l_Some).
  constructor; cbn [set_conns conns cli readers writer].
  - rewrite (countb_insert _ _ _ _ _ Hk). simpl. lia.
  - rewrite (countb_insert _ _ _ _ _ Hk). simpl. lia.
  - done.
  - exists i0. split; [done|]. destruct H4' as [b H4']. eexists. by apply Hkeep.
  - intros i [E|Hi]%elem_of_insert_or; [done|by apply H5].
  - intros i. rewrite HP. intros [-> |Hi]%elem_of_cons.
    + split; [rewrite lookup_app_r, Nat.sub_diag by lia; done|]. rewrite H4. intros [= ->]. lia.
    + destruct (H6 i Hi) as [? ?]. split; [by apply Hkeep|done].
  - rewrite HP. constructor; [|done]. intros [Hi%lookup_lt_Some _]%H6. lia.
  - intros i Hi. rewrite HP. apply lookup_app_Some in Hi as [Hi|[Hge Hi]].
    + destruct (H8 i Hi) as [|]; [by left|right; by right].
    + right. apply lookup_lt_Some in Hi. simpl in Hi. assert (i = length (conns c)) as -> by lia. by left.
  - intros i Hi Ho. rewrite (countb_insert _ _ _ _ _ Hk). simpl. rewrite Z.sub_0_r, Z.add_0_r. apply (H9 i Hi).
    rewrite lookup_app_l in Ho; [done|]. congruence.
  - intros i j [E|Hj]%elem_of_insert_or Hi; [done|]. apply Hkeep. by eapply H10.
  - intros [E|Hi]%elem_of_insert_or; done.
Qed.

(** Closing the current connection, by [Close] or by a refresh about to replace it. *)
Lemma closing_inv c ts k t t' : client_inv c ts -> ts !! k = Some t ->
  fresh t' = fresh t -> closes t' = true -> holds_read t' = holds_read t -> holds_write t' = holds_write t ->
  (forall i, t' <> Calling i) -> t' <> Panicked -> client_inv (close_old c) (<[k := t']> ts).
Proof.
  intros [H1 H2 H3 (i0 & H4 & H4') H5 H6 H7 H8 H9 H10 H11] Hk Ef Hcl Hr Hw Hcall Hp.
  pose proof (omap_insert_perm fresh ts k t t' Hk) as HP. rewrite Ef in HP. apply (inj (app _)) in HP.
  unfold close_old, close_conn. rewrite H4.
  assert (<[i0 := true]> (conns c) !! i0 = Some true) as Hi0 by (apply list_lookup_insert_eq; by apply lookup_lt_is_Some).
  constructor; cbn [set_conns conns cli readers writer].
  - rewrite (countb_insert _ _ _ _ _ Hk), Hr. lia.
  - rewrite (countb_insert _ _ _ _ _ Hk), Hw. lia.
  - done.
  - exists i0. split; [done|by eexists].
  - intros i [E|Hi]%elem_of_insert_or; [by destruct (Hcall i)|by apply H5].
  - intros i. rewrite HP. intros Hi. destruct (H6 i Hi) as [? Hne]. split; [|done].
    rewrite list_lookup_insert_ne; [done|]. congruence.
  - by rewrite HP.
  - intros i. rewrite HP. destruct (decide (i = i0)) as [-> |Hne]; [by left|].
    rewrite list_lookup_insert_ne by done. apply H8.
  - intros i _ _. rewrite (countb_insert _ _ _ _ _ Hk), Hcl. pose proof (countb_range closes ts).
    destruct (closes t) eqn:Et; [|simpl; lia]. pose proof (countb_lookup_pos _ _ _ _ Hk Et). simpl. lia.
  - intros i j _ Hi. rewrite H4 in Hi. by injection Hi as <-.
  - intros [E|Hi]%elem_of_insert_or; [by apply Hp|done].
Qed.

Lemma install_inv c ts k i : client_inv c ts -> ts !! k = Some (RefreshClosed i) ->
  client_inv (set_cli i c) (<[k := RefreshInstalled]> ts).
Proof.
  intros Hinv Hk. destruct (writer_excludes c ts k _ Hinv Hk eq_refl) as (Hw & Hr & Hcall & Hother).
  destruct Hinv as [H1 H2 H3 (i0 & H4 & H4') H5 H6 H7 H8 H9 H10 H11].
  pose proof (omap_insert_perm fresh ts k _ RefreshInstalled Hk) as HP. simpl in HP.
  assert (i ∈ omap fresh ts) as Hin by (rewrite <- HP; by left). destruct (H6 i Hin) as [Hio Hic].
  rewrite <- HP in H7. apply NoDup_cons in H7 as [Hni Hnd].
  pose proof (H10 i0 i (list_elem_of_lookup_2 _ _ _ Hk) H4) as Hold.
  constructor; cbn [set_cli conns cli readers writer].
  - rewrite (countb_insert _ _ _ _ _ Hk). simpl. lia.
  - rewrite (countb_insert _ _ _ _ _ Hk). simpl. lia.
  - done.
  - exists i. split; [done|by eexists].
  - intros j [E|Hj]%elem_of_insert_or; [done|by destruct (Hcall j)].
  - intros j Hj. split; [apply H6; rewrite <- HP; by right|]. by intros [= ->].
  - done.
  - intros j Ho. destruct (H8 j Ho) as [Hj|Hj]; [rewrite H4 in Hj; injection Hj as ->; congruence|].
    rewrite <- HP in Hj. apply elem_of_cons in Hj as [-> |Hj]; [by left|by right].
  - intros j [= <-] Hj. congruence.
  - intros j j' [n Hn]%list_elem_of_lookup _. exfalso. apply list_lookup_insert_Some in Hn as [(_ & [=] & _)|[Hne Hn]].
    by specialize (Hother n _ Hn eq_refl).
  - intros [E|Hi]%elem_of_insert_or; done.
Qed.

Lemma step_inv s s' : step s s' -> client_inv s.1 s.2 -> client_inv s'.1 s'.2.
Proof.
  intros [k c ts t c' t' Hk Ht] Hinv. cbn [fst snd] in *. pose proof Hinv as [H1 H2 H3 (i0 & H4 & _) _ _ _ _ _ _ _].
  assert (holds_read t = true -> writer c = false) as Hread.
  { intros Hr. pose proof (countb_lookup_pos holds_read _ _ _ Hk Hr). destruct (writer c); [by specialize (H3 eq_refl); lia|done]. }
  pose proof (fun H => proj1 (writer_excludes c ts k _ Hinv Hk H)) as Hwrite.
  destruct Ht as [Hw|i Hi|Hi|i failed|failed| |i Hw Hr|i|i| |Hw|i Hi|Hi| ]; try congruence;
    try (by apply make_inv); try (by apply install_inv);
    try (replace (close_conn i c) with (close_old c) by (unfold close_old; by rewrite Hi));
    try (eapply closing_inv; [exact Hinv|exact Hk|done..]);
    try destruct failed; eapply locking_inv; try exact Hinv; try exact Hk; cbn;
    try (rewrite Hread by done); try (rewrite Hwrite by done); try rewrite Hw; try done; try lia; congruence.
Qed.

(** ** What every interleaving keeps *)

Lemma NewClient_inv n m : client_inv NewClient (replicate n CallStart ++ replicate m CloseStart).
Proof.
  assert (forall p : thread -> bool, p CallStart = false -> p CloseStart = false ->
    countb p (replicate n CallStart ++ replicate m CloseStart) = 0) as Hcount.
  { intros p H1 H2. apply countb_zero, Forall_app. split; by apply Forall_replicate. }
  assert (omap fresh (replicate n CallStart ++ replicate m CloseStart) = []) as Hf.
  { rewrite omap_app. assert (forall t k, fresh t = None -> omap fresh (replicate k t) = []) as E; [|by rewrite (E CallStart), (E CloseStart)].
    intros t k E. induction k as [|k IH]; simpl; [done|]. by rewrite E. }
  assert (forall t, t ∈ replicate n CallStart ++ replicate m CloseStart -> t = CallStart \/ t = CloseStart) as Ht.
  { intros t [Hi|Hi]%elem_of_app; apply elem_of_replicate in Hi as [-> _]; auto. }
  constructor; rewrite ?Hf, ?Hcount by done; try done.
  - exists 0%nat. split; [done|by eexists].
  - by intros i [|]%Ht.
  - by intros i Hi%not_elem_of_nil.
  - constructor.
  - intros [|i] Hi; [by left|by destruct i].
  - by intros i [= <-].
  - by intros i j [|]%Ht.
  - by intros [|]%Ht.
Qed.

Lemma client_reachable n m s : steps (NewClient, replicate n CallStart ++ replicate m CloseStart) s -> client_inv s.1 s.2.
Proof. intros Hs. apply (rtc_invariant step (fun s => client_inv s.1 s.2) step_inv _ _ Hs), NewClient_inv. Qed.

(** No goroutine becomes a closer, and every step is work done. *)
Lemma thread_step_closer c t c' t' : thread_step c t c' t' -> closer t' = true -> closer t = true.
Proof. by destruct 1 as [| | | |[]| | | | | | | | |]. Qed.
Lemma step_calls s s' : step s s' -> Forall (fun t => closer t = false) s.2 -> Forall (fun t => closer t = false) s'.2.
Proof.
  intros [k c ts t c' t' Hk Ht] Hall. cbn in *. apply Forall_insert; [done|]. apply (Forall_lookup_1 _ _ _ _ Hall) in Hk.
  destruct (closer t') eqn:E; [|done]. apply (thread_step_closer _ _ _ _ Ht) in E. congruence.
Qed.
Lemma step_work s s' : step s s' -> (sum_list_with work s'.2 < sum_list_with work s.2)%nat.
Proof.
  intros [k c ts t c' t' Hk Ht]. cbn. pose proof (sum_insert work ts k t t' Hk).
  assert (work t' < work t)%nat by (destruct Ht as [| | | |[]| | | | | | | | |]; simpl; lia). lia.
Qed.

(** Somebody can always go on: the writer, else a reader, else anyone. *)
Lemma client_progress c ts : client_inv c ts -> Forall (fun t => finished t = true) ts \/ exists s, step (c, ts) s.
Proof.
  intros [H1 H2 H3 (i0 & H4 & _) _ _ _ _ _ _ H11].
  destruct (countb_find holds_write ts) as [Hw|(k & t & Hk & Ht)].
  2: { right. destruct t; try done; eexists; (eapply step_thread; [exact Hk|]);
       [apply refresh_close|apply refresh_install|apply refresh_Unlock]. }
  destruct (countb_find holds_read ts) as [Hr|(k & t & Hk & Ht)].
  2: { right. destruct t; try done; eexists; (eapply step_thread; [exact Hk|]);
       [by eapply call_begin|apply (call_end _ _ false)|apply call_RUnlock|by eapply close_conn_step|apply close_RUnlock]. }
  assert (writer c = false) as Hwr by (destruct (writer c); [simpl in H2; lia|done]).
  destruct (countb_find (fun t => negb (finished t)) ts) as [Hf|(k & t & Hk & Ht)].
  - left. apply countb_zero in Hf. eapply Forall_impl; [exact Hf|]. intros t Ht. by apply negb_false_iff in Ht.
  - right. pose proof (countb_lookup_pos holds_read _ _ _ Hk) as Hr'. pose proof (countb_lookup_pos holds_write _ _ _ Hk) as Hw'.
    destruct t; try done; try (specialize (Hr' eq_refl); lia); try (specialize (Hw' eq_refl); lia);
      try (by apply list_elem_of_lookup_2 in Hk); eexists; (eapply step_thread; [exact Hk|]);
      [by apply call_RLock|apply refresh_make|apply refresh_Lock; [done|lia]|by apply close_RLock].
Qed.

(** A call runs on the connection the client holds; if that one is closed, a [Close]
    has done so. *)
Lemma calling_connection c ts i : client_inv c ts -> Calling i ∈ ts ->
  cli c = Some i /\ (conns c !! i = Some false \/ CloseReturned ∈ ts \/ CloseDone ∈ ts).
Proof.
  intros Hinv Hi. pose proof Hinv as [_ _ _ (i0 & H4 & [b Hb]) H5 _ _ _ H9 _ _].
  pose proof (H5 i Hi) as E. split; [done|]. rewrite E in H4. injection H4 as <-. destruct b; [right|by left].
  specialize (H9 i E Hb). destruct (countb_find closes ts) as [Hz|(k & t & Hk & Hcl)]; [lia|].
  pose proof (list_elem_of_lookup_2 _ _ _ Hk) as Ht. destruct t; try done; [|by left|by right].
  destruct (writer_excludes c ts k _ Hinv Hk eq_refl) as (_ & _ & Hno & _). by destruct (Hno i).
Qed.

(** C13: Whatever the interleaving of [n] calls and [m] calls of [Close] on a new
    client: no goroutine meets a nil connection; a call runs on the connection the
    client holds, for as long as it runs; that connection is open, unless some
    [Close] has closed it (which can happen while the call runs: both only take the
    read lock), so with no [Close] it is open; some
    goroutine can always go on until all are done, and no execution is longer than
    [9n + 3m] steps; and when all are done every connection that was replaced has
    been closed. *)
Theorem client_connections n m c ts :
  let start := (NewClient, replicate n CallStart ++ replicate m CloseStart) in
  steps start (c, ts) ->
  Panicked ∉ ts /\
  (forall i, Calling i ∈ ts -> cli c = Some i /\
    (conns c !! i = Some false \/ CloseReturned ∈ ts \/ CloseDone ∈ ts) /\
    (m = 0%nat -> conns c !! i = Some false)) /\
  (Forall (fun t => finished t = true) ts \/ exists s, step (c, ts) s) /\
  (forall k s, nsteps step k start s -> (k <= 9 * n + 3 * m)%nat) /\
  (Forall (fun t => finished t = true) ts ->
    writer c = false /\ readers c = 0 /\ forall i, conns c !! i = Some false -> cli c = Some i).
Proof.
  intros start Hs. pose proof (client_reachable n m _ Hs) as Hinv. cbn in Hinv.
  pose proof Hinv as [H1 H2 H3 (i0 & H4 & [b Hb]) H5 H6 H7 H8 H9 H10 H11].
  split; [done|]. split; [|split; [by apply client_progress|split]].
  - intros i Hi. destruct (calling_connection c ts i Hinv Hi) as [Hcli Hopen]. split_and!; [done|done|]. intros ->.
    assert (Forall (fun t => closer t = false) ts) as Hc.
    { apply (rtc_invariant step (fun s => Forall (fun t => closer t = false) s.2) step_calls _ _ Hs).
      cbn. rewrite app_nil_r. by apply Forall_replicate. }
    rewrite Forall_forall in Hc. destruct Hopen as [|[Ht|Ht]]; [done|by specialize (Hc _ Ht)..].
  - intros k s Hk. pose proof (nsteps_bounded step (fun s => sum_list_with work s.2) step_work k start s Hk) as Hb'.
    cbn in Hb'. rewrite sum_list_with_app in Hb'.
    assert (forall t j, sum_list_with work (replicate j t) = (work t * j)%nat) as E.
    { intros t j. induction j as [|j IH]; simpl; [lia|]. rewrite IH. lia. }
    rewrite !E in Hb'. simpl in Hb'. lia.
  - intros Hall. assert (forall p : thread -> bool, (forall t, finished t = true -> p t = false) -> countb p ts = 0) as Hz.
    { intros p Hp. apply countb_zero. eapply Forall_impl; [exact Hall|]. auto. }
    rewrite Hz in H1, H2 by (by intros []). split_and!; [by destruct (writer c)|done|].
    intros i [|Hi]%H8; [done|]. apply list_elem_of_omap in Hi as (t & Ht & Hf). rewrite Forall_forall in Hall.
    specialize (Hall t Ht). by destruct t.
Qed.

(** [refreshClient] by a goroutine that has the client to itself is the function
    that [NewClient] calls. *)
Lemma refresh_alone c : writer c = false -> readers c = 0 ->
  steps (c, [RefreshStart]) (refreshClient c, [CallDone true]).
Proof.
  intros Hw Hr.
  eapply rtc_l; [apply (step_thread 0 _ _ RefreshStart); [done|apply refresh_make]|]. cbn.
  eapply rtc_l; [eapply (step_thread 0); [done|by apply refresh_Lock]|]. cbn.
  eapply rtc_l; [eapply (step_thread 0); [done|apply refresh_close]|]. cbn.
  eapply rtc_l; [eapply (step_thread 0); [done|apply refresh_install]|]. cbn.
  eapply rtc_l; [eapply (step_thread 0); [done|apply refresh_Unlock]|]. cbn.
  apply rtc_refl.
Qed.

(** [Close] does not end a client: a call made after it fails, makes a new
    connection and leaves it open. *)
Lemma call_after_Close_reopens : exists c, steps (NewClient, [CallStart; CloseStart]) (c, [CallDone true; CloseDone]) /\
  cli c = Some 1%nat /\ conns c = [true; false].
Proof.
  eexists. split.
  - do 3 (eapply rtc_l; [eapply (step_thread 1); [done|by econstructor]|]; cbn).
    eapply rtc_l; [eapply (step_thread 0); [done|by econstructor]|]. cbn.
    eapply rtc_l; [eapply (step_thread 0); [done|by eapply call_begin]|]. cbn.
    eapply rtc_l; [eapply (step_thread 0); [done|apply (call_end _ _ true)]|]. cbn.
    do 6 (eapply rtc_l; [eapply (step_thread 0); [done|by econstructor]|]; cbn).
    apply rtc_refl.
  - split; reflexivity.
Qed.

(** Two calls run on the first connection when one of them fails. *)
Definition sample_threads : list thread := [Calling 0; RefreshMade 1].
Lemma client_connections_witness : exists c,
  steps (NewClient, [CallStart; CallStart]) (c, sample_threads) /\ cli c = Some 0%nat /\ conns c = [false; false].
Proof.
  eexists. match goal with |- ?A /\ ?B => assert A as Hs end.
  - eapply rtc_l; [eapply (step_thread 0); [done|by econstructor]|]. cbn.
    eapply rtc_l; [eapply (step_thread 1); [done|by econstructor]|]. cbn.
    eapply rtc_l; [eapply (step_thread 0); [done|by eapply call_begin]|]. cbn.
    eapply rtc_l; [eapply (step_thread 1); [done|by eapply call_begin]|]. cbn.
    eapply rtc_l; [eapply (step_thread 1); [done|apply (call_end _ _ true)]|]. cbn.
    eapply rtc_l; [eapply (step_thread 1); [done|apply (call_RUnlock _ true)]|]. cbn.
    eapply rtc_l; [eapply (step_thread 1); [done|apply refresh_make]|]. cbn. apply rtc_refl.
  - split; [exact Hs|]. destruct (client_connections 2 0 _ _ Hs) as (_ & Hcall & _).
    destruct (Hcall 0%nat) as (Hcli & _ & Hopen); [by left|]. split; [exact Hcli|].
    specialize (Hopen eq_refl). reflexivity.
Defined.

(** ** The methods *)

(** [callResult]: the name of a method, its parameters if it has any, and the
    result decoded from the answer. *)
Class Caller := callResult : forall {P R : Type}, string -> option P -> go R.

Section Methods.
Context {C : Caller} `{V : ScVals}.

Definition GetEvents (request : GetEventsRequest) : go GetEventsResponse := callResult "getEvents" (Some request).
Definition GetFeeStats : go GetFeeStatsResponse := callResult "getFeeStats" (@None unit).
Definition GetHealth : go GetHealthResponse := callResult "getHealth" (@None unit).
Definition GetLatestLedger : go GetLatestLedgerResponse := callResult "getLatestLedger" (@None unit).
Definition GetLedgers (request : GetLedgersRequest) : go GetLedgersResponse := callResult "getLedgers" (Some request).
(** [GetNetworkRequest] has no fields. *)
Definition GetNetwork : go GetNetworkResponse := callResult "getNetwork" (Some tt).
Definition GetTransaction (request : GetTransactionRequest) : go GetTransactionResponse := callResult "getTransaction" (Some request).
Definition GetTransactions (request : GetTransactionsRequest) : go GetTransactionsResponse :=
  callResult "getTransactions" (Some request).
Definition GetVersionInfo : go GetVersionInfoResponse := callResult "getVersionInfo" (@None unit).
Definition SendTransaction (request : SendTransactionRequest) : go SendTransactionResponse :=
  callResult "sendTransaction" (Some request).
Definition SimulateTransaction (request : SimulateTransactionRequest) : go SimulateTransactionResponse :=
  callResult "simulateTransaction" (Some request).
Definition GetLedgerEntries (request : GetLedgerEntriesRequest) : go GetLedgerEntriesResponse :=
  callResult "getLedgerEntries" (Some request).
End Methods.
